(** * Straai connector subsystem

    A shallow embedding of the connector/integration core of Straai
    (server/src/connectors, server/src/lib/schedulerLock.ts and the
    integrations routes): the token vault, the advisory-lock helper, the
    OAuth callback of the connector manager, the connectors' sync routines
    and the status route, with the properties the specification states
    about them; and around these the manager's OAuth initiation and sync
    path, the cron callbacks, the other integration routes and the revenue
    attribution, with properties read off the code.

    Conventions.  A JavaScript string is the list of its UTF-16 code
    units; a Buffer is a list of bytes.  A call that may raise returns a
    [Result]; code that reads or writes the database or talks to a
    provider is a function of an explicit world and returns the world it
    leaves behind.  Loops that the source bounds only by the provider's
    answers take a fuel argument and answer [OutOfFuel] when it is used
    up. *)

From Stdlib Require Import ZArith List String Ascii Bool Lia.
From stdpp Require Import base option list gmap strings.
Import ListNotations.

Set Warnings "-register-all".
Local Open Scope Z_scope.

(** ** JavaScript values shared by the modules *)

(** [new Error(message)]; an axios rejection also carries the status of
    the response it rejects with. *)
Record JsError := mkError {
  message : string;
  response_status : option Z
}.

Definition Error (msg : string) : JsError := mkError msg None.

(** The completion of a call: a value, or a thrown error. *)
Inductive Result (A : Type) : Type :=
| Ok (a : A)
| Throw (e : JsError).
Arguments Ok {A} a.
Arguments Throw {A} e.

Definition try_catch {A} (body : Result A) (handler : JsError -> Result A) : Result A :=
  match body with
  | Ok a => Ok a
  | Throw e => handler e
  end.

Definition bindR {A B} (m : Result A) (k : A -> Result B) : Result B :=
  match m with
  | Ok a => k a
  | Throw e => Throw e
  end.

Notation "'do' x <- m ; k" := (bindR m (fun x => k))
  (at level 10, x name, m at level 100, k at level 200).

(** ** Async functions over a world

    An async function that touches the database or a provider is a
    function of the world.  It returns a value, throws, or (for code with a
    loop of its own) is still running when the fuel is used up.  What it
    did to the world before throwing stays done. *)
Inductive Outcome (W A : Type) : Type :=
| Returned (a : A) (w : W)
| Thrown (e : JsError) (w : W)
| OutOfFuel.
Arguments Returned {W A} a w.
Arguments Thrown {W A} e w.
Arguments OutOfFuel {W A}.

Definition Async (W A : Type) : Type := W -> Outcome W A.

Definition ret {W A} (a : A) : Async W A := fun w => Returned a w.
Definition throw {W A} (e : JsError) : Async W A := fun w => Thrown e w.

Definition bind {W A B} (m : Async W A) (k : A -> Async W B) : Async W B :=
  fun w =>
    match m w with
    | Returned a w' => k a w'
    | Thrown e w' => Thrown e w'
    | OutOfFuel => OutOfFuel
    end.

(** [try { body } catch (e) { handler }] *)
Definition catch {W A} (body : Async W A) (handler : JsError -> Async W A) : Async W A :=
  fun w =>
    match body w with
    | Returned a w' => Returned a w'
    | Thrown e w' => handler e w'
    | OutOfFuel => OutOfFuel
    end.

Definition lift {W A} (r : Result A) : Async W A :=
  match r with
  | Ok a => ret a
  | Throw e => throw e
  end.

Definition gets {W A} (f : W -> A) : Async W A := fun w => Returned (f w) w.
Definition modify {W} (f : W -> W) : Async W unit := fun w => Returned tt (f w).

Notation "'let!' x ':=' m 'in' k" := (bind m (fun x => k))
  (at level 10, x name, m at level 100, k at level 200,
   format "'[v' 'let!'  x  ':='  m  'in' '/' k ']'").
(** [while (cond) { body }] over the loop's variables [s]. *)
Fixpoint while {W S} (fuel : nat) (cond : S -> bool) (body : S -> Async W S) (s : S)
  : Async W S :=
  match fuel with
  | O => fun _ => OutOfFuel
  | S fuel' =>
    if cond s then let! s' := body s in while fuel' cond body s'
    else ret s
  end.

Definition is_Ok {A} (r : Result A) : Prop := exists a, r = Ok a.

(** JavaScript truthiness of a string and of an optional string. *)
Definition truthy (s : string) : bool := negb (String.eqb s "").
Definition truthy_opt (o : option string) : bool :=
  match o with
  | Some s => truthy s
  | None => false
  end.

(** * The Prisma models the connectors use *)
Module Integration.
Record t := mk {
  id : string;
  userId : string;
  provider : string;
  accountId : string;
  accessToken : string;
  refreshToken : option string;
  expiresAt : option Z;
  scopes : list string;
  metadata : gmap string string;
  status : string;
  lastSyncAt : option Z;
  syncFrequency : Z;
  webhookUrl : option string;
  createdAt : Z;
  updatedAt : Z;
  deletedAt : option Z
}.
End Integration.

Module OAuthState.
Record t := mk {
  state : string;
  data : string;
  expiresAt : Z
}.
End OAuthState.

Module SyncLog.
Record t := mk {
  integrationId : string;
  dataType : string;
  status : string;
  recordsCount : Z;
  errorMessage : option string;
  metadata : option string;
  startedAt : Z;
  completedAt : Z
}.
End SyncLog.

Module User.
Record t := mk {
  id : string;
  updatedAt : Z
}.
End User.

Module Prisma.

(** The tables, and the wall clock that [new Date()] reads. *)
Record Db := mkDb {
  integration : list Integration.t;
  oAuthState : gmap string OAuthState.t;
  syncLog : list SyncLog.t;
  user : list User.t;
  now : Z;
  minted : nat
}.

(** The compound unique key [userId_provider_accountId]. *)
Definition key_of (i : Integration.t) : string * string * string :=
  (Integration.userId i, Integration.provider i, Integration.accountId i).

Definition has_key (k : string * string * string) (i : Integration.t) : bool :=
  bool_decide (key_of i = k).

Definition has_id (id : string) (i : Integration.t) : bool :=
  String.eqb (Integration.id i) id.

(** [prisma.integration.findUnique({ where: { userId_provider_accountId } })] *)
Definition integration_findUnique (k : string * string * string) (db : Db)
  : option Integration.t :=
  List.find (has_key k) (integration db).

(** Rewrites the rows that satisfy [p]. *)
Definition update_where (p : Integration.t -> bool) (f : Integration.t -> Integration.t)
    (rows : list Integration.t) : list Integration.t :=
  map (fun i => if p i then f i else i) rows.

Definition set_integration (rows : list Integration.t) (db : Db) : Db :=
  mkDb rows (oAuthState db) (syncLog db) (user db) (now db) (minted db).

Definition set_oAuthState (m : gmap string OAuthState.t) (db : Db) : Db :=
  mkDb (integration db) m (syncLog db) (user db) (now db) (minted db).

Definition set_syncLog (l : list SyncLog.t) (db : Db) : Db :=
  mkDb (integration db) (oAuthState db) l (user db) (now db) (minted db).

Definition set_user (l : list User.t) (db : Db) : Db :=
  mkDb (integration db) (oAuthState db) (syncLog db) l (now db) (minted db).

Definition set_minted (n : nat) (db : Db) : Db :=
  mkDb (integration db) (oAuthState db) (syncLog db) (user db) (now db) n.

(** How many rows of the table carry the key and are not soft-deleted. *)
Definition live_rows (k : string * string * string) (db : Db) : nat :=
  length (List.filter
            (fun i => has_key k i && bool_decide (Integration.deletedAt i = None))
            (integration db)).

(** The unique index on (userId, provider, accountId). *)
Definition unique_keys (db : Db) : Prop := NoDup (map key_of (integration db)).

End Prisma.

(** * Connector manager (server/src/connectors/ConnectorManager.ts) *)
Module ConnectorManager.
Import Prisma.

(** What [exchangeCodeForTokens] resolves to; [None] is [undefined]. *)
Record TokenData := mkTokenData {
  accessToken : string;
  refreshToken : option string;
  expiresAt : option Z;
  accountId : string;
  metadata : option (gmap string string)
}.

(** The payload of an OAuth State row once parsed. *)
Record StateData := mkStateData {
  userId : string;
  provider : string;
  state_metadata : option (gmap string string);
  codeVerifier : option string
}.

(** The database, and the token exchanges requested so far (provider and
    code, latest first). *)
Record World := mkWorld {
  db : Db;
  exchanges : list (string * string)
}.

Definition on_db (f : Db -> Db) (w : World) : World := mkWorld (f (db w)) (exchanges w).

(** [{ ...a, ...b }] *)
Definition spread (a b : gmap string string) : gmap string string := b ∪ a.
Definition or_empty (o : option (gmap string string)) : gmap string string := default ∅ o.

(** What [createConnector] hands back: one of the two connectors, or, for
    a provider name that is no connector's, a value with none of a
    connector's methods (see [createConnector]). *)
Inductive Connector := ShopifyConnector | KlaviyoConnector | NotAConnector.

(** [this.connectorFactories] is an object literal with the keys [shopify]
    and [klaviyo], and [this.connectorFactories[provider]] also finds what
    the literal inherits from [Object.prototype]. *)
Definition Object_prototype : list string :=
  ["constructor"; "__defineGetter__"; "__defineSetter__"; "hasOwnProperty";
   "__lookupGetter__"; "__lookupSetter__"; "isPrototypeOf"; "propertyIsEnumerable";
   "toString"; "valueOf"; "__proto__"; "toLocaleString"].

Inductive Factory :=
| Registered (c : Connector)
| Inherited (name : string).

Definition connectorFactories (provider : string) : option Factory :=
  if String.eqb provider "shopify" then Some (Registered ShopifyConnector)
  else if String.eqb provider "klaviyo" then Some (Registered KlaviyoConnector)
  else if existsb (String.eqb provider) Object_prototype then Some (Inherited provider)
  else None.

(** An inherited member called as [factory(integration, this.prisma)], with
    no [this]: [constructor] is [Object], which hands the integration
    back, and [toString] answers a string; [__proto__] is no function, and
    the other functions raise a TypeError when they turn their [this] into
    an object.  The wording of these two TypeErrors is the engine's; what
    is proved of them is that they are raised, and where. *)
Definition call_inherited (name : string) : Result Connector :=
  if String.eqb name "constructor" || String.eqb name "toString" then Ok NotAConnector
  else if String.eqb name "__proto__" then Throw (Error "factory is not a function")
  else Throw (Error "Cannot convert undefined or null to object").

(** [createConnector(integration)], by the provider of the integration. *)
Definition createConnector (provider : string) : Result Connector :=
  match connectorFactories provider with
  | None => Throw (Error ("Unsupported provider: " +:+ provider))
  | Some (Registered c) => Ok c
  | Some (Inherited name) => call_inherited name
  end.

(** The scope list of [connector.getOAuthConfig()]; the e-commerce
    connector raises when its metadata carries no shop domain. *)
Definition getOAuthConfig_scopes (c : Connector) (metadata : gmap string string)
  : Result (list string) :=
  match c with
  | ShopifyConnector =>
    if truthy_opt (metadata !! "shopDomain")
    then Ok ["read_orders"; "read_products"; "read_customers"; "read_analytics";
             "read_inventory"; "read_fulfillments"]
    else Throw (Error "Shop domain not found in integration metadata")
  | KlaviyoConnector =>
    Ok ["accounts:read"; "campaigns:read"; "flows:read"; "lists:read"; "metrics:read";
        "profiles:read"; "events:read"; "segments:read"; "templates:read"]
  | NotAConnector => Throw (Error "connector.getOAuthConfig is not a function")
  end.

Section Manager.

(** [JSON.parse] on the data column of an OAuth State row. *)
Variable JSON_parse : string -> Result StateData.
(** What the provider's token endpoint (and the account lookup that
    follows) answers for a connector bound to [metadata], a code and a
    PKCE verifier. *)
Variable token_endpoint :
  Connector -> gmap string string -> string -> option string -> Result TokenData.
(** [this.tokenManager.encrypt] *)
Variable encrypt : string -> Result string.
(** The ids the database mints for new rows. *)
Variable cuid : nat -> string.

Definition validateOAuthState (state : string) : Async World (option StateData) :=
  catch
    (let! oauthState := gets (fun w => oAuthState (db w) !! state) in
     let! today := gets (fun w => now (db w)) in
     match oauthState with
     | None => ret None
     | Some row =>
       if OAuthState.expiresAt row <? today then ret None
       else
         let! parsedStateData := lift (JSON_parse (OAuthState.data row)) in
         ret (Some parsedStateData)
     end)
    (fun _ => ret None).

(** [prisma.oAuthState.delete({ where: { state } }).catch(() => {})] *)
Definition cleanupOAuthState (state : string) : Async World unit :=
  modify (on_db (fun d => set_oAuthState (delete state (oAuthState d)) d)).

(** [connector.exchangeCodeForTokens(code, state, codeVerifier)] *)
Definition exchangeCodeForTokens (c : Connector) (metadata : gmap string string)
    (provider code : string) (codeVerifier : option string) : Async World TokenData :=
  match c with
  | NotAConnector => throw (Error "connector.exchangeCodeForTokens is not a function")
  | _ =>
    let! _ := lift (getOAuthConfig_scopes c metadata) in
    let! _ := modify (fun w => mkWorld (db w) ((provider, code) :: exchanges w)) in
    lift (token_endpoint c metadata code codeVerifier)
  end.

(** The [update] branch of the upsert.  A field given as [undefined]
    ([expiresAt] of a token that does not expire) is left as it is. *)
Definition upsert_update (encryptedAccessToken : string)
    (encryptedRefreshToken : option string) (tokenData : TokenData)
    (merged : gmap string string) (scopes : list string) (today : Z)
    (old : Integration.t) : Integration.t :=
  Integration.mk
    (Integration.id old) (Integration.userId old) (Integration.provider old)
    (Integration.accountId old)
    encryptedAccessToken encryptedRefreshToken
    (match expiresAt tokenData with
     | Some e => Some e
     | None => Integration.expiresAt old
     end)
    scopes merged "connected"
    (Integration.lastSyncAt old) (Integration.syncFrequency old)
    (Integration.webhookUrl old) (Integration.createdAt old) today None.

(** Modelled from the spec: the [create] branch of the upsert needs the
    column defaults of the Integration model, and schema.prisma is not
    among the sources.  The columns the callback does not set take the
    values the manager gives its temporary integration (never synced,
    hourly frequency, no webhook, no soft-delete stamp) and the creation
    time. *)
Definition upsert_create (userId provider : string) (encryptedAccessToken : string)
    (encryptedRefreshToken : option string) (tokenData : TokenData)
    (merged : gmap string string) (scopes : list string) (today : Z)
    (id : string) : Integration.t :=
  Integration.mk id userId provider (accountId tokenData)
    encryptedAccessToken encryptedRefreshToken (expiresAt tokenData)
    scopes merged "connected" None 3600 None today today None.

(** [prisma.integration.upsert({ where: { userId_provider_accountId }, update, create })] *)
Definition integration_upsert (k : string * string * string)
    (update : Integration.t -> Integration.t) (create : string -> Integration.t)
  : Async World Integration.t :=
  fun w =>
    match integration_findUnique k (db w) with
    | Some old =>
      Returned (update old)
        (on_db (fun d => set_integration (update_where (has_key k) update (integration d)) d) w)
    | None =>
      let row := create (cuid (minted (db w))) in
      Returned row
        (on_db (fun d => set_minted (S (minted d))
                           (set_integration (integration d ++ [row]) d)) w)
    end.

(** [prisma.integration.findFirst({ where: { userId, provider, status: 'connected', deletedAt: null } })] *)
Definition findFirst_connected (userId provider : string) (d : Db) : option Integration.t :=
  List.find
    (fun i => String.eqb (Integration.userId i) userId
              && String.eqb (Integration.provider i) provider
              && String.eqb (Integration.status i) "connected"
              && bool_decide (Integration.deletedAt i = None))
    (integration d).

(** [prisma.user.update({ where: { id }, data: { updatedAt: new Date() } })] *)
Definition user_touch (id : string) : Async World unit :=
  fun w =>
    if existsb (fun u => String.eqb (User.id u) id) (user (db w))
    then Returned tt
           (on_db (fun d =>
              set_user (map (fun u => if String.eqb (User.id u) id
                                      then User.mk id (now d) else u) (user d)) d) w)
    else Thrown (Error "Record to update not found.") w.

(** The block after the upsert: when the user now has both an e-commerce
    and an email integration connected, touch the user row; a failure here
    is logged and dropped. *)
Definition enqueueInstantInsights (userId : string) : Async World unit :=
  catch
    (let! shopify := gets (fun w => findFirst_connected userId "shopify" (db w)) in
     let! klaviyo := gets (fun w => findFirst_connected userId "klaviyo" (db w)) in
     match shopify, klaviyo with
     | Some _, Some _ => user_touch userId
     | _, _ => ret tt
     end)
    (fun _ => ret tt).

(** What the upsert stores of a token exchange. *)
Definition encryptTokens (tokenData : TokenData) : Result (string * option string) :=
  do encryptedAccessToken <- encrypt (accessToken tokenData);
  do encryptedRefreshToken <-
    match refreshToken tokenData with
    | Some r => if truthy r then do e <- encrypt r; Ok (Some e) else Ok None
    | None => Ok None
    end;
  Ok (encryptedAccessToken, encryptedRefreshToken).

Definition handleOAuthCallback (provider code state : string)
    (callbackMetadata : gmap string string) : Async World Integration.t :=
  let! oauthState := validateOAuthState state in
  match oauthState with
  | None => throw (Error "Invalid OAuth state")
  | Some oauthState =>
    let bound := spread (or_empty (state_metadata oauthState)) callbackMetadata in
    let! connector := lift (createConnector provider) in
    let! tokenData :=
      exchangeCodeForTokens connector bound provider code (codeVerifier oauthState) in
    if negb (truthy (accountId tokenData)) then
      throw (Error ("Connector " +:+ provider
                    +:+ " failed to provide accountId during token exchange."
                    +:+ " This field is required for database operations."))
    else
      let! encrypted := lift (encryptTokens tokenData) in
      let encryptedAccessToken := fst encrypted in
      let encryptedRefreshToken := snd encrypted in
      let! scopes := lift (getOAuthConfig_scopes connector bound) in
      let! today := gets (fun w => now (db w)) in
      let merged := spread bound (or_empty (metadata tokenData)) in
      let! integration :=
        integration_upsert (userId oauthState, provider, accountId tokenData)
          (upsert_update encryptedAccessToken encryptedRefreshToken tokenData
             merged scopes today)
          (upsert_create (userId oauthState) provider encryptedAccessToken
             encryptedRefreshToken tokenData merged scopes today) in
      let! _ := cleanupOAuthState state in
      let! _ := enqueueInstantInsights (Integration.userId integration) in
      ret integration
  end.

(** [disconnectIntegration(integrationId)]: a soft delete. *)
Definition disconnectIntegration (integrationId : string) : Async World unit :=
  fun w =>
    if existsb (has_id integrationId) (integration (db w))
    then
      Returned tt
        (on_db (fun d =>
           set_integration
             (update_where (has_id integrationId)
                (fun i =>
                   Integration.mk
                     (Integration.id i) (Integration.userId i) (Integration.provider i)
                     (Integration.accountId i) (Integration.accessToken i)
                     (Integration.refreshToken i) (Integration.expiresAt i)
                     (Integration.scopes i) (Integration.metadata i) "disconnected"
                     (Integration.lastSyncAt i) (Integration.syncFrequency i)
                     (Integration.webhookUrl i) (Integration.createdAt i)
                     (Integration.updatedAt i) (Some (now d)))
                (integration d)) d) w)
    else Thrown (Error "Record to update not found.") w.

End Manager.

(** A stand-in environment, to run the manager on concrete inputs: every
    state row parses to the same user and verifier, the provider answers
    every code with tokens named after it for the account "org_12345",
    and the vault prefixes what it encrypts. *)
Definition demo_JSON_parse (data : string) : Result StateData :=
  Ok (mkStateData "user-1" "klaviyo" None (Some "verifier")).
Definition demo_token_endpoint (c : Connector) (metadata : gmap string string)
    (code : string) (codeVerifier : option string) : Result TokenData :=
  Ok (mkTokenData ("access-" +:+ code) (Some ("refresh-" +:+ code)) (Some 7200)
        "org_12345" None).
Definition demo_encrypt (text : string) : Result string := Ok ("enc:" +:+ text).
Definition demo_cuid (n : nat) : string := "int_1".
Definition demo_world : World :=
  mkWorld
    (mkDb []
       (<["s1" := OAuthState.mk "s1" "{}" 2000]>
          (<["s2" := OAuthState.mk "s2" "{}" 2000]> ∅))
       [] [] 1000 0)
    [].

End ConnectorManager.

(** * Starting an OAuth flow (ConnectorManager.initiateOAuth, storeOAuthState) *)
Module ConnectorManagerOAuth.
Import Prisma ConnectorManager.

(** [connector.getOAuthConfig().pkceRequired]: set by the email-marketing
    connector only.  (It is read after [getOAuthConfig()] has answered, so
    never of a value that is no connector.) *)
Definition pkceRequired (c : Connector) : bool :=
  match c with
  | KlaviyoConnector => true
  | _ => false
  end.

(** The ten minutes a state is good for, in milliseconds. *)
Definition state_lifetime : Z := 10 * 60 * 1000.

Section Manager.

(** [JSON.stringify] of the state data with its [createdAt]. *)
Variable JSON_stringify : StateData -> Z -> string.
(** The URL [getAuthorizationUrl] builds from the connector's OAuth
    config, the state and the PKCE verifier. *)
Variable authorization_url :
  Connector -> gmap string string -> string -> option string -> string.

(** [connector.getAuthorizationUrl(state, codeVerifier)]: it reads
    [getOAuthConfig()], which raises for a shop without its domain. *)
Definition getAuthorizationUrl (c : Connector) (metadata : gmap string string)
    (state : string) (codeVerifier : option string) : Result string :=
  do _ <- getOAuthConfig_scopes c metadata;
  Ok (authorization_url c metadata state codeVerifier).

(** [storeOAuthState(state, userId, provider, metadata, codeVerifier)]: an
    upsert on the state value. *)
Definition storeOAuthState (state userId provider : string)
    (metadata : option (gmap string string)) (codeVerifier : option string)
  : Async World unit :=
  let! today := gets (fun w => now (db w)) in
  let stateData := mkStateData userId provider metadata codeVerifier in
  modify (on_db (fun d =>
    set_oAuthState
      (<[state := OAuthState.mk state (JSON_stringify stateData today)
                    (today + state_lifetime)]> (oAuthState d)) d)).

(** [initiateOAuth(provider, userId, metadata)].  [state] is what
    [generateState()] returned and [verifier] what [generateCodeVerifier()]
    would return. *)
Definition initiateOAuth (state verifier : string) (provider userId : string)
    (metadata : option (gmap string string)) : Async World (string * string) :=
  match connectorFactories provider with
  | None => throw (Error ("Provider " +:+ provider +:+ " not supported"))
  | Some _ =>
    let bound := or_empty metadata in
    let! connector := lift (createConnector provider) in
    let! _ := lift (getOAuthConfig_scopes connector bound) in
    let codeVerifier := if pkceRequired connector then Some verifier else None in
    let! authUrl := lift (getAuthorizationUrl connector bound state codeVerifier) in
    let! _ := storeOAuthState state userId provider metadata codeVerifier in
    ret (authUrl, state)
  end.

End Manager.

(** Stand-ins: the state data is written out as its user id, and every
    row is read back as what [demo_JSON_parse] makes of it. *)
Definition demo_JSON_stringify (sd : StateData) (createdAt : Z) : string := userId sd.
Definition demo_authorization_url (c : Connector) (metadata : gmap string string)
    (state : string) (codeVerifier : option string) : string :=
  "https://www.klaviyo.com/oauth/authorize?state=" +:+ state.
Definition demo_empty : World := mkWorld (mkDb [] ∅ [] [] 1000 0) [].

End ConnectorManagerOAuth.

(** * Connector base class (server/src/connectors/BaseConnector.ts) *)
Module BaseConnector.
Import Prisma.

(** A value in the query string of a request or among the variables of a
    GraphQL request.  [VDate t] is [new Date(t).toISOString()];
    [VGreaterThan field t] is the filter [greater-than(field,<that date>)]. *)
Inductive Value :=
| VNum (n : Z)
| VStr (s : string)
| VDate (t : Z)
| VGreaterThan (field : string) (t : Z).

(** An axios request config, or a request of the GraphQL client. *)
Record Request := mkRequest {
  url : string;
  headers : list (string * string);
  document : string;
  params : list (string * Value);
  skipAuthRefresh : bool
}.

(** A record of a page, by what the connectors read of it.  The routines
    that store a record log one field from inside it ([order.name] on the
    node of an edge, [product.title], [campaign.attributes.name],
    [event.attributes.metric.data.attributes.name]), and the account lookup
    asks for [account.attributes].  [Full name] is a record that holds the
    object the field sits in; [Hollow message] is one without it (a null
    node, no [attributes]), on which the read of the field raises the
    TypeError with that message. *)
Inductive Item :=
| Full (name : string)
| Hollow (message : string).

(** The bodies the connectors read, by the fields they read. *)
Inductive Payload :=
| Collection (data : list Item) (next : option string)
| Connection (edges : list Item) (hasNextPage : bool) (endCursor : option string)
| TokenResponse (access_token refresh_token : string) (expires_in : Z)
| Shop (name myshopify_domain : string)
| Nothing.

(** What the provider does with a request: a response with its status, or
    no response at all. *)
Inductive Response :=
| Answer (status : Z) (payload : Payload)
| NoResponse.

Record SyncResult := mkSyncResult {
  dataType : string;
  recordsCount : Z;
  status : string;
  errorMessage : option string
}.

Record RefreshResult := mkRefreshResult {
  accessToken : string;
  refreshToken : option string;
  expiresAt : option Z
}.

(** A connector at work: the database, [this.integration], the token of
    [this.graphqlClient] once built, the [results] array of the [sync()]
    in progress, the requests sent to the provider (latest first), and how
    often [handleTokenRefresh] was entered. *)
Record World := mkWorld {
  db : Db;
  integration : Integration.t;
  graphqlClient : option string;
  results : list SyncResult;
  sent : list Request;
  refreshes : nat
}.

Definition on_db (f : Db -> Db) (w : World) : World :=
  mkWorld (f (db w)) (integration w) (graphqlClient w) (results w) (sent w) (refreshes w).

Definition set_self (i : Integration.t) (w : World) : World :=
  mkWorld (db w) i (graphqlClient w) (results w) (sent w) (refreshes w).

Definition set_graphqlClient (c : option string) (w : World) : World :=
  mkWorld (db w) (integration w) c (results w) (sent w) (refreshes w).

Definition set_results (r : list SyncResult) (w : World) : World :=
  mkWorld (db w) (integration w) (graphqlClient w) r (sent w) (refreshes w).

(** [results.push(r)] *)
Definition push (r : SyncResult) : Async World unit :=
  modify (fun w => set_results (results w ++ [r]) w).

Definition today : Async World Z := gets (fun w => now (db w)).

(** [this.delay(ms)]: time passes. *)
Definition delay (ms : Z) : Async World unit :=
  modify (on_db (fun d =>
    mkDb (Prisma.integration d) (oAuthState d) (syncLog d) (user d) (now d + ms) (minted d))).

(** [m] as a value: what [try { x = await m } catch (e) { ... }] sees. *)
Definition attempt {A} (m : Async World A) : Async World (Result A) :=
  catch (let! a := m in ret (Ok a)) (fun e => ret (Throw e)).

Fixpoint set_header (name value : string) (h : list (string * string))
  : list (string * string) :=
  match h with
  | [] => [(name, value)]
  | (n, v) :: r => if String.eqb n name then (name, value) :: r
                   else (n, v) :: set_header name value r
  end.

Definition with_header (name value : string) (c : Request) : Request :=
  mkRequest (url c) (set_header name value (headers c)) (document c) (params c)
    (skipAuthRefresh c).

(** [prisma.integration.update({ where: { id }, data })]: raises when no
    row has the id. *)
Definition integration_update (id : string) (data : Db -> Integration.t -> Integration.t)
  : Async World unit :=
  fun w =>
    if existsb (has_id id) (Prisma.integration (db w))
    then Returned tt
           (on_db (fun d => set_integration
                              (update_where (has_id id) (data d) (Prisma.integration d)) d) w)
    else Thrown (Error "Record to update not found.") w.

Definition with_status (status : string) (lastSyncAt : option Z) (d : Db)
    (i : Integration.t) : Integration.t :=
  Integration.mk
    (Integration.id i) (Integration.userId i) (Integration.provider i)
    (Integration.accountId i) (Integration.accessToken i) (Integration.refreshToken i)
    (Integration.expiresAt i) (Integration.scopes i) (Integration.metadata i) status
    (match lastSyncAt with
     | Some t => Some t
     | None => Integration.lastSyncAt i
     end)
    (Integration.syncFrequency i) (Integration.webhookUrl i) (Integration.createdAt i)
    (now d) (Integration.deletedAt i).

(** [data: { status }] *)
Definition with_status_only (status : string) (i : Integration.t) : Integration.t :=
  Integration.mk
    (Integration.id i) (Integration.userId i) (Integration.provider i)
    (Integration.accountId i) (Integration.accessToken i) (Integration.refreshToken i)
    (Integration.expiresAt i) (Integration.scopes i) (Integration.metadata i) status
    (Integration.lastSyncAt i) (Integration.syncFrequency i) (Integration.webhookUrl i)
    (Integration.createdAt i) (Integration.updatedAt i) (Integration.deletedAt i).

(** The [data] of the update in [handleTokenRefresh]; a field given as
    [undefined] is left as it is. *)
Definition with_tokens (accessToken : string) (refreshToken : option string)
    (expiresAt : option Z) (d : Db) (i : Integration.t) : Integration.t :=
  Integration.mk
    (Integration.id i) (Integration.userId i) (Integration.provider i)
    (Integration.accountId i) accessToken
    (match refreshToken with
     | Some r => Some r
     | None => Integration.refreshToken i
     end)
    (match expiresAt with
     | Some e => Some e
     | None => Integration.expiresAt i
     end)
    (Integration.scopes i) (Integration.metadata i) "connected"
    (Integration.lastSyncAt i) (Integration.syncFrequency i) (Integration.webhookUrl i)
    (Integration.createdAt i) (now d) (Integration.deletedAt i).

(** The fields [handleTokenRefresh] then rewrites on [this.integration]. *)
Definition with_local_tokens (accessToken : string) (refreshToken : option string)
    (expiresAt : option Z) (i : Integration.t) : Integration.t :=
  Integration.mk
    (Integration.id i) (Integration.userId i) (Integration.provider i)
    (Integration.accountId i) accessToken
    (match refreshToken with
     | Some r => Some r
     | None => Integration.refreshToken i
     end)
    (match expiresAt with
     | Some e => Some e
     | None => Integration.expiresAt i
     end)
    (Integration.scopes i) (Integration.metadata i) (Integration.status i)
    (Integration.lastSyncAt i) (Integration.syncFrequency i) (Integration.webhookUrl i)
    (Integration.createdAt i) (Integration.updatedAt i) (Integration.deletedAt i).

(** [updateIntegrationStatus(status, lastSyncAt?)] *)
Definition updateIntegrationStatus (status : string) (lastSyncAt : option Z)
  : Async World unit :=
  let! self := gets integration in
  integration_update (Integration.id self) (with_status status lastSyncAt).

(** [logSync(syncResult)]: [prisma.syncLog.create].  A SyncLog row belongs
    to an integration (the manager reads them back with
    [include: { syncLogs }]), and the database rejects one whose
    [integrationId] names no row of the Integration table. *)
Definition logSync (syncResult : SyncResult) : Async World unit :=
  fun w =>
    if existsb (has_id (Integration.id (integration w))) (Prisma.integration (db w))
    then
      Returned tt
        (on_db (fun d =>
           set_syncLog
             (syncLog d ++
              [SyncLog.mk (Integration.id (integration w)) (dataType syncResult)
                 (status syncResult) (recordsCount syncResult) (errorMessage syncResult)
                 None (now d) (now d)]) d) w)
    else Thrown (Error "Foreign key constraint failed on the field: integrationId") w.

(** The latest [completedAt] among [logs]. *)
Fixpoint latest_completedAt (logs : list SyncLog.t) : option Z :=
  match logs with
  | [] => None
  | l :: r =>
    match latest_completedAt r with
    | Some t => Some (Z.max (SyncLog.completedAt l) t)
    | None => Some (SyncLog.completedAt l)
    end
  end.

Definition successful (integrationId dataType : string) (l : SyncLog.t) : bool :=
  String.eqb (SyncLog.integrationId l) integrationId
  && String.eqb (SyncLog.dataType l) dataType
  && String.eqb (SyncLog.status l) "success".

(** [getLastSyncTime(dataType)]: [findFirst] over the successful logs of
    this integration and data type, ordered by [completedAt] descending. *)
Definition getLastSyncTime (dataType : string) : Async World (option Z) :=
  gets (fun w =>
    latest_completedAt
      (List.filter (successful (Integration.id (integration w)) dataType) (syncLog (db w)))).

Section Connector.

(** The provider: its answer to the n-th request of the run. *)
Variable api : nat -> Response.
(** [this.tokenManager] *)
Variable encrypt : string -> Result string.
Variable decrypt : string -> Result string.

(** The transport: one request, one answer. *)
Definition send (config : Request) : Async World Response :=
  fun w =>
    Returned (api (length (sent w)))
      (mkWorld (db w) (integration w) (graphqlClient w) (results w) (config :: sent w)
         (refreshes w)).

(** axios resolves on a 2xx status and rejects otherwise. *)
Definition dispatch (config : Request) : Async World Payload :=
  let! response := send config in
  match response with
  | Answer status payload =>
    if (200 <=? status) && (status <? 300) then ret payload
    else throw (mkError "Request failed" (Some status))
  | NoResponse => throw (mkError "Network Error" None)
  end.

(** [handleTokenRefresh()], for the subclass's [refreshAccessToken]. *)
Definition handleTokenRefresh (refreshAccessToken : Async World RefreshResult)
  : Async World string :=
  let! _ := modify (fun w => mkWorld (db w) (integration w) (graphqlClient w) (results w)
                               (sent w) (S (refreshes w))) in
  catch
    (let! refreshResult := refreshAccessToken in
     let! self := gets integration in
     let! encryptedAccess := lift (encrypt (accessToken refreshResult)) in
     let! encryptedRefresh :=
       if truthy_opt (refreshToken refreshResult)
       then let! e := lift (encrypt (default "" (refreshToken refreshResult))) in
            ret (Some e)
       else ret None in
     let! _ := integration_update (Integration.id self)
                 (with_tokens encryptedAccess encryptedRefresh (expiresAt refreshResult)) in
     let! localAccess := lift (encrypt (accessToken refreshResult)) in
     let! localRefresh :=
       if truthy_opt (refreshToken refreshResult)
       then let! e := lift (encrypt (default "" (refreshToken refreshResult))) in
            ret (Some e)
       else ret None in
     let! _ := modify (fun w =>
                 set_self (with_local_tokens localAccess localRefresh
                             (expiresAt refreshResult) (integration w)) w) in
     ret (accessToken refreshResult))
    (fun error =>
       let! self := gets integration in
       let! _ :=
         if negb (String.eqb (Integration.id self) "temp")
         then integration_update (Integration.id self) (fun _ => with_status_only "expired")
         else ret tt in
       throw (Error ("Token refresh failed: " +:+ message error))).

(** [getAccessToken()] *)
Definition getAccessToken (refreshAccessToken : Async World RefreshResult)
  : Async World string :=
  let! self := gets integration in
  let! decryptedToken := lift (decrypt (Integration.accessToken self)) in
  let! t := today in
  match Integration.expiresAt self with
  | Some e => if e <=? t then handleTokenRefresh refreshAccessToken else ret decryptedToken
  | None => ret decryptedToken
  end.

(** [this.httpClient.request(config)], with the response interceptor the
    constructor installs.  [refreshAccessToken] is the subclass's method,
    given the client it is to use for its own request. *)
Fixpoint httpClient_request (fuel : nat)
    (refreshAccessToken : (Request -> Async World Payload) -> Async World RefreshResult)
    (config : Request) : Async World Payload :=
  match fuel with
  | O => fun _ => OutOfFuel
  | S fuel' =>
    catch (dispatch config)
      (fun error =>
         let! self := gets integration in
         let shouldSkipRefresh :=
           skipAuthRefresh config || String.eqb (Integration.id self) "temp" in
         if bool_decide (response_status error = Some 401) && negb shouldSkipRefresh
         then
           let! refreshed :=
             attempt (handleTokenRefresh
                        (refreshAccessToken (httpClient_request fuel' refreshAccessToken))) in
           match refreshed with
           | Ok newToken =>
             httpClient_request fuel' refreshAccessToken
               (with_header "Authorization" ("Bearer " +:+ newToken) config)
           | Throw _ => throw error
           end
         else throw error)
  end.

(** [response.data.data] and [response.data.links.next] of a collection;
    reading them off another body raises a TypeError. *)
Definition as_collection (p : Payload) : Result (list Item * option string) :=
  match p with
  | Collection data next => Ok (data, next)
  | _ => Throw (Error "Cannot read properties of undefined")
  end.

(** [response.<root>.edges] and [response.<root>.pageInfo] of a connection. *)
Definition as_connection (p : Payload) : Result (list Item * bool * option string) :=
  match p with
  | Connection edges hasNextPage endCursor => Ok (edges, hasNextPage, endCursor)
  | _ => Throw (Error "Cannot read properties of undefined")
  end.

(** [storeOrder], [storeProduct], [storeCampaign], [storeFlow],
    [storeMetric], [storeEvent]: each logs the field it reads of the record
    and stores nothing. *)
Definition store (record : Item) : Result unit :=
  match record with
  | Full _ => Ok tt
  | Hollow message => Throw (Error message)
  end.

(** [for (const record of records) { await this.store...(record); total++ }] *)
Fixpoint store_each (records : list Item) (total : Z) : Result Z :=
  match records with
  | [] => Ok total
  | record :: rest => do _ <- store record; store_each rest (total + 1)
  end.

(** The result a data-type routine returns when it ran through. *)
Definition success (dataType : string) (recordsCount : Z) : SyncResult :=
  mkSyncResult dataType recordsCount "success" None.

(** The result a data-type routine returns from its catch clause. *)
Definition failure (dataType : string) (error : JsError) : SyncResult :=
  mkSyncResult dataType 0 "error" (Some (message error)).

(** The shape every data-type routine has:
    [try { ...; result = success; await logSync(result); return result }
     catch (error) { result = error entry; await logSync(result); return result }]. *)
Definition routine (dataType : string) (count : Async World Z) : Async World SyncResult :=
  catch
    (let! n := count in
     let result := success dataType n in
     let! _ := logSync result in
     ret result)
    (fun error =>
       let result := failure dataType error in
       let! _ := logSync result in
       ret result).

(** The shape of [sync()]: the stages push onto [results]; a throw from
    inside sets the status to 'error' and pushes a 'sync_error' entry. *)
Definition sync_with (stages : Async World unit) : Async World (list SyncResult) :=
  let! _ := modify (set_results []) in
  let! _ :=
    catch
      (let! _ := stages in
       let! t := today in
       updateIntegrationStatus "connected" (Some t))
      (fun error =>
         let! _ := updateIntegrationStatus "error" None in
         push (failure "sync_error" error)) in
  gets results.

End Connector.

End BaseConnector.

(** * E-commerce connector (server/src/connectors/ShopifyConnector.ts) *)
Module ShopifyConnector.
Import Prisma BaseConnector.

Definition rateLimitDelay : Z := 500.

Section Connector.

Variable api : nat -> Response.
Variable encrypt : string -> Result string.
Variable decrypt : string -> Result string.

Definition shopDomain (w : World) : string :=
  default "undefined" (Integration.metadata (integration w) !! "shopDomain").

(** The tokens do not expire: the current one is returned. *)
Definition refreshAccessToken (http : Request -> Async World Payload)
  : Async World RefreshResult :=
  let! self := gets integration in
  let! currentToken := lift (decrypt (Integration.accessToken self)) in
  ret (mkRefreshResult currentToken None None).

Definition httpClient (fuel : nat) : Request -> Async World Payload :=
  httpClient_request api encrypt fuel refreshAccessToken.

Definition getAccessToken (fuel : nat) : Async World string :=
  BaseConnector.getAccessToken encrypt decrypt (refreshAccessToken (httpClient fuel)).

Definition initializeGraphQLClient (fuel : nat) : Async World unit :=
  let! accessToken := getAccessToken fuel in
  modify (set_graphqlClient (Some accessToken)).

(** [this.graphqlClient!.request(query, variables)] *)
Definition graphql_request (document : string) (variables : list (string * Value))
  : Async World Payload :=
  let! client := gets graphqlClient in
  match client with
  | None => throw (Error "Cannot read properties of null (reading 'request')")
  | Some accessToken =>
    let! domain := gets shopDomain in
    let! response :=
      send api (mkRequest ("https://" +:+ domain +:+ "/admin/api/2023-10/graphql.json")
                  [("X-Shopify-Access-Token", accessToken)] document variables false) in
    match response with
    | Answer status payload =>
      if (200 <=? status) && (status <? 300) then ret payload
      else throw (mkError "GraphQL Error" (Some status))
    | NoResponse => throw (mkError "Network Error" None)
    end
  end.

(** [response.data.shop] with its [name] and [myshopify_domain]; reading
    them off another body raises a TypeError. *)
Definition as_shop (p : Payload) : Result (string * string) :=
  match p with
  | Shop name myshopify_domain => Ok (name, myshopify_domain)
  | _ => Throw (Error "Cannot read properties of undefined")
  end.

(** [fetchShopInfo()] on the stored token and domain. *)
Definition fetchShopInfo (fuel : nat) : Async World (string * string) :=
  let! token := getAccessToken fuel in
  let! self := gets integration in
  let domain := Integration.metadata self !! "shopDomain" in
  if truthy_opt domain
  then
    let! response :=
      httpClient fuel
        (mkRequest ("https://" +:+ default "" domain +:+ "/admin/api/2023-10/shop.json")
           [("X-Shopify-Access-Token", token)] "" [] false) in
    lift (as_shop response)
  else throw (Error "Shop domain not available for fetching shop info").

Definition validateConnection (fuel : nat) : Async World bool :=
  catch (let! _ := fetchShopInfo fuel in ret true) (fun _ => ret false).

(** The loop variables [hasNextPage], [cursor] and the running total. *)
Definition Page : Type := bool * option string * Z.

(** [{ first: 50, ...(cursor && { after: cursor }), ...watermark }] *)
Definition variables (cursor : option string) (watermark : list (string * Value))
  : list (string * Value) :=
  [("first", VNum 50)]
  ++ (if truthy_opt cursor then [("after", VStr (default "" cursor))] else [])
  ++ watermark.

(** One turn of the loop of [syncOrders] / [syncProducts]. *)
Definition fetch_page (document : string) (watermark : list (string * Value)) (s : Page)
  : Async World Page :=
  let '(_, cursor, total) := s in
  let! response := graphql_request document (variables cursor watermark) in
  let! page := lift (as_connection response) in
  let '(edges, hasNextPage, endCursor) := page in
  let! total := lift (store_each edges total) in
  let! _ := delay rateLimitDelay in
  ret (hasNextPage, endCursor, total).

(** [while (hasNextPage) { ... }], from [hasNextPage = true], no cursor and
    a total of 0, to the total. *)
Definition paginate (fuel : nat) (document : string) (watermark : list (string * Value))
  : Async World Z :=
  let! s := while fuel (fun s : Page => fst (fst s)) (fetch_page document watermark)
              (true, None, 0) in
  ret (snd s).

(** [...(lastSync && { updatedAtMin: lastSync.toISOString() })] *)
Definition orders_watermark (lastSync : option Z) : list (string * Value) :=
  match lastSync with
  | Some t => [("updatedAtMin", VDate t)]
  | None => []
  end.

Definition syncOrders (fuel : nat) : Async World SyncResult :=
  routine "orders"
    (let! lastSync := getLastSyncTime "orders" in
     paginate fuel "getOrders" (orders_watermark lastSync)).

Definition syncProducts (fuel : nat) : Async World SyncResult :=
  routine "products" (paginate fuel "getProducts" []).

Definition syncCustomers : Async World SyncResult :=
  let result := success "customers" 0 in
  let! _ := logSync result in
  ret result.

Definition sync (fuel : nat) : Async World (list SyncResult) :=
  sync_with
    (let! _ := initializeGraphQLClient fuel in
     let! orders := syncOrders fuel in
     let! _ := push orders in
     let! products := syncProducts fuel in
     let! _ := push products in
     let! customers := syncCustomers in
     push customers).

End Connector.

End ShopifyConnector.

(** * Email-marketing connector (server/src/connectors/KlaviyoConnector.ts) *)
Module KlaviyoConnector.
Import Prisma BaseConnector.

Definition rateLimitDelay : Z := 100.
Definition baseUrl : string := "https://a.klaviyo.com/api".
Definition apiVersion : string := "2023-12-15".
Definition tokenUrl : string := "https://a.klaviyo.com/oauth/token".

Section Connector.

Variable api : nat -> Response.
Variable encrypt : string -> Result string.
Variable decrypt : string -> Result string.
(** [Basic base64(clientId:clientSecret)], from the environment. *)
Variable basicAuth : string.

Definition refreshAccessToken (http : Request -> Async World Payload)
  : Async World RefreshResult :=
  let! self := gets integration in
  if negb (truthy_opt (Integration.refreshToken self))
  then throw (Error "Missing refresh token")
  else
    let! refreshToken :=
      lift (decrypt (default "" (Integration.refreshToken self))) in
    catch
      (let! payload :=
         http (mkRequest tokenUrl
                 [("Content-Type", "application/x-www-form-urlencoded");
                  ("Authorization", "Basic " +:+ basicAuth)]
                 ""
                 [("grant_type", VStr "refresh_token"); ("refresh_token", VStr refreshToken)]
                 true) in
       match payload with
       | TokenResponse access_token refresh_token expires_in =>
         let! t := today in
         ret (mkRefreshResult access_token (Some refresh_token) (Some (t + expires_in * 1000)))
       | _ => throw (Error "Cannot destructure property 'access_token'")
       end)
      (fun error => throw (Error ("Klaviyo token refresh failed: " +:+ message error))).

Definition httpClient (fuel : nat) : Request -> Async World Payload :=
  httpClient_request api encrypt fuel refreshAccessToken.

Definition getAccessToken (fuel : nat) : Async World string :=
  BaseConnector.getAccessToken encrypt decrypt (refreshAccessToken (httpClient fuel)).

(** The loop variables [nextUrl] and the running total. *)
Definition Cursor : Type := option string * Z.

(** One turn of the loop of [syncCampaigns] / [syncFlows] / [syncEvents]. *)
Definition fetch_page (fuel : nat) (params : list (string * Value)) (s : Cursor)
  : Async World Cursor :=
  let '(nextUrl, total) := s in
  let! token := getAccessToken fuel in
  let! payload :=
    httpClient fuel
      (mkRequest (default "" nextUrl)
         [("Authorization", "Bearer " +:+ token); ("Revision", apiVersion)]
         "" params false) in
  let! page := lift (as_collection payload) in
  let '(data, next) := page in
  let! total := lift (store_each data total) in
  let! _ := delay rateLimitDelay in
  ret (if truthy_opt next then next else None, total).

Definition paginate (fuel : nat) (path : string) (params : list (string * Value))
  : Async World Z :=
  let! s := while fuel (fun s : Cursor => truthy_opt (fst s)) (fetch_page fuel params)
              (Some (baseUrl +:+ path), 0) in
  ret (snd s).

Definition syncCampaigns (fuel : nat) : Async World SyncResult :=
  routine "campaigns"
    (paginate fuel "/campaigns/"
       [("page[size]", VNum 50); ("filter", VGreaterThan "created" 1672531200000)]).

Definition syncFlows (fuel : nat) : Async World SyncResult :=
  routine "flows" (paginate fuel "/flows/" [("page[size]", VNum 50)]).

Definition syncMetrics (fuel : nat) : Async World SyncResult :=
  routine "metrics"
    (let! token := getAccessToken fuel in
     let! payload :=
       httpClient fuel
         (mkRequest (baseUrl +:+ "/metrics/")
            [("Authorization", "Bearer " +:+ token); ("Revision", apiVersion)]
            "" [("page[size]", VNum 100)] false) in
     let! page := lift (as_collection payload) in
     let! _ := lift (store_each (fst page) 0) in
     ret (Z.of_nat (length (fst page)))).

(** The [params] of [syncEvents]: the filter is set when there is a last
    sync time. *)
Definition events_params (lastSync : option Z) : list (string * Value) :=
  [("page[size]", VNum 100); ("sort", VStr "-datetime")]
  ++ match lastSync with
     | Some t => [("filter", VGreaterThan "datetime" t)]
     | None => []
     end.

Definition syncEvents (fuel : nat) : Async World SyncResult :=
  routine "events"
    (let! lastSync := getLastSyncTime "events" in
     paginate fuel "/events/" (events_params lastSync)).

Definition sync (fuel : nat) : Async World (list SyncResult) :=
  sync_with
    (let! campaigns := syncCampaigns fuel in
     let! _ := push campaigns in
     let! flows := syncFlows fuel in
     let! _ := push flows in
     let! metrics := syncMetrics fuel in
     let! _ := push metrics in
     let! events := syncEvents fuel in
     push events).

(** [fetchAccountInfo()] on the stored token.  The account is the first
    record of [response.data.data]; a body without [data] leaves it
    undefined, and reading [data] off no body at all raises a TypeError. *)
Definition fetchAccountInfo (fuel : nat) : Async World string :=
  let! token := getAccessToken fuel in
  let! payload :=
    httpClient fuel
      (mkRequest (baseUrl +:+ "/accounts/")
         [("Authorization", "Bearer " +:+ token); ("Revision", apiVersion)]
         "" [] false) in
  match payload with
  | Collection (Full account :: _) _ => ret account
  | Nothing => throw (Error "Cannot read properties of undefined (reading 'data')")
  | _ => throw (Error "Klaviyo accounts response did not include account attributes")
  end.

Definition validateConnection (fuel : nat) : Async World bool :=
  catch (let! _ := fetchAccountInfo fuel in ret true) (fun _ => ret false).

End Connector.

End KlaviyoConnector.

(** * Revenue attribution of the email-marketing connector
    (calculateAttribution in server/src/connectors/KlaviyoConnector.ts) *)
Module KlaviyoAttribution.

(** An event of the customer, by the fields the attribution reads:
    [attributes.metric.data.attributes.name],
    [relationships?.campaign?.data?.id] and [attributes.datetime]. *)
Record Event := mkEvent {
  name : string;
  campaign : option string;
  datetime : Z
}.

Section Attribution.

(** The type of [orderValue], which the attribution hands on as it is. *)
Variable number : Type.

Record OrderInfo := mkOrderInfo {
  utmSource : option string;
  utmMedium : option string;
  utmCampaign : option string;
  orderValue : number
}.

Inductive Attribution :=
| klaviyo_campaign (campaignId : option string) (touchpointTime : Z) (value : number)
| utm_attribution (source medium utm : option string) (value : number)
| direct (value : number).

Definition is_campaign_event (e : Event) : bool :=
  String.eqb (name e) "Clicked Email" || String.eqb (name e) "Received Email".

Definition calculateAttribution (events : list Event) (orderInfo : OrderInfo)
  : Attribution :=
  let campaignEvents := List.filter is_campaign_event events in
  match campaignEvents with
  | lastCampaignEvent :: _ =>
    klaviyo_campaign (campaign lastCampaignEvent) (datetime lastCampaignEvent)
      (orderValue orderInfo)
  | [] =>
    if truthy_opt (utmSource orderInfo) || truthy_opt (utmMedium orderInfo)
       || truthy_opt (utmCampaign orderInfo)
    then utm_attribution (utmSource orderInfo) (utmMedium orderInfo)
           (utmCampaign orderInfo) (orderValue orderInfo)
    else direct (orderValue orderInfo)
  end.

End Attribution.

Arguments mkOrderInfo {number}.
Arguments utmSource {number}.
Arguments utmMedium {number}.
Arguments utmCampaign {number}.
Arguments orderValue {number}.
Arguments klaviyo_campaign {number}.
Arguments utm_attribution {number}.
Arguments direct {number}.
Arguments calculateAttribution {number}.

(** Three events of a customer, newest first, as [getCustomerEvents] asks
    for them with [sort: '-datetime']. *)
Definition demo_events : list Event :=
  [mkEvent "Placed Order" None 900;
   mkEvent "Clicked Email" (Some "cmp_2") 800;
   mkEvent "Received Email" (Some "cmp_1") 700].

End KlaviyoAttribution.

(** * Syncing from the manager
    (ConnectorManager.syncIntegration and the hourly job of
    initializeSyncScheduler) *)
Module ConnectorManagerSync.
Import Prisma BaseConnector.

(** The [where] of the hourly job: connected, not soft-deleted, and never
    synced or last synced more than an hour before [today]. *)
Definition due (today : Z) (i : Integration.t) : bool :=
  String.eqb (Integration.status i) "connected"
  && bool_decide (Integration.deletedAt i = None)
  && match Integration.lastSyncAt i with
     | None => true
     | Some t => t <? today - 60 * 60 * 1000
     end.

Section Manager.

Variable api : nat -> Response.
Variable encrypt decrypt : string -> Result string.
Variable basicAuth : string.

(** [createConnector(integration)]: a new connector object bound to the
    row, its GraphQL client not built yet. *)
Definition createConnector (integration : Integration.t)
  : Async World ConnectorManager.Connector :=
  let! connector := lift (ConnectorManager.createConnector (Integration.provider integration)) in
  let! _ := modify (fun w => set_graphqlClient None (set_self integration w)) in
  ret connector.

Definition validateConnection (c : ConnectorManager.Connector) (fuel : nat)
  : Async World bool :=
  match c with
  | ConnectorManager.ShopifyConnector =>
    ShopifyConnector.validateConnection api encrypt decrypt fuel
  | ConnectorManager.KlaviyoConnector =>
    KlaviyoConnector.validateConnection api encrypt decrypt basicAuth fuel
  | ConnectorManager.NotAConnector =>
    throw (Error "connector.validateConnection is not a function")
  end.

Definition sync (c : ConnectorManager.Connector) (fuel : nat)
  : Async World (list SyncResult) :=
  match c with
  | ConnectorManager.ShopifyConnector => ShopifyConnector.sync api encrypt decrypt fuel
  | ConnectorManager.KlaviyoConnector =>
    KlaviyoConnector.sync api encrypt decrypt basicAuth fuel
  | ConnectorManager.NotAConnector => throw (Error "connector.sync is not a function")
  end.

(** [syncIntegration(integrationId)] *)
Definition syncIntegration (fuel : nat) (integrationId : string) : Async World unit :=
  let! integration :=
    gets (fun w => List.find (has_id integrationId) (Prisma.integration (db w))) in
  match integration with
  | None => throw (Error "Integration not found")
  | Some integration =>
    if negb (String.eqb (Integration.status integration) "connected")
    then throw (Error "Integration is not in connected state")
    else
      let! connector := createConnector integration in
      catch
        (let! isValid := validateConnection connector fuel in
         if negb isValid
         then
           let! _ := integration_update integrationId (fun _ => with_status_only "error") in
           throw (Error "Connection validation failed")
         else
           let! results := sync connector fuel in
           ret tt)
        (fun error =>
           let! _ := integration_update integrationId (with_status "error" None) in
           throw error)
  end.

End Manager.

End ConnectorManagerSync.

(** * Stand-ins to run the connectors on concrete inputs *)
Module ConnectorDemo.
Import Prisma BaseConnector.

Definition demo_encrypt (text : string) : Result string := Ok ("enc:" +:+ text).
Definition demo_decrypt (envelope : string) : Result string := Ok ("dec:" +:+ envelope).

(** A connected shop "test-store.myshopify.com" of user "user-1". *)
Definition demo_shop : Integration.t :=
  Integration.mk "int_1" "user-1" "shopify" "test-store.myshopify.com" "enc:shpat" None None
    ["read_orders"] (<["shopDomain" := "test-store.myshopify.com"]> ∅) "connected"
    None 3600 None 0 0 None.

(** The same user's email-marketing account; its token falls due at 5000. *)
Definition demo_klaviyo : Integration.t :=
  Integration.mk "int_2" "user-1" "klaviyo" "org_12345" "enc:pk" (Some "enc:rt") (Some 5000)
    ["campaigns:read"] ∅ "connected" None 3600 None 0 0 None.

(** An earlier successful products sync and an earlier successful orders
    sync of the shop, completed at 900 and 950. *)
Definition demo_logs : list SyncLog.t :=
  [SyncLog.mk "int_1" "products" "success" 7 None None 890 900;
   SyncLog.mk "int_1" "orders" "success" 3 None None 940 950].

Definition demo_db : Db := mkDb [demo_shop; demo_klaviyo] ∅ demo_logs [] 1000 2.

(** The shop's connector, before and after [initializeGraphQLClient]. *)
Definition demo_world : World := mkWorld demo_db demo_shop None [] [] 0.
Definition demo_world_ready : World := mkWorld demo_db demo_shop (Some "dec:enc:shpat") [] [] 0.
Definition demo_world_klaviyo : World := mkWorld demo_db demo_klaviyo None [] [] 0.

(** The shop's connector once the shop's row is gone from the table. *)
Definition demo_db_orphan : Db := mkDb [demo_klaviyo] ∅ demo_logs [] 1000 2.
Definition demo_world_orphan : World := mkWorld demo_db_orphan demo_shop None [] [] 0.

(** The provider serves one page of two orders, then is down. *)
Definition api_two_orders_then_down (n : nat) : Response :=
  match n with
  | O => Answer 200 (Connection [Full "#1001"; Full "#1002"] false None)
  | _ => Answer 500 Nothing
  end.

(** A page of two records announcing a next page, then a last page of one. *)
Definition api_two_pages (n : nat) : Response :=
  match n with
  | O => Answer 200 (Connection [Full "a"; Full "b"] true (Some "cursor-1"))
  | _ => Answer 200 (Connection [Full "c"] false None)
  end.

Definition api_two_collections (n : nat) : Response :=
  match n with
  | O =>
    Answer 200
      (Collection [Full "a"; Full "b"] (Some "https://a.klaviyo.com/api/campaigns/?page=2"))
  | _ => Answer 200 (Collection [Full "c"] None)
  end.

(** A page whose second edge has a null node. *)
Definition api_null_node (n : nat) : Response :=
  Answer 200
    (Connection [Full "#1001"; Hollow "Cannot read properties of null (reading 'name')"]
       false None).

(** Every page announces a next page. *)
Definition api_endless (n : nat) : Response :=
  Answer 200 (Connection [Full "#1001"] true (Some "cursor")).

(** The first [k] requests are answered 401, the others with the shop. *)
Definition api_rejects_first (k n : nat) : Response :=
  if (n <? k)%nat then Answer 401 Nothing
  else Answer 200 (Shop "Test Store" "test-store.myshopify.com").

(** The request of [fetchShopInfo]. *)
Definition demo_request : Request :=
  mkRequest "https://test-store.myshopify.com/admin/api/2023-10/shop.json"
    [("X-Shopify-Access-Token", "dec:enc:shpat")] "" [] false.

(** A vault that can be undone: [demo_unseal] takes off what
    [demo_encrypt] put in front. *)
Definition demo_unseal (envelope : string) : Result string :=
  Ok (String.substring 4 (String.length envelope - 4) envelope).

(** A marketing account whose token fell due at 500 and that has no
    refresh token. *)
Definition demo_stale : Integration.t :=
  Integration.mk "int_3" "user-2" "klaviyo" "org_999" "enc:old" None (Some 500)
    ["campaigns:read"] ∅ "connected" None 3600 None 0 0 None.

Definition demo_db_stale : Db :=
  mkDb [demo_shop; demo_klaviyo; demo_stale] ∅ demo_logs [] 1000 3.

Definition demo_world_stale : World := mkWorld demo_db_stale demo_stale None [] [] 0.

(** The provider answers every request with 401. *)
Definition api_rejects (n : nat) : Response := Answer 401 Nothing.

(** The token endpoint hands out a new pair of tokens, good for an hour. *)
Definition api_new_tokens (n : nat) : Response :=
  Answer 200 (TokenResponse "new-access" "new-refresh" 3600).

(** The provider is down: every request is answered 500. *)
Definition api_down (n : nat) : Response := Answer 500 Nothing.

(** The shop answers the connection check, then serves one page of
    orders and one of products. *)
Definition api_shop_then_pages (n : nat) : Response :=
  match n with
  | O => Answer 200 (Shop "Test Store" "test-store.myshopify.com")
  | _ => Answer 200 (Connection [Full "x"] false None)
  end.

(** A request for the first page of campaigns. *)
Definition demo_campaigns_request : Request :=
  mkRequest "https://a.klaviyo.com/api/campaigns/"
    [("Authorization", "Bearer old"); ("Revision", "2023-12-15")] ""
    [("page[size]", VNum 50)] false.

End ConnectorDemo.

(** * Token vault (server/src/connectors/TokenManager.ts) *)
Module TokenManager.

(** A string as JavaScript has it: UTF-16 code units. *)
Definition jsstring := list Z.

Definition is_high_surrogate (u : Z) : bool := (0xD800 <=? u) && (u <? 0xDC00).
Definition is_low_surrogate (u : Z) : bool := (0xDC00 <=? u) && (u <? 0xE000).

(** [String.prototype.isWellFormed]: every code unit is in range and every
    surrogate is half of a pair. *)
Fixpoint well_formed (s : jsstring) : bool :=
  match s with
  | [] => true
  | u :: r =>
    if is_high_surrogate u then
      match r with
      | v :: r' => is_low_surrogate v && well_formed r'
      | [] => false
      end
    else if is_low_surrogate u then false
    else (0 <=? u) && (u <? 0x10000) && well_formed r
  end.

Definition byte_of_Z (z : Z) : ascii := ascii_of_N (Z.to_N z).
Definition Z_of_byte (b : ascii) : Z := Z.of_N (N_of_ascii b).

(** *** The 'utf8' encoding of Buffer and of cipher.update / decipher.final *)

Definition encode_code_point (c : Z) : list ascii :=
  if c <? 0x80 then [byte_of_Z c]
  else if c <? 0x800 then
    [byte_of_Z (0xC0 + c / 64); byte_of_Z (0x80 + c mod 64)]
  else if c <? 0x10000 then
    [byte_of_Z (0xE0 + c / 4096); byte_of_Z (0x80 + (c / 64) mod 64);
     byte_of_Z (0x80 + c mod 64)]
  else
    [byte_of_Z (0xF0 + c / 262144); byte_of_Z (0x80 + (c / 4096) mod 64);
     byte_of_Z (0x80 + (c / 64) mod 64); byte_of_Z (0x80 + c mod 64)].

(** U+FFFD, which stands for whatever cannot be transcoded. *)
Definition replacement : Z := 0xFFFD.

(** String to bytes.  A surrogate pair is one code point; an unpaired
    surrogate is written as U+FFFD (EF BF BD). *)
Fixpoint utf8_encode (s : jsstring) : list ascii :=
  match s with
  | [] => []
  | u :: r =>
    if is_high_surrogate u then
      match r with
      | v :: r' =>
        if is_low_surrogate v
        then encode_code_point (0x10000 + (u - 0xD800) * 0x400 + (v - 0xDC00))
               ++ utf8_encode r'
        else encode_code_point replacement ++ utf8_encode r
      | [] => encode_code_point replacement
      end
    else if is_low_surrogate u then encode_code_point replacement ++ utf8_encode r
    else encode_code_point u ++ utf8_encode r
  end.

Definition is_continuation (x : Z) : bool := (0x80 <=? x) && (x <? 0xC0).

Definition units_of_code_point (c : Z) : jsstring :=
  if c <? 0x10000 then [c]
  else [0xD800 + (c - 0x10000) / 0x400; 0xDC00 + (c - 0x10000) mod 0x400].

(** The first continuation byte has a narrower range after the lead
    bytes E0 and F0 (no overlong form), ED (no surrogate) and F4 (nothing
    past U+10FFFF). *)
Definition lower_boundary (x0 : Z) : Z :=
  if x0 =? 0xE0 then 0xA0 else if x0 =? 0xF0 then 0x90 else 0x80.
Definition upper_boundary (x0 : Z) : Z :=
  if x0 =? 0xED then 0x9F else if x0 =? 0xF4 then 0x8F else 0xBF.
Definition is_second (x0 x1 : Z) : bool :=
  (lower_boundary x0 <=? x1) && (x1 <=? upper_boundary x0).

(** Bytes to string.  A well-formed sequence decodes to its code point.
    Of an ill-formed one the longest part that starts a well-formed
    sequence (its lead byte and the continuation bytes that fit) decodes to
    one U+FFFD and decoding goes on at the byte that did not fit; so does
    a sequence the input ends in; a byte that starts no sequence decodes
    to U+FFFD by itself. *)
Fixpoint utf8_decode (bs : list ascii) : jsstring :=
  match bs with
  | [] => []
  | b0 :: r0 =>
    let x0 := Z_of_byte b0 in
    if x0 <? 0x80 then x0 :: utf8_decode r0
    else if (0xC2 <=? x0) && (x0 <? 0xE0) then
      match r0 with
      | [] => [replacement]
      | b1 :: r1 =>
        let x1 := Z_of_byte b1 in
        if is_continuation x1
        then ((x0 - 0xC0) * 64 + (x1 - 0x80)) :: utf8_decode r1
        else replacement :: utf8_decode r0
      end
    else if (0xE0 <=? x0) && (x0 <? 0xF0) then
      match r0 with
      | [] => [replacement]
      | b1 :: r1 =>
        let x1 := Z_of_byte b1 in
        if is_second x0 x1 then
          match r1 with
          | [] => [replacement]
          | b2 :: r2 =>
            let x2 := Z_of_byte b2 in
            if is_continuation x2
            then ((x0 - 0xE0) * 4096 + (x1 - 0x80) * 64 + (x2 - 0x80)) :: utf8_decode r2
            else replacement :: utf8_decode r1
          end
        else replacement :: utf8_decode r0
      end
    else if (0xF0 <=? x0) && (x0 <? 0xF5) then
      match r0 with
      | [] => [replacement]
      | b1 :: r1 =>
        let x1 := Z_of_byte b1 in
        if is_second x0 x1 then
          match r1 with
          | [] => [replacement]
          | b2 :: r2 =>
            let x2 := Z_of_byte b2 in
            if is_continuation x2 then
              match r2 with
              | [] => [replacement]
              | b3 :: r3 =>
                let x3 := Z_of_byte b3 in
                if is_continuation x3
                then units_of_code_point
                       ((x0 - 0xF0) * 262144 + (x1 - 0x80) * 4096
                        + (x2 - 0x80) * 64 + (x3 - 0x80))
                     ++ utf8_decode r3
                else replacement :: utf8_decode r2
              end
            else replacement :: utf8_decode r1
          end
        else replacement :: utf8_decode r0
      end
    else replacement :: utf8_decode r0
  end.

(** *** The 'hex' encoding *)

Definition hex_digit (n : Z) : Z := if n <? 10 then 48 + n else 87 + n.

Definition hex_of_byte (b : ascii) : jsstring :=
  [hex_digit (Z_of_byte b / 16); hex_digit (Z_of_byte b mod 16)].

(** [buf.toString('hex')] *)
Definition toString_hex (buf : list ascii) : jsstring := flat_map hex_of_byte buf.

Definition unhex (c : Z) : option Z :=
  if (48 <=? c) && (c <=? 57) then Some (c - 48)
  else if (97 <=? c) && (c <=? 102) then Some (c - 87)
  else if (65 <=? c) && (c <=? 70) then Some (c - 55)
  else None.

(** [Buffer.from(s, 'hex')]: two digits a byte; decoding stops at the first
    pair that is not two hex digits, and a lone last character is dropped. *)
Fixpoint Buffer_from_hex (s : jsstring) : list ascii :=
  match s with
  | c1 :: c2 :: r =>
    match unhex c1, unhex c2 with
    | Some h, Some l => byte_of_Z (16 * h + l) :: Buffer_from_hex r
    | _, _ => []
    end
  | _ => []
  end.

(** *** [String.prototype.split] on a one-character separator *)

Definition colon : Z := 58.

Fixpoint split (sep : Z) (s : jsstring) : list jsstring :=
  match s with
  | [] => [[]]
  | c :: r =>
    if c =? sep then [] :: split sep r
    else match split sep r with
         | p :: ps => (c :: p) :: ps
         | [] => [[c]]
         end
  end.

(** *** AES-256-GCM, as node:crypto offers it

    The block cipher and GHASH are not part of this repository: the
    keystream of the counter mode and the tag function are parameters.
    What the vault relies on is the shape of GCM: the ciphertext is the
    plaintext xor-ed with a keystream fixed by key and IV, the tag is a
    function of key, IV and ciphertext, and [decipher.final] raises unless
    the tag it was given is a leading part of the tag it computes. *)

Definition xor_byte (a b : ascii) : ascii :=
  match a, b with
  | Ascii a0 a1 a2 a3 a4 a5 a6 a7, Ascii b0 b1 b2 b3 b4 b5 b6 b7 =>
    Ascii (xorb a0 b0) (xorb a1 b1) (xorb a2 b2) (xorb a3 b3)
          (xorb a4 b4) (xorb a5 b5) (xorb a6 b6) (xorb a7 b7)
  end.

Section Vault.

(** [keystream key iv i]: the i-th keystream byte of GCTR under [key], [iv]. *)
Variable keystream : list ascii -> list ascii -> nat -> ascii.
(** [auth_tag key iv c]: the full authentication tag of ciphertext [c]. *)
Variable auth_tag : list ascii -> list ascii -> list ascii -> list ascii.

Fixpoint gctr_from (key iv : list ascii) (i : nat) (data : list ascii) : list ascii :=
  match data with
  | [] => []
  | b :: r => xor_byte b (keystream key iv i) :: gctr_from key iv (S i) r
  end.

Definition gctr (key iv data : list ascii) : list ascii := gctr_from key iv 0 data.

(** [crypto.createCipheriv('aes-256-gcm', key, iv)] and its decipher twin
    raise on a key that is not 32 bytes and on an empty IV. *)
Definition createCipheriv (key iv : list ascii) : Result unit :=
  if negb (length key =? 32)%nat then Throw (Error "Invalid key length")
  else if (length iv =? 0)%nat then Throw (Error "Invalid initialization vector")
  else Ok tt.

(** The tag lengths [decipher.setAuthTag] accepts for GCM. *)
Definition valid_tag_length (n : nat) : bool :=
  existsb (Nat.eqb n) [4; 8; 12; 13; 14; 15; 16]%nat.

Definition setAuthTag (tag : list ascii) : Result unit :=
  if valid_tag_length (length tag) then Ok tt
  else Throw (Error "Invalid authentication tag length").

Definition bytes_eqb (a b : list ascii) : bool :=
  bool_decide (a = b).

(** [decipher.final()]: authentication. *)
Definition decipher_final (key iv c tag : list ascii) : Result unit :=
  if bytes_eqb tag (take (length tag) (auth_tag key iv c)) then Ok tt
  else Throw (Error "Unsupported state or unable to authenticate data").

(** [encrypt(text)].  [iv] is what [crypto.randomBytes(16)] returned. *)
Definition encrypt (secretKey iv : list ascii) (text : jsstring) : Result jsstring :=
  try_catch
    (do _ <- createCipheriv secretKey iv;
     let encrypted := toString_hex (gctr secretKey iv (utf8_encode text)) in
     let authTag := auth_tag secretKey iv (gctr secretKey iv (utf8_encode text)) in
     Ok (toString_hex iv ++ [colon] ++ toString_hex authTag ++ [colon] ++ encrypted))
    (fun _ => Throw (Error "Failed to encrypt token")).

(** [decipher.update(data, 'hex', ...)] refuses a string of odd length
    before it reads a digit of it. *)
Definition validateEncoding_hex (data : jsstring) : Result unit :=
  if Nat.even (length data) then Ok tt
  else Throw (Error "The argument 'encoding' is invalid for data of odd length").

(** [decrypt(encryptedText)] *)
Definition decrypt (secretKey : list ascii) (encryptedText : jsstring) : Result jsstring :=
  try_catch
    (match split colon encryptedText with
     | [ivHex; authTagHex; encrypted] =>
       let iv := Buffer_from_hex ivHex in
       let authTag := Buffer_from_hex authTagHex in
       do _ <- createCipheriv secretKey iv;
       do _ <- setAuthTag authTag;
       do _ <- validateEncoding_hex encrypted;
       let c := Buffer_from_hex encrypted in
       do _ <- decipher_final secretKey iv c authTag;
       Ok (utf8_decode (gctr secretKey iv c))
     | _ => Throw (Error "Invalid encrypted token format")
     end)
    (fun _ => Throw (Error "Failed to decrypt token")).

(** *** Webhook signatures *)

Inductive HmacAlgorithm := sha1 | sha256.

(** [crypto.createHmac(algorithm, secret).update(payload).digest()] *)
Variable hmac : HmacAlgorithm -> list ascii -> list ascii -> list ascii.

(** [crypto.timingSafeEqual(a, b)] raises a RangeError unless both buffers
    have the same byte length. *)
Definition timingSafeEqual (a b : list ascii) : Result bool :=
  if (length a =? length b)%nat then Ok (bytes_eqb a b)
  else Throw (Error "Input buffers must have the same byte length").

Definition validateWebhookSignature
    (payload signature secret : jsstring) (algorithm : HmacAlgorithm) : Result bool :=
  try_catch
    (let expectedSignature :=
       toString_hex (hmac algorithm (utf8_encode secret) (utf8_encode payload)) in
     timingSafeEqual (utf8_encode signature) (utf8_encode expectedSignature))
    (fun _ => Ok false).

End Vault.

(** A stand-in cipher, to run the vault on concrete inputs: a constant
    keystream and a tag that sums nothing. *)
Definition demo_keystream (key iv : list ascii) (i : nat) : ascii := "*"%char.
Definition demo_auth_tag (key iv c : list ascii) : list ascii := repeat "t"%char 16.
Definition demo_hmac (a : HmacAlgorithm) (key msg : list ascii) : list ascii :=
  repeat "h"%char 32.
Definition demo_key : list ascii := repeat "k"%char 32.
Definition demo_iv : list ascii := repeat "i"%char 16.

(** *** The key and the OAuth state values *)

(** [generateDefaultKey()] and [generateState()]: 32 random bytes in hex;
    [random] is what [crypto.randomBytes(32)] returned. *)
Definition generateDefaultKey (random : list ascii) : jsstring := toString_hex random.
Definition generateState (random : list ascii) : jsstring := toString_hex random.

(** The constructor's [secretKey]:
    [Buffer.from((process.env.ENCRYPTION_KEY || this.generateDefaultKey()).slice(0, 64), 'hex')].
    [None] is an unset variable; an empty one is falsy and as good as unset. *)
Definition secretKey (ENCRYPTION_KEY : option jsstring) (random : list ascii) : list ascii :=
  let keyString :=
    match ENCRYPTION_KEY with
    | Some (c :: k) => c :: k
    | _ => generateDefaultKey random
    end in
  Buffer_from_hex (take 64 keyString).

End TokenManager.

(** * Advisory locks (server/src/lib/schedulerLock.ts) *)
Module SchedulerLock.

(** The two statements the module sends through [prisma.$queryRawUnsafe],
    by the integer key [hashtext($1)::int4] they lock on. *)
Inductive Statement :=
| pg_try_advisory_lock (key : Z)
| pg_advisory_unlock (key : Z).

(** Postgres advisory locks as this process's session sees them.  A session
    may take a lock it already holds; it then holds it once more.
    [faults] says, for each statement still to come, whether the call
    rejects (a connection error) instead of running it. *)
Record Pg := mkPg {
  held : list Z;
  elsewhere : list Z;
  faults : list bool
}.

Inductive Event :=
| Query (s : Statement)
| Called.

(** The world of a scheduled job: the lock table, the job's own state, and
    a trace (latest first) of the statements sent and of the calls of [fn]. *)
Record World (St : Type) := mkWorld {
  pg : Pg;
  app : St;
  trace : list Event
}.
Arguments mkWorld {St}.
Arguments pg {St}.
Arguments app {St}.
Arguments trace {St}.

Fixpoint remove_first (k : Z) (l : list Z) : list Z :=
  match l with
  | [] => []
  | x :: r => if x =? k then r else x :: remove_first k r
  end.

Definition mem (k : Z) (l : list Z) : bool := existsb (Z.eqb k) l.

(** Running one statement on the server: the rows it returns (here the one
    boolean column) and the lock table afterwards. *)
Definition run_statement (s : Statement) (db : Pg) : list bool * Pg :=
  match s with
  | pg_try_advisory_lock k =>
    if mem k (elsewhere db) then ([false], db)
    else ([true], mkPg (k :: held db) (elsewhere db) (faults db))
  | pg_advisory_unlock k =>
    if mem k (held db)
    then ([true], mkPg (remove_first k (held db)) (elsewhere db) (faults db))
    else ([false], db)
  end.

(** [prisma.$queryRawUnsafe(sql, lockKey)] *)
Definition queryRawUnsafe {St} (s : Statement) (w : World St) : Result (list bool) * World St :=
  let db := pg w in
  match faults db with
  | true :: later =>
    (Throw (Error "Can't reach database server"),
     mkWorld (mkPg (held db) (elsewhere db) later) (app w) (Query s :: trace w))
  | _ =>
    let '(rows, db') := run_statement s (mkPg (held db) (elsewhere db) (tl (faults db))) in
    (Ok rows, mkWorld db' (app w) (Query s :: trace w))
  end.

Section Locks.

(** Postgres' [hashtext], cast to int4. *)
Variable hashtext : string -> Z.

Context {St T : Type}.

Definition tryAcquireLock (lockKey : string) (w : World St) : bool * World St :=
  match queryRawUnsafe (pg_try_advisory_lock (hashtext lockKey)) w with
  | (Ok rows, w') => (match rows with ok :: _ => ok | [] => false end, w')
  | (Throw _, w') => (false, w')
  end.

Definition releaseLock (lockKey : string) (w : World St) : unit * World St :=
  match queryRawUnsafe (pg_advisory_unlock (hashtext lockKey)) w with
  | (_, w') => (tt, w')
  end.

(** [await fn()]: the job runs on its own state and returns or throws. *)
Definition call (fn : St -> Result T * St) (w : World St) : Result T * World St :=
  let '(r, a) := fn (app w) in
  (r, mkWorld (pg w) a (Called :: trace w)).

(** [withAdvisoryLock(lockKey, fn)]; [None] is [undefined]. *)
Definition withAdvisoryLock (lockKey : string) (fn : St -> Result T * St) (w : World St)
  : Result (option T) * World St :=
  let '(acquired, w1) := tryAcquireLock lockKey w in
  if negb acquired then (Ok None, w1)
  else
    let '(result, w2) := call fn w1 in
    let '(_, w3) := releaseLock lockKey w2 in
    (match result with
     | Ok v => Ok (Some v)
     | Throw e => Throw e
     end, w3).

End Locks.

(** How often [fn] was called, by the trace. *)
Definition calls {St} (w : World St) : nat :=
  length (List.filter (fun e => match e with Called => true | _ => false end) (trace w)).

End SchedulerLock.

(** * The cron callbacks around [withAdvisoryLock]
    (ConnectorManager.initializeSyncScheduler and the schedulers' [start]) *)
Module SchedulerTick.
Import SchedulerLock.

(** What a tick writes to the console. *)
Inductive Console :=
| Skipping          (* 'Skipping ..., another instance holds the lock' *)
| TickError (error : JsError)
| Silent.

(** [!ran], for a job that returns no value.  [ran] is what
    [withAdvisoryLock] resolved to: [undefined] when the lock was not
    acquired, and the job's own [undefined] when it ran to its end. *)
Definition not_ran (ran : option unit) : bool :=
  match ran with
  | None => true
  | Some tt => true
  end.

Section Tick.

Variable hashtext : string -> Z.
Context {St : Type}.

(** [try { const ran = await withAdvisoryLock(key, job); if (!ran) console.log(skipping) }
     catch (error) { console.error(error) }] *)
Definition tick (lockKey : string) (job : St -> Result unit * St) (w : World St)
  : Console * World St :=
  match withAdvisoryLock hashtext lockKey job w with
  | (Ok ran, w') => (if not_ran ran then Skipping else Silent, w')
  | (Throw error, w') => (TickError error, w')
  end.

End Tick.

(** A counter as the job's state, a job that adds one, a hash that sends
    every key to 7. *)
Definition demo_job (n : nat) : Result unit * nat := (Ok tt, S n).
Definition demo_hashtext (key : string) : Z := 7.
Definition demo_free : World nat := mkWorld (mkPg [] [] []) 0%nat [].
Definition demo_busy : World nat := mkWorld (mkPg [] [7] []) 0%nat [].

End SchedulerTick.

(** * Integrations routes (server/src/routes/integrations.ts) *)
Module Routes.
Import Prisma.

Inductive Json :=
| JNull
| JBool (b : bool)
| JNumber (n : Z)
| JString (s : string)
| JObject (fields : list (string * Json)).

Record Response := mkResponse {
  statusCode : Z;
  body : Json
}.

(** [res.json(body)]: status 200 unless [res.status] was called. *)
Definition res_json (body : Json) : Response := mkResponse 200 body.

Definition json_date (d : option Z) : Json :=
  match d with
  | Some t => JNumber t
  | None => JNull
  end.

Definition json_metadata (m : gmap string string) : Json :=
  JObject (map (fun kv => (fst kv, JString (snd kv))) (map_to_list m)).

(** The row with the latest [updatedAt] among [rows] (the first of them in
    table order when several share it). *)
Fixpoint latest (rows : list Integration.t) : option Integration.t :=
  match rows with
  | [] => None
  | i :: r =>
    match latest r with
    | Some j => if Integration.updatedAt i <? Integration.updatedAt j then Some j else Some i
    | None => Some i
    end
  end.

(** [prisma.integration.findFirst({ where: { userId, provider, deletedAt: null },
    orderBy: { updatedAt: 'desc' } })] *)
Definition findFirst_active (userId provider : string) (d : Db) : option Integration.t :=
  latest (List.filter
            (fun i => String.eqb (Integration.userId i) userId
                      && String.eqb (Integration.provider i) provider
                      && bool_decide (Integration.deletedAt i = None))
            (integration d)).

(** [GET /:provider/status], past [authenticate]: [userId] is [req.user.id]. *)
Definition get_status (userId provider : string) (d : Db) : Response :=
  match findFirst_active userId provider d with
  | None =>
    res_json (JObject [("connected", JBool false); ("provider", JString provider)])
  | Some integration =>
    let isConnected :=
      String.eqb (Integration.status integration) "connected"
      && negb (bool_decide (is_Some (Integration.deletedAt integration))) in
    res_json (JObject
      [("connected", JBool isConnected);
       ("id", JString (Integration.id integration));
       ("provider", JString (Integration.provider integration));
       ("status", JString (Integration.status integration));
       ("lastSyncAt", json_date (Integration.lastSyncAt integration));
       ("metadata", json_metadata (Integration.metadata integration));
       ("accountId", JString (Integration.accountId integration));
       ("deletedAt", json_date (Integration.deletedAt integration))])
  end.

(** Three rows to try the route on: the marketing account of "user-1",
    disconnected at 500; their shop; the marketing account of "user-2". *)
Definition demo_db : Db :=
  mkDb
    [Integration.mk "int_1" "user-1" "klaviyo" "org_1" "enc:a" None None [] ∅ "disconnected"
       None 3600 None 100 500 (Some 500);
     Integration.mk "int_2" "user-1" "shopify" "s.myshopify.com" "enc:b" None None [] ∅
       "connected" None 3600 None 200 200 None;
     Integration.mk "int_3" "user-2" "klaviyo" "org_2" "enc:c" None None [] ∅ "connected"
       None 3600 None 300 300 None]
    ∅ [] [] 1000 3.

End Routes.

(** * The other integrations routes (server/src/routes/integrations.ts) *)
Module IntegrationRoutes.
Import Prisma Routes.

(** What a handler answers: [res.json(...)], with the status [res.status]
    gave it, or [res.redirect(url)]. *)
Inductive Reply :=
| Json (r : Response)
| Redirect (location : string).

Definition is_active (userId provider : string) (i : Integration.t) : bool :=
  String.eqb (Integration.userId i) userId
  && String.eqb (Integration.provider i) provider
  && bool_decide (Integration.deletedAt i = None).

(** [prisma.integration.findFirst({ where: { userId, provider, deletedAt: null } })],
    with no [orderBy]: the first such row in the order the table gives. *)
Definition findFirst (userId provider : string) (d : Db) : option Integration.t :=
  List.find (is_active userId provider) (integration d).

(** [DELETE /:provider/disconnect], past [authenticate]. *)
Definition delete_disconnect (userId provider : string)
  : Async ConnectorManager.World Response :=
  catch
    (let! integration := gets (fun w => findFirst userId provider (ConnectorManager.db w)) in
     match integration with
     | None => ret (mkResponse 404 (JObject [("error", JString "Integration not found")]))
     | Some integration =>
       let! _ := ConnectorManager.disconnectIntegration (Integration.id integration) in
       ret (res_json (JObject [("message", JString "Integration disconnected")]))
     end)
    (fun _ =>
       ret (mkResponse 500 (JObject [("error", JString "Failed to disconnect integration")]))).

(** [POST /:provider/sync], past [authenticate]: the answer, and the id
    [syncIntegration] is started for.  The handler does not wait for that
    promise; it only logs its rejection. *)
Definition post_sync (userId provider : string) (d : Db) : Response * option string :=
  match findFirst userId provider d with
  | None => (mkResponse 404 (JObject [("error", JString "Integration not found")]), None)
  | Some integration =>
    (res_json (JObject [("message", JString "Sync initiated")]),
     Some (Integration.id integration))
  end.

Section Callback.

Variable JSON_parse : string -> Result ConnectorManager.StateData.
Variable token_endpoint :
  ConnectorManager.Connector -> gmap string string -> string -> option string
  -> Result ConnectorManager.TokenData.
Variable encrypt : string -> Result string.
Variable cuid : nat -> string.
(** [process.env.CLIENT_URL], as it reads inside a template string. *)
Variable CLIENT_URL : string.
(** [encodeURIComponent], which raises a URIError on a lone surrogate. *)
Variable encodeURIComponent : string -> Result string.

(** [GET /:provider/callback]: the query parameters [code], [state],
    [error] and [shop], each absent or a string. *)
Definition get_callback (provider : string) (code state oauthError shop : option string)
  : Async ConnectorManager.World Reply :=
  catch
    (if truthy_opt oauthError then
       let! e := lift (encodeURIComponent (default "" oauthError)) in
       ret (Redirect (CLIENT_URL +:+ "?error=" +:+ e))
     else if negb (truthy_opt code) || negb (truthy_opt state) then
       ret (Redirect (CLIENT_URL +:+ "?error=missing_oauth_parameters"))
     else
       let callbackMetadata : gmap string string :=
         if String.eqb provider "shopify" && truthy_opt shop
         then {[ "shopDomain" := default "" shop ]}
         else ∅ in
       let! integration :=
         ConnectorManager.handleOAuthCallback JSON_parse token_endpoint encrypt cuid
           provider (default "" code) (default "" state) callbackMetadata in
       if negb (String.eqb (Integration.status integration) "connected")
       then ret (Redirect (CLIENT_URL +:+ "?error=integration_creation_failed"))
       else
         ret (Redirect (CLIENT_URL +:+ "/dashboard?connected=" +:+ provider
                        +:+ "&integration=" +:+ Integration.id integration)))
    (fun _ => ret (Redirect (CLIENT_URL +:+ "?error=oauth_failed"))).

End Callback.

Definition demo_encodeURIComponent (s : string) : Result string := Ok s.

(** A shop whose last sync failed. *)
Definition demo_failed : Integration.t :=
  Integration.mk "int_9" "user-9" "shopify" "s9.myshopify.com" "enc:t" None None [] ∅
    "error" None 3600 None 100 900 None.
Definition demo_world_failed : BaseConnector.World :=
  BaseConnector.mkWorld (mkDb [demo_failed] ∅ [] [] 1000 1) demo_failed None [] [] 0.

End IntegrationRoutes.

(** * Properties *)

Module AsyncFacts.

Lemma bind_Returned {W A B} (m : Async W A) (k : A -> Async W B) w b w' :
  bind m k w = Returned b w' ->
  exists a w1, m w = Returned a w1 /\ k a w1 = Returned b w'.
Proof.
  unfold bind. destruct (m w) as [a w1| |]; try discriminate. eauto.
Qed.

Lemma lift_Returned {W A} (r : Result A) (w : W) a w' :
  lift r w = Returned a w' -> r = Ok a /\ w' = w.
Proof. destruct r; cbn; intros [= <- <-] || discriminate. auto. Qed.

Lemma lift_Ok {W A} (a : A) (w : W) : lift (Ok a) w = Returned a w.
Proof. reflexivity. Qed.

Lemma bind_Returned_l {W A B} (m : Async W A) (k : A -> Async W B) w a w1 :
  m w = Returned a w1 -> bind m k w = k a w1.
Proof. unfold bind. intros ->. reflexivity. Qed.

Lemma bind_Thrown_l {W A B} (m : Async W A) (k : A -> Async W B) w e w1 :
  m w = Thrown e w1 -> bind m k w = Thrown e w1.
Proof. unfold bind. intros ->. reflexivity. Qed.

End AsyncFacts.

Module TokenManagerSpec.
Import TokenManager.

Ltac Zify.zify_post_hook ::= Z.div_mod_to_equations.

Lemma Z_of_byte_range b : 0 <= Z_of_byte b < 256.
Proof.
  unfold Z_of_byte. pose proof (N_ascii_bounded b). lia.
Qed.

Lemma Z_of_byte_of_Z z : 0 <= z < 256 -> Z_of_byte (byte_of_Z z) = z.
Proof.
  intros Hz. unfold Z_of_byte, byte_of_Z.
  rewrite N_ascii_embedding by lia. lia.
Qed.

Lemma byte_of_Z_of_byte b : byte_of_Z (Z_of_byte b) = b.
Proof.
  unfold Z_of_byte, byte_of_Z. rewrite N2Z.id. apply ascii_N_embedding.
Qed.

Lemma unhex_hex_digit n : 0 <= n < 16 -> unhex (hex_digit n) = Some n.
Proof.
  intros Hn. unfold unhex, hex_digit.
  repeat match goal with
         | |- context [ (?a <? ?b) ] => destruct (Z.ltb_spec a b)
         | |- context [ (?a <=? ?b) ] => destruct (Z.leb_spec a b)
         end; simpl; try lia; f_equal; lia.
Qed.

Lemma Buffer_from_hex_toString_hex buf : Buffer_from_hex (toString_hex buf) = buf.
Proof.
  induction buf as [|b buf IH]; [reflexivity|].
  pose proof (Z_of_byte_range b) as Hb.
  cbn [toString_hex flat_map hex_of_byte app Buffer_from_hex].
  rewrite !unhex_hex_digit
    by (split; [apply Z.div_pos || apply Z.mod_pos_bound | try apply Z.div_lt_upper_bound ||
        apply Z.mod_pos_bound]; lia).
  fold (toString_hex buf). rewrite IH. f_equal.
  rewrite <- Z.div_mod by lia. apply byte_of_Z_of_byte.
Qed.

Lemma hex_digit_not_colon n : 0 <= n < 16 -> hex_digit n <> colon.
Proof.
  unfold hex_digit, colon. intros Hn. destruct (Z.ltb_spec n 10); lia.
Qed.

Lemma toString_hex_no_colon buf : Forall (fun c => c <> colon) (toString_hex buf).
Proof.
  induction buf as [|b buf IH]; [constructor|].
  pose proof (Z_of_byte_range b) as Hb.
  cbn [toString_hex flat_map hex_of_byte app].
  repeat constructor; try exact IH; apply hex_digit_not_colon.
  - split; [apply Z.div_pos | apply Z.div_lt_upper_bound]; lia.
  - apply Z.mod_pos_bound; lia.
Qed.

Lemma split_no_sep sep s : Forall (fun c => c <> sep) s -> split sep s = [s].
Proof.
  induction 1 as [|c s Hc _ IH]; [reflexivity|].
  cbn [split]. rewrite IH. destruct (Z.eqb_spec c sep); [contradiction|reflexivity].
Qed.

Lemma split_app_sep sep a r :
  Forall (fun c => c <> sep) a -> split sep (a ++ sep :: r) = a :: split sep r.
Proof.
  induction 1 as [|c s Hc _ IH]; cbn [app split].
  - rewrite Z.eqb_refl. reflexivity.
  - rewrite IH. destruct (Z.eqb_spec c sep); [contradiction|reflexivity].
Qed.

Lemma xorb_cancel_r (x y : bool) : xorb (xorb x y) y = x.
Proof. destruct x, y; reflexivity. Qed.

Lemma xor_byte_involutive a b : xor_byte (xor_byte a b) b = a.
Proof.
  destruct a, b; cbn [xor_byte]. f_equal; apply xorb_cancel_r.
Qed.

(** *** UTF-8: decoding what the encoder wrote *)

Ltac decide_tests :=
  repeat match goal with
         | |- context [ (?a <? ?b) ] => destruct (Z.ltb_spec a b); try lia
         | |- context [ (?a <=? ?b) ] => destruct (Z.leb_spec a b); try lia
         end.

Lemma utf8_decode_1 x0 r :
  0 <= x0 < 0x80 -> utf8_decode (byte_of_Z x0 :: r) = x0 :: utf8_decode r.
Proof.
  intros H. cbn [utf8_decode]. rewrite Z_of_byte_of_Z by lia. decide_tests. reflexivity.
Qed.

Lemma utf8_decode_2 x0 x1 r :
  0xC2 <= x0 < 0xE0 -> 0x80 <= x1 < 0xC0 ->
  utf8_decode (byte_of_Z x0 :: byte_of_Z x1 :: r)
  = ((x0 - 0xC0) * 64 + (x1 - 0x80)) :: utf8_decode r.
Proof.
  intros H0 H1. cbn [utf8_decode]. unfold is_continuation.
  rewrite !Z_of_byte_of_Z by lia. decide_tests. reflexivity.
Qed.

Lemma is_second_3 x0 x1 x2 :
  0xE0 <= x0 < 0xF0 -> 0x80 <= x1 < 0xC0 -> 0x80 <= x2 < 0xC0 ->
  0x800 <= (x0 - 0xE0) * 4096 + (x1 - 0x80) * 64 + (x2 - 0x80) ->
  ~ (0xD800 <= (x0 - 0xE0) * 4096 + (x1 - 0x80) * 64 + (x2 - 0x80) < 0xE000) ->
  is_second x0 x1 = true.
Proof.
  intros H0 H1 H2 Hlo Hs. unfold is_second, lower_boundary, upper_boundary.
  destruct (Z.eqb_spec x0 0xE0); destruct (Z.eqb_spec x0 0xF0);
    destruct (Z.eqb_spec x0 0xED); destruct (Z.eqb_spec x0 0xF4);
    apply andb_true_iff; split; try (apply Z.leb_le; lia).
Qed.

Lemma is_second_4 x0 x1 x2 x3 :
  0xF0 <= x0 < 0xF5 -> 0x80 <= x1 < 0xC0 -> 0x80 <= x2 < 0xC0 -> 0x80 <= x3 < 0xC0 ->
  0x10000 <= (x0 - 0xF0) * 262144 + (x1 - 0x80) * 4096 + (x2 - 0x80) * 64 + (x3 - 0x80)
    < 0x110000 ->
  is_second x0 x1 = true.
Proof.
  intros H0 H1 H2 H3 Hc. unfold is_second, lower_boundary, upper_boundary.
  destruct (Z.eqb_spec x0 0xE0); destruct (Z.eqb_spec x0 0xF0);
    destruct (Z.eqb_spec x0 0xED); destruct (Z.eqb_spec x0 0xF4);
    apply andb_true_iff; split; try (apply Z.leb_le; lia).
Qed.

Lemma utf8_decode_3 x0 x1 x2 r :
  0xE0 <= x0 < 0xF0 -> 0x80 <= x1 < 0xC0 -> 0x80 <= x2 < 0xC0 ->
  0x800 <= (x0 - 0xE0) * 4096 + (x1 - 0x80) * 64 + (x2 - 0x80) ->
  ~ (0xD800 <= (x0 - 0xE0) * 4096 + (x1 - 0x80) * 64 + (x2 - 0x80) < 0xE000) ->
  utf8_decode (byte_of_Z x0 :: byte_of_Z x1 :: byte_of_Z x2 :: r)
  = ((x0 - 0xE0) * 4096 + (x1 - 0x80) * 64 + (x2 - 0x80)) :: utf8_decode r.
Proof.
  intros H0 H1 H2 Hlo Hs. cbn [utf8_decode]. unfold is_continuation.
  rewrite !Z_of_byte_of_Z by lia.
  rewrite (is_second_3 x0 x1 x2 H0 H1 H2 Hlo Hs).
  destruct (Z.ltb_spec x0 0x80); [lia|].
  destruct (Z.leb_spec 0xC2 x0); [|lia].
  destruct (Z.ltb_spec x0 0xE0); [lia|].
  destruct (Z.leb_spec 0xE0 x0); [|lia].
  destruct (Z.ltb_spec x0 0xF0); [|lia].
  destruct (Z.leb_spec 0x80 x2); [|lia]. destruct (Z.ltb_spec x2 0xC0); [|lia].
  reflexivity.
Qed.

Lemma utf8_decode_4 x0 x1 x2 x3 r :
  0xF0 <= x0 < 0xF5 -> 0x80 <= x1 < 0xC0 -> 0x80 <= x2 < 0xC0 -> 0x80 <= x3 < 0xC0 ->
  0x10000 <= (x0 - 0xF0) * 262144 + (x1 - 0x80) * 4096 + (x2 - 0x80) * 64 + (x3 - 0x80)
    < 0x110000 ->
  utf8_decode (byte_of_Z x0 :: byte_of_Z x1 :: byte_of_Z x2 :: byte_of_Z x3 :: r)
  = units_of_code_point
      ((x0 - 0xF0) * 262144 + (x1 - 0x80) * 4096 + (x2 - 0x80) * 64 + (x3 - 0x80))
    ++ utf8_decode r.
Proof.
  intros H0 H1 H2 H3 Hc. cbn [utf8_decode]. unfold is_continuation.
  rewrite !Z_of_byte_of_Z by lia.
  rewrite (is_second_4 x0 x1 x2 x3 H0 H1 H2 H3 Hc).
  destruct (Z.ltb_spec x0 0x80); [lia|].
  destruct (Z.leb_spec 0xC2 x0); [|lia].
  destruct (Z.ltb_spec x0 0xE0); [lia|].
  destruct (Z.leb_spec 0xE0 x0); [|lia].
  destruct (Z.ltb_spec x0 0xF0); [lia|].
  destruct (Z.leb_spec 0xF0 x0); [|lia].
  destruct (Z.ltb_spec x0 0xF5); [|lia].
  destruct (Z.leb_spec 0x80 x2); [|lia]. destruct (Z.ltb_spec x2 0xC0); [|lia].
  destruct (Z.leb_spec 0x80 x3); [|lia]. destruct (Z.ltb_spec x3 0xC0); [|lia].
  reflexivity.
Qed.

Lemma decode_encode_code_point c tl :
  0 <= c < 0x110000 -> ~ (0xD800 <= c < 0xE000) ->
  utf8_decode (encode_code_point c ++ tl) = units_of_code_point c ++ utf8_decode tl.
Proof.
  intros Hc Hs. unfold encode_code_point.
  destruct (Z.ltb_spec c 0x80).
  { cbn [app]. rewrite utf8_decode_1 by lia.
    unfold units_of_code_point. destruct (Z.ltb_spec c 0x10000); [reflexivity|lia]. }
  destruct (Z.ltb_spec c 0x800).
  { cbn [app]. rewrite utf8_decode_2 by lia.
    unfold units_of_code_point. destruct (Z.ltb_spec c 0x10000); [|lia].
    cbn [app]. f_equal. lia. }
  destruct (Z.ltb_spec c 0x10000).
  { assert (E : (0xE0 + c / 4096 - 0xE0) * 4096 + (0x80 + (c / 64) mod 64 - 0x80) * 64
                + (0x80 + c mod 64 - 0x80) = c) by lia.
    cbn [app]. rewrite utf8_decode_3; rewrite ?E; try lia.
    unfold units_of_code_point. destruct (Z.ltb_spec c 0x10000); [reflexivity|lia]. }
  assert (E : (0xF0 + c / 262144 - 0xF0) * 262144 + (0x80 + (c / 4096) mod 64 - 0x80) * 4096
              + (0x80 + (c / 64) mod 64 - 0x80) * 64 + (0x80 + c mod 64 - 0x80) = c) by lia.
  cbn [app]. rewrite utf8_decode_4; rewrite ?E; try lia. reflexivity.
Qed.

Lemma utf8_decode_encode_aux n :
  forall s, (length s <= n)%nat -> well_formed s = true -> utf8_decode (utf8_encode s) = s.
Proof.
  induction n as [|n IH]; intros [|u r] Hn Hwf; try reflexivity; cbn [length] in Hn; [lia|].
  cbn [well_formed utf8_encode] in *.
  destruct (is_high_surrogate u) eqn:Hh.
  - destruct r as [|v r']; [discriminate|].
    apply andb_true_iff in Hwf as [Hl Hwf]. rewrite Hl.
    unfold is_high_surrogate, is_low_surrogate in Hh, Hl.
    rewrite decode_encode_code_point by lia.
    rewrite IH by (cbn [length] in Hn; first [assumption | lia]).
    unfold units_of_code_point.
    destruct (Z.ltb_spec (0x10000 + (u - 0xD800) * 0x400 + (v - 0xDC00)) 0x10000); [lia|].
    cbn [app]. f_equal; [lia|]. f_equal. lia.
  - destruct (is_low_surrogate u) eqn:Hl; [discriminate|].
    apply andb_true_iff in Hwf as [Hu Hwf].
    unfold is_high_surrogate, is_low_surrogate in Hh, Hl.
    rewrite decode_encode_code_point by lia.
    rewrite IH by (first [assumption | lia]).
    unfold units_of_code_point. destruct (Z.ltb_spec u 0x10000); [reflexivity|lia].
Qed.

Lemma utf8_decode_encode s : well_formed s = true -> utf8_decode (utf8_encode s) = s.
Proof. apply (utf8_decode_encode_aux (length s)). lia. Qed.

(** *** The vault *)

Section Vault.

Variable keystream : list ascii -> list ascii -> nat -> ascii.
Variable auth_tag : list ascii -> list ascii -> list ascii -> list ascii.

Local Abbreviation gctr := (gctr keystream).
Local Abbreviation encrypt := (encrypt keystream auth_tag).
Local Abbreviation decrypt := (decrypt keystream auth_tag).

Lemma gctr_from_involutive key iv i data :
  gctr_from keystream key iv i (gctr_from keystream key iv i data) = data.
Proof.
  revert i. induction data as [|b r IH]; intros i; [reflexivity|].
  cbn [gctr_from]. rewrite xor_byte_involutive, IH. reflexivity.
Qed.

Lemma gctr_involutive key iv data : gctr key iv (gctr key iv data) = data.
Proof. apply gctr_from_involutive. Qed.

Lemma createCipheriv_ok key iv :
  length key = 32%nat -> length iv <> 0%nat -> createCipheriv key iv = Ok tt.
Proof.
  intros Hk Hiv. unfold createCipheriv. rewrite Hk. cbn [Nat.eqb negb].
  destruct (Nat.eqb_spec (length iv) 0); [contradiction|reflexivity].
Qed.

Lemma split_envelope iv tag c :
  split colon (toString_hex iv ++ [colon] ++ toString_hex tag ++ [colon] ++ toString_hex c)
  = [toString_hex iv; toString_hex tag; toString_hex c].
Proof.
  cbn [app]. rewrite split_app_sep by apply toString_hex_no_colon.
  rewrite split_app_sep by apply toString_hex_no_colon.
  rewrite split_no_sep by apply toString_hex_no_colon. reflexivity.
Qed.

Lemma validateEncoding_hex_toString_hex buf :
  validateEncoding_hex (toString_hex buf) = Ok tt.
Proof.
  unfold validateEncoding_hex.
  assert (H : Nat.even (length (toString_hex buf)) = true); [|rewrite H; reflexivity].
  induction buf as [|b buf IH]; [reflexivity|].
  cbn [toString_hex flat_map hex_of_byte app length]. exact IH.
Qed.

(** What [decrypt] does with an envelope of three hex fields. *)
Lemma decrypt_envelope key iv tag c :
  decrypt key (toString_hex iv ++ [colon] ++ toString_hex tag ++ [colon] ++ toString_hex c)
  = try_catch
      (do _ <- createCipheriv key iv;
       do _ <- setAuthTag tag;
       do _ <- decipher_final auth_tag key iv c tag;
       Ok (utf8_decode (gctr key iv c)))
      (fun _ => Throw (Error "Failed to decrypt token")).
Proof.
  unfold TokenManager.decrypt. rewrite split_envelope.
  rewrite !Buffer_from_hex_toString_hex, validateEncoding_hex_toString_hex. reflexivity.
Qed.

Lemma decrypt_encrypt_bytes key iv s :
  (forall k v c, length (auth_tag k v c) = 16%nat) ->
  length key = 32%nat -> length iv = 16%nat ->
  exists envelope,
    encrypt key iv s = Ok envelope /\
    decrypt key envelope = Ok (utf8_decode (utf8_encode s)).
Proof.
  intros Htag Hk Hiv. eexists. split.
  - unfold TokenManager.encrypt. rewrite createCipheriv_ok by lia. reflexivity.
  - rewrite decrypt_envelope, createCipheriv_ok by lia.
    unfold setAuthTag, decipher_final. rewrite Htag. cbn [valid_tag_length existsb Nat.eqb orb bindR].
    rewrite <- (Htag key iv (TokenManager.gctr keystream key iv (utf8_encode s))) at 1.
    rewrite firstn_all. unfold bytes_eqb. rewrite bool_decide_eq_true_2 by reflexivity.
    cbn [bindR try_catch]. rewrite gctr_involutive. reflexivity.
Qed.

(** An unpaired surrogate does not survive the vault, whatever the cipher. *)
Lemma lone_surrogate_round_trip key iv :
  (forall k v c, length (auth_tag k v c) = 16%nat) ->
  length key = 32%nat -> length iv = 16%nat ->
  exists envelope,
    encrypt key iv [0xD800] = Ok envelope /\ decrypt key envelope = Ok [0xFFFD].
Proof.
  intros Htag Hk Hiv.
  destruct (decrypt_encrypt_bytes key iv [0xD800] Htag Hk Hiv) as (e & He & Hd).
  exists e. split; [exact He|]. rewrite Hd. reflexivity.
Qed.

(** C3 (as amended).  Under a 32-byte key, [decrypt (encrypt s)] returns
    [s] for every well-formed string [s] (no unpaired surrogate); [decrypt]
    raises on every envelope that does not split into exactly three
    colon-separated parts, and on every three-part envelope whose tag is
    not the leading part of the tag GCM computes for its IV and ciphertext
    under the key in use; in particular it raises when the tag of an
    envelope written by [encrypt] is replaced by another 16 bytes.
    [decrypt] returns a plaintext only if the tag verified. *)
Theorem vault_round_trip_and_tamper_rejection (key : list ascii) :
  (forall k v c, length (auth_tag k v c) = 16%nat) ->
  length key = 32%nat ->
  (forall iv s, length iv = 16%nat -> well_formed s = true ->
     exists envelope, encrypt key iv s = Ok envelope /\ decrypt key envelope = Ok s)
  /\ (forall envelope, length (split colon envelope) <> 3%nat ->
        decrypt key envelope = Throw (Error "Failed to decrypt token"))
  /\ (forall envelope ivHex authTagHex encrypted,
        split colon envelope = [ivHex; authTagHex; encrypted] ->
        Buffer_from_hex authTagHex
          <> take (length (Buffer_from_hex authTagHex))
                  (auth_tag key (Buffer_from_hex ivHex) (Buffer_from_hex encrypted)) ->
        decrypt key envelope = Throw (Error "Failed to decrypt token"))
  /\ (forall iv s tag', length tag' = 16%nat ->
        tag' <> auth_tag key iv (gctr key iv (utf8_encode s)) ->
        decrypt key (toString_hex iv ++ [colon] ++ toString_hex tag' ++ [colon]
                       ++ toString_hex (gctr key iv (utf8_encode s)))
        = Throw (Error "Failed to decrypt token"))
  /\ (forall envelope text, decrypt key envelope = Ok text ->
        exists ivHex authTagHex encrypted,
          split colon envelope = [ivHex; authTagHex; encrypted] /\
          Buffer_from_hex authTagHex
            = take (length (Buffer_from_hex authTagHex))
                   (auth_tag key (Buffer_from_hex ivHex) (Buffer_from_hex encrypted)) /\
          text = utf8_decode (gctr key (Buffer_from_hex ivHex) (Buffer_from_hex encrypted))).
Proof.
  intros Htag Hk. split; [|split; [|split; [|split]]].
  - intros iv s Hiv Hwf.
    destruct (decrypt_encrypt_bytes key iv s Htag Hk Hiv) as (e & He & Hd).
    exists e. split; [exact He|]. rewrite Hd, utf8_decode_encode by exact Hwf. reflexivity.
  - intros envelope Hparts. unfold TokenManager.decrypt.
    destruct (split colon envelope) as [|a [|b [|c [|d l]]]]; try reflexivity.
    cbn [length] in Hparts. lia.
  - intros envelope ivHex authTagHex encrypted Hsplit Htamper.
    unfold TokenManager.decrypt. rewrite Hsplit.
    destruct (createCipheriv key (Buffer_from_hex ivHex)) as [[]|]; [|reflexivity].
    destruct (setAuthTag (Buffer_from_hex authTagHex)) as [[]|]; [|reflexivity].
    destruct (validateEncoding_hex encrypted) as [[]|]; [|reflexivity].
    cbn [bindR]. unfold decipher_final, bytes_eqb.
    rewrite bool_decide_eq_false_2 by exact Htamper. reflexivity.
  - intros iv s tag' Hlen Hne. rewrite decrypt_envelope.
    destruct (createCipheriv key iv) as [[]|]; [|reflexivity].
    destruct (setAuthTag tag') as [[]|]; [|reflexivity].
    cbn [bindR]. unfold decipher_final, bytes_eqb.
    rewrite bool_decide_eq_false_2; [reflexivity|].
    rewrite Hlen, <- (Htag key iv (TokenManager.gctr keystream key iv (utf8_encode s))).
    rewrite firstn_all. exact Hne.
  - intros envelope text. unfold TokenManager.decrypt.
    destruct (split colon envelope) as [|ivHex [|authTagHex [|encrypted [|d l]]]];
      try discriminate.
    destruct (createCipheriv key (Buffer_from_hex ivHex)) as [[]|]; [|discriminate].
    destruct (setAuthTag (Buffer_from_hex authTagHex)) as [[]|]; [|discriminate].
    destruct (validateEncoding_hex encrypted) as [[]|]; [|discriminate].
    cbn [bindR]. unfold decipher_final, bytes_eqb. case_bool_decide as Heq; [|discriminate].
    cbn [bindR try_catch]. intros [= <-].
    exists ivHex, authTagHex, encrypted. split; [reflexivity|]. split; [exact Heq|reflexivity].
Qed.

End Vault.

(** The amended C3 on the stand-in cipher: "hi" and an emoji come back, a
    two-part envelope and a forged tag are refused. *)
Lemma vault_round_trip_witness :
  (exists envelope,
     encrypt demo_keystream demo_auth_tag demo_key demo_iv [104; 105; 0xD83D; 0xDE00]
       = Ok envelope /\
     decrypt demo_keystream demo_auth_tag demo_key envelope = Ok [104; 105; 0xD83D; 0xDE00])
  /\ decrypt demo_keystream demo_auth_tag demo_key [48; 48; colon; 48; 48]
     = Throw (Error "Failed to decrypt token").
Proof.
  destruct (vault_round_trip_and_tamper_rejection demo_keystream demo_auth_tag demo_key)
    as (Hrt & Hparts & _).
  - intros k v c. reflexivity.
  - reflexivity.
  - split.
    + apply Hrt; reflexivity.
    + apply Hparts. vm_compute. lia.
Defined.

(** C3 as stated fails: the string made of the single code unit U+D800 is
    written out as U+FFFD by the UTF-8 step and comes back as U+FFFD. *)
Lemma vault_round_trip_not_for_every_string :
  ~ (forall keystream auth_tag key iv s,
       (forall k v c, length (auth_tag k v c) = 16%nat) ->
       length key = 32%nat -> length iv = 16%nat ->
       exists envelope,
         encrypt keystream auth_tag key iv s = Ok envelope /\
         decrypt keystream auth_tag key envelope = Ok s).
Proof.
  intros H.
  destruct (H demo_keystream demo_auth_tag demo_key demo_iv [0xD800])
    as (e & He & Hd); try reflexivity.
  destruct (lone_surrogate_round_trip demo_keystream demo_auth_tag demo_key demo_iv)
    as (e' & He' & Hd'); try reflexivity.
  rewrite He in He'. injection He' as ->. rewrite Hd in Hd'. discriminate.
Qed.

(** *** Webhook signatures *)

(** C10.  [validateWebhookSignature] always returns a boolean: when the
    signature's byte length differs from that of the hex digest,
    [crypto.timingSafeEqual] raises and the function answers [false]; when
    the lengths agree it answers whether the bytes are equal. *)
Theorem validateWebhookSignature_total
    (hmac : HmacAlgorithm -> list ascii -> list ascii -> list ascii)
    (payload signature secret : jsstring) (algorithm : HmacAlgorithm) :
  let expected :=
    utf8_encode (toString_hex (hmac algorithm (utf8_encode secret) (utf8_encode payload))) in
  exists b : bool,
    validateWebhookSignature hmac payload signature secret algorithm = Ok b /\
    (length (utf8_encode signature) <> length expected ->
       timingSafeEqual (utf8_encode signature) expected
         = Throw (Error "Input buffers must have the same byte length")
       /\ b = false) /\
    (length (utf8_encode signature) = length expected ->
       b = bool_decide (utf8_encode signature = expected)).
Proof.
  intros expected. unfold validateWebhookSignature, timingSafeEqual. fold expected.
  destruct (Nat.eqb_spec (length (utf8_encode signature)) (length expected)) as [E|E].
  - eexists. split; [reflexivity|]. split; [intros; contradiction|]. reflexivity.
  - exists false. split; [reflexivity|]. split; [auto|intros; contradiction].
Qed.

End TokenManagerSpec.

Module SchedulerLockSpec.
Import SchedulerLock.

Lemma remove_first_head k l : remove_first k (k :: l) = l.
Proof. cbn [remove_first]. rewrite Z.eqb_refl. reflexivity. Qed.

Lemma mem_head k l : mem k (k :: l) = true.
Proof. unfold mem. cbn [existsb]. rewrite Z.eqb_refl. reflexivity. Qed.

(** Whether the lock was acquired, against what the server was asked. *)
Ltac acquired_iff :=
  split;
  [ intros Hacq; first [discriminate Hacq|split; [discriminate|reflexivity]]
  | intros [Hfault Hfree];
    first [reflexivity|discriminate Hfree|exfalso; apply Hfault; reflexivity] ].

Section Locks.

Variable hashtext : string -> Z.
Context {St T : Type}.


End Locks.

Import SchedulerTick.


End SchedulerLockSpec.

Module RoutesSpec.
Import Prisma Routes.

(** C9.  For a user with no integration of the provider that is not
    soft-deleted, [GET /integrations/{provider}/status] answers 200 with
    the body [{connected: false, provider}], whatever the provider
    identifier. *)
Theorem status_of_missing_integration (userId provider : string) (d : Db) :
  (forall i, In i (integration d) ->
     ~ (Integration.userId i = userId /\ Integration.provider i = provider
        /\ Integration.deletedAt i = None)) ->
  get_status userId provider d
  = mkResponse 200 (JObject [("connected", JBool false); ("provider", JString provider)]).
Proof.
  intros Hnone. unfold get_status, findFirst_active.
  replace (List.filter _ (integration d)) with (@nil Integration.t); [reflexivity|].
  symmetry. induction (integration d) as [|i r IH]; [reflexivity|].
  cbn [List.filter].
  destruct (String.eqb_spec (Integration.userId i) userId) as [Hu|Hu];
    destruct (String.eqb_spec (Integration.provider i) provider) as [Hp|Hp];
    try case_bool_decide; cbn [andb];
    try (apply IH; intros j Hj; apply Hnone; right; exact Hj).
  exfalso. apply (Hnone i); [left; reflexivity|auto].
Qed.

(** C9 on three rows: "user-1" has a marketing account that was soft-deleted
    and a shop, "user-2" has a live marketing account. *)
Lemma status_of_missing_integration_witness :
  (forall i, In i (Prisma.integration Routes.demo_db) ->
             ~ (Integration.userId i = "user-1" /\ Integration.provider i = "klaviyo"
                /\ Integration.deletedAt i = None))
  /\ get_status "user-1" "klaviyo" Routes.demo_db
     = mkResponse 200 (JObject [("connected", JBool false); ("provider", JString "klaviyo")]).
Proof.
  assert (H : forall i, In i (Prisma.integration Routes.demo_db) ->
                        ~ (Integration.userId i = "user-1"
                           /\ Integration.provider i = "klaviyo"
                           /\ Integration.deletedAt i = None)).
  { intros i [<-|[<-|[<-|[]]]] (a & b & c); cbn in a, b, c; discriminate. }
  split; [exact H|].
  exact (status_of_missing_integration "user-1" "klaviyo" Routes.demo_db H).
Defined.

End RoutesSpec.

Module ConnectorManagerSpec.
Import Prisma ConnectorManager AsyncFacts.

(** *** The Integration table under its unique index *)

Lemma find_none_not_in k rows :
  List.find (has_key k) rows = None -> ~ In k (map key_of rows).
Proof.
  induction rows as [|i r IH]; cbn [List.find map In]; [tauto|].
  unfold has_key at 1. case_bool_decide as Hk; [discriminate|].
  intros Hf [H|H]; [contradiction|]. exact (IH Hf H).
Qed.

Lemma find_some_key k rows i : List.find (has_key k) rows = Some i -> key_of i = k.
Proof.
  intros H. apply find_some in H as [_ H]. unfold has_key in H.
  apply bool_decide_eq_true_1 in H. exact H.
Qed.

Lemma map_key_update_where p f rows :
  (forall i, key_of (f i) = key_of i) ->
  map key_of (update_where p f rows) = map key_of rows.
Proof.
  intros Hf. unfold update_where. rewrite map_map. apply map_ext.
  intros i. destruct (p i); [apply Hf|reflexivity].
Qed.

Lemma find_update_where k f rows old :
  (forall i, key_of (f i) = key_of i) ->
  List.find (has_key k) rows = Some old ->
  List.find (has_key k) (update_where (has_key k) f rows) = Some (f old).
Proof.
  intros Hf. induction rows as [|i r IH]; cbn [List.find update_where map]; [discriminate|].
  destruct (has_key k i) eqn:Hi.
  - intros [= ->]. unfold has_key in *. rewrite Hf, Hi. reflexivity.
  - intros H. rewrite Hi. apply IH. exact H.
Qed.

Lemma find_app_new k rows i :
  List.find (has_key k) rows = None -> key_of i = k ->
  List.find (has_key k) (rows ++ [i]) = Some i.
Proof.
  intros Hn Hk. induction rows as [|j r IH]; cbn [List.find app] in *.
  - unfold has_key. rewrite bool_decide_eq_true_2 by exact Hk. reflexivity.
  - destruct (has_key k j); [discriminate|]. apply IH. exact Hn.
Qed.

(** Under the unique index a key has at most one row, live or not. *)
Lemma filter_key_unique k (q : Integration.t -> bool) rows :
  NoDup (map key_of rows) ->
  (length (List.filter (fun i => has_key k i && q i) rows) <= 1)%nat.
Proof.
  induction rows as [|i r IH]; cbn [map List.filter length]; [lia|].
  intros Hnd. apply NoDup_cons in Hnd as [Hi Hnd].
  destruct (has_key k i) eqn:Hk; cbn [andb]; [|apply IH; exact Hnd].
  assert (List.filter (fun j => has_key k j && q j) r = []) as ->.
  { clear IH Hnd. unfold has_key in Hk. apply bool_decide_eq_true_1 in Hk. subst k.
    induction r as [|j r IHr]; [reflexivity|]. cbn [List.filter map] in *.
    unfold has_key at 1. case_bool_decide as Hj.
    - exfalso. apply Hi. rewrite Hj. left.
    - apply IHr. intros H. apply Hi. right. exact H. }
  destruct (q i); cbn [length]; lia.
Qed.

Lemma live_row_found k rows i :
  NoDup (map key_of rows) ->
  List.find (has_key k) rows = Some i -> Integration.deletedAt i = None ->
  length (List.filter (fun j => has_key k j && bool_decide (Integration.deletedAt j = None))
            rows) = 1%nat.
Proof.
  intros Hnd Hf Hlive.
  pose proof (filter_key_unique k (fun j => bool_decide (Integration.deletedAt j = None))
                rows Hnd) as Hle.
  apply find_some in Hf as [Hin Hk].
  assert (In i (List.filter
                  (fun j => has_key k j && bool_decide (Integration.deletedAt j = None)) rows))
    as Hin'.
  { apply filter_In. split; [exact Hin|]. rewrite Hk.
    rewrite bool_decide_eq_true_2 by exact Hlive. reflexivity. }
  destruct (List.filter _ rows) as [|a [|b l]]; cbn [length] in *; [contradiction|lia|lia].
Qed.


Section Manager.

Variable JSON_parse : string -> Result StateData.
Variable token_endpoint :
  Connector -> gmap string string -> string -> option string -> Result TokenData.
Variable encrypt : string -> Result string.
Variable cuid : nat -> string.

Local Abbreviation validateOAuthState := (validateOAuthState JSON_parse).
Local Abbreviation handleOAuthCallback :=
  (handleOAuthCallback JSON_parse token_endpoint encrypt cuid).

(** A state is valid when its row exists, has not expired and parses. *)
Lemma validateOAuthState_spec state w :
  validateOAuthState state w =
  Returned
    (match oAuthState (db w) !! state with
     | Some row =>
       if OAuthState.expiresAt row <? now (db w) then None
       else match JSON_parse (OAuthState.data row) with
            | Ok sd => Some sd
            | Throw _ => None
            end
     | None => None
     end) w.
Proof.
  unfold ConnectorManager.validateOAuthState, catch, bind, gets, ret.
  destruct (oAuthState (db w) !! state) as [row|]; [|reflexivity].
  destruct (OAuthState.expiresAt row <? now (db w)); [reflexivity|].
  destruct (JSON_parse (OAuthState.data row)); reflexivity.
Qed.

Lemma enqueueInstantInsights_spec userId w :
  exists w', enqueueInstantInsights userId w = Returned tt w'
             /\ integration (db w') = integration (db w)
             /\ oAuthState (db w') = oAuthState (db w)
             /\ exchanges w' = exchanges w.
Proof.
  unfold enqueueInstantInsights, catch, bind, gets, ret, user_touch.
  destruct (findFirst_connected userId "shopify" (db w));
    destruct (findFirst_connected userId "klaviyo" (db w)); eauto.
  destruct (existsb _ (user (db w))); eauto.
Qed.

(** An exchange that returned was made by one of the two connectors and
    gave what the token endpoint answered. *)
Lemma exchangeCodeForTokens_Returned c md provider code cv td w w2 :
  ConnectorManager.exchangeCodeForTokens token_endpoint c md provider code cv w
  = Returned td w2 ->
  c <> NotAConnector
  /\ token_endpoint c md code cv = Ok td
  /\ w2 = mkWorld (db w) ((provider, code) :: exchanges w).
Proof.
  unfold ConnectorManager.exchangeCodeForTokens. intros H.
  assert (Hc : c <> NotAConnector) by (intros ->; discriminate).
  split; [exact Hc|].
  assert (Hx : (let! _ := lift (getOAuthConfig_scopes c md) in
                let! _ := modify (fun w => mkWorld (db w) ((provider, code) :: exchanges w)) in
                lift (token_endpoint c md code cv)) w = Returned td w2)
    by (destruct c; [exact H|exact H|contradiction]).
  apply bind_Returned in Hx as (sc0 & w3 & Hsc0 & Hx). apply lift_Returned in Hsc0 as [Hsc0 ->].
  apply bind_Returned in Hx as ([] & w4 & Hm & Hx). injection Hm as <-.
  apply lift_Returned in Hx as [Htd ->]. auto.
Qed.

(** The callback's answer to a state that is not valid: nothing happens. *)
Lemma handleOAuthCallback_invalid_state provider code state md w :
  validateOAuthState state w = Returned None w ->
  handleOAuthCallback provider code state md w = Thrown (Error "Invalid OAuth state") w.
Proof.
  intros H. unfold ConnectorManager.handleOAuthCallback.
  rewrite (bind_Returned_l _ _ _ _ _ H). reflexivity.
Qed.

(** What a callback that returned has done. *)
Lemma handleOAuthCallback_returned provider code state md w i w' :
  handleOAuthCallback provider code state md w = Returned i w' ->
  exists row sd c td ea er sc,
    oAuthState (db w) !! state = Some row
    /\ (OAuthState.expiresAt row <? now (db w)) = false
    /\ JSON_parse (OAuthState.data row) = Ok sd
    /\ createConnector provider = Ok c
    /\ token_endpoint c (spread (or_empty (state_metadata sd)) md) code (codeVerifier sd)
       = Ok td
    /\ truthy (accountId td) = true
    /\ encryptTokens encrypt td = Ok (ea, er)
    /\ (let k := (userId sd, provider, accountId td) in
        let merged := spread (spread (or_empty (state_metadata sd)) md)
                             (or_empty (metadata td)) in
        match integration_findUnique k (db w) with
        | Some old =>
          i = upsert_update ea er td merged sc (now (db w)) old
          /\ integration (db w')
             = update_where (has_key k) (upsert_update ea er td merged sc (now (db w)))
                 (integration (db w))
        | None =>
          i = upsert_create (userId sd) provider ea er td merged sc (now (db w))
                (cuid (minted (db w)))
          /\ integration (db w') = integration (db w) ++ [i]
        end)
    /\ oAuthState (db w') = delete state (oAuthState (db w))
    /\ exchanges w' = (provider, code) :: exchanges w.
Proof.
  unfold ConnectorManager.handleOAuthCallback. intros H.
  apply bind_Returned in H as (o & w1 & Hv & H).
  rewrite validateOAuthState_spec in Hv. injection Hv as <- <-.
  destruct (oAuthState (db w) !! state) as [row|] eqn:Hrow; [|discriminate].
  destruct (OAuthState.expiresAt row <? now (db w)) eqn:Hexp; [discriminate|].
  destruct (JSON_parse (OAuthState.data row)) as [sd|] eqn:Hsd; [|discriminate].
  apply bind_Returned in H as (c & w1 & Hc & H). apply lift_Returned in Hc as [Hc ->].
  apply bind_Returned in H as (td & w2 & Hx & H).
  apply exchangeCodeForTokens_Returned in Hx as (Hnot & Htd & ->).
  destruct (truthy (accountId td)) eqn:Hacc; cbn [negb] in H; [|discriminate].
  apply bind_Returned in H as ([ea er] & w5 & He & H). apply lift_Returned in He as [He ->].
  apply bind_Returned in H as (sc & w6 & Hsc & H). apply lift_Returned in Hsc as [Hsc ->].
  apply bind_Returned in H as (today & w7 & Ht & H). injection Ht as <- <-.
  apply bind_Returned in H as (i0 & w8 & Hu & H).
  apply bind_Returned in H as ([] & w9 & Hcl & H). injection Hcl as <-.
  apply bind_Returned in H as ([] & w10 & Hq & H). injection H as <- <-.
  destruct (enqueueInstantInsights_spec (Integration.userId i0) (on_db
             (fun d => set_oAuthState (delete state (oAuthState d)) d) w8))
    as (wq & Hq' & Hi & Ho & Hex).
  rewrite Hq in Hq'. injection Hq' as <-.
  exists row, sd, c, td, ea, er, sc. repeat (split; [assumption || reflexivity|]).
  cbn [fst snd] in Hu. unfold integration_upsert in Hu. cbn [db exchanges] in Hu.
  rewrite Hi, Ho, Hex. cbn [on_db db exchanges set_oAuthState oAuthState integration].
  destruct (integration_findUnique _ _) as [old|]; injection Hu as <- <-;
    cbn [on_db db exchanges set_integration set_minted integration oAuthState]; auto.
Qed.

(** What the vault made of the two tokens of an exchange. *)
Lemma encryptTokens_Ok td ea er :
  encryptTokens encrypt td = Ok (ea, er) ->
  encrypt (accessToken td) = Ok ea
  /\ match refreshToken td with
     | Some r =>
       if truthy r then exists e, encrypt r = Ok e /\ er = Some e else er = None
     | None => er = None
     end.
Proof.
  unfold encryptTokens. destruct (encrypt (accessToken td)) as [a|]; cbn; [|discriminate].
  destruct (refreshToken td) as [r|]; [destruct (truthy r)|].
  - destruct (encrypt r) as [e|]; cbn; [|discriminate]. intros [= <- <-]. eauto.
  - cbn. intros [= <- <-]. auto.
  - cbn. intros [= <- <-]. auto.
Qed.

(** Under the unique index the update of the upsert rewrites one row. *)
Lemma update_where_unique k f rows old :
  NoDup (map key_of rows) ->
  List.find (has_key k) rows = Some old ->
  update_where (has_key k) f rows
  = map (fun j => if has_key k j then f old else j) rows.
Proof.
  intros Hnd Hf. unfold update_where. apply map_ext_in. intros j Hj.
  destruct (has_key k j) eqn:Hk; [|reflexivity]. f_equal.
  apply find_some in Hf as [Hin Hko]. unfold has_key in *.
  apply bool_decide_eq_true_1 in Hk. apply bool_decide_eq_true_1 in Hko.
  clear f. induction rows as [|x r IH]; [destruct Hj|].
  cbn [map] in Hnd. apply NoDup_cons in Hnd as [Hx Hnd].
  assert (Hmem : forall y, In y r -> key_of y = k -> key_of x <> k).
  { intros y Hy Hyk Hxk. apply Hx. rewrite Hxk, <- Hyk.
    apply list_elem_of_In, in_map, Hy. }
  destruct Hj as [<-|Hj], Hin as [<-|Hin]; [reflexivity| | |apply IH; assumption].
  - destruct (Hmem old Hin Hko Hk).
  - destruct (Hmem j Hj Hk Hko).
Qed.

(** One callback from a table that respects the unique index. *)
Lemma handleOAuthCallback_upsert provider code state md w i w' :
  unique_keys (db w) ->
  handleOAuthCallback provider code state md w = Returned i w' ->
  unique_keys (db w')
  /\ integration_findUnique (key_of i) (db w') = Some i
  /\ Integration.status i = "connected"
  /\ Integration.deletedAt i = None
  /\ (exists row sd c td,
        oAuthState (db w) !! state = Some row
        /\ JSON_parse (OAuthState.data row) = Ok sd
        /\ createConnector provider = Ok c
        /\ token_endpoint c (spread (or_empty (state_metadata sd)) md) code (codeVerifier sd)
           = Ok td
        /\ key_of i = (userId sd, provider, accountId td)
        /\ encrypt (accessToken td) = Ok (Integration.accessToken i)
        /\ match refreshToken td with
           | Some r =>
             if truthy r
             then exists e, encrypt r = Ok e /\ Integration.refreshToken i = Some e
             else Integration.refreshToken i = None
           | None => Integration.refreshToken i = None
           end
        /\ Integration.expiresAt i
           = match expiresAt td with
             | Some e => Some e
             | None => old ← integration_findUnique (key_of i) (db w); Integration.expiresAt old
             end)
  /\ match integration_findUnique (key_of i) (db w) with
     | Some old =>
       Integration.id i = Integration.id old
       /\ length (integration (db w')) = length (integration (db w))
       /\ integration (db w')
          = map (fun j => if has_key (key_of i) j then i else j) (integration (db w))
     | None => integration (db w') = integration (db w) ++ [i]
     end.
Proof.
  intros Huniq H.
  apply handleOAuthCallback_returned in H
    as (row & sd & c & td & ea & er & sc & Hrow & _ & Hsd & Hc & Htd & _ & Henc & Hup & _ & _).
  apply encryptTokens_Ok in Henc as [Hea Her].
  cbv zeta in Hup. unfold unique_keys, integration_findUnique in *.
  destruct (List.find _ (integration (db w))) as [old|] eqn:Hfind.
  - destruct Hup as [-> Hrows].
    pose proof (find_some_key _ _ _ Hfind) as Hk.
    assert (Hsame : forall j, key_of (upsert_update ea er td
              (spread (spread (or_empty (state_metadata sd)) md) (or_empty (metadata td)))
              sc (now (db w)) j) = key_of j) by reflexivity.
    change (key_of (upsert_update _ _ _ _ _ _ old)) with (key_of old).
    rewrite Hk, Hrows, Hfind.
    split; [rewrite map_key_update_where by exact Hsame; exact Huniq|].
    split; [apply find_update_where; [exact Hsame|exact Hfind]|].
    split; [reflexivity|]. split; [reflexivity|].
    split.
    { exists row, sd, c, td. repeat (split; [assumption|]).
      split; [reflexivity|]. split; [exact Hea|]. split; [|reflexivity].
      cbn [upsert_update Integration.refreshToken].
      destruct (refreshToken td) as [r|]; [destruct (truthy r)|]; exact Her. }
    split; [reflexivity|]. split; [unfold update_where; apply length_map|].
    apply update_where_unique; assumption.
  - destruct Hup as [Hi Hrows].
    assert (Hk : key_of i = (userId sd, provider, accountId td)) by (rewrite Hi; reflexivity).
    rewrite Hk, Hrows, Hfind.
    split.
    { rewrite map_app. cbn [map]. rewrite Hk.
      apply NoDup_app. split; [exact Huniq|]. split; [|apply NoDup_singleton].
      intros x Hx Hx'. apply list_elem_of_In in Hx. apply list_elem_of_In in Hx'.
      cbn [In] in Hx'. destruct Hx' as [<-|[]].
      exact (find_none_not_in _ _ Hfind Hx). }
    split; [apply find_app_new; [exact Hfind|exact Hk]|].
    rewrite Hi. split; [reflexivity|]. split; [reflexivity|].
    split; [|reflexivity].
    exists row, sd, c, td. repeat (split; [assumption|]).
    split; [reflexivity|]. split; [exact Hea|]. split.
    + cbn [upsert_create Integration.refreshToken].
      destruct (refreshToken td) as [r|]; [destruct (truthy r)|]; exact Her.
    + cbn [upsert_create Integration.expiresAt]. destruct (expiresAt td); reflexivity.
Qed.

(** C1.  Two callbacks that succeed one after the other and resolve to the
    same (userId, provider, accountId) leave exactly one row with that key
    that is not soft-deleted: the second call rewrites the row the first one
    left (same id) and leaves every other row of the table as it was.  The
    row then holds the tokens of the second exchange, the one the provider
    answered to the second code for the connector of the second state: the
    access token as [encrypt] returned it, the refresh token as [encrypt]
    returned it, or null when the exchange gave none, and the expiry of the
    exchange, or the earlier one when the exchange gave none.  Its status is
    'connected' and its [deletedAt] is null.  A first callback for a key
    with no row appends a fresh row; on a key that has a row, whatever its
    state, it rewrites that row to 'connected' with [deletedAt] null and
    leaves the others. *)
Theorem handleOAuthCallback_idempotent_upsert
    (p1 p2 code1 code2 state1 state2 : string) (md1 md2 : gmap string string)
    (w0 w1 w2 : World) (i1 i2 : Integration.t) :
  unique_keys (db w0) ->
  handleOAuthCallback p1 code1 state1 md1 w0 = Returned i1 w1 ->
  handleOAuthCallback p2 code2 state2 md2 w1 = Returned i2 w2 ->
  key_of i1 = key_of i2 ->
  unique_keys (db w2)
  /\ live_rows (key_of i2) (db w2) = 1%nat
  /\ integration_findUnique (key_of i2) (db w2) = Some i2
  /\ Integration.id i2 = Integration.id i1
  /\ length (integration (db w2)) = length (integration (db w1))
  /\ integration (db w2)
     = map (fun j => if has_key (key_of i2) j then i2 else j) (integration (db w1))
  /\ Integration.status i2 = "connected"
  /\ Integration.deletedAt i2 = None
  /\ (exists row sd c td,
        oAuthState (db w1) !! state2 = Some row
        /\ JSON_parse (OAuthState.data row) = Ok sd
        /\ createConnector p2 = Ok c
        /\ token_endpoint c (spread (or_empty (state_metadata sd)) md2) code2 (codeVerifier sd)
           = Ok td
        /\ key_of i2 = (userId sd, p2, accountId td)
        /\ encrypt (accessToken td) = Ok (Integration.accessToken i2)
        /\ match refreshToken td with
           | Some r =>
             if truthy r
             then exists e, encrypt r = Ok e /\ Integration.refreshToken i2 = Some e
             else Integration.refreshToken i2 = None
           | None => Integration.refreshToken i2 = None
           end
        /\ Integration.expiresAt i2
           = match expiresAt td with
             | Some e => Some e
             | None => Integration.expiresAt i1
             end)
  /\ (integration_findUnique (key_of i1) (db w0) = None ->
        integration (db w1) = integration (db w0) ++ [i1])
  /\ (forall old, integration_findUnique (key_of i1) (db w0) = Some old ->
        Integration.id i1 = Integration.id old
        /\ Integration.status i1 = "connected"
        /\ Integration.deletedAt i1 = None
        /\ length (integration (db w1)) = length (integration (db w0))
        /\ integration (db w1)
           = map (fun j => if has_key (key_of i1) j then i1 else j) (integration (db w0))).
Proof.
  intros Huniq H1 H2 Hkey.
  destruct (handleOAuthCallback_upsert _ _ _ _ _ _ _ Huniq H1)
    as (Hu1 & Hf1 & Hs1 & Hd1 & _ & Hpath1).
  destruct (handleOAuthCallback_upsert _ _ _ _ _ _ _ Hu1 H2)
    as (Hu2 & Hf2 & Hs2 & Hd2 & Htok2 & Hpath2).
  rewrite <- Hkey, Hf1 in Hpath2. destruct Hpath2 as (Hid & Hlen & Hrows).
  split; [exact Hu2|].
  split; [unfold live_rows; apply (live_row_found _ _ i2); assumption|].
  split; [exact Hf2|]. split; [exact Hid|]. split; [exact Hlen|].
  split; [rewrite <- Hkey; exact Hrows|].
  split; [exact Hs2|]. split; [exact Hd2|].
  split.
  { destruct Htok2 as (row & sd & c & td & Hrow & Hsd & Hc & Htd & Hk & Hea & Her & Hexp).
    exists row, sd, c, td. repeat (split; [assumption|]).
    rewrite Hexp, <- Hkey, Hf1. reflexivity. }
  split.
  - intros Hnone. rewrite Hnone in Hpath1. exact Hpath1.
  - intros old Hold. rewrite Hold in Hpath1. destruct Hpath1 as (Hid1 & Hlen1 & Hrows1).
    auto.
Qed.

(** C2.  A callback whose state row is missing or past its expiry throws
    'Invalid OAuth state' and leaves the world as it was: no token exchange
    was requested and no table was written.  A callback that returns has
    deleted its state row, and every later callback with that state value
    throws 'Invalid OAuth state', again without touching anything. *)
Theorem oauth_state_single_use :
  (forall provider code state md w,
     (oAuthState (db w) !! state = None
      \/ exists row, oAuthState (db w) !! state = Some row
                     /\ OAuthState.expiresAt row < now (db w)) ->
     handleOAuthCallback provider code state md w
     = Thrown (Error "Invalid OAuth state") w)
  /\ (forall provider code state md w i w',
        handleOAuthCallback provider code state md w = Returned i w' ->
        oAuthState (db w') !! state = None
        /\ forall provider' code' md',
             handleOAuthCallback provider' code' state md' w'
             = Thrown (Error "Invalid OAuth state") w').
Proof.
  split.
  - intros provider code state md w Hbad. apply handleOAuthCallback_invalid_state.
    rewrite validateOAuthState_spec.
    destruct Hbad as [->|(row & -> & Hexp)]; [reflexivity|].
    destruct (Z.ltb_spec (OAuthState.expiresAt row) (now (db w))); [reflexivity|lia].
  - intros provider code state md w i w' H.
    apply handleOAuthCallback_returned in H
      as (row & sd & c & td & ea & er & sc & _ & _ & _ & _ & _ & _ & _ & _ & Hdel & _).
    assert (Hgone : oAuthState (db w') !! state = None)
      by (rewrite Hdel; apply lookup_delete_eq).
    split; [exact Hgone|]. intros provider' code' md'.
    apply handleOAuthCallback_invalid_state.
    rewrite validateOAuthState_spec, Hgone. reflexivity.
Qed.

End Manager.

(** C1 on the stand-in environment: the codes "c1" and "c2", under the
    states "s1" and "s2", resolve to the same account; the row holds both
    tokens of the second exchange, as the vault sealed them. *)
Lemma handleOAuthCallback_upsert_witness :
  exists i1 w1 i2 w2,
    handleOAuthCallback demo_JSON_parse demo_token_endpoint demo_encrypt demo_cuid
      "klaviyo" "c1" "s1" ∅ demo_world = Returned i1 w1
    /\ handleOAuthCallback demo_JSON_parse demo_token_endpoint demo_encrypt demo_cuid
         "klaviyo" "c2" "s2" ∅ w1 = Returned i2 w2
    /\ live_rows (key_of i2) (db w2) = 1%nat
    /\ integration (db w2) = [i2]
    /\ Integration.accessToken i2 = "enc:access-c2"
    /\ Integration.refreshToken i2 = Some "enc:refresh-c2".
Proof.
  destruct (handleOAuthCallback demo_JSON_parse demo_token_endpoint demo_encrypt demo_cuid
              "klaviyo" "c1" "s1" ∅ demo_world) as [i1 w1| |] eqn:H1;
    [|vm_compute in H1; discriminate..].
  destruct (handleOAuthCallback demo_JSON_parse demo_token_endpoint demo_encrypt demo_cuid
              "klaviyo" "c2" "s2" ∅ w1) as [i2 w2| |] eqn:H2.
  2,3: vm_compute in H1; injection H1 as <- <-; vm_compute in H2; discriminate.
  exists i1, w1, i2, w2. split; [reflexivity|]. split; [exact H2|].
  assert (Hkey : key_of i1 = key_of i2).
  { vm_compute in H1. injection H1 as <- <-. vm_compute in H2. injection H2 as <- <-.
    reflexivity. }
  destruct (handleOAuthCallback_idempotent_upsert
              demo_JSON_parse demo_token_endpoint demo_encrypt demo_cuid
              "klaviyo" "klaviyo" "c1" "c2" "s1" "s2" ∅ ∅ demo_world w1 w2 i1 i2)
    as (_ & Hlive & _ & _ & _ & Hrows & _ & _ & Htok & _);
    [apply NoDup_nil; exact I|exact H1|exact H2|exact Hkey|].
  split; [exact Hlive|].
  destruct Htok as (row & sd & c & td & _ & _ & Hc & Htd & _ & Hea & Her & _).
  injection Hc as <-. injection Htd as <-.
  cbn [refreshToken accessToken truthy negb String.eqb Ascii.eqb Bool.eqb] in Hea, Her.
  destruct Her as (e & He & Hr). injection Hea as Hea. injection He as <-.
  split; [|split; [symmetry; exact Hea|exact Hr]].
  rewrite Hrows. vm_compute in H1. injection H1 as <- <-.
  vm_compute in H2. injection H2 as <- <-. reflexivity.
Defined.

(** C2 on the stand-in environment: the callback with state "s1" returns,
    and the same callback sent again is refused. *)
Lemma oauth_state_single_use_witness :
  exists i1 w1,
    handleOAuthCallback demo_JSON_parse demo_token_endpoint demo_encrypt demo_cuid
      "klaviyo" "c1" "s1" ∅ demo_world = Returned i1 w1
    /\ handleOAuthCallback demo_JSON_parse demo_token_endpoint demo_encrypt demo_cuid
         "klaviyo" "c1" "s1" ∅ w1 = Thrown (Error "Invalid OAuth state") w1.
Proof.
  destruct (handleOAuthCallback demo_JSON_parse demo_token_endpoint demo_encrypt demo_cuid
              "klaviyo" "c1" "s1" ∅ demo_world) as [i1 w1| |] eqn:H1;
    [|vm_compute in H1; discriminate..].
  exists i1, w1. split; [reflexivity|].
  destruct (proj2 (oauth_state_single_use demo_JSON_parse demo_token_endpoint demo_encrypt
                     demo_cuid)
              "klaviyo" "c1" "s1" ∅ demo_world i1 w1 H1) as [_ H].
  apply H.
Defined.

End ConnectorManagerSpec.

(** * The connectors *)
Module ConnectorSpec.
Import Prisma BaseConnector AsyncFacts.
Import ShopifyConnector (variables, orders_watermark).
Import KlaviyoConnector (events_params).

(** ** Outcomes

    [post m w P E]: from [w], if [m] returns [a] in [w'] then [P a w'], and
    if it throws [e] in [w'] then [E e w']. *)
Definition post {A} (m : Async World A) (w : World)
    (P : A -> World -> Prop) (E : JsError -> World -> Prop) : Prop :=
  match m w with
  | Returned a w' => P a w'
  | Thrown e w' => E e w'
  | OutOfFuel => True
  end.

Lemma post_ret {A} (a : A) w (P : A -> World -> Prop) E : P a w -> post (ret a) w P E.
Proof. intros H. exact H. Qed.

Lemma post_bind {A B} (m : Async World A) (k : A -> Async World B) w
    (P1 : A -> World -> Prop) (E1 : JsError -> World -> Prop) P E :
  post m w P1 E1 ->
  (forall a w1, P1 a w1 -> post (k a) w1 P E) ->
  (forall e w1, E1 e w1 -> E e w1) ->
  post (bind m k) w P E.
Proof.
  unfold post, bind. intros Hm Hk He.
  destruct (m w) as [a w1|e w1|]; [apply Hk, Hm|apply He, Hm|exact I].
Qed.

Lemma post_catch {A} (m : Async World A) (h : JsError -> Async World A) w
    (P1 : A -> World -> Prop) (E1 : JsError -> World -> Prop) P E :
  post m w P1 E1 ->
  (forall a w1, P1 a w1 -> P a w1) ->
  (forall e w1, E1 e w1 -> post (h e) w1 P E) ->
  post (catch m h) w P E.
Proof.
  unfold post, catch. intros Hm Hp Hh.
  destruct (m w) as [a w1|e w1|]; [apply Hp, Hm|apply Hh, Hm|exact I].
Qed.

Lemma post_weaken {A} (m : Async World A) w
    (P1 : A -> World -> Prop) (E1 : JsError -> World -> Prop) (P : A -> World -> Prop)
    (E : JsError -> World -> Prop) :
  post m w P1 E1 ->
  (forall a w1, P1 a w1 -> P a w1) -> (forall e w1, E1 e w1 -> E e w1) ->
  post m w P E.
Proof.
  unfold post. intros Hm Hp He. destruct (m w); [apply Hp, Hm|apply He, Hm|exact I].
Qed.

Lemma post_ext {A} (m m' : Async World A) w P E :
  m w = m' w -> post m' w P E -> post m w P E.
Proof. unfold post. intros ->. auto. Qed.

(** ** Steps that respect a relation between worlds

    Most of what follows says that a computation, however it ends, leaves
    the world related to the one it started from: same rows and results
    array, or the same requests plus some that satisfy a predicate.  The
    rules are the same for every such relation. *)
Section Respects.

Variable R : World -> World -> Prop.
Variable Q : Request -> Prop.

Definition respects {A} (m : Async World A) : Prop :=
  forall w,
    match m w with
    | Returned _ w' => R w w'
    | Thrown _ w' => R w w'
    | OutOfFuel => True
    end.

Hypothesis R_refl : forall w, R w w.
Hypothesis R_trans : forall w1 w2 w3, R w1 w2 -> R w2 w3 -> R w1 w3.

Lemma respects_ret {A} (a : A) : respects (ret a).
Proof. intros w. apply R_refl. Qed.

Lemma respects_throw {A} e : respects (@throw World A e).
Proof. intros w. apply R_refl. Qed.

Lemma respects_lift {A} (r : Result A) : respects (lift r).
Proof. destruct r; [apply respects_ret|apply respects_throw]. Qed.

Lemma respects_gets {A} (f : World -> A) : respects (gets f).
Proof. intros w. apply R_refl. Qed.

Lemma respects_bind {A B} (m : Async World A) (k : A -> Async World B) :
  respects m -> (forall a, respects (k a)) -> respects (bind m k).
Proof.
  intros Hm Hk w. unfold bind. specialize (Hm w).
  destruct (m w) as [a w1|e w1|]; [|exact Hm|exact I].
  specialize (Hk a w1). destruct (k a w1); eauto.
Qed.

Lemma respects_catch {A} (m : Async World A) (h : JsError -> Async World A) :
  respects m -> (forall e, respects (h e)) -> respects (catch m h).
Proof.
  intros Hm Hh w. unfold catch. specialize (Hm w).
  destruct (m w) as [a w1|e w1|]; [exact Hm| |exact I].
  specialize (Hh e w1). destruct (h e w1); eauto.
Qed.

Lemma respects_attempt {A} (m : Async World A) : respects m -> respects (attempt m).
Proof.
  intros Hm. apply respects_catch.
  - apply respects_bind; [exact Hm|intros; apply respects_ret].
  - intros; apply respects_ret.
Qed.

Lemma respects_while {S} fuel (cond : S -> bool) (body : S -> Async World S) s :
  (forall s, respects (body s)) -> respects (while fuel cond body s).
Proof.
  intros Hb. revert s. induction fuel as [|fuel IH]; intros s; cbn [while].
  - intros w. exact I.
  - destruct (cond s); [|apply respects_ret].
    apply respects_bind; [apply Hb|exact IH].
Qed.

(** The ways a connector changes the world, one by one. *)
Hypothesis R_on_db : forall w g,
  map Integration.id (Prisma.integration (g (db w)))
  = map Integration.id (Prisma.integration (db w)) ->
  R w (on_db g w).
Hypothesis R_set_self : forall w i,
  Integration.id i = Integration.id (integration w) -> R w (set_self i w).
Hypothesis R_set_graphqlClient : forall w c, R w (set_graphqlClient c w).
Hypothesis R_refreshes : forall w,
  R w (mkWorld (db w) (integration w) (graphqlClient w) (results w) (sent w)
         (S (refreshes w))).
Hypothesis R_sent : forall w c,
  Q c ->
  R w (mkWorld (db w) (integration w) (graphqlClient w) (results w) (c :: sent w)
         (refreshes w)).
Hypothesis Q_with_header : forall c n v, Q c -> Q (with_header n v c).

Lemma map_id_update_where p f rows :
  (forall i, Integration.id (f i) = Integration.id i) ->
  map Integration.id (update_where p f rows) = map Integration.id rows.
Proof.
  intros Hf. unfold update_where. rewrite map_map. apply map_ext.
  intros i. destruct (p i); [apply Hf|reflexivity].
Qed.

Lemma respects_delay ms : respects (delay ms).
Proof. intros w. apply R_on_db. reflexivity. Qed.

Lemma respects_logSync r : respects (logSync r).
Proof.
  intros w. unfold logSync. destruct (existsb _ _); [|apply R_refl].
  apply R_on_db. reflexivity.
Qed.

Lemma respects_integration_update id data :
  (forall d i, Integration.id (data d i) = Integration.id i) ->
  respects (integration_update id data).
Proof.
  intros Hd w. unfold integration_update.
  destruct (existsb _ _); [|apply R_refl].
  apply R_on_db. cbn [Prisma.integration set_integration]. apply map_id_update_where, Hd.
Qed.

Lemma respects_updateIntegrationStatus st t : respects (updateIntegrationStatus st t).
Proof.
  apply respects_bind; [apply respects_gets|]. intros self.
  apply respects_integration_update. reflexivity.
Qed.

Lemma respects_getLastSyncTime dt : respects (getLastSyncTime dt).
Proof. apply respects_gets. Qed.

Section Base.

Variable api : nat -> Response.
Variable encrypt decrypt : string -> Result string.

Lemma respects_send c : Q c -> respects (send api c).
Proof. intros Hc w. apply R_sent, Hc. Qed.

Lemma respects_dispatch c : Q c -> respects (dispatch api c).
Proof.
  intros Hc. apply respects_bind; [apply respects_send, Hc|].
  intros [st p|]; [|apply respects_throw].
  destruct (_ && _); [apply respects_ret|apply respects_throw].
Qed.

Lemma respects_encrypt_opt (o : option string) :
  respects
    (if truthy_opt o
     then let! e := lift (encrypt (default "" o)) in ret (Some e)
     else ret None).
Proof.
  destruct (truthy_opt o); [|apply respects_ret].
  apply respects_bind; [apply respects_lift|intros; apply respects_ret].
Qed.

Lemma respects_handleTokenRefresh refresh :
  respects refresh -> respects (handleTokenRefresh encrypt refresh).
Proof.
  intros Hr. unfold handleTokenRefresh.
  apply respects_bind; [intros w; apply R_refreshes|]. intros _.
  apply respects_catch.
  - apply respects_bind; [exact Hr|]. intros rr.
    apply respects_bind; [apply respects_gets|]. intros self.
    apply respects_bind; [apply respects_lift|]. intros ea.
    apply respects_bind; [apply respects_encrypt_opt|]. intros er.
    apply respects_bind; [apply respects_integration_update; reflexivity|]. intros _.
    apply respects_bind; [apply respects_lift|]. intros la.
    apply respects_bind; [apply respects_encrypt_opt|]. intros lr.
    apply respects_bind; [|intros; apply respects_ret].
    intros w. apply R_set_self. reflexivity.
  - intros e. apply respects_bind; [apply respects_gets|]. intros self.
    apply respects_bind; [|intros; apply respects_throw].
    destruct (negb _); [|apply respects_ret].
    apply respects_integration_update. reflexivity.
Qed.

Lemma respects_getAccessToken refresh :
  respects refresh -> respects (getAccessToken encrypt decrypt refresh).
Proof.
  intros Hr. unfold getAccessToken.
  apply respects_bind; [apply respects_gets|]. intros self.
  apply respects_bind; [apply respects_lift|]. intros tok.
  apply respects_bind; [apply respects_gets|]. intros t.
  destruct (Integration.expiresAt self) as [e|]; [|apply respects_ret].
  destruct (e <=? t); [apply respects_handleTokenRefresh, Hr|apply respects_ret].
Qed.

Lemma respects_httpClient_request fuel refresh :
  (forall http, (forall c, Q c -> respects (http c)) -> respects (refresh http)) ->
  forall c, Q c -> respects (httpClient_request api encrypt fuel refresh c).
Proof.
  intros Hr. induction fuel as [|fuel IH]; intros c Hc; cbn [httpClient_request].
  - intros w. exact I.
  - apply respects_catch; [apply respects_dispatch, Hc|]. intros e.
    apply respects_bind; [apply respects_gets|]. intros self.
    destruct (_ && _); [|apply respects_throw].
    apply respects_bind.
    + apply respects_attempt, respects_handleTokenRefresh, Hr, IH.
    + intros [tok|e']; [|apply respects_throw]. apply IH, Q_with_header, Hc.
Qed.

Lemma respects_routine dt count : respects count -> respects (routine dt count).
Proof.
  intros Hc. apply respects_catch.
  - apply respects_bind; [exact Hc|]. intros n.
    apply respects_bind; [apply respects_logSync|intros; apply respects_ret].
  - intros e. apply respects_bind; [apply respects_logSync|intros; apply respects_ret].
Qed.

(** *** The e-commerce connector *)

Lemma respects_shopify_refresh http : respects (ShopifyConnector.refreshAccessToken decrypt http).
Proof.
  apply respects_bind; [apply respects_gets|]. intros self.
  apply respects_bind; [apply respects_lift|intros; apply respects_ret].
Qed.

Lemma respects_shopify_getAccessToken fuel :
  respects (ShopifyConnector.getAccessToken api encrypt decrypt fuel).
Proof. apply respects_getAccessToken, respects_shopify_refresh. Qed.

Lemma respects_initializeGraphQLClient fuel :
  respects (ShopifyConnector.initializeGraphQLClient api encrypt decrypt fuel).
Proof.
  apply respects_bind; [apply respects_shopify_getAccessToken|].
  intros tok w. apply R_set_graphqlClient.
Qed.

Lemma respects_graphql_request document variables :
  (forall u h, Q (mkRequest u h document variables false)) ->
  respects (ShopifyConnector.graphql_request api document variables).
Proof.
  intros HQ. apply respects_bind; [apply respects_gets|]. intros [tok|]; [|apply respects_throw].
  apply respects_bind; [apply respects_gets|]. intros domain.
  apply respects_bind; [apply respects_send, HQ|].
  intros [st p|]; [|apply respects_throw].
  destruct (_ && _); [apply respects_ret|apply respects_throw].
Qed.

Lemma respects_shopify_fetch_page document watermark s :
  (forall u h cursor, Q (mkRequest u h document (variables cursor watermark) false)) ->
  respects (ShopifyConnector.fetch_page api document watermark s).
Proof.
  intros HQ. destruct s as [[h cursor] total]. unfold ShopifyConnector.fetch_page.
  apply respects_bind; [apply respects_graphql_request; intros; apply HQ|]. intros p.
  apply respects_bind; [apply respects_lift|]. intros [[edges hn] ec].
  apply respects_bind; [apply respects_lift|]. intros total'.
  apply respects_bind; [apply respects_delay|intros; apply respects_ret].
Qed.

Lemma respects_shopify_paginate fuel document watermark :
  (forall u h cursor, Q (mkRequest u h document (variables cursor watermark) false)) ->
  respects (ShopifyConnector.paginate api fuel document watermark).
Proof.
  intros HQ. apply respects_bind; [|intros; apply respects_ret].
  apply respects_while. intros s. apply respects_shopify_fetch_page. exact HQ.
Qed.

Lemma respects_syncOrders fuel :
  (forall u h cursor t,
     Q (mkRequest u h "getOrders" (variables cursor (orders_watermark t)) false)) ->
  respects (ShopifyConnector.syncOrders api fuel).
Proof.
  intros HQ. apply respects_routine.
  apply respects_bind; [apply respects_getLastSyncTime|]. intros lastSync.
  apply respects_shopify_paginate. intros u h cursor. apply HQ.
Qed.

Lemma respects_syncProducts fuel :
  (forall u h cursor, Q (mkRequest u h "getProducts" (variables cursor []) false)) ->
  respects (ShopifyConnector.syncProducts api fuel).
Proof.
  intros HQ. apply respects_routine. apply respects_shopify_paginate. exact HQ.
Qed.

Lemma respects_syncCustomers : respects ShopifyConnector.syncCustomers.
Proof. apply respects_bind; [apply respects_logSync|intros; apply respects_ret]. Qed.

(** *** The email-marketing connector *)

Variable basicAuth : string.

Lemma respects_klaviyo_refresh http :
  (forall u h ps, Q (mkRequest u h "" ps true)) ->
  (forall c, Q c -> respects (http c)) ->
  respects (KlaviyoConnector.refreshAccessToken decrypt basicAuth http).
Proof.
  intros HQ Hh. apply respects_bind; [apply respects_gets|]. intros self.
  destruct (negb _); [apply respects_throw|].
  apply respects_bind; [apply respects_lift|]. intros rt.
  apply respects_catch; [|intros; apply respects_throw].
  apply respects_bind; [apply Hh, HQ|]. intros p.
  destruct p; try apply respects_throw.
  apply respects_bind; [apply respects_gets|intros; apply respects_ret].
Qed.

Lemma respects_klaviyo_httpClient fuel c :
  (forall u h ps, Q (mkRequest u h "" ps true)) ->
  Q c -> respects (KlaviyoConnector.httpClient api encrypt decrypt basicAuth fuel c).
Proof.
  intros HQ Hc. apply respects_httpClient_request; [|exact Hc].
  intros http Hh. apply respects_klaviyo_refresh; assumption.
Qed.

Lemma respects_klaviyo_getAccessToken fuel :
  (forall u h ps, Q (mkRequest u h "" ps true)) ->
  respects (KlaviyoConnector.getAccessToken api encrypt decrypt basicAuth fuel).
Proof.
  intros HQ. apply respects_getAccessToken, respects_klaviyo_refresh; [exact HQ|].
  intros c Hc. apply respects_klaviyo_httpClient; assumption.
Qed.

Lemma respects_klaviyo_fetch_page fuel params s :
  (forall u h ps, Q (mkRequest u h "" ps true)) ->
  (forall u h, Q (mkRequest u h "" params false)) ->
  respects (KlaviyoConnector.fetch_page api encrypt decrypt basicAuth fuel params s).
Proof.
  intros HQ HP. destruct s as [nextUrl total]. unfold KlaviyoConnector.fetch_page.
  apply respects_bind; [apply respects_klaviyo_getAccessToken, HQ|]. intros tok.
  apply respects_bind; [apply respects_klaviyo_httpClient; [exact HQ|apply HP]|]. intros p.
  apply respects_bind; [apply respects_lift|]. intros [data next].
  apply respects_bind; [apply respects_lift|]. intros total'.
  apply respects_bind; [apply respects_delay|intros; apply respects_ret].
Qed.

Lemma respects_paginate fuel path params :
  (forall u h ps, Q (mkRequest u h "" ps true)) ->
  (forall u h, Q (mkRequest u h "" params false)) ->
  respects (KlaviyoConnector.paginate api encrypt decrypt basicAuth fuel path params).
Proof.
  intros HQ HP. apply respects_bind; [|intros; apply respects_ret].
  apply respects_while. intros s. apply respects_klaviyo_fetch_page; assumption.
Qed.

Lemma respects_metrics_try fuel :
  (forall u h ps, Q (mkRequest u h "" ps true)) ->
  (forall u h, Q (mkRequest u h "" [("page[size]", VNum 100)] false)) ->
  respects
    (let! token := KlaviyoConnector.getAccessToken api encrypt decrypt basicAuth fuel in
     let! payload :=
       KlaviyoConnector.httpClient api encrypt decrypt basicAuth fuel
         (mkRequest (KlaviyoConnector.baseUrl +:+ "/metrics/")
            [("Authorization", "Bearer " +:+ token);
             ("Revision", KlaviyoConnector.apiVersion)]
            "" [("page[size]", VNum 100)] false) in
     let! page := lift (as_collection payload) in
     let! _ := lift (store_each (fst page) 0) in
     ret (Z.of_nat (length (fst page)))).
Proof.
  intros HQ HP.
  apply respects_bind; [apply respects_klaviyo_getAccessToken, HQ|]. intros tok.
  apply respects_bind; [apply respects_klaviyo_httpClient; [exact HQ|apply HP]|]. intros p.
  apply respects_bind; [apply respects_lift|]. intros page.
  apply respects_bind; [apply respects_lift|intros; apply respects_ret].
Qed.

Lemma respects_syncMetrics fuel :
  (forall u h ps, Q (mkRequest u h "" ps true)) ->
  (forall u h, Q (mkRequest u h "" [("page[size]", VNum 100)] false)) ->
  respects (KlaviyoConnector.syncMetrics api encrypt decrypt basicAuth fuel).
Proof.
  intros HQ HP. apply respects_routine. apply respects_metrics_try; assumption.
Qed.

End Base.

End Respects.

(** ** The frame of a connector's work

    Whatever a connector does outside [push], the integration it is bound
    to keeps its id, the Integration table keeps its ids row by row, and
    the [results] array is as it was. *)
Definition same_frame (w w' : World) : Prop :=
  Integration.id (integration w') = Integration.id (integration w)
  /\ map Integration.id (Prisma.integration (db w'))
     = map Integration.id (Prisma.integration (db w))
  /\ results w' = results w.

(** The connector is bound to a row of the Integration table. *)
Definition has_row (w : World) : Prop :=
  existsb (has_id (Integration.id (integration w))) (Prisma.integration (db w)) = true.

(** The status of that row. *)
Definition row_status (w : World) : option string :=
  Integration.status
    <$> List.find (has_id (Integration.id (integration w))) (Prisma.integration (db w)).

(** An entry as a data-type routine writes it: a success, or an error with
    no records and a message. *)
Definition captured (dt : string) (r : SyncResult) : Prop :=
  dataType r = dt
  /\ (status r = "success" /\ errorMessage r = None
      \/ status r = "error" /\ recordsCount r = 0 /\ is_Some (errorMessage r)).

(** The same, [results] apart. *)
Definition same_rows (w w' : World) : Prop :=
  Integration.id (integration w') = Integration.id (integration w)
  /\ map Integration.id (Prisma.integration (db w'))
     = map Integration.id (Prisma.integration (db w)).

Lemma same_frame_refl w : same_frame w w.
Proof. repeat split. Qed.

Lemma same_frame_trans w1 w2 w3 : same_frame w1 w2 -> same_frame w2 w3 -> same_frame w1 w3.
Proof. unfold same_frame. intros (a & b & c) (a' & b' & c'). repeat split; congruence. Qed.

Lemma same_frame_on_db w g :
  map Integration.id (Prisma.integration (g (db w)))
  = map Integration.id (Prisma.integration (db w)) ->
  same_frame w (on_db g w).
Proof. intros H. repeat split. exact H. Qed.

Lemma same_frame_set_self w i :
  Integration.id i = Integration.id (integration w) -> same_frame w (set_self i w).
Proof. intros H. repeat split. exact H. Qed.

Lemma existsb_has_id id rows :
  existsb (has_id id) rows = true <-> In id (map Integration.id rows).
Proof.
  rewrite existsb_exists, in_map_iff. unfold has_id.
  split; intros (i & H1 & H2); exists i.
  - apply String.eqb_eq in H2. auto.
  - split; [exact H2|]. apply String.eqb_eq. exact H1.
Qed.

Lemma same_frame_has_row w w' : same_frame w w' -> has_row w -> has_row w'.
Proof.
  unfold has_row. intros (Hid & Hrows & _) H.
  apply existsb_has_id. rewrite Hid, Hrows. apply existsb_has_id. exact H.
Qed.

Create HintDb frame.
#[local] Hint Resolve same_frame_refl same_frame_trans same_frame_on_db same_frame_set_self
  : frame.
#[local] Hint Extern 1 (same_frame _ _) => solve [repeat split] : frame.
#[local] Hint Extern 1 True => exact I : frame.

(** The instances of the rules for [same_frame]; nothing is asked of the
    requests. *)
Ltac frame_rule lemma :=
  first [ eapply lemma with (Q := fun _ : Request => True) | eapply lemma ];
  eauto with frame.

(** ** [sync()] does not throw *)

Lemma find_update_has_id id f rows :
  (forall i, Integration.id (f i) = Integration.id i) ->
  List.find (has_id id) (update_where (has_id id) f rows)
  = f <$> List.find (has_id id) rows.
Proof.
  intros Hf. induction rows as [|i r IH]; [reflexivity|].
  cbn [update_where map List.find]. fold (update_where (has_id id) f r).
  destruct (has_id id i) eqn:Hi.
  - unfold has_id in *. rewrite Hf, Hi. reflexivity.
  - rewrite Hi. exact IH.
Qed.

Lemma existsb_find_has_id id rows :
  existsb (has_id id) rows = true -> is_Some (List.find (has_id id) rows).
Proof.
  induction rows as [|i r IH]; cbn [existsb List.find]; [discriminate|].
  destruct (has_id id i); [eauto|exact IH].
Qed.

Lemma updateIntegrationStatus_ok st t w :
  has_row w ->
  exists w', updateIntegrationStatus st t w = Returned tt w'
             /\ same_frame w w' /\ row_status w' = Some st.
Proof.
  intros Hrow. unfold updateIntegrationStatus, bind, gets, integration_update.
  unfold has_row in Hrow. rewrite Hrow. eexists. split; [reflexivity|]. split.
  - apply same_frame_on_db. cbn [Prisma.integration set_integration].
    apply map_id_update_where. reflexivity.
  - unfold row_status. cbn [on_db db integration set_integration Prisma.integration].
    rewrite find_update_has_id by reflexivity.
    destruct (existsb_find_has_id _ _ Hrow) as [i ->]. reflexivity.
Qed.

(** The world [logSync(r)] leaves when the connector has its row. *)
Definition logged (r : SyncResult) (w : World) : World :=
  on_db (fun d =>
    set_syncLog
      (syncLog d ++
       [SyncLog.mk (Integration.id (integration w)) (dataType r) (status r)
          (recordsCount r) (errorMessage r) None (now d) (now d)]) d) w.

(** What the database answers to a SyncLog row without its integration. *)
Definition orphan_log : JsError :=
  Error "Foreign key constraint failed on the field: integrationId".

(** What it answers to an update of a row that is not there. *)
Definition no_record : JsError := Error "Record to update not found.".

(** What a data-type routine makes of its body [count] when the connector
    has its row: a success entry when the body returned, an error entry
    with no records and the error's message when it threw; either way the
    entry is logged and returned. *)
Definition captures (dt : string) (count : Async World Z) (m : Async World SyncResult)
  : Prop :=
  forall w, has_row w ->
    m w = match count w with
          | Returned n w1 => Returned (success dt n) (logged (success dt n) w1)
          | Thrown e w1 => Returned (failure dt e) (logged (failure dt e) w1)
          | OutOfFuel => OutOfFuel
          end.

Lemma has_row_dec w : has_row w \/ ~ has_row w.
Proof. unfold has_row. destruct (existsb _ _); [left; reflexivity|right; discriminate]. Qed.

Lemma not_has_row w :
  ~ has_row w ->
  existsb (has_id (Integration.id (integration w))) (Prisma.integration (db w)) = false.
Proof. unfold has_row. destruct (existsb _ _); [intros []; reflexivity|reflexivity]. Qed.

Lemma logSync_with_row r w : has_row w -> logSync r w = Returned tt (logged r w).
Proof. unfold has_row, logSync. intros ->. reflexivity. Qed.

Lemma logSync_without_row r w : ~ has_row w -> logSync r w = Thrown orphan_log w.
Proof. intros H. unfold logSync. rewrite (not_has_row w H). reflexivity. Qed.

Lemma same_frame_logged r w : same_frame w (logged r w).
Proof. repeat split. Qed.

Lemma routine_capture dt count w :
  routine dt count w =
  match count w with
  | Returned n w1 =>
    if existsb (has_id (Integration.id (integration w1))) (Prisma.integration (db w1))
    then Returned (success dt n) (logged (success dt n) w1)
    else Thrown orphan_log w1
  | Thrown e w1 =>
    if existsb (has_id (Integration.id (integration w1))) (Prisma.integration (db w1))
    then Returned (failure dt e) (logged (failure dt e) w1)
    else Thrown orphan_log w1
  | OutOfFuel => OutOfFuel
  end.
Proof.
  unfold routine, catch, bind. destruct (count w) as [n w1|e w1|]; [| |reflexivity].
  - destruct (has_row_dec w1) as [H|H].
    + rewrite (logSync_with_row _ _ H). unfold has_row in H. rewrite H. reflexivity.
    + rewrite !(logSync_without_row _ _ H), (not_has_row _ H). reflexivity.
  - destruct (has_row_dec w1) as [H|H].
    + rewrite (logSync_with_row _ _ H). unfold has_row in H. rewrite H. reflexivity.
    + rewrite (logSync_without_row _ _ H), (not_has_row _ H). reflexivity.
Qed.

Lemma routine_captures dt count :
  respects same_frame count -> captures dt count (routine dt count).
Proof.
  intros Hc w Hrow. rewrite routine_capture. specialize (Hc w).
  destruct (count w) as [n w1|e w1|]; [| |reflexivity];
    apply same_frame_has_row in Hc; try exact Hrow; unfold has_row in Hc; rewrite Hc;
    reflexivity.
Qed.

Lemma routine_outcome dt count w :
  has_row w -> respects same_frame count ->
  routine dt count w = OutOfFuel
  \/ exists r w', routine dt count w = Returned r w' /\ captured dt r.
Proof.
  intros Hrow Hc. rewrite (routine_captures dt count Hc w Hrow).
  destruct (count w) as [n w1|e w1|]; [| |left; reflexivity];
    right; eexists _, _; (split; [reflexivity|]); split; try reflexivity.
  - left. split; reflexivity.
  - right. repeat split. eauto.
Qed.

(** Without the row the routine throws what the database answered. *)
Lemma routine_orphan dt count w :
  ~ has_row w -> respects same_frame count ->
  match routine dt count w with
  | Returned _ _ => False
  | Thrown e w' => e = orphan_log
  | OutOfFuel => True
  end.
Proof.
  intros Hrow Hc. rewrite routine_capture. specialize (Hc w).
  destruct (count w) as [n w1|e w1|]; [| |exact I].
  - destruct (has_row_dec w1) as [H|H].
    + destruct Hrow. unfold has_row in *. apply existsb_has_id.
      destruct Hc as (Hid & Hrows & _). rewrite <- Hid, <- Hrows. apply existsb_has_id, H.
    + rewrite (not_has_row _ H). reflexivity.
  - destruct (has_row_dec w1) as [H|H].
    + destruct Hrow. unfold has_row in *. apply existsb_has_id.
      destruct Hc as (Hid & Hrows & _). rewrite <- Hid, <- Hrows. apply existsb_has_id, H.
    + rewrite (not_has_row _ H). reflexivity.
Qed.

Lemma syncCustomers_with_row w :
  has_row w ->
  ShopifyConnector.syncCustomers w
  = Returned (success "customers" 0) (logged (success "customers" 0) w).
Proof.
  intros H. unfold ShopifyConnector.syncCustomers, bind.
  rewrite (logSync_with_row _ _ H). reflexivity.
Qed.

Lemma syncCustomers_outcome w :
  has_row w ->
  ShopifyConnector.syncCustomers w = OutOfFuel
  \/ exists r w', ShopifyConnector.syncCustomers w = Returned r w' /\ captured "customers" r.
Proof.
  intros H. right. eexists _, _. split; [apply syncCustomers_with_row, H|].
  split; [reflexivity|]. left. split; reflexivity.
Qed.

Lemma push_spec r w :
  push r w = Returned tt (set_results (results w ++ [r]) w).
Proof. reflexivity. Qed.

Section Sync.

Variable api : nat -> Response.
Variable encrypt decrypt : string -> Result string.
Variable basicAuth : string.

Lemma frame_initializeGraphQLClient fuel :
  respects same_frame (ShopifyConnector.initializeGraphQLClient api encrypt decrypt fuel).
Proof. frame_rule respects_initializeGraphQLClient. Qed.

Lemma frame_shopify_paginate fuel document wm :
  respects same_frame (ShopifyConnector.paginate api fuel document wm).
Proof. frame_rule respects_shopify_paginate. Qed.

Lemma frame_orders_try fuel :
  respects same_frame
    (let! lastSync := getLastSyncTime "orders" in
     ShopifyConnector.paginate api fuel "getOrders" (orders_watermark lastSync)).
Proof.
  frame_rule respects_bind.
  - frame_rule respects_getLastSyncTime.
  - intros lastSync. apply frame_shopify_paginate.
Qed.

Lemma frame_syncOrders fuel : respects same_frame (ShopifyConnector.syncOrders api fuel).
Proof. frame_rule respects_syncOrders. Qed.

Lemma frame_syncProducts fuel : respects same_frame (ShopifyConnector.syncProducts api fuel).
Proof. frame_rule respects_syncProducts. Qed.

Lemma post_respects {A} (m : Async World A) w :
  respects same_frame m ->
  post m w (fun _ w' => same_frame w w') (fun _ w' => same_frame w w').
Proof. intros H. exact (H w). Qed.

Lemma frame_syncCustomers : respects same_frame ShopifyConnector.syncCustomers.
Proof. frame_rule respects_syncCustomers. Qed.

Lemma frame_klaviyo_paginate fuel path params :
  respects same_frame
    (KlaviyoConnector.paginate api encrypt decrypt basicAuth fuel path params).
Proof. frame_rule respects_paginate. Qed.

Lemma frame_paginate_routine dt fuel path params :
  respects same_frame
    (routine dt (KlaviyoConnector.paginate api encrypt decrypt basicAuth fuel path params)).
Proof.
  frame_rule respects_routine. frame_rule respects_paginate.
Qed.

Lemma frame_metrics_try fuel :
  respects same_frame
    (let! token := KlaviyoConnector.getAccessToken api encrypt decrypt basicAuth fuel in
     let! payload :=
       KlaviyoConnector.httpClient api encrypt decrypt basicAuth fuel
         (mkRequest (KlaviyoConnector.baseUrl +:+ "/metrics/")
            [("Authorization", "Bearer " +:+ token);
             ("Revision", KlaviyoConnector.apiVersion)]
            "" [("page[size]", VNum 100)] false) in
     let! page := lift (as_collection payload) in
     let! _ := lift (store_each (fst page) 0) in
     ret (Z.of_nat (length (fst page)))).
Proof. frame_rule respects_metrics_try. Qed.

Lemma frame_syncMetrics fuel :
  respects same_frame (KlaviyoConnector.syncMetrics api encrypt decrypt basicAuth fuel).
Proof. frame_rule respects_syncMetrics. Qed.

Lemma frame_events_try fuel :
  respects same_frame
    (let! lastSync := getLastSyncTime "events" in
     KlaviyoConnector.paginate api encrypt decrypt basicAuth fuel "/events/"
       (events_params lastSync)).
Proof.
  frame_rule respects_bind.
  - frame_rule respects_getLastSyncTime.
  - intros lastSync. frame_rule respects_paginate.
Qed.

Lemma frame_syncEvents fuel :
  respects same_frame (KlaviyoConnector.syncEvents api encrypt decrypt basicAuth fuel).
Proof. frame_rule respects_routine. apply frame_events_try. Qed.

(** The data-type routines: an entry comes back, nothing is thrown. *)
Lemma entry_post dt (m : Async World SyncResult) w :
  respects same_frame m ->
  (m w = OutOfFuel \/ exists r w', m w = Returned r w' /\ captured dt r) ->
  post m w (fun r w' => same_frame w w' /\ m w = Returned r w' /\ captured dt r)
    (fun _ _ => False).
Proof.
  intros Hf Ho. specialize (Hf w). unfold post.
  destruct Ho as [->|(r & w' & H & Hcap)]; [exact I|]. rewrite H in *. auto.
Qed.

Lemma push_post r w :
  post (push r) w
    (fun _ w' => same_rows w w' /\ results w' = results w ++ [r]
                 /\ w' = set_results (results w ++ [r]) w)
    (fun _ _ => False).
Proof. unfold post. rewrite push_spec. repeat split. Qed.

Lemma same_rows_refl w : same_rows w w.
Proof. split; reflexivity. Qed.

Lemma same_rows_trans w1 w2 w3 : same_rows w1 w2 -> same_rows w2 w3 -> same_rows w1 w3.
Proof. unfold same_rows. intros (a & b) (a' & b'). split; congruence. Qed.

Lemma same_frame_rows w w' : same_frame w w' -> same_rows w w'.
Proof. intros (a & b & _). split; assumption. Qed.

Lemma same_rows_has_row w w' : same_rows w w' -> has_row w -> has_row w'.
Proof.
  unfold has_row. intros (Hid & Hrows) H.
  apply existsb_has_id. rewrite Hid, Hrows. apply existsb_has_id. exact H.
Qed.

Lemma same_rows_no_row w w' : same_rows w w' -> ~ has_row w -> ~ has_row w'.
Proof.
  unfold has_row. intros (Hid & Hrows) H H'. apply H.
  apply existsb_has_id. rewrite <- Hid, <- Hrows. apply existsb_has_id. exact H'.
Qed.

Lemma has_row_pushed r w : has_row w -> has_row (set_results r w).
Proof. intros H. exact H. Qed.

(** The stages of the e-commerce [sync()] once the client is built. *)
Lemma shopify_routines_post fuel w :
  has_row w ->
  post (let! orders := ShopifyConnector.syncOrders api fuel in
        let! _ := push orders in
        let! products := ShopifyConnector.syncProducts api fuel in
        let! _ := push products in
        let! customers := ShopifyConnector.syncCustomers in
        push customers) w
    (fun _ w' =>
       same_rows w w'
       /\ exists orders w1 products w2 customers,
            ShopifyConnector.syncOrders api fuel w = Returned orders w1
            /\ ShopifyConnector.syncProducts api fuel
                 (set_results (results w1 ++ [orders]) w1) = Returned products w2
            /\ customers = success "customers" 0
            /\ results w' = results w ++ [orders; products; customers]
            /\ captured "orders" orders /\ captured "products" products
            /\ captured "customers" customers)
    (fun _ _ => False).
Proof.
  intros Hrow.
  eapply post_bind;
    [apply (entry_post "orders");
     [apply frame_syncOrders|apply routine_outcome; [exact Hrow|apply frame_orders_try]]
    | |auto].
  intros orders w1 (F1 & E1 & C1).
  assert (Hrow1 : has_row w1) by (apply (same_frame_has_row _ _ F1), Hrow).
  eapply post_bind; [apply push_post| |auto]. intros _ w2 (F2 & R2 & ->).
  eapply post_bind;
    [apply (entry_post "products");
     [apply frame_syncProducts
     |apply routine_outcome; [exact Hrow1|apply frame_shopify_paginate]]
    | |auto].
  intros products w3 (F3 & E3 & C3).
  assert (Hrow3 : has_row w3) by (apply (same_frame_has_row _ _ F3), Hrow1).
  eapply post_bind; [apply push_post| |auto]. intros _ w4 (F4 & R4 & ->).
  eapply post_bind;
    [apply (entry_post "customers");
     [apply frame_syncCustomers|apply syncCustomers_outcome; exact Hrow3]
    | |auto].
  intros customers w5 (F5 & E5 & C5).
  eapply post_weaken; [apply push_post| |auto].
  intros _ w6 (F6 & R6 & _). split.
  - apply (same_rows_trans _ w1); [apply same_frame_rows, F1|].
    apply (same_rows_trans _ _ _ F2).
    apply (same_rows_trans _ w3); [apply same_frame_rows, F3|].
    apply (same_rows_trans _ _ _ F4).
    apply (same_rows_trans _ w5); [apply same_frame_rows, F5|exact F6].
  - exists orders, w1, products, w3, customers.
    rewrite (syncCustomers_with_row _ (has_row_pushed _ _ Hrow3)) in E5.
    injection E5 as <- _.
    repeat (split; [first [assumption|reflexivity]|]). split; [|auto].
    destruct F1 as (_ & _ & Q1), F3 as (_ & _ & Q3), F5 as (_ & _ & Q5).
    rewrite R6, Q5, R4, Q3, R2, Q1, <- !app_assoc. reflexivity.
Qed.

(** The stages of the email-marketing [sync()]. *)
Lemma klaviyo_routines_post fuel w :
  has_row w ->
  post (let! campaigns := KlaviyoConnector.syncCampaigns api encrypt decrypt basicAuth fuel in
        let! _ := push campaigns in
        let! flows := KlaviyoConnector.syncFlows api encrypt decrypt basicAuth fuel in
        let! _ := push flows in
        let! metrics := KlaviyoConnector.syncMetrics api encrypt decrypt basicAuth fuel in
        let! _ := push metrics in
        let! events := KlaviyoConnector.syncEvents api encrypt decrypt basicAuth fuel in
        push events) w
    (fun _ w' =>
       same_rows w w'
       /\ exists campaigns w1 flows w2 metrics w3 events w4,
            KlaviyoConnector.syncCampaigns api encrypt decrypt basicAuth fuel w
            = Returned campaigns w1
            /\ KlaviyoConnector.syncFlows api encrypt decrypt basicAuth fuel
                 (set_results (results w1 ++ [campaigns]) w1) = Returned flows w2
            /\ KlaviyoConnector.syncMetrics api encrypt decrypt basicAuth fuel
                 (set_results (results w2 ++ [flows]) w2) = Returned metrics w3
            /\ KlaviyoConnector.syncEvents api encrypt decrypt basicAuth fuel
                 (set_results (results w3 ++ [metrics]) w3) = Returned events w4
            /\ results w' = results w ++ [campaigns; flows; metrics; events]
            /\ captured "campaigns" campaigns /\ captured "flows" flows
            /\ captured "metrics" metrics /\ captured "events" events)
    (fun _ _ => False).
Proof.
  intros Hrow.
  eapply post_bind;
    [apply (entry_post "campaigns");
     [apply frame_paginate_routine
     |apply routine_outcome; [exact Hrow|apply frame_klaviyo_paginate]]
    | |auto].
  intros campaigns w1 (F1 & E1 & C1).
  assert (Hrow1 : has_row w1) by (apply (same_frame_has_row _ _ F1), Hrow).
  eapply post_bind; [apply push_post| |auto]. intros _ w2 (F2 & R2 & ->).
  eapply post_bind;
    [apply (entry_post "flows");
     [apply frame_paginate_routine
     |apply routine_outcome; [exact Hrow1|apply frame_klaviyo_paginate]]
    | |auto].
  intros flows w3 (F3 & E3 & C3).
  assert (Hrow3 : has_row w3) by (apply (same_frame_has_row _ _ F3), Hrow1).
  eapply post_bind; [apply push_post| |auto]. intros _ w4 (F4 & R4 & ->).
  eapply post_bind;
    [apply (entry_post "metrics");
     [apply frame_syncMetrics
     |apply routine_outcome; [exact Hrow3|apply frame_metrics_try]]
    | |auto].
  intros metrics w5 (F5 & E5 & C5).
  assert (Hrow5 : has_row w5) by (apply (same_frame_has_row _ _ F5), Hrow3).
  eapply post_bind; [apply push_post| |auto]. intros _ w6 (F6 & R6 & ->).
  eapply post_bind;
    [apply (entry_post "events");
     [apply frame_syncEvents
     |apply routine_outcome; [exact Hrow5|apply frame_events_try]]
    | |auto].
  intros events w7 (F7 & E7 & C7).
  eapply post_weaken; [apply push_post| |auto].
  intros _ w8 (F8 & R8 & _). split.
  - apply (same_rows_trans _ w1); [apply same_frame_rows, F1|].
    apply (same_rows_trans _ _ _ F2).
    apply (same_rows_trans _ w3); [apply same_frame_rows, F3|].
    apply (same_rows_trans _ _ _ F4).
    apply (same_rows_trans _ w5); [apply same_frame_rows, F5|].
    apply (same_rows_trans _ _ _ F6).
    apply (same_rows_trans _ w7); [apply same_frame_rows, F7|exact F8].
  - exists campaigns, w1, flows, w3, metrics, w5, events, w7.
    repeat (split; [assumption|]). split; [|auto].
    destruct F1 as (_ & _ & Q1), F3 as (_ & _ & Q3), F5 as (_ & _ & Q5),
      F7 as (_ & _ & Q7).
    rewrite R8, Q7, R6, Q5, R4, Q3, R2, Q1, <- !app_assoc. reflexivity.
Qed.

(** [sync()] around its stages: from a world where the connector has its
    row, the stages' results come back when they ran through, and the
    results so far plus a 'sync_error' entry when they threw. *)
Lemma sync_with_post stages w
    (Pr : list SyncResult -> Prop) (Pe : JsError -> World -> Prop) :
  has_row w ->
  post stages (set_results [] w)
    (fun _ w1 => same_rows (set_results [] w) w1 /\ Pr (results w1))
    (fun e w1 => same_rows (set_results [] w) w1 /\ Pe e w1) ->
  post (sync_with stages) w
    (fun rs w' =>
       Pr rs /\ row_status w' = Some "connected"
       \/ exists e w1, Pe e w1 /\ rs = results w1 ++ [failure "sync_error" e]
                       /\ row_status w' = Some "error")
    (fun _ _ => False).
Proof.
  intros Hrow Hst. unfold sync_with, post in *. unfold bind at 1. cbn [modify].
  unfold bind at 1. unfold catch. unfold bind at 1.
  destruct (stages (set_results [] w)) as [[] w1|e w1|]; [| |exact I].
  - destruct Hst as [Hrows HP].
    unfold bind at 1. unfold today at 1. cbn [gets].
    destruct (updateIntegrationStatus_ok "connected" (Some (now (db w1))) w1)
      as (w2 & -> & (_ & _ & Hres) & Hstatus);
      [apply (same_rows_has_row _ _ Hrows), Hrow|].
    cbn [gets]. left. rewrite Hres. auto.
  - destruct Hst as [Hrows HP]. unfold bind at 1.
    destruct (updateIntegrationStatus_ok "error" None w1)
      as (w2 & -> & (_ & _ & Hres) & Hstatus);
      [apply (same_rows_has_row _ _ Hrows), Hrow|].
    rewrite push_spec. cbn [gets set_results results]. right. exists e, w1.
    rewrite Hres. auto.
Qed.

(** The same from the stages' outcome: they ran through, or they threw. *)
Lemma sync_with_done stages w w1 :
  has_row w -> same_rows (set_results [] w) w1 ->
  stages (set_results [] w) = Returned tt w1 ->
  exists w', sync_with stages w = Returned (results w1) w'
             /\ row_status w' = Some "connected".
Proof.
  intros Hrow Hrows Hst. unfold sync_with. unfold bind at 1. cbn [modify].
  unfold bind at 1. unfold catch. unfold bind at 1. rewrite Hst.
  unfold bind at 1. unfold today at 1. cbn [gets].
  destruct (updateIntegrationStatus_ok "connected" (Some (now (db w1))) w1)
    as (w2 & -> & (_ & _ & Hres) & Hstatus);
    [apply (same_rows_has_row _ _ Hrows), Hrow|].
  exists w2. unfold gets. rewrite Hres. auto.
Qed.

Lemma sync_with_caught stages w e w1 :
  has_row w -> same_rows (set_results [] w) w1 ->
  stages (set_results [] w) = Thrown e w1 ->
  exists w', sync_with stages w = Returned (results w1 ++ [failure "sync_error" e]) w'
             /\ row_status w' = Some "error".
Proof.
  intros Hrow Hrows Hst. unfold sync_with. unfold bind at 1. cbn [modify].
  unfold bind at 1. unfold catch. unfold bind at 1. rewrite Hst.
  unfold bind at 1.
  destruct (updateIntegrationStatus_ok "error" None w1)
    as (w2 & -> & (_ & _ & Hres) & Hstatus);
    [apply (same_rows_has_row _ _ Hrows), Hrow|].
  rewrite push_spec. cbn [gets set_results results].
  exists (set_results (results w2 ++ [failure "sync_error" e]) w2).
  rewrite Hres. auto.
Qed.

(** Without the row neither status update goes through: [sync()] throws
    what the database answered to the one in its catch clause. *)
Lemma updateIntegrationStatus_orphan st t w :
  ~ has_row w -> updateIntegrationStatus st t w = Thrown no_record w.
Proof.
  intros H. unfold updateIntegrationStatus, bind, gets, integration_update.
  rewrite (not_has_row _ H). reflexivity.
Qed.

Lemma sync_with_orphan stages w :
  ~ has_row w -> respects same_rows stages ->
  match sync_with stages w with
  | Returned _ _ => False
  | Thrown e _ => e = no_record
  | OutOfFuel => True
  end.
Proof.
  intros Hrow Hst. unfold sync_with. unfold bind at 1. cbn [modify].
  unfold bind at 1. unfold catch. unfold bind at 1.
  specialize (Hst (set_results [] w)).
  destruct (stages (set_results [] w)) as [[] w1|e w1|]; [| |exact I].
  - assert (H1 : ~ has_row w1) by (apply (same_rows_no_row _ _ Hst), Hrow).
    unfold bind at 1. unfold today at 1. cbn [gets].
    rewrite (updateIntegrationStatus_orphan _ _ _ H1).
    unfold bind at 1. rewrite (updateIntegrationStatus_orphan _ _ _ H1). reflexivity.
  - assert (H1 : ~ has_row w1) by (apply (same_rows_no_row _ _ Hst), Hrow).
    unfold bind at 1. rewrite (updateIntegrationStatus_orphan _ _ _ H1). reflexivity.
Qed.

Lemma respects_rows_of_frame {A} (m : Async World A) :
  respects same_frame m -> respects same_rows m.
Proof.
  intros H w. specialize (H w). destruct (m w); [apply same_frame_rows, H..|exact I].
Qed.

Lemma respects_rows_push r : respects same_rows (push r).
Proof. intros w. split; reflexivity. Qed.

Lemma rows_shopify_stages fuel :
  respects same_rows
    (let! _ := ShopifyConnector.initializeGraphQLClient api encrypt decrypt fuel in
     let! orders := ShopifyConnector.syncOrders api fuel in
     let! _ := push orders in
     let! products := ShopifyConnector.syncProducts api fuel in
     let! _ := push products in
     let! customers := ShopifyConnector.syncCustomers in
     push customers).
Proof.
  apply (respects_bind same_rows same_rows_trans);
    [apply respects_rows_of_frame, frame_initializeGraphQLClient|intros _].
  apply (respects_bind same_rows same_rows_trans);
    [apply respects_rows_of_frame, frame_syncOrders|intros orders].
  apply (respects_bind same_rows same_rows_trans); [apply respects_rows_push|intros _].
  apply (respects_bind same_rows same_rows_trans);
    [apply respects_rows_of_frame, frame_syncProducts|intros products].
  apply (respects_bind same_rows same_rows_trans); [apply respects_rows_push|intros _].
  apply (respects_bind same_rows same_rows_trans);
    [apply respects_rows_of_frame, frame_syncCustomers|intros customers].
  apply respects_rows_push.
Qed.

Lemma rows_klaviyo_stages fuel :
  respects same_rows
    (let! campaigns := KlaviyoConnector.syncCampaigns api encrypt decrypt basicAuth fuel in
     let! _ := push campaigns in
     let! flows := KlaviyoConnector.syncFlows api encrypt decrypt basicAuth fuel in
     let! _ := push flows in
     let! metrics := KlaviyoConnector.syncMetrics api encrypt decrypt basicAuth fuel in
     let! _ := push metrics in
     let! events := KlaviyoConnector.syncEvents api encrypt decrypt basicAuth fuel in
     push events).
Proof.
  apply (respects_bind same_rows same_rows_trans);
    [apply respects_rows_of_frame, frame_paginate_routine|intros campaigns].
  apply (respects_bind same_rows same_rows_trans); [apply respects_rows_push|intros _].
  apply (respects_bind same_rows same_rows_trans);
    [apply respects_rows_of_frame, frame_paginate_routine|intros flows].
  apply (respects_bind same_rows same_rows_trans); [apply respects_rows_push|intros _].
  apply (respects_bind same_rows same_rows_trans);
    [apply respects_rows_of_frame, frame_syncMetrics|intros metrics].
  apply (respects_bind same_rows same_rows_trans); [apply respects_rows_push|intros _].
  apply (respects_bind same_rows same_rows_trans);
    [apply respects_rows_of_frame, frame_syncEvents|intros events].
  apply respects_rows_push.
Qed.

(** *** When [sync()] comes back

    [m] has an outcome from every world: it returns or throws. *)
Definition settles {A} (m : Async World A) : Prop := forall w, m w <> OutOfFuel.

Lemma settles_ret {A} (a : A) : settles (ret a).
Proof. intros w. discriminate. Qed.

Lemma settles_throw {A} e : settles (@throw World A e).
Proof. intros w. discriminate. Qed.

Lemma settles_gets {A} (f : World -> A) : settles (gets f).
Proof. intros w. discriminate. Qed.

Lemma settles_modify f : settles (@modify World f).
Proof. intros w. discriminate. Qed.

Lemma settles_lift {A} (r : Result A) : settles (lift r).
Proof. destruct r; intros w; discriminate. Qed.

Lemma settles_bind {A B} (m : Async World A) (k : A -> Async World B) :
  settles m -> (forall a, settles (k a)) -> settles (bind m k).
Proof.
  intros Hm Hk w. unfold bind. destruct (m w) as [a w1|e w1|] eqn:E;
    [apply Hk|discriminate|destruct (Hm w E)].
Qed.

Lemma settles_catch {A} (m : Async World A) (h : JsError -> Async World A) :
  settles m -> (forall e, settles (h e)) -> settles (catch m h).
Proof.
  intros Hm Hh w. unfold catch. destruct (m w) as [a w1|e w1|] eqn:E;
    [discriminate|apply Hh|destruct (Hm w E)].
Qed.

Lemma settles_integration_update id data : settles (integration_update id data).
Proof. intros w. unfold integration_update. destruct (existsb _ _); discriminate. Qed.

Lemma settles_logSync r : settles (logSync r).
Proof. intros w. unfold logSync. destruct (existsb _ _); discriminate. Qed.

Create HintDb settle.
#[local] Hint Resolve settles_ret settles_throw settles_gets settles_modify settles_lift
  settles_integration_update settles_logSync : settle.

(** The bind and catch rules, as far as they go. *)
Ltac settle :=
  repeat match goal with
         | |- settles (bind _ _) => apply settles_bind; [|intros ?]
         | |- settles (catch _ _) => apply settles_catch; [|intros ?]
         | |- settles _ =>
           solve [unfold today, delay, push, getLastSyncTime; auto with settle]
         end.

Lemma settles_updateIntegrationStatus st t : settles (updateIntegrationStatus st t).
Proof. unfold updateIntegrationStatus. settle. Qed.

Lemma settles_routine dt count : settles count -> settles (routine dt count).
Proof. intros Hc. unfold routine. settle. Qed.

Lemma settles_sync_with stages : settles stages -> settles (sync_with stages).
Proof.
  intros Hs. unfold sync_with. settle; apply settles_updateIntegrationStatus.
Qed.

Lemma settles_handleTokenRefresh refresh :
  settles refresh -> settles (handleTokenRefresh encrypt refresh).
Proof.
  intros Hr. unfold handleTokenRefresh. settle.
  - destruct (truthy_opt _); settle.
  - destruct (truthy_opt _); settle.
  - destruct (negb _); settle.
Qed.

Lemma settles_getAccessToken refresh :
  settles refresh -> settles (BaseConnector.getAccessToken encrypt decrypt refresh).
Proof.
  intros Hr. unfold BaseConnector.getAccessToken. settle.
  destruct (Integration.expiresAt _) as [e|]; [|settle].
  destruct (e <=? _); [apply settles_handleTokenRefresh, Hr|settle].
Qed.

Lemma settles_shopify_refresh http :
  settles (ShopifyConnector.refreshAccessToken decrypt http).
Proof. unfold ShopifyConnector.refreshAccessToken. settle. Qed.

Lemma settles_klaviyo_refresh http :
  (forall c, settles (http c)) ->
  settles (KlaviyoConnector.refreshAccessToken decrypt basicAuth http).
Proof.
  intros Hh. unfold KlaviyoConnector.refreshAccessToken. settle.
  destruct (negb _); settle.
  match goal with |- settles (match ?p with _ => _ end) => destruct p end; settle.
Qed.

(** The e-commerce [sync()] comes back when its two loops end: nothing
    else in it waits on the provider. *)
Lemma settles_shopify_sync fuel :
  (forall document wm, settles (ShopifyConnector.paginate api fuel document wm)) ->
  settles (ShopifyConnector.sync api encrypt decrypt fuel).
Proof.
  intros Hp. unfold ShopifyConnector.sync. apply settles_sync_with.
  apply settles_bind; [|intros _].
  { unfold ShopifyConnector.initializeGraphQLClient, ShopifyConnector.getAccessToken.
    apply settles_bind; [|intros ?; settle].
    apply settles_getAccessToken, settles_shopify_refresh. }
  apply settles_bind; [|intros orders].
  { unfold ShopifyConnector.syncOrders. apply settles_routine. settle. }
  apply settles_bind; [settle|intros _].
  apply settles_bind; [|intros products].
  { unfold ShopifyConnector.syncProducts. apply settles_routine, Hp. }
  apply settles_bind; [settle|intros _].
  apply settles_bind; [|intros customers; settle].
  unfold ShopifyConnector.syncCustomers. settle.
Qed.

(** The email-marketing [sync()] comes back when its requests and its
    loops do. *)
Lemma settles_klaviyo_sync fuel :
  (forall c, settles (KlaviyoConnector.httpClient api encrypt decrypt basicAuth fuel c)) ->
  (forall path ps,
     settles (KlaviyoConnector.paginate api encrypt decrypt basicAuth fuel path ps)) ->
  settles (KlaviyoConnector.sync api encrypt decrypt basicAuth fuel).
Proof.
  intros Hh Hp. unfold KlaviyoConnector.sync. apply settles_sync_with.
  apply settles_bind; [|intros campaigns].
  { unfold KlaviyoConnector.syncCampaigns. apply settles_routine, Hp. }
  apply settles_bind; [settle|intros _].
  apply settles_bind; [|intros flows].
  { unfold KlaviyoConnector.syncFlows. apply settles_routine, Hp. }
  apply settles_bind; [settle|intros _].
  apply settles_bind; [|intros metrics].
  { unfold KlaviyoConnector.syncMetrics. apply settles_routine.
    apply settles_bind; [|intros tok].
    { apply settles_getAccessToken, settles_klaviyo_refresh, Hh. }
    apply settles_bind; [apply Hh|intros payload]. settle. }
  apply settles_bind; [settle|intros _].
  apply settles_bind; [|intros events; settle].
  unfold KlaviyoConnector.syncEvents. apply settles_routine. settle.
Qed.

(** The whole of the e-commerce [sync()] with the row, as a postcondition. *)
Lemma shopify_sync_post fuel w :
  has_row w ->
  post (ShopifyConnector.sync api encrypt decrypt fuel) w
    (fun rs w' =>
       (exists w1 orders w2 products w3,
          ShopifyConnector.initializeGraphQLClient api encrypt decrypt fuel
            (set_results [] w) = Returned tt w1
          /\ ShopifyConnector.syncOrders api fuel w1 = Returned orders w2
          /\ ShopifyConnector.syncProducts api fuel
               (set_results (results w2 ++ [orders]) w2) = Returned products w3
          /\ rs = [orders; products; success "customers" 0]
          /\ captured "orders" orders /\ captured "products" products)
       /\ row_status w' = Some "connected"
       \/ exists e w1,
            (ShopifyConnector.initializeGraphQLClient api encrypt decrypt fuel
               (set_results [] w) = Thrown e w1 /\ results w1 = [])
            /\ rs = results w1 ++ [failure "sync_error" e]
            /\ row_status w' = Some "error")
    (fun _ _ => False).
Proof.
  intros Hrow.
  apply (sync_with_post _ w
           (fun rs => exists w1 orders w2 products w3,
              ShopifyConnector.initializeGraphQLClient api encrypt decrypt fuel
                (set_results [] w) = Returned tt w1
              /\ ShopifyConnector.syncOrders api fuel w1 = Returned orders w2
              /\ ShopifyConnector.syncProducts api fuel
                   (set_results (results w2 ++ [orders]) w2) = Returned products w3
              /\ rs = [orders; products; success "customers" 0]
              /\ captured "orders" orders /\ captured "products" products)
           (fun e w1 =>
              ShopifyConnector.initializeGraphQLClient api encrypt decrypt fuel
                (set_results [] w) = Thrown e w1 /\ results w1 = []) Hrow).
  unfold post. unfold bind at 1.
  pose proof (frame_initializeGraphQLClient fuel (set_results [] w)) as Hf.
  destruct (ShopifyConnector.initializeGraphQLClient _ _ _ _ _) as [[] w1|e w1|] eqn:Hinit;
    [|destruct Hf as (Ha & Hb & Hc); repeat split; assumption|exact I].
  assert (Hrow1 : has_row w1) by (apply (same_frame_has_row _ _ Hf), Hrow).
  eapply post_weaken; [apply (shopify_routines_post fuel w1 Hrow1)| |intros ? ? []].
  intros _ w2 (Hrows & o & w2' & p & w3 & c & Ho & Hp & -> & Hres & Co & Cp & _).
  destruct Hf as (Ha & Hb & Hc). split.
  - apply (same_rows_trans _ w1); [split; assumption|exact Hrows].
  - exists w1, o, w2', p, w3. rewrite Hres, Hc. auto 10.
Qed.

Lemma klaviyo_sync_post fuel w :
  has_row w ->
  post (KlaviyoConnector.sync api encrypt decrypt basicAuth fuel) w
    (fun rs w' =>
       (exists campaigns w1 flows w2 metrics w3 events w4,
          KlaviyoConnector.syncCampaigns api encrypt decrypt basicAuth fuel
            (set_results [] w) = Returned campaigns w1
          /\ KlaviyoConnector.syncFlows api encrypt decrypt basicAuth fuel
               (set_results (results w1 ++ [campaigns]) w1) = Returned flows w2
          /\ KlaviyoConnector.syncMetrics api encrypt decrypt basicAuth fuel
               (set_results (results w2 ++ [flows]) w2) = Returned metrics w3
          /\ KlaviyoConnector.syncEvents api encrypt decrypt basicAuth fuel
               (set_results (results w3 ++ [metrics]) w3) = Returned events w4
          /\ rs = [campaigns; flows; metrics; events]
          /\ captured "campaigns" campaigns /\ captured "flows" flows
          /\ captured "metrics" metrics /\ captured "events" events)
       /\ row_status w' = Some "connected")
    (fun _ _ => False).
Proof.
  intros Hrow.
  eapply post_weaken;
    [apply (sync_with_post _ w
              (fun rs => exists campaigns w1 flows w2 metrics w3 events w4,
                 KlaviyoConnector.syncCampaigns api encrypt decrypt basicAuth fuel
                   (set_results [] w) = Returned campaigns w1
                 /\ KlaviyoConnector.syncFlows api encrypt decrypt basicAuth fuel
                      (set_results (results w1 ++ [campaigns]) w1) = Returned flows w2
                 /\ KlaviyoConnector.syncMetrics api encrypt decrypt basicAuth fuel
                      (set_results (results w2 ++ [flows]) w2) = Returned metrics w3
                 /\ KlaviyoConnector.syncEvents api encrypt decrypt basicAuth fuel
                      (set_results (results w3 ++ [metrics]) w3) = Returned events w4
                 /\ rs = [campaigns; flows; metrics; events]
                 /\ captured "campaigns" campaigns /\ captured "flows" flows
                 /\ captured "metrics" metrics /\ captured "events" events)
              (fun _ _ => False) Hrow)
    | |intros ? ? []].
  - eapply post_weaken;
      [apply (klaviyo_routines_post fuel (set_results [] w) Hrow)| |intros ? ? []].
    intros _ w1 (Hrows & c & w1' & f & w2 & m & w3 & e & w4 & Hres). split; [exact Hrows|].
    exists c, w1', f, w2, m, w3, e, w4. exact Hres.
  - intros rs w' [H|(e & w1 & [] & _)]. exact H.
Qed.

(** C5 (as amended).  The database here answers every query, and refuses
    a write only for what the write is: a log for no integration, an update
    of no row.  From a world in which the connector's integration has its
    row, [sync()] of either connector does not throw.  When building the
    e-commerce client throws, [sync()] returns the single entry
    'sync_error' with that error and the row is 'error'.  Otherwise
    the list holds what each routine returned, in order, whatever the
    others did, and the row is 'connected'.  Each routine returns a success
    entry with the count when its body returned, and an 'error' entry with
    no records and the error's message when its body threw, and logs the
    entry.  And [sync()] does return when its pagination loops (and, for
    the email-marketing connector, its requests) come back. *)
Theorem sync_never_throws (fuel : nat) (w : World) :
  has_row w ->
  (forall e w', ShopifyConnector.sync api encrypt decrypt fuel w <> Thrown e w')
  /\ (forall e w',
        KlaviyoConnector.sync api encrypt decrypt basicAuth fuel w <> Thrown e w')
  /\ (forall e w1,
        ShopifyConnector.initializeGraphQLClient api encrypt decrypt fuel (set_results [] w)
        = Thrown e w1 ->
        exists w',
          ShopifyConnector.sync api encrypt decrypt fuel w
          = Returned [failure "sync_error" e] w'
          /\ row_status w' = Some "error")
  /\ (forall w1 orders w2 products w3,
        ShopifyConnector.initializeGraphQLClient api encrypt decrypt fuel (set_results [] w)
        = Returned tt w1 ->
        ShopifyConnector.syncOrders api fuel w1 = Returned orders w2 ->
        ShopifyConnector.syncProducts api fuel (set_results (results w2 ++ [orders]) w2)
        = Returned products w3 ->
        exists w',
          ShopifyConnector.sync api encrypt decrypt fuel w
          = Returned [orders; products; success "customers" 0] w'
          /\ row_status w' = Some "connected")
  /\ (forall campaigns w1 flows w2 metrics w3 events w4,
        KlaviyoConnector.syncCampaigns api encrypt decrypt basicAuth fuel (set_results [] w)
        = Returned campaigns w1 ->
        KlaviyoConnector.syncFlows api encrypt decrypt basicAuth fuel
          (set_results (results w1 ++ [campaigns]) w1) = Returned flows w2 ->
        KlaviyoConnector.syncMetrics api encrypt decrypt basicAuth fuel
          (set_results (results w2 ++ [flows]) w2) = Returned metrics w3 ->
        KlaviyoConnector.syncEvents api encrypt decrypt basicAuth fuel
          (set_results (results w3 ++ [metrics]) w3) = Returned events w4 ->
        exists w',
          KlaviyoConnector.sync api encrypt decrypt basicAuth fuel w
          = Returned [campaigns; flows; metrics; events] w'
          /\ row_status w' = Some "connected")
  /\ (captures "orders"
        (let! lastSync := getLastSyncTime "orders" in
         ShopifyConnector.paginate api fuel "getOrders" (orders_watermark lastSync))
        (ShopifyConnector.syncOrders api fuel)
      /\ captures "products" (ShopifyConnector.paginate api fuel "getProducts" [])
           (ShopifyConnector.syncProducts api fuel)
      /\ captures "customers" (ret 0) ShopifyConnector.syncCustomers
      /\ captures "campaigns"
           (KlaviyoConnector.paginate api encrypt decrypt basicAuth fuel "/campaigns/"
              [("page[size]", VNum 50); ("filter", VGreaterThan "created" 1672531200000)])
           (KlaviyoConnector.syncCampaigns api encrypt decrypt basicAuth fuel)
      /\ captures "flows"
           (KlaviyoConnector.paginate api encrypt decrypt basicAuth fuel "/flows/"
              [("page[size]", VNum 50)])
           (KlaviyoConnector.syncFlows api encrypt decrypt basicAuth fuel)
      /\ captures "metrics"
           (let! token := KlaviyoConnector.getAccessToken api encrypt decrypt basicAuth fuel in
            let! payload :=
              KlaviyoConnector.httpClient api encrypt decrypt basicAuth fuel
                (mkRequest (KlaviyoConnector.baseUrl +:+ "/metrics/")
                   [("Authorization", "Bearer " +:+ token);
                    ("Revision", KlaviyoConnector.apiVersion)]
                   "" [("page[size]", VNum 100)] false) in
            let! page := lift (as_collection payload) in
            let! _ := lift (store_each (fst page) 0) in
            ret (Z.of_nat (length (fst page))))
           (KlaviyoConnector.syncMetrics api encrypt decrypt basicAuth fuel)
      /\ captures "events"
           (let! lastSync := getLastSyncTime "events" in
            KlaviyoConnector.paginate api encrypt decrypt basicAuth fuel "/events/"
              (events_params lastSync))
           (KlaviyoConnector.syncEvents api encrypt decrypt basicAuth fuel))
  /\ ((forall document wm, settles (ShopifyConnector.paginate api fuel document wm)) ->
      exists rs w', ShopifyConnector.sync api encrypt decrypt fuel w = Returned rs w')
  /\ ((forall c, settles (KlaviyoConnector.httpClient api encrypt decrypt basicAuth fuel c)) ->
      (forall path ps,
         settles (KlaviyoConnector.paginate api encrypt decrypt basicAuth fuel path ps)) ->
      exists rs w', KlaviyoConnector.sync api encrypt decrypt basicAuth fuel w = Returned rs w').
Proof.
  intros Hrow.
  pose proof (shopify_sync_post fuel w Hrow) as HS.
  pose proof (klaviyo_sync_post fuel w Hrow) as HK. unfold post in HS, HK.
  split; [|split; [|split; [|split; [|split; [|split; [|split]]]]]].
  - intros e w' E. rewrite E in HS. exact HS.
  - intros e w' E. rewrite E in HK. exact HK.
  - intros e w1 Hinit.
    destruct (sync_with_caught
                (let! _ := ShopifyConnector.initializeGraphQLClient api encrypt decrypt fuel in
                 let! orders := ShopifyConnector.syncOrders api fuel in
                 let! _ := push orders in
                 let! products := ShopifyConnector.syncProducts api fuel in
                 let! _ := push products in
                 let! customers := ShopifyConnector.syncCustomers in
                 push customers) w e w1 Hrow) as (w' & E & Hst).
    + pose proof (frame_initializeGraphQLClient fuel (set_results [] w)) as Hf.
      rewrite Hinit in Hf. apply same_frame_rows, Hf.
    + apply bind_Thrown_l, Hinit.
    + exists w'. split; [|exact Hst].
      pose proof (frame_initializeGraphQLClient fuel (set_results [] w)) as Hf.
      rewrite Hinit in Hf. destruct Hf as (_ & _ & Hres). rewrite Hres in E. exact E.
  - intros w1 orders w2 products w3 Hinit Ho Hp.
    assert (E : exists rs w',
               ShopifyConnector.sync api encrypt decrypt fuel w = Returned rs w').
    { pose proof (rows_shopify_stages fuel (set_results [] w)) as Hrows.
      pose proof (frame_syncProducts fuel (set_results (results w2 ++ [orders]) w2)) as F3.
      pose proof (frame_syncOrders fuel w1) as F2.
      pose proof (frame_initializeGraphQLClient fuel (set_results [] w)) as F1.
      rewrite Hp in F3. rewrite Ho in F2. rewrite Hinit in F1.
      assert (Hrow3 : has_row w3).
      { apply (same_frame_has_row _ _ F3), has_row_pushed, (same_frame_has_row _ _ F2),
          (same_frame_has_row _ _ F1), Hrow. }
      assert (Hst : (let! _ := ShopifyConnector.initializeGraphQLClient api encrypt decrypt
                                 fuel in
                     let! orders := ShopifyConnector.syncOrders api fuel in
                     let! _ := push orders in
                     let! products := ShopifyConnector.syncProducts api fuel in
                     let! _ := push products in
                     let! customers := ShopifyConnector.syncCustomers in
                     push customers) (set_results [] w)
                    = Returned tt
                        (set_results
                           (results (logged (success "customers" 0)
                                       (set_results (results w3 ++ [products]) w3))
                            ++ [success "customers" 0])
                           (logged (success "customers" 0)
                              (set_results (results w3 ++ [products]) w3)))).
      { rewrite (bind_Returned_l _ _ _ _ _ Hinit), (bind_Returned_l _ _ _ _ _ Ho),
          (bind_Returned_l _ _ _ _ _ (push_spec _ _)), (bind_Returned_l _ _ _ _ _ Hp),
          (bind_Returned_l _ _ _ _ _ (push_spec _ _)),
          (bind_Returned_l _ _ _ _ _
             (syncCustomers_with_row _ (has_row_pushed _ _ Hrow3))).
        apply push_spec. }
      rewrite Hst in Hrows.
      destruct (sync_with_done _ w _ Hrow Hrows Hst) as (w' & E & _). eauto. }
    destruct E as (rs & w' & E). rewrite E in HS. exists w'.
    destruct HS as [[(w1' & o & w2' & p & w3' & Hinit' & Ho' & Hp' & -> & _) Hst]
                   |(e & w1' & (Hinit' & _) & _)].
    + rewrite Hinit in Hinit'. injection Hinit' as <-.
      rewrite Ho in Ho'. injection Ho' as <- <-.
      rewrite Hp in Hp'. injection Hp' as <- <-. auto.
    + rewrite Hinit in Hinit'. discriminate.
  - intros campaigns w1 flows w2 metrics w3 events w4 Hc Hf Hm He.
    assert (E : exists rs w',
               KlaviyoConnector.sync api encrypt decrypt basicAuth fuel w = Returned rs w').
    { pose proof (rows_klaviyo_stages fuel (set_results [] w)) as Hrows.
      assert (Hst : (let! campaigns :=
                       KlaviyoConnector.syncCampaigns api encrypt decrypt basicAuth fuel in
                     let! _ := push campaigns in
                     let! flows :=
                       KlaviyoConnector.syncFlows api encrypt decrypt basicAuth fuel in
                     let! _ := push flows in
                     let! metrics :=
                       KlaviyoConnector.syncMetrics api encrypt decrypt basicAuth fuel in
                     let! _ := push metrics in
                     let! events :=
                       KlaviyoConnector.syncEvents api encrypt decrypt basicAuth fuel in
                     push events) (set_results [] w)
                    = Returned tt (set_results (results w4 ++ [events]) w4)).
      { rewrite (bind_Returned_l _ _ _ _ _ Hc),
          (bind_Returned_l _ _ _ _ _ (push_spec _ _)), (bind_Returned_l _ _ _ _ _ Hf),
          (bind_Returned_l _ _ _ _ _ (push_spec _ _)), (bind_Returned_l _ _ _ _ _ Hm),
          (bind_Returned_l _ _ _ _ _ (push_spec _ _)), (bind_Returned_l _ _ _ _ _ He).
        apply push_spec. }
      rewrite Hst in Hrows.
      destruct (sync_with_done _ w _ Hrow Hrows Hst) as (w' & E & _). eauto. }
    destruct E as (rs & w' & E). rewrite E in HK. exists w'.
    destruct HK as [(c & w1' & f & w2' & m & w3' & e & w4' & Hc' & Hf' & Hm' & He' & -> & _)
                      Hst].
    rewrite Hc in Hc'. injection Hc' as <- <-.
    rewrite Hf in Hf'. injection Hf' as <- <-.
    rewrite Hm in Hm'. injection Hm' as <- <-.
    rewrite He in He'. injection He' as <- <-. auto.
  - split; [apply routine_captures, frame_orders_try|].
    split; [apply routine_captures, frame_shopify_paginate|].
    split; [intros w0 H0; apply syncCustomers_with_row, H0|].
    split; [apply routine_captures, frame_klaviyo_paginate|].
    split; [apply routine_captures, frame_klaviyo_paginate|].
    split; [apply routine_captures, frame_metrics_try|].
    apply routine_captures, frame_events_try.
  - intros Hp. pose proof (settles_shopify_sync fuel Hp w) as Hn. revert HS Hn.
    destruct (ShopifyConnector.sync api encrypt decrypt fuel w) as [rs w'|e w'|];
      intros HS Hn; [eauto|destruct HS|destruct Hn; reflexivity].
  - intros Hh Hp. pose proof (settles_klaviyo_sync fuel Hh Hp w) as Hn. revert HK Hn.
    destruct (KlaviyoConnector.sync api encrypt decrypt basicAuth fuel w) as [rs w'|e w'|];
      intros HK Hn; [eauto|destruct HK|destruct Hn; reflexivity].
Qed.

End Sync.

(** ** The watermark *)

(** The value a request gives a parameter or variable, if it gives one. *)
Definition param (name : string) (req : Request) : option Value :=
  snd <$> List.find (fun kv => String.eqb (fst kv) name) (params req).

(** What [getLastSyncTime(dataType)] reads in a world. *)
Definition watermark (dataType : string) (w : World) : option Z :=
  latest_completedAt
    (List.filter (successful (Integration.id (integration w)) dataType) (syncLog (db w))).

(** From [w] to [w'] the connector sent some requests, each satisfying [Q]. *)
Definition sends (Q : Request -> Prop) (w w' : World) : Prop :=
  exists new, sent w' = new ++ sent w /\ Forall Q new.

Lemma sends_refl Q w : sends Q w w.
Proof. exists []. split; [reflexivity|constructor]. Qed.

Lemma sends_trans Q w1 w2 w3 : sends Q w1 w2 -> sends Q w2 w3 -> sends Q w1 w3.
Proof.
  intros (n1 & E1 & F1) (n2 & E2 & F2). exists (n2 ++ n1). split.
  - rewrite E2, E1, app_assoc. reflexivity.
  - apply Forall_app. split; assumption.
Qed.

Lemma sends_one (Q : Request -> Prop) w c :
  Q c ->
  sends Q w (mkWorld (db w) (integration w) (graphqlClient w) (results w) (c :: sent w)
               (refreshes w)).
Proof. intros H. exists [c]. split; [reflexivity|]. constructor; [exact H|constructor]. Qed.

Lemma sends_same Q w w' : sent w' = sent w -> sends Q w w'.
Proof. intros H. exists []. split; [exact H|constructor]. Qed.

Lemma sends_on_db Q w g :
  map Integration.id (Prisma.integration (g (db w)))
  = map Integration.id (Prisma.integration (db w)) ->
  sends Q w (on_db g w).
Proof. intros _. apply sends_same. reflexivity. Qed.

Lemma sends_set_self Q w i :
  Integration.id i = Integration.id (integration w) -> sends Q w (set_self i w).
Proof. intros _. apply sends_same. reflexivity. Qed.

Lemma sends_set_graphqlClient Q w c : sends Q w (set_graphqlClient c w).
Proof. apply sends_same. reflexivity. Qed.

Lemma sends_refreshes Q w :
  sends Q w (mkWorld (db w) (integration w) (graphqlClient w) (results w) (sent w)
               (S (refreshes w))).
Proof. apply sends_same. reflexivity. Qed.

#[local] Hint Resolve sends_refl sends_trans sends_one sends_on_db sends_set_self
  sends_set_graphqlClient sends_refreshes : frame.

Lemma latest_completedAt_spec logs :
  match latest_completedAt logs with
  | None => logs = []
  | Some t =>
    (exists l, In l logs /\ SyncLog.completedAt l = t)
    /\ forall l, In l logs -> SyncLog.completedAt l <= t
  end.
Proof.
  induction logs as [|l r IH]; [reflexivity|]. cbn [latest_completedAt].
  destruct (latest_completedAt r) as [t|].
  - destruct IH as [(l' & Hin & Ht) Hmax]. split.
    + destruct (Z.max_spec (SyncLog.completedAt l) t) as [[_ ->]|[_ ->]].
      * exists l'. split; [right; exact Hin|exact Ht].
      * exists l. split; [left; reflexivity|reflexivity].
    + intros l0 [<-|Hl0]; [lia|]. specialize (Hmax l0 Hl0). lia.
  - subst r. split.
    + exists l. split; [left; reflexivity|reflexivity].
    + intros l0 [<-|[]]. lia.
Qed.

Section Watermark.

Variable api : nat -> Response.
Variable encrypt decrypt : string -> Result string.
Variable basicAuth : string.

(** The rules instantiated for [sends Q]. *)
Ltac sends_rule lemma :=
  match goal with
  | |- respects (sends ?Q0) _ => eapply lemma with (Q := Q0); eauto with frame
  end.

(** A routine sends what its body sends, and returns; it throws only
    when the connector has no row for its log. *)
Lemma routine_sends Q dt count w :
  respects (sends Q) count -> respects same_frame count ->
  post (routine dt count) w (fun _ w' => sends Q w w')
    (fun _ w' => sends Q w w' /\ ~ has_row w).
Proof.
  intros Hc Hframe.
  pose proof (respects_routine (sends Q) (sends_refl Q) (sends_trans Q) (sends_on_db Q)
                dt count Hc w) as Hf.
  unfold post. destruct (has_row_dec w) as [H|H].
  - destruct (routine_outcome dt count w H Hframe) as [->|(r & w' & E & _)]; [exact I|].
    rewrite E in *. exact Hf.
  - pose proof (routine_orphan dt count w H Hframe) as Ho.
    destruct (routine dt count w); [destruct Ho|split; [exact Hf|exact H]|exact I].
Qed.

Lemma find_variables name cursor wm :
  name <> "first" -> name <> "after" ->
  List.find (fun kv : string * Value => String.eqb (fst kv) name) (variables cursor wm)
  = List.find (fun kv : string * Value => String.eqb (fst kv) name) wm.
Proof.
  intros H1 H2. unfold variables. cbn [app List.find fst].
  destruct (String.eqb_spec "first" name); [congruence|].
  destruct (truthy_opt cursor); cbn [app List.find fst]; [|reflexivity].
  destruct (String.eqb_spec "after" name); [congruence|reflexivity].
Qed.

Lemma shopify_paginate_respects_sends fuel document wm :
  respects
    (sends (fun req =>
              param "updatedAtMin" req
              = snd <$> List.find (fun kv => String.eqb (fst kv) "updatedAtMin") wm))
    (ShopifyConnector.paginate api fuel document wm).
Proof.
  sends_rule respects_shopify_paginate.
  intros u h cursor. cbv beta. unfold param. cbn [params].
  rewrite find_variables by discriminate. reflexivity.
Qed.

Lemma shopify_paginate_sends fuel dt document wm w :
  post (routine dt (ShopifyConnector.paginate api fuel document wm)) w
    (fun _ w' =>
       sends (fun req =>
                param "updatedAtMin" req
                = snd <$> List.find (fun kv => String.eqb (fst kv) "updatedAtMin") wm)
         w w')
    (fun _ w' =>
       sends (fun req =>
                param "updatedAtMin" req
                = snd <$> List.find (fun kv => String.eqb (fst kv) "updatedAtMin") wm)
         w w'
       /\ ~ has_row w).
Proof.
  apply routine_sends;
    [apply shopify_paginate_respects_sends|apply frame_shopify_paginate].
Qed.

Lemma klaviyo_paginate_sends fuel dt path ps w :
  post (routine dt (KlaviyoConnector.paginate api encrypt decrypt basicAuth fuel path ps)) w
    (fun _ w' =>
       sends (fun req =>
                skipAuthRefresh req = true
                \/ param "filter" req
                   = snd <$> List.find (fun kv => String.eqb (fst kv) "filter") ps)
         w w')
    (fun _ w' =>
       sends (fun req =>
                skipAuthRefresh req = true
                \/ param "filter" req
                   = snd <$> List.find (fun kv => String.eqb (fst kv) "filter") ps)
         w w'
       /\ ~ has_row w).
Proof.
  apply routine_sends; [sends_rule respects_paginate|apply frame_klaviyo_paginate].
Qed.

(** [syncOrders] and [syncEvents] with the watermark they read. *)
Lemma orders_try_reads_watermark fuel w :
  (let! lastSync := getLastSyncTime "orders" in
   ShopifyConnector.paginate api fuel "getOrders" (orders_watermark lastSync)) w
  = ShopifyConnector.paginate api fuel "getOrders"
      (orders_watermark (watermark "orders" w)) w.
Proof. reflexivity. Qed.

Lemma events_try_reads_watermark fuel w :
  (let! lastSync := getLastSyncTime "events" in
   KlaviyoConnector.paginate api encrypt decrypt basicAuth fuel "/events/"
     (events_params lastSync)) w
  = KlaviyoConnector.paginate api encrypt decrypt basicAuth fuel "/events/"
      (events_params (watermark "events" w)) w.
Proof. reflexivity. Qed.

(** A routine takes its outcome from its body's. *)
Lemma routine_ext dt count count' w :
  count w = count' w -> routine dt count w = routine dt count' w.
Proof. intros H. rewrite !routine_capture, H. reflexivity. Qed.

Lemma syncOrders_reads_watermark fuel w :
  ShopifyConnector.syncOrders api fuel w
  = routine "orders"
      (ShopifyConnector.paginate api fuel "getOrders"
         (orders_watermark (watermark "orders" w))) w.
Proof. apply routine_ext, orders_try_reads_watermark. Qed.

Lemma syncEvents_reads_watermark fuel w :
  KlaviyoConnector.syncEvents api encrypt decrypt basicAuth fuel w
  = routine "events"
      (KlaviyoConnector.paginate api encrypt decrypt basicAuth fuel "/events/"
         (events_params (watermark "events" w))) w.
Proof. apply routine_ext, events_try_reads_watermark. Qed.

Lemma syncMetrics_sends fuel w :
  post (KlaviyoConnector.syncMetrics api encrypt decrypt basicAuth fuel) w
    (fun _ w' =>
       sends (fun req => skipAuthRefresh req = true \/ param "filter" req = None) w w')
    (fun _ w' =>
       sends (fun req => skipAuthRefresh req = true \/ param "filter" req = None) w w'
       /\ ~ has_row w).
Proof.
  apply routine_sends; [sends_rule respects_metrics_try|apply frame_metrics_try].
Qed.

(** C8 (as amended).  [getLastSyncTime(dataType)] answers the latest
    [completedAt] among the SyncLog rows of this integration and data type
    whose status is 'success', and null when there is none.  [syncOrders]
    and [syncEvents] read it and put it in every data request they send
    (the variable [updatedAtMin]; the filter [greater-than(datetime, ...)]),
    and send no such watermark when it is null.  The other routines do not
    read it: [syncProducts] sends no [updatedAtMin], [syncCampaigns]
    always filters on the fixed date 2023-01-01, [syncFlows] and
    [syncMetrics] send no filter.  This holds of the requests of a routine
    however it ends; a routine throws only for a connector without its row
    in the Integration table, whose log the database refuses. *)
Theorem watermark_of_the_sync_routines (fuel : nat) (w : World) :
  (forall dt,
     getLastSyncTime dt w = Returned (watermark dt w) w
     /\ match watermark dt w with
        | None =>
          forall l, In l (syncLog (db w)) ->
                    successful (Integration.id (integration w)) dt l = false
        | Some t =>
          (exists l, In l (syncLog (db w))
                     /\ successful (Integration.id (integration w)) dt l = true
                     /\ SyncLog.completedAt l = t)
          /\ forall l, In l (syncLog (db w)) ->
                       successful (Integration.id (integration w)) dt l = true ->
                       SyncLog.completedAt l <= t
        end)
  /\ post (ShopifyConnector.syncOrders api fuel) w
       (fun _ w' =>
          sends (fun req => param "updatedAtMin" req = VDate <$> watermark "orders" w) w w')
       (fun _ w' =>
          sends (fun req => param "updatedAtMin" req = VDate <$> watermark "orders" w) w w'
          /\ ~ has_row w)
  /\ post (KlaviyoConnector.syncEvents api encrypt decrypt basicAuth fuel) w
       (fun _ w' =>
          sends (fun req =>
                   skipAuthRefresh req = true
                   \/ param "filter" req = VGreaterThan "datetime" <$> watermark "events" w)
            w w')
       (fun _ w' =>
          sends (fun req =>
                   skipAuthRefresh req = true
                   \/ param "filter" req = VGreaterThan "datetime" <$> watermark "events" w)
            w w'
          /\ ~ has_row w)
  /\ post (ShopifyConnector.syncProducts api fuel) w
       (fun _ w' => sends (fun req => param "updatedAtMin" req = None) w w')
       (fun _ w' =>
          sends (fun req => param "updatedAtMin" req = None) w w'
          /\ ~ has_row w)
  /\ post (KlaviyoConnector.syncCampaigns api encrypt decrypt basicAuth fuel) w
       (fun _ w' =>
          sends (fun req =>
                   skipAuthRefresh req = true
                   \/ param "filter" req = Some (VGreaterThan "created" 1672531200000))
            w w')
       (fun _ w' =>
          sends (fun req =>
                   skipAuthRefresh req = true
                   \/ param "filter" req = Some (VGreaterThan "created" 1672531200000))
            w w'
          /\ ~ has_row w)
  /\ post (KlaviyoConnector.syncFlows api encrypt decrypt basicAuth fuel) w
       (fun _ w' =>
          sends (fun req => skipAuthRefresh req = true \/ param "filter" req = None) w w')
       (fun _ w' =>
          sends (fun req => skipAuthRefresh req = true \/ param "filter" req = None) w w'
          /\ ~ has_row w)
  /\ post (KlaviyoConnector.syncMetrics api encrypt decrypt basicAuth fuel) w
       (fun _ w' =>
          sends (fun req => skipAuthRefresh req = true \/ param "filter" req = None) w w')
       (fun _ w' =>
          sends (fun req => skipAuthRefresh req = true \/ param "filter" req = None) w w'
          /\ ~ has_row w).
Proof.
  split; [|split; [|split; [|split; [|split; [|split]]]]].
  - intros dt. split; [reflexivity|]. unfold watermark.
    pose proof (latest_completedAt_spec
                  (List.filter (successful (Integration.id (integration w)) dt)
                     (syncLog (db w)))) as H.
    destruct (latest_completedAt _) as [t|].
    + destruct H as [(l & Hin & Ht) Hmax]. apply filter_In in Hin as [Hin Hs]. split.
      * exists l. auto.
      * intros l0 Hl0 Hs0. apply Hmax, filter_In. auto.
    + intros l Hl. destruct (successful _ dt l) eqn:Hs; [|reflexivity].
      assert (Hin : In l (List.filter (successful (Integration.id (integration w)) dt)
                            (syncLog (db w)))) by (apply filter_In; auto).
      rewrite H in Hin. destruct Hin.
  - apply (post_ext _ _ _ _ _ (syncOrders_reads_watermark fuel w)).
    eapply post_weaken; [apply shopify_paginate_sends| |].
    + intros r w'. cbv beta. destruct (watermark "orders" w); intros H; exact H.
    + intros r w'. cbv beta. destruct (watermark "orders" w); intros H; exact H.
  - apply (post_ext _ _ _ _ _ (syncEvents_reads_watermark fuel w)).
    eapply post_weaken; [apply klaviyo_paginate_sends| |].
    + intros r w'. cbv beta. destruct (watermark "events" w); intros H; exact H.
    + intros r w'. cbv beta. destruct (watermark "events" w); intros H; exact H.
  - eapply post_weaken;
      [apply (shopify_paginate_sends fuel "products" "getProducts" [])| |];
      intros r w' H; exact H.
  - eapply post_weaken; [apply klaviyo_paginate_sends| |]; intros r w' H; exact H.
  - eapply post_weaken; [apply klaviyo_paginate_sends| |]; intros r w' H; exact H.
  - apply syncMetrics_sends.
Qed.

End Watermark.

(** ** Pagination *)

(** The record holds what the routine that stores it reads. *)
Definition readable (record : Item) : bool :=
  match record with
  | Full _ => true
  | Hollow _ => false
  end.

(** The TypeError of the first record that cannot be read. *)
Fixpoint first_unreadable (records : list Item) : option string :=
  match records with
  | [] => None
  | Full _ :: rest => first_unreadable rest
  | Hollow message :: _ => Some message
  end.

(** The answer is a success status. *)
Definition is_2xx (status : Z) : bool := (200 <=? status) && (status <? 300).

(** From its request number [from] on, the provider serves the pages
    [pages], each with records that can be read and each announcing a next
    page. *)
Definition serves_pages (api : nat -> Response) (from : nat)
    (pages : list (list Item * option string)) : Prop :=
  forall i p, pages !! i = Some p ->
    api (from + i)%nat = Answer 200 (Connection (fst p) true (snd p))
    /\ forallb readable (fst p) = true.

(** ... and then one last page. *)
Definition serves_connection (api : nat -> Response) (from : nat)
    (pages : list (list Item * option string))
    (lastEdges : list Item) (lastCursor : option string) : Prop :=
  serves_pages api from pages
  /\ api (from + length pages)%nat = Answer 200 (Connection lastEdges false lastCursor)
  /\ forallb readable lastEdges = true.

Definition serves_links (api : nat -> Response) (from : nat)
    (pages : list (list Item * string)) : Prop :=
  forall i p, pages !! i = Some p ->
    api (from + i)%nat = Answer 200 (Collection (fst p) (Some (snd p)))
    /\ truthy (snd p) = true
    /\ forallb readable (fst p) = true.

Definition serves_collection (api : nat -> Response) (from : nat)
    (pages : list (list Item * string))
    (lastData : list Item) (lastNext : option string) : Prop :=
  serves_links api from pages
  /\ api (from + length pages)%nat = Answer 200 (Collection lastData lastNext)
  /\ truthy_opt lastNext = false
  /\ forallb readable lastData = true.

(** The records on those pages. *)
Definition records {C} (pages : list (list Item * C)) (last : list Item) : Z :=
  Z.of_nat (length (concat (map fst pages)) + length last).

(** The ways a page request of the e-commerce connector fails, with the
    error its routine catches: no response, a status outside 2xx, a body
    that is no connection, a record that cannot be read. *)
Inductive connection_fails : Response -> JsError -> Prop :=
| connection_no_response :
    connection_fails NoResponse (mkError "Network Error" None)
| connection_status status payload :
    is_2xx status = false ->
    connection_fails (Answer status payload) (mkError "GraphQL Error" (Some status))
| connection_body status payload e :
    is_2xx status = true -> as_connection payload = Throw e ->
    connection_fails (Answer status payload) e
| connection_record status edges hasNextPage endCursor message :
    is_2xx status = true -> first_unreadable edges = Some message ->
    connection_fails (Answer status (Connection edges hasNextPage endCursor))
      (Error message).

(** The same for the email-marketing connector; a 401 is left out, the
    interceptor takes it up. *)
Inductive collection_fails : Response -> JsError -> Prop :=
| collection_no_response :
    collection_fails NoResponse (mkError "Network Error" None)
| collection_status status payload :
    is_2xx status = false -> status <> 401 ->
    collection_fails (Answer status payload) (mkError "Request failed" (Some status))
| collection_body status payload e :
    is_2xx status = true -> as_collection payload = Throw e ->
    collection_fails (Answer status payload) e
| collection_record status data next message :
    is_2xx status = true -> first_unreadable data = Some message ->
    collection_fails (Answer status (Collection data next)) (Error message).

Lemma store_each_readable records total :
  forallb readable records = true ->
  store_each records total = Ok (total + Z.of_nat (length records)).
Proof.
  revert total. induction records as [|r rs IH]; intros total H.
  - cbn. f_equal. lia.
  - cbn [forallb] in H. apply andb_prop in H as [Hr Hrs]. destruct r; [|discriminate].
    cbn [store_each store bindR]. rewrite (IH _ Hrs). f_equal. cbn [length]. lia.
Qed.

Lemma store_each_hollow records total message :
  first_unreadable records = Some message ->
  store_each records total = Throw (Error message).
Proof.
  revert total. induction records as [|r rs IH]; intros total H; [discriminate|].
  destruct r as [name|m]; cbn [first_unreadable] in H.
  - cbn [store_each store bindR]. apply IH. exact H.
  - injection H as ->. reflexivity.
Qed.

Section Pagination.

Variable api : nat -> Response.
Variable encrypt decrypt : string -> Result string.
Variable basicAuth : string.

(** What a routine makes of the outcome of its loop. *)
Lemma routine_of dt count w :
  has_row w -> respects same_frame count ->
  (forall n w', count w = Returned n w' ->
     routine dt count w = Returned (success dt n) (logged (success dt n) w'))
  /\ (forall e w', count w = Thrown e w' ->
        routine dt count w = Returned (failure dt e) (logged (failure dt e) w')).
Proof.
  intros Hrow Hc. split; intros x w' E; rewrite (routine_captures dt count Hc w Hrow), E;
    reflexivity.
Qed.

Lemma routine_OutOfFuel dt count w :
  count w = OutOfFuel -> routine dt count w = OutOfFuel.
Proof. intros E. rewrite routine_capture, E. reflexivity. Qed.

(** *** The e-commerce loops *)

Lemma shopify_fetch_page_step document wm tok b cursor total w edges h c :
  graphqlClient w = Some tok ->
  api (length (sent w)) = Answer 200 (Connection edges h c) ->
  forallb readable edges = true ->
  exists w',
    ShopifyConnector.fetch_page api document wm (b, cursor, total) w
    = Returned (h, c, total + Z.of_nat (length edges)) w'
    /\ length (sent w') = S (length (sent w))
    /\ graphqlClient w' = Some tok.
Proof.
  intros Hc Ha Hr.
  unfold ShopifyConnector.fetch_page, ShopifyConnector.graphql_request, bind, gets, send.
  rewrite Hc, Ha. cbn. rewrite (store_each_readable _ _ Hr). cbn.
  eexists. split; [reflexivity|]. split; [reflexivity|exact Hc].
Qed.

Lemma shopify_fetch_page_fails document wm tok b cursor total w e :
  graphqlClient w = Some tok ->
  connection_fails (api (length (sent w))) e ->
  exists w',
    ShopifyConnector.fetch_page api document wm (b, cursor, total) w = Thrown e w'
    /\ length (sent w') = S (length (sent w)).
Proof.
  intros Hc Hf.
  unfold ShopifyConnector.fetch_page, ShopifyConnector.graphql_request, bind, gets, send.
  rewrite Hc.
  inversion Hf as [Ha|status payload Hs Ha|status payload e' Hs Hp Ha
                  |status edges h c m Hs Hr Ha]; subst; try unfold is_2xx in Hs.
  - eexists. split; [reflexivity|reflexivity].
  - rewrite Hs. eexists. split; [reflexivity|reflexivity].
  - rewrite Hs. cbn [ret lift]. rewrite Hp. eexists. split; [reflexivity|reflexivity].
  - rewrite Hs. cbn [ret lift as_connection]. rewrite (store_each_hollow _ _ _ Hr).
    eexists. split; [reflexivity|reflexivity].
Qed.

(** The loop through the pages that announce a next one. *)
Lemma shopify_while_prefix document wm tok pages :
  forall fuel w cursor total,
    graphqlClient w = Some tok ->
    serves_pages api (length (sent w)) pages ->
    exists w1 cursor1,
      while (length pages + fuel) (fun s : ShopifyConnector.Page => fst (fst s))
        (ShopifyConnector.fetch_page api document wm) (true, cursor, total) w
      = while fuel (fun s : ShopifyConnector.Page => fst (fst s))
          (ShopifyConnector.fetch_page api document wm)
          (true, cursor1, total + records pages []) w1
      /\ length (sent w1) = (length (sent w) + length pages)%nat
      /\ graphqlClient w1 = Some tok.
Proof.
  induction pages as [|p pages IH]; intros fuel w cursor total Hc Hpages.
  - exists w, cursor. cbn [length Nat.add]. unfold records. cbn.
    rewrite Z.add_0_r, Nat.add_0_r. auto.
  - cbn [length Nat.add while fst].
    destruct (Hpages 0%nat p eq_refl) as [H0 Hr]. rewrite Nat.add_0_r in H0.
    destruct (shopify_fetch_page_step document wm tok true cursor total w _ _ _ Hc H0 Hr)
      as (w1 & Hstep & Hlen & Hc1).
    rewrite (bind_Returned_l _ _ _ _ _ Hstep).
    destruct (IH fuel w1 (snd p) (total + Z.of_nat (length (fst p))) Hc1)
      as (w2 & cursor2 & Hw & Hlen2 & Hc2).
    + rewrite Hlen. intros i q Hq.
      replace (S (length (sent w)) + i)%nat with (length (sent w) + S i)%nat by lia.
      exact (Hpages (S i) q Hq).
    + exists w2, cursor2. split; [|split; [|exact Hc2]].
      * rewrite Hw. f_equal. f_equal. unfold records. cbn [map concat length].
        rewrite length_app. lia.
      * rewrite Hlen2, Hlen. lia.
Qed.

Lemma shopify_loop_finite document wm tok pages lastEdges lastCursor fuel w :
  graphqlClient w = Some tok ->
  serves_connection api (length (sent w)) pages lastEdges lastCursor ->
  (S (length pages) < fuel)%nat ->
  exists w',
    ShopifyConnector.paginate api fuel document wm w
    = Returned (records pages lastEdges) w'
    /\ length (sent w') = (length (sent w) + S (length pages))%nat.
Proof.
  intros Hc (Hpages & Hlast & Hr) Hfuel.
  replace fuel with (length pages + S (S (fuel - length pages - 2)))%nat by lia.
  destruct (shopify_while_prefix document wm tok pages (S (S (fuel - length pages - 2)))
              w None 0 Hc Hpages) as (w1 & cursor1 & Hw & Hlen & Hc1).
  rewrite <- Hlen in Hlast.
  destruct (shopify_fetch_page_step document wm tok true cursor1 (0 + records pages [])
              w1 _ _ _ Hc1 Hlast Hr) as (w2 & Hstep & Hlen2 & _).
  unfold ShopifyConnector.paginate. unfold bind at 1. rewrite Hw. cbn [while fst].
  rewrite (bind_Returned_l _ _ _ _ _ Hstep). cbn [while fst ret snd].
  exists w2. split.
  - unfold ret. f_equal. unfold records. cbn [length]. lia.
  - rewrite Hlen2, Hlen. lia.
Qed.

Lemma shopify_loop_fails document wm tok pages e fuel w :
  graphqlClient w = Some tok ->
  serves_pages api (length (sent w)) pages ->
  connection_fails (api (length (sent w) + length pages)) e ->
  (length pages < fuel)%nat ->
  exists w',
    ShopifyConnector.paginate api fuel document wm w = Thrown e w'
    /\ length (sent w') = (length (sent w) + S (length pages))%nat.
Proof.
  intros Hc Hpages Hf Hfuel.
  replace fuel with (length pages + S (fuel - length pages - 1))%nat by lia.
  destruct (shopify_while_prefix document wm tok pages (S (fuel - length pages - 1))
              w None 0 Hc Hpages) as (w1 & cursor1 & Hw & Hlen & Hc1).
  rewrite <- Hlen in Hf.
  destruct (shopify_fetch_page_fails document wm tok true cursor1 (0 + records pages [])
              w1 e Hc1 Hf) as (w2 & Hstep & Hlen2).
  unfold ShopifyConnector.paginate. unfold bind at 1. rewrite Hw. cbn [while fst].
  rewrite (bind_Thrown_l _ _ _ _ _ Hstep).
  exists w2. split; [reflexivity|]. rewrite Hlen2, Hlen. lia.
Qed.

(** A provider that announces a next page on every page keeps the loop
    going: no amount of fuel sees it return. *)
Lemma shopify_while_endless document wm tok :
  (forall n, exists edges cursor,
     api n = Answer 200 (Connection edges true cursor)
     /\ forallb readable edges = true) ->
  forall fuel w cursor total,
    graphqlClient w = Some tok ->
    while fuel (fun s : ShopifyConnector.Page => fst (fst s))
      (ShopifyConnector.fetch_page api document wm) (true, cursor, total) w
    = OutOfFuel.
Proof.
  intros Hapi. induction fuel as [|fuel IH]; intros w cursor total Hc; [reflexivity|].
  cbn [while fst]. destruct (Hapi (length (sent w))) as (edges & c & Ha & Hr).
  destruct (shopify_fetch_page_step document wm tok true cursor total w _ _ _ Hc Ha Hr)
    as (w1 & Hstep & _ & Hc1).
  rewrite (bind_Returned_l _ _ _ _ _ Hstep). apply IH. exact Hc1.
Qed.

Lemma shopify_loop_endless document wm tok fuel w :
  (forall n, exists edges cursor,
     api n = Answer 200 (Connection edges true cursor)
     /\ forallb readable edges = true) ->
  graphqlClient w = Some tok ->
  ShopifyConnector.paginate api fuel document wm w = OutOfFuel.
Proof.
  intros Hapi Hc. unfold ShopifyConnector.paginate. unfold bind at 1.
  rewrite (shopify_while_endless _ _ tok Hapi fuel w None 0 Hc). reflexivity.
Qed.

Lemma shopify_paginate_finite dt document wm tok pages lastEdges lastCursor fuel w :
  has_row w ->
  graphqlClient w = Some tok ->
  serves_connection api (length (sent w)) pages lastEdges lastCursor ->
  (S (length pages) < fuel)%nat ->
  exists w',
    routine dt (ShopifyConnector.paginate api fuel document wm) w
    = Returned (success dt (records pages lastEdges)) w'
    /\ length (sent w') = (length (sent w) + S (length pages))%nat.
Proof.
  intros Hrow Hc Hs Hfuel.
  destruct (shopify_loop_finite document wm tok pages lastEdges lastCursor fuel w
              Hc Hs Hfuel) as (w' & Hw & Hlen).
  destruct (routine_of dt _ w Hrow (frame_shopify_paginate api fuel document wm))
    as [Hret _].
  eexists. split; [apply Hret, Hw|exact Hlen].
Qed.

Lemma shopify_paginate_fails dt document wm tok pages e fuel w :
  has_row w ->
  graphqlClient w = Some tok ->
  serves_pages api (length (sent w)) pages ->
  connection_fails (api (length (sent w) + length pages)) e ->
  (length pages < fuel)%nat ->
  exists w',
    routine dt (ShopifyConnector.paginate api fuel document wm) w
    = Returned (failure dt e) w'
    /\ length (sent w') = (length (sent w) + S (length pages))%nat.
Proof.
  intros Hrow Hc Hs Hf Hfuel.
  destruct (shopify_loop_fails document wm tok pages e fuel w Hc Hs Hf Hfuel)
    as (w' & Hw & Hlen).
  destruct (routine_of dt _ w Hrow (frame_shopify_paginate api fuel document wm))
    as [_ Hthrow].
  eexists. split; [apply Hthrow, Hw|exact Hlen].
Qed.

Lemma syncOrders_endless tok fuel w :
  (forall n, exists edges cursor,
     api n = Answer 200 (Connection edges true cursor)
     /\ forallb readable edges = true) ->
  graphqlClient w = Some tok ->
  ShopifyConnector.syncOrders api fuel w = OutOfFuel.
Proof.
  intros Hapi Hc. rewrite syncOrders_reads_watermark.
  apply routine_OutOfFuel, (shopify_loop_endless _ _ tok); assumption.
Qed.

(** *** The email-marketing loops *)

(** The stored token decrypts and is not due for a refresh before [t]. *)
Definition token_good_until (t : Z) (w : World) : Prop :=
  is_Ok (decrypt (Integration.accessToken (integration w)))
  /\ match Integration.expiresAt (integration w) with
     | Some e => t < e
     | None => True
     end.

(** The stored token decrypts and never falls due. *)
Definition token_never_due (w : World) : Prop :=
  is_Ok (decrypt (Integration.accessToken (integration w)))
  /\ Integration.expiresAt (integration w) = None.

Lemma token_never_due_good t w : token_never_due w -> token_good_until t w.
Proof. intros [Hd He]. split; [exact Hd|]. rewrite He. exact I. Qed.

Lemma getAccessToken_good refresh w :
  token_good_until (now (db w)) w ->
  exists tok, getAccessToken encrypt decrypt refresh w = Returned tok w.
Proof.
  intros [[tok Hdec] Hexp]. exists tok.
  unfold getAccessToken, bind, gets, today. rewrite Hdec. cbn [lift ret gets].
  destruct (Integration.expiresAt (integration w)) as [e|]; [|reflexivity].
  destruct (Z.leb_spec e (now (db w))); [lia|reflexivity].
Qed.

Lemma httpClient_request_ok fuel refresh c w payload :
  api (length (sent w)) = Answer 200 payload ->
  httpClient_request api encrypt (S fuel) refresh c w
  = Returned payload
      (mkWorld (db w) (integration w) (graphqlClient w) (results w) (c :: sent w)
         (refreshes w)).
Proof.
  intros Ha. cbn [httpClient_request]. unfold catch, dispatch, bind, send. rewrite Ha.
  reflexivity.
Qed.

Lemma httpClient_request_2xx fuel refresh c w status payload :
  api (length (sent w)) = Answer status payload -> is_2xx status = true ->
  httpClient_request api encrypt (S fuel) refresh c w
  = Returned payload
      (mkWorld (db w) (integration w) (graphqlClient w) (results w) (c :: sent w)
         (refreshes w)).
Proof.
  intros Ha Hs. cbn [httpClient_request]. unfold catch, dispatch, bind, send. rewrite Ha.
  unfold is_2xx in Hs. rewrite Hs. reflexivity.
Qed.

(** A request that fails with anything but a 401 passes the interceptor
    as it is. *)
Lemma httpClient_request_rejected fuel refresh c w e :
  dispatch api c w
  = Thrown e (mkWorld (db w) (integration w) (graphqlClient w) (results w) (c :: sent w)
                (refreshes w)) ->
  response_status e <> Some 401 ->
  httpClient_request api encrypt (S fuel) refresh c w
  = Thrown e (mkWorld (db w) (integration w) (graphqlClient w) (results w) (c :: sent w)
                (refreshes w)).
Proof.
  intros Hd Hs. cbn [httpClient_request]. unfold catch. rewrite Hd.
  unfold bind at 1. cbn [gets].
  destruct (bool_decide_reflect (response_status e = Some 401)) as [H|H];
    [destruct (Hs H)|reflexivity].
Qed.

Lemma klaviyo_fetch_page_step fuel ps nextUrl total w data next :
  token_good_until (now (db w)) w ->
  api (length (sent w)) = Answer 200 (Collection data next) ->
  forallb readable data = true ->
  exists w',
    KlaviyoConnector.fetch_page api encrypt decrypt basicAuth (S fuel) ps (nextUrl, total) w
    = Returned (if truthy_opt next then next else None, total + Z.of_nat (length data)) w'
    /\ length (sent w') = S (length (sent w))
    /\ integration w' = integration w
    /\ now (db w') = now (db w) + 100.
Proof.
  intros Hgood Ha Hr.
  destruct (getAccessToken_good
              (KlaviyoConnector.refreshAccessToken decrypt basicAuth
                 (KlaviyoConnector.httpClient api encrypt decrypt basicAuth (S fuel)))
              w Hgood) as (tok & Htok).
  unfold KlaviyoConnector.fetch_page, KlaviyoConnector.getAccessToken.
  rewrite (bind_Returned_l _ _ _ _ _ Htok).
  unfold KlaviyoConnector.httpClient.
  rewrite (bind_Returned_l _ _ _ _ _ (httpClient_request_ok fuel _ _ w _ Ha)).
  cbn [as_collection lift]. unfold bind at 1. cbn [ret].
  rewrite (store_each_readable _ _ Hr). cbn.
  eexists. split; [reflexivity|]. cbn. auto.
Qed.

Lemma klaviyo_fetch_page_fails fuel ps nextUrl total w e :
  token_good_until (now (db w)) w ->
  collection_fails (api (length (sent w))) e ->
  exists w',
    KlaviyoConnector.fetch_page api encrypt decrypt basicAuth (S fuel) ps (nextUrl, total) w
    = Thrown e w'
    /\ length (sent w') = S (length (sent w)).
Proof.
  intros Hgood Hf.
  destruct (getAccessToken_good
              (KlaviyoConnector.refreshAccessToken decrypt basicAuth
                 (KlaviyoConnector.httpClient api encrypt decrypt basicAuth (S fuel)))
              w Hgood) as (tok & Htok).
  unfold KlaviyoConnector.fetch_page, KlaviyoConnector.getAccessToken.
  rewrite (bind_Returned_l _ _ _ _ _ Htok).
  unfold KlaviyoConnector.httpClient.
  inversion Hf as [Ha|status payload Hs H401 Ha|status payload e' Hs Hp Ha
                  |status data next m Hs Hr Ha]; subst; symmetry in Ha.
  - rewrite (bind_Thrown_l _ _ _ _ _
               (httpClient_request_rejected fuel _ _ w (mkError "Network Error" None)
                  ltac:(unfold dispatch, bind, send; rewrite Ha; reflexivity)
                  ltac:(discriminate))).
    eexists. split; [reflexivity|reflexivity].
  - rewrite (bind_Thrown_l _ _ _ _ _
               (httpClient_request_rejected fuel _ _ w
                  (mkError "Request failed" (Some status))
                  ltac:(unfold dispatch, bind, send; rewrite Ha; unfold is_2xx in Hs;
                        rewrite Hs; reflexivity)
                  ltac:(cbn; congruence))).
    eexists. split; [reflexivity|reflexivity].
  - rewrite (bind_Returned_l _ _ _ _ _ (httpClient_request_2xx fuel _ _ w _ _ Ha Hs)).
    unfold bind at 1. rewrite Hp. eexists. split; [reflexivity|reflexivity].
  - rewrite (bind_Returned_l _ _ _ _ _ (httpClient_request_2xx fuel _ _ w _ _ Ha Hs)).
    cbn [as_collection lift]. unfold bind at 1. cbn [ret].
    rewrite (store_each_hollow _ _ _ Hr). eexists. split; [reflexivity|reflexivity].
Qed.

Lemma token_good_earlier t t' w w' :
  token_good_until t w -> integration w' = integration w -> t' <= t ->
  token_good_until t' w'.
Proof.
  intros [Hdec Hexp] Hi Ht. unfold token_good_until. rewrite Hi. split; [exact Hdec|].
  destruct (Integration.expiresAt (integration w)); [lia|exact I].
Qed.

Lemma klaviyo_while_prefix ps bf pages :
  forall fuel w url total,
    token_good_until (now (db w) + 100 * Z.of_nat (length pages)) w ->
    serves_links api (length (sent w)) pages ->
    truthy url = true ->
    exists w1 url1,
      while (length pages + fuel) (fun s : KlaviyoConnector.Cursor => truthy_opt (fst s))
        (KlaviyoConnector.fetch_page api encrypt decrypt basicAuth (S bf) ps)
        (Some url, total) w
      = while fuel (fun s : KlaviyoConnector.Cursor => truthy_opt (fst s))
          (KlaviyoConnector.fetch_page api encrypt decrypt basicAuth (S bf) ps)
          (Some url1, total + records pages []) w1
      /\ truthy url1 = true
      /\ length (sent w1) = (length (sent w) + length pages)%nat
      /\ integration w1 = integration w
      /\ now (db w1) = now (db w) + 100 * Z.of_nat (length pages).
Proof.
  induction pages as [|p pages IH]; intros fuel w url total Hgood Hpages Hurl.
  - exists w, url. cbn [length Nat.add]. unfold records. cbn.
    rewrite !Z.add_0_r, Nat.add_0_r. auto.
  - cbn [length Nat.add while fst truthy_opt]. rewrite Hurl.
    destruct (Hpages 0%nat p eq_refl) as (H0 & Hnext & Hr). rewrite Nat.add_0_r in H0.
    assert (Hg0 : token_good_until (now (db w)) w)
      by (apply (token_good_earlier _ _ _ _ Hgood eq_refl); lia).
    destruct (klaviyo_fetch_page_step bf ps (Some url) total w _ _ Hg0 H0 Hr)
      as (w1 & Hstep & Hlen & Hself & Hnow).
    rewrite (bind_Returned_l _ _ _ _ _ Hstep). cbn [truthy_opt]. rewrite Hnext.
    destruct (IH fuel w1 (snd p) (total + Z.of_nat (length (fst p))))
      as (w2 & url2 & Hw & Hurl2 & Hlen2 & Hself2 & Hnow2).
    + apply (token_good_earlier _ _ _ _ Hgood Hself). rewrite Hnow. cbn [length]. lia.
    + rewrite Hlen. intros i q Hq.
      replace (S (length (sent w)) + i)%nat with (length (sent w) + S i)%nat by lia.
      exact (Hpages (S i) q Hq).
    + exact Hnext.
    + exists w2, url2. split; [|split; [exact Hurl2|split; [|split]]].
      * rewrite Hw. f_equal. f_equal. unfold records. cbn [map concat length].
        rewrite length_app. lia.
      * rewrite Hlen2, Hlen. lia.
      * rewrite Hself2. exact Hself.
      * rewrite Hnow2, Hnow. cbn [length]. lia.
Qed.

Lemma klaviyo_loop_finite path ps pages lastData lastNext fuel w :
  token_good_until (now (db w) + 100 * Z.of_nat (length pages)) w ->
  serves_collection api (length (sent w)) pages lastData lastNext ->
  (S (length pages) < fuel)%nat ->
  exists w',
    KlaviyoConnector.paginate api encrypt decrypt basicAuth fuel path ps w
    = Returned (records pages lastData) w'
    /\ length (sent w') = (length (sent w) + S (length pages))%nat.
Proof.
  intros Hgood (Hpages & Hlast & Hend & Hr) Hfuel. destruct fuel as [|bf]; [lia|].
  unfold KlaviyoConnector.paginate. unfold bind at 1.
  assert (Hf2 : S bf = (length pages + S (S (bf - length pages - 1)))%nat) by lia.
  destruct (klaviyo_while_prefix ps bf pages (S (S (bf - length pages - 1))) w
              (KlaviyoConnector.baseUrl +:+ path) 0 Hgood Hpages eq_refl)
    as (w1 & url1 & Hw & Hurl1 & Hlen & Hself & Hnow).
  rewrite <- Hf2 in Hw. rewrite Hw. cbn [while fst truthy_opt]. rewrite Hurl1.
  rewrite <- Hlen in Hlast.
  assert (Hg1 : token_good_until (now (db w1)) w1)
    by (apply (token_good_earlier _ _ _ _ Hgood Hself); lia).
  destruct (klaviyo_fetch_page_step bf ps (Some url1) (0 + records pages []) w1 _ _
              Hg1 Hlast Hr) as (w2 & Hstep & Hlen2 & _).
  rewrite (bind_Returned_l _ _ _ _ _ Hstep). rewrite Hend. cbn [while fst truthy_opt ret snd].
  exists w2. split.
  - unfold ret. f_equal. unfold records. cbn [length]. lia.
  - rewrite Hlen2, Hlen. lia.
Qed.

Lemma klaviyo_loop_fails path ps pages e fuel w :
  token_good_until (now (db w) + 100 * Z.of_nat (length pages)) w ->
  serves_links api (length (sent w)) pages ->
  collection_fails (api (length (sent w) + length pages)) e ->
  (length pages < fuel)%nat ->
  exists w',
    KlaviyoConnector.paginate api encrypt decrypt basicAuth fuel path ps w = Thrown e w'
    /\ length (sent w') = (length (sent w) + S (length pages))%nat.
Proof.
  intros Hgood Hpages Hf Hfuel. destruct fuel as [|bf]; [lia|].
  unfold KlaviyoConnector.paginate. unfold bind at 1.
  assert (Hf2 : S bf = (length pages + S (bf - length pages))%nat) by lia.
  destruct (klaviyo_while_prefix ps bf pages (S (bf - length pages)) w
              (KlaviyoConnector.baseUrl +:+ path) 0 Hgood Hpages eq_refl)
    as (w1 & url1 & Hw & Hurl1 & Hlen & Hself & Hnow).
  rewrite <- Hf2 in Hw. rewrite Hw. cbn [while fst truthy_opt]. rewrite Hurl1.
  rewrite <- Hlen in Hf.
  assert (Hg1 : token_good_until (now (db w1)) w1)
    by (apply (token_good_earlier _ _ _ _ Hgood Hself); lia).
  destruct (klaviyo_fetch_page_fails bf ps (Some url1) (0 + records pages []) w1 e Hg1 Hf)
    as (w2 & Hstep & Hlen2).
  rewrite (bind_Thrown_l _ _ _ _ _ Hstep).
  exists w2. split; [reflexivity|]. rewrite Hlen2, Hlen. lia.
Qed.

Lemma klaviyo_while_endless ps bf :
  (forall n, exists data next,
     api n = Answer 200 (Collection data (Some next))
     /\ truthy next = true /\ forallb readable data = true) ->
  forall fuel w url total,
    token_never_due w -> truthy url = true ->
    while fuel (fun s : KlaviyoConnector.Cursor => truthy_opt (fst s))
      (KlaviyoConnector.fetch_page api encrypt decrypt basicAuth (S bf) ps)
      (Some url, total) w
    = OutOfFuel.
Proof.
  intros Hapi. induction fuel as [|fuel IH]; intros w url total Hgood Hurl; [reflexivity|].
  cbn [while fst truthy_opt]. rewrite Hurl.
  destruct (Hapi (length (sent w))) as (data & next & Ha & Hnext & Hr).
  destruct (klaviyo_fetch_page_step bf ps (Some url) total w _ _
              (token_never_due_good _ _ Hgood) Ha Hr) as (w1 & Hstep & _ & Hself & _).
  rewrite (bind_Returned_l _ _ _ _ _ Hstep). cbn [truthy_opt]. rewrite Hnext.
  apply IH; [|exact Hnext]. unfold token_never_due. rewrite Hself. exact Hgood.
Qed.

Lemma klaviyo_loop_endless path ps fuel w :
  (forall n, exists data next,
     api n = Answer 200 (Collection data (Some next))
     /\ truthy next = true /\ forallb readable data = true) ->
  token_never_due w ->
  KlaviyoConnector.paginate api encrypt decrypt basicAuth fuel path ps w = OutOfFuel.
Proof.
  intros Hapi Hgood. unfold KlaviyoConnector.paginate. unfold bind at 1.
  destruct fuel as [|bf]; [reflexivity|].
  rewrite (klaviyo_while_endless ps bf Hapi (S bf) w (KlaviyoConnector.baseUrl +:+ path) 0
             Hgood eq_refl).
  reflexivity.
Qed.

Lemma klaviyo_paginate_finite dt path ps pages lastData lastNext fuel w :
  has_row w ->
  token_good_until (now (db w) + 100 * Z.of_nat (length pages)) w ->
  serves_collection api (length (sent w)) pages lastData lastNext ->
  (S (length pages) < fuel)%nat ->
  exists w',
    routine dt (KlaviyoConnector.paginate api encrypt decrypt basicAuth fuel path ps) w
    = Returned (success dt (records pages lastData)) w'
    /\ length (sent w') = (length (sent w) + S (length pages))%nat.
Proof.
  intros Hrow Hgood Hs Hfuel.
  destruct (klaviyo_loop_finite path ps pages lastData lastNext fuel w Hgood Hs Hfuel)
    as (w' & Hw & Hlen).
  destruct (routine_of dt _ w Hrow
              (frame_klaviyo_paginate api encrypt decrypt basicAuth fuel path ps))
    as [Hret _].
  eexists. split; [apply Hret, Hw|exact Hlen].
Qed.

Lemma klaviyo_paginate_fails dt path ps pages e fuel w :
  has_row w ->
  token_good_until (now (db w) + 100 * Z.of_nat (length pages)) w ->
  serves_links api (length (sent w)) pages ->
  collection_fails (api (length (sent w) + length pages)) e ->
  (length pages < fuel)%nat ->
  exists w',
    routine dt (KlaviyoConnector.paginate api encrypt decrypt basicAuth fuel path ps) w
    = Returned (failure dt e) w'
    /\ length (sent w') = (length (sent w) + S (length pages))%nat.
Proof.
  intros Hrow Hgood Hs Hf Hfuel.
  destruct (klaviyo_loop_fails path ps pages e fuel w Hgood Hs Hf Hfuel)
    as (w' & Hw & Hlen).
  destruct (routine_of dt _ w Hrow
              (frame_klaviyo_paginate api encrypt decrypt basicAuth fuel path ps))
    as [_ Hthrow].
  eexists. split; [apply Hthrow, Hw|exact Hlen].
Qed.

(** C7 (as amended).  A pagination loop ends when the provider ends the
    pagination or when a page fails, and has no bound of its own.  For a
    connector that has its row: if, from the routine's first request on,
    the provider serves n pages that announce a next one and then a page
    that does not ([hasNextPage] false; no [links.next]), the routine
    returns 'success' with the records of those pages after exactly n+1
    requests; if after n such pages a request fails (no response, a status
    outside 2xx, a body without the page, a record that cannot be read),
    the routine returns the 'error' entry with that error and no records
    after exactly n+1 requests.  (For the email-marketing routines the
    stored token is assumed to decrypt and not to fall due while the
    routine runs, and the failure is not a 401.)  Against a provider whose
    every page announces a next one, none of the five routines returns,
    whatever the fuel. *)
Theorem pagination_ends_with_the_provider (fuel : nat) (w : World) :
  (forall tok pages lastEdges lastCursor,
     has_row w ->
     graphqlClient w = Some tok ->
     serves_connection api (length (sent w)) pages lastEdges lastCursor ->
     (S (length pages) < fuel)%nat ->
     (exists w',
        ShopifyConnector.syncOrders api fuel w
        = Returned (success "orders" (records pages lastEdges)) w'
        /\ length (sent w') = (length (sent w) + S (length pages))%nat)
     /\ (exists w',
           ShopifyConnector.syncProducts api fuel w
           = Returned (success "products" (records pages lastEdges)) w'
           /\ length (sent w') = (length (sent w) + S (length pages))%nat))
  /\ (forall pages lastData lastNext,
        has_row w ->
        token_good_until (now (db w) + 100 * Z.of_nat (length pages)) w ->
        serves_collection api (length (sent w)) pages lastData lastNext ->
        (S (length pages) < fuel)%nat ->
        (exists w',
           KlaviyoConnector.syncCampaigns api encrypt decrypt basicAuth fuel w
           = Returned (success "campaigns" (records pages lastData)) w'
           /\ length (sent w') = (length (sent w) + S (length pages))%nat)
        /\ (exists w',
              KlaviyoConnector.syncFlows api encrypt decrypt basicAuth fuel w
              = Returned (success "flows" (records pages lastData)) w'
              /\ length (sent w') = (length (sent w) + S (length pages))%nat)
        /\ (exists w',
              KlaviyoConnector.syncEvents api encrypt decrypt basicAuth fuel w
              = Returned (success "events" (records pages lastData)) w'
              /\ length (sent w') = (length (sent w) + S (length pages))%nat))
  /\ (forall tok pages e,
        has_row w ->
        graphqlClient w = Some tok ->
        serves_pages api (length (sent w)) pages ->
        connection_fails (api (length (sent w) + length pages)) e ->
        (length pages < fuel)%nat ->
        (exists w',
           ShopifyConnector.syncOrders api fuel w = Returned (failure "orders" e) w'
           /\ length (sent w') = (length (sent w) + S (length pages))%nat)
        /\ (exists w',
              ShopifyConnector.syncProducts api fuel w = Returned (failure "products" e) w'
              /\ length (sent w') = (length (sent w) + S (length pages))%nat))
  /\ (forall pages e,
        has_row w ->
        token_good_until (now (db w) + 100 * Z.of_nat (length pages)) w ->
        serves_links api (length (sent w)) pages ->
        collection_fails (api (length (sent w) + length pages)) e ->
        (length pages < fuel)%nat ->
        (exists w',
           KlaviyoConnector.syncCampaigns api encrypt decrypt basicAuth fuel w
           = Returned (failure "campaigns" e) w'
           /\ length (sent w') = (length (sent w) + S (length pages))%nat)
        /\ (exists w',
              KlaviyoConnector.syncFlows api encrypt decrypt basicAuth fuel w
              = Returned (failure "flows" e) w'
              /\ length (sent w') = (length (sent w) + S (length pages))%nat)
        /\ (exists w',
              KlaviyoConnector.syncEvents api encrypt decrypt basicAuth fuel w
              = Returned (failure "events" e) w'
              /\ length (sent w') = (length (sent w) + S (length pages))%nat))
  /\ (forall tok,
        graphqlClient w = Some tok ->
        (forall n, exists edges cursor,
           api n = Answer 200 (Connection edges true cursor)
           /\ forallb readable edges = true) ->
        ShopifyConnector.syncOrders api fuel w = OutOfFuel
        /\ ShopifyConnector.syncProducts api fuel w = OutOfFuel)
  /\ (token_never_due w ->
      (forall n, exists data next,
         api n = Answer 200 (Collection data (Some next))
         /\ truthy next = true /\ forallb readable data = true) ->
      KlaviyoConnector.syncCampaigns api encrypt decrypt basicAuth fuel w = OutOfFuel
      /\ KlaviyoConnector.syncFlows api encrypt decrypt basicAuth fuel w = OutOfFuel
      /\ KlaviyoConnector.syncEvents api encrypt decrypt basicAuth fuel w = OutOfFuel).
Proof.
  split; [|split; [|split; [|split; [|split]]]].
  - intros tok pages lastEdges lastCursor Hrow Hc Hs Hfuel. split.
    + rewrite syncOrders_reads_watermark.
      apply (shopify_paginate_finite _ _ _ tok pages lastEdges lastCursor); assumption.
    + apply (shopify_paginate_finite _ _ _ tok pages lastEdges lastCursor); assumption.
  - intros pages lastData lastNext Hrow Hgood Hs Hfuel. split; [|split].
    + apply (klaviyo_paginate_finite _ _ _ pages lastData lastNext); assumption.
    + apply (klaviyo_paginate_finite _ _ _ pages lastData lastNext); assumption.
    + rewrite syncEvents_reads_watermark.
      apply (klaviyo_paginate_finite _ _ _ pages lastData lastNext); assumption.
  - intros tok pages e Hrow Hc Hs Hf Hfuel. split.
    + rewrite syncOrders_reads_watermark.
      apply (shopify_paginate_fails _ _ _ tok pages); assumption.
    + apply (shopify_paginate_fails _ _ _ tok pages); assumption.
  - intros pages e Hrow Hgood Hs Hf Hfuel. split; [|split].
    + apply (klaviyo_paginate_fails _ _ _ pages); assumption.
    + apply (klaviyo_paginate_fails _ _ _ pages); assumption.
    + rewrite syncEvents_reads_watermark.
      apply (klaviyo_paginate_fails _ _ _ pages); assumption.
  - intros tok Hc Hapi. split.
    + apply (syncOrders_endless tok); assumption.
    + apply routine_OutOfFuel, (shopify_loop_endless _ _ tok); assumption.
  - intros Hgood Hapi. split; [|split].
    + apply routine_OutOfFuel, klaviyo_loop_endless; assumption.
    + apply routine_OutOfFuel, klaviyo_loop_endless; assumption.
    + rewrite syncEvents_reads_watermark.
      apply routine_OutOfFuel, klaviyo_loop_endless; assumption.
Qed.

End Pagination.

(** ** The 401 interceptor *)
Section Interceptor.

Variable api : nat -> Response.
Variable encrypt decrypt : string -> Result string.
Hypothesis encrypt_total : forall s, is_Ok (encrypt s).
Hypothesis decrypt_total : forall s, is_Ok (decrypt s).

(** For the e-commerce connector a refresh always succeeds: it hands back
    the stored token. *)
Lemma shopify_handleTokenRefresh_ok http w :
  has_row w ->
  exists tok w',
    handleTokenRefresh encrypt (ShopifyConnector.refreshAccessToken decrypt http) w
    = Returned tok w'
    /\ sent w' = sent w /\ refreshes w' = S (refreshes w)
    /\ Integration.id (integration w') = Integration.id (integration w)
    /\ has_row w'.
Proof.
  intros Hrow. unfold handleTokenRefresh, ShopifyConnector.refreshAccessToken.
  destruct (decrypt_total (Integration.accessToken (integration w))) as [tok Hd].
  destruct (encrypt_total tok) as [ea He].
  unfold has_row in Hrow.
  unfold bind, catch, gets, modify, integration_update. cbn. rewrite Hd. cbn. rewrite He. cbn.
  rewrite Hrow. cbn.
  eexists _, _. split; [reflexivity|]. cbn. repeat split.
  unfold has_row. cbn. apply existsb_has_id. rewrite map_id_update_where by reflexivity.
  apply existsb_has_id. exact Hrow.
Qed.

(** Each 401 costs one refresh and one more request, as often as the
    provider answers 401. *)
Lemma interceptor_refreshes_per_401 payload :
  forall k fuel w c,
    (forall i, (i < k)%nat -> api (length (sent w) + i)%nat = Answer 401 Nothing) ->
    api (length (sent w) + k)%nat = Answer 200 payload ->
    (k < fuel)%nat ->
    skipAuthRefresh c = false ->
    Integration.id (integration w) <> "temp" ->
    has_row w ->
    exists w',
      ShopifyConnector.httpClient api encrypt decrypt fuel c w = Returned payload w'
      /\ refreshes w' = (refreshes w + k)%nat
      /\ length (sent w') = (length (sent w) + S k)%nat.
Proof.
  unfold ShopifyConnector.httpClient.
  induction k as [|k IH]; intros fuel w c H401 H200 Hfuel Hskip Htemp Hrow;
    (destruct fuel as [|fuel]; [lia|]).
  - rewrite Nat.add_0_r in H200. rewrite (httpClient_request_ok api encrypt _ _ _ _ _ H200).
    eexists. split; [reflexivity|]. cbn. split; lia.
  - pose proof (H401 0%nat ltac:(lia)) as H0. rewrite Nat.add_0_r in H0.
    cbn [httpClient_request]. unfold catch at 1, dispatch at 1.
    unfold bind at 1. unfold send at 1. rewrite H0. cbn [throw].
    unfold bind at 1. cbn [gets integration]. rewrite Hskip.
    change ((200 <=? 401) && (401 <? 300)) with false.
    cbn [throw integration response_status].
    apply String.eqb_neq in Htemp. rewrite Htemp.
    rewrite bool_decide_eq_true_2 by reflexivity. cbn [orb negb andb].
    set (w0 := mkWorld (db w) (integration w) (graphqlClient w) (results w) (c :: sent w)
                 (refreshes w)).
    assert (Hrow0 : has_row w0) by exact Hrow.
    destruct (shopify_handleTokenRefresh_ok
                (httpClient_request api encrypt fuel
                   (ShopifyConnector.refreshAccessToken decrypt)) w0 Hrow0)
      as (tok & w1 & Href & Hsent & Hcount & Hid & Hrow1).
    unfold bind at 1, attempt, catch. rewrite (bind_Returned_l _ _ _ _ _ Href). cbn [ret].
    destruct (IH fuel w1 (with_header "Authorization" ("Bearer " +:+ tok) c))
      as (w' & Hw & Hr & Hs).
    + intros i Hi. rewrite Hsent. cbn [w0 sent length].
      replace (S (length (sent w)) + i)%nat with (length (sent w) + S i)%nat by lia.
      apply H401. lia.
    + rewrite Hsent. cbn [w0 sent length]. rewrite <- H200. f_equal. lia.
    + lia.
    + exact Hskip.
    + rewrite Hid. apply String.eqb_neq. exact Htemp.
    + exact Hrow1.
    + exists w'. split; [exact Hw|]. rewrite Hr, Hs, Hcount, Hsent. cbn [w0 sent refreshes length].
      split; lia.
Qed.

(** And with a provider that answers 401 to everything the request never
    comes back. *)
Lemma interceptor_endless :
  (forall n, api n = Answer 401 Nothing) ->
  forall fuel w c,
    skipAuthRefresh c = false ->
    Integration.id (integration w) <> "temp" ->
    has_row w ->
    ShopifyConnector.httpClient api encrypt decrypt fuel c w = OutOfFuel.
Proof.
  intros H401. unfold ShopifyConnector.httpClient.
  induction fuel as [|fuel IH]; intros w c Hskip Htemp Hrow; [reflexivity|].
  cbn [httpClient_request]. unfold catch at 1, dispatch at 1.
  unfold bind at 1. unfold send at 1. rewrite H401. cbn [throw].
  unfold bind at 1. cbn [gets integration]. rewrite Hskip.
  change ((200 <=? 401) && (401 <? 300)) with false.
  cbn [throw integration response_status].
  pose proof Htemp as Htemp'. apply String.eqb_neq in Htemp'. rewrite Htemp'.
  rewrite bool_decide_eq_true_2 by reflexivity. cbn [orb negb andb].
  set (w0 := mkWorld (db w) (integration w) (graphqlClient w) (results w) (c :: sent w)
               (refreshes w)).
  assert (Hrow0 : has_row w0) by exact Hrow.
  destruct (shopify_handleTokenRefresh_ok
              (httpClient_request api encrypt fuel
                 (ShopifyConnector.refreshAccessToken decrypt)) w0 Hrow0)
    as (tok & w1 & Href & Hsent & Hcount & Hid & Hrow1).
  unfold bind at 1, attempt, catch. rewrite (bind_Returned_l _ _ _ _ _ Href). cbn [ret].
  apply IH; [exact Hskip| |exact Hrow1]. rewrite Hid. exact Htemp.
Qed.

End Interceptor.

(** ** The connectors on the stand-in shop *)

Import ConnectorDemo.

Lemma demo_encrypt_total s : is_Ok (demo_encrypt s).
Proof. eexists. reflexivity. Qed.

Lemma demo_decrypt_total s : is_Ok (demo_decrypt s).
Proof. eexists. reflexivity. Qed.

(** The run of [sync()] against a provider that serves one page of two
    orders and then answers 500: the products entry is the error, the other
    two stand, and the row stays 'connected'. *)
Lemma sync_with_the_provider_down :
  exists w',
    ShopifyConnector.sync api_two_orders_then_down demo_encrypt demo_decrypt 5 demo_world
    = Returned [success "orders" 2; failure "products" (Error "GraphQL Error");
                success "customers" 0] w'
    /\ row_status w' = Some "connected"
    /\ map SyncLog.status (drop 2 (syncLog (db w'))) = ["success"; "error"; "success"].
Proof. eexists. split; [vm_compute; reflexivity|]. split; vm_compute; reflexivity. Qed.

(** Against that provider a pagination loop ends at its first request,
    wherever the run stands. *)
Lemma pagination_settles_with_the_provider_down document wm :
  settles (ShopifyConnector.paginate api_two_orders_then_down 5 document wm).
Proof.
  intros w. unfold ShopifyConnector.paginate. unfold bind at 1. cbn [while fst].
  unfold bind at 1. unfold ShopifyConnector.fetch_page, ShopifyConnector.graphql_request.
  unfold bind at 1. unfold bind at 1. cbn [gets].
  destruct (graphqlClient w); [|discriminate].
  unfold bind at 1. cbn [gets]. unfold bind at 1. unfold send.
  destruct (sent w) as [|c past]; cbn; discriminate.
Qed.

(** C5 (as amended) on that run: the products entry is the error of the
    products routine, the other two stand. *)
Lemma sync_never_throws_witness :
  has_row demo_world
  /\ exists w',
       ShopifyConnector.sync api_two_orders_then_down demo_encrypt demo_decrypt 5 demo_world
       = Returned [success "orders" 2; failure "products" (mkError "GraphQL Error" (Some 500));
                   success "customers" 0] w'
       /\ row_status w' = Some "connected".
Proof.
  assert (Hrow : has_row demo_world) by reflexivity.
  split; [exact Hrow|].
  destruct (sync_never_throws api_two_orders_then_down demo_encrypt demo_decrypt
              "basic" 5 demo_world Hrow) as (_ & _ & _ & Hret & _).
  eapply Hret; vm_compute; reflexivity.
Defined.

(** C5 as stated fails: a connector whose integration has no row in the
    table gets no entry onto its log and no status onto its row, and what
    the database answers to the status update in the catch clause leaves
    [sync()] as a throw.  So it is for every such connector when [sync()]
    comes back at all, and so it is for the shop's connector once the
    shop's row is gone. *)
Theorem sync_throws_without_the_row :
  (forall api encrypt decrypt basicAuth fuel w,
     ~ has_row w ->
     match ShopifyConnector.sync api encrypt decrypt fuel w with
     | Returned _ _ => False
     | Thrown e _ => e = Error "Record to update not found."
     | OutOfFuel => True
     end
     /\ match KlaviyoConnector.sync api encrypt decrypt basicAuth fuel w with
        | Returned _ _ => False
        | Thrown e _ => e = Error "Record to update not found."
        | OutOfFuel => True
        end)
  /\ ~ has_row demo_world_orphan
  /\ exists w',
       ShopifyConnector.sync api_two_orders_then_down demo_encrypt demo_decrypt 5
         demo_world_orphan
       = Thrown (Error "Record to update not found.") w'.
Proof.
  split; [|split].
  - intros api encrypt decrypt basicAuth fuel w Hrow. split.
    + apply (sync_with_orphan _ w Hrow), rows_shopify_stages.
    + apply (sync_with_orphan _ w Hrow), rows_klaviyo_stages.
  - discriminate.
  - eexists. vm_compute. reflexivity.
Qed.

(** C6 fails in the code.  The request the interceptor sends again after a
    refresh passes through the same interceptor, and nothing marks it as a
    retry.  With a provider that answers 401 to the first [k] requests of
    the shop's connector, the request of [fetchShopInfo] comes back after
    [k] refreshes and [k + 1] requests, for every [k]; with a provider that
    answers 401 to every request, [validateConnection] does not come back,
    whatever the fuel. *)
Theorem interceptor_retries_without_bound :
  (forall k,
     exists w',
       ShopifyConnector.httpClient (api_rejects_first k) demo_encrypt demo_decrypt (S k)
         demo_request demo_world
       = Returned (Shop "Test Store" "test-store.myshopify.com") w'
       /\ refreshes w' = k /\ length (sent w') = S k)
  /\ (forall fuel,
        ShopifyConnector.validateConnection (fun _ => Answer 401 Nothing)
          demo_encrypt demo_decrypt fuel demo_world
        = OutOfFuel).
Proof.
  split.
  - intros k.
    destruct (interceptor_refreshes_per_401 (api_rejects_first k) demo_encrypt demo_decrypt
                demo_encrypt_total demo_decrypt_total
                (Shop "Test Store" "test-store.myshopify.com") k (S k) demo_world
                demo_request) as (w' & H & Hr & Hs).
    + intros i Hi. unfold api_rejects_first. cbn [demo_world sent length Nat.add].
      apply Nat.ltb_lt in Hi. rewrite Hi. reflexivity.
    + unfold api_rejects_first. cbn [demo_world sent length Nat.add].
      rewrite Nat.ltb_irrefl. reflexivity.
    + lia.
    + reflexivity.
    + discriminate.
    + reflexivity.
    + exists w'. split; [exact H|]. split; [exact Hr|exact Hs].
  - intros fuel.
    assert (Hf : ShopifyConnector.fetchShopInfo (fun _ => Answer 401 Nothing)
                   demo_encrypt demo_decrypt fuel demo_world = OutOfFuel).
    { assert (Ht : ShopifyConnector.getAccessToken (fun _ => Answer 401 Nothing)
                     demo_encrypt demo_decrypt fuel demo_world
                   = Returned "dec:enc:shpat" demo_world) by reflexivity.
      assert (Hd : Integration.metadata (integration demo_world) !! "shopDomain"
                   = Some "test-store.myshopify.com") by (vm_compute; reflexivity).
      unfold ShopifyConnector.fetchShopInfo. rewrite (bind_Returned_l _ _ _ _ _ Ht).
      unfold bind at 1. cbn [gets]. rewrite Hd.
      cbn [truthy_opt truthy negb String.eqb Ascii.eqb Bool.eqb default].
      unfold bind at 1.
      rewrite (interceptor_endless (fun _ => Answer 401 Nothing) demo_encrypt demo_decrypt
                 demo_encrypt_total demo_decrypt_total (fun _ => eq_refl) fuel demo_world);
        [reflexivity|reflexivity|discriminate|reflexivity]. }
    unfold ShopifyConnector.validateConnection, catch, bind. rewrite Hf. reflexivity.
Qed.

(** C7 as stated fails: against a provider whose every page announces a
    next page, [syncOrders] does not return, however much fuel it gets. *)
Lemma pagination_has_no_safety_valve :
  ~ (forall api : nat -> Response,
       exists fuel r w', ShopifyConnector.syncOrders api fuel demo_world_ready = Returned r w').
Proof.
  intros H. destruct (H api_endless) as (fuel & r & w' & E).
  rewrite (syncOrders_endless api_endless "dec:enc:shpat" fuel demo_world_ready) in E;
    [discriminate| |reflexivity].
  intros n. eexists _, _. split; reflexivity.
Qed.

(** C7 (as amended) on the shop: three records on two pages after two
    requests; the 'error' entry after one request when the provider is
    down, and when a record of the page cannot be read. *)
Lemma pagination_ends_with_the_provider_witness :
  has_row demo_world_ready
  /\ graphqlClient demo_world_ready = Some "dec:enc:shpat"
  /\ serves_connection api_two_pages 0 [([Full "a"; Full "b"], Some "cursor-1")]
       [Full "c"] None
  /\ (exists w',
        ShopifyConnector.syncOrders api_two_pages 5 demo_world_ready
        = Returned (success "orders" 3) w'
        /\ length (sent w') = 2%nat)
  /\ (exists w',
        ShopifyConnector.syncOrders api_down 5 demo_world_ready
        = Returned (failure "orders" (mkError "GraphQL Error" (Some 500))) w'
        /\ length (sent w') = 1%nat)
  /\ (exists w',
        ShopifyConnector.syncOrders api_null_node 5 demo_world_ready
        = Returned (mkSyncResult "orders" 0 "error"
                      (Some "Cannot read properties of null (reading 'name')")) w'
        /\ length (sent w') = 1%nat).
Proof.
  assert (Hs : serves_connection api_two_pages 0 [([Full "a"; Full "b"], Some "cursor-1")]
                 [Full "c"] None).
  { split; [|split; reflexivity]. intros [|i] p Hp; [|discriminate].
    injection Hp as <-. split; reflexivity. }
  assert (Hnone : forall api, serves_pages api 0 []) by (intros api i p Hp; discriminate).
  split; [reflexivity|]. split; [reflexivity|]. split; [exact Hs|].
  split; [|split].
  - destruct (proj1 (pagination_ends_with_the_provider api_two_pages demo_encrypt
                       demo_decrypt "basic" 5 demo_world_ready)
                "dec:enc:shpat" [([Full "a"; Full "b"], Some "cursor-1")] [Full "c"] None
                eq_refl eq_refl Hs ltac:(cbn; lia)) as [(w' & H & Hl) _].
    exists w'. split; [exact H|exact Hl].
  - destruct (proj1 (proj2 (proj2 (pagination_ends_with_the_provider api_down demo_encrypt
                                     demo_decrypt "basic" 5 demo_world_ready)))
                "dec:enc:shpat" [] (mkError "GraphQL Error" (Some 500))
                eq_refl eq_refl (Hnone api_down)
                (connection_status 500 Nothing eq_refl) ltac:(cbn; lia))
      as [(w' & H & Hl) _].
    exists w'. split; [exact H|exact Hl].
  - destruct (proj1 (proj2 (proj2 (pagination_ends_with_the_provider api_null_node
                                     demo_encrypt demo_decrypt "basic" 5
                                     demo_world_ready)))
                "dec:enc:shpat" [] (Error "Cannot read properties of null (reading 'name')")
                eq_refl eq_refl (Hnone api_null_node)
                (connection_record 200
                   [Full "#1001"; Hollow "Cannot read properties of null (reading 'name')"]
                   false None "Cannot read properties of null (reading 'name')"
                   eq_refl eq_refl)
                ltac:(cbn; lia))
      as [(w' & H & Hl) _].
    exists w'. split; [exact H|exact Hl].
Defined.

(** C8 as stated fails: the shop has a successful products sync on its
    log, completed at 900, and [syncProducts] sends its requests without
    [updatedAtMin]. *)
Lemma watermark_not_in_every_routine :
  ~ (forall (api : nat -> Response) fuel w r w',
       ShopifyConnector.syncProducts api fuel w = Returned r w' ->
       sends (fun req => param "updatedAtMin" req = VDate <$> watermark "products" w) w w').
Proof.
  intros H.
  destruct (ShopifyConnector.syncProducts api_two_pages 5 demo_world_ready)
    as [r w'| |] eqn:E; [|vm_compute in E; discriminate..].
  specialize (H _ _ _ _ _ E). destruct H as (new & Hs & HQ).
  vm_compute in E. injection E as <- <-. cbn [sent demo_world_ready] in Hs.
  rewrite app_nil_r in Hs. subst new.
  inversion HQ as [|? ? Hq _]. vm_compute in Hq. discriminate.
Qed.

(** C8 (as amended) on the shop: the orders requests carry the completion
    time 950 of the last successful orders sync. *)
Lemma watermark_of_the_sync_routines_witness :
  watermark "orders" demo_world_ready = Some 950
  /\ exists r w',
       ShopifyConnector.syncOrders api_two_pages 5 demo_world_ready = Returned r w'
       /\ sends (fun req => param "updatedAtMin" req = Some (VDate 950)) demo_world_ready w'.
Proof.
  split; [reflexivity|].
  destruct (watermark_of_the_sync_routines api_two_pages demo_encrypt demo_decrypt "basic" 5
              demo_world_ready) as (_ & H & _).
  unfold post in H.
  destruct (ShopifyConnector.syncOrders api_two_pages 5 demo_world_ready)
    as [r w'| |] eqn:E;
    [|destruct H as [_ Hn]; destruct Hn; reflexivity|vm_compute in E; discriminate].
  exists r, w'. split; [reflexivity|exact H].
Defined.

End ConnectorSpec.

(** * Further properties of the code *)

(** ** The vault's key, its envelope and the webhook check *)
Module VaultFormatSpec.
Import TokenManager TokenManagerSpec.

Lemma length_toString_hex buf : length (toString_hex buf) = (2 * length buf)%nat.
Proof.
  induction buf as [|b buf IH]; [reflexivity|].
  cbn [toString_hex flat_map hex_of_byte app length]. fold (toString_hex buf). lia.
Qed.

Lemma toString_hex_app a b : toString_hex (a ++ b) = toString_hex a ++ toString_hex b.
Proof. apply flat_map_app. Qed.

Lemma length_Buffer_from_hex s : (2 * length (Buffer_from_hex s) <= length s)%nat.
Proof.
  assert (H : forall n s, (length s <= n)%nat ->
                          (2 * length (Buffer_from_hex s) <= length s)%nat).
  { induction n as [|n IH]; intros [|c1 [|c2 r]] Hn; cbn [Buffer_from_hex length] in *;
      try lia.
    destruct (unhex c1), (unhex c2); cbn [length]; try lia.
    specialize (IH r ltac:(lia)). lia. }
  apply (H (length s)). lia.
Qed.

(** A character that is no hex digit ends the key there. *)
Lemma Buffer_from_hex_stops s :
  forall i c, s !! i = Some c -> unhex c = None ->
              (2 * length (Buffer_from_hex s) <= i)%nat.
Proof.
  assert (H : forall n s i c, (length s <= n)%nat -> s !! i = Some c -> unhex c = None ->
                              (2 * length (Buffer_from_hex s) <= i)%nat).
  { induction n as [|n IH]; intros [|c1 [|c2 r]] i c Hn Hi Hc;
      cbn [Buffer_from_hex length] in *; try lia.
    destruct i as [|[|i]]; cbn in Hi.
    - injection Hi as ->. rewrite Hc. cbn. lia.
    - injection Hi as ->. rewrite Hc. destruct (unhex c1); cbn; lia.
    - destruct (unhex c1), (unhex c2); cbn [length]; try lia.
      specialize (IH r i c ltac:(lia) Hi Hc). lia. }
  intros i c. apply (H (length s)). lia.
Qed.

Lemma hex_digit_lower n :
  0 <= n < 16 -> 48 <= hex_digit n <= 57 \/ 97 <= hex_digit n <= 102.
Proof. unfold hex_digit. intros Hn. destruct (Z.ltb_spec n 10); lia. Qed.

Lemma toString_hex_lower buf :
  Forall (fun c => 48 <= c <= 57 \/ 97 <= c <= 102) (toString_hex buf).
Proof.
  induction buf as [|b buf IH]; [constructor|].
  pose proof (Z_of_byte_range b) as Hb.
  cbn [toString_hex flat_map hex_of_byte app].
  constructor; [|constructor; [|exact IH]]; apply hex_digit_lower.
  - split; [apply Z.div_pos | apply Z.div_lt_upper_bound]; lia.
  - apply Z.mod_pos_bound; lia.
Qed.

(** X1.  The key the constructor derives.  With [ENCRYPTION_KEY] unset or
    empty the key is the 32 random bytes of [generateDefaultKey()]; with
    [ENCRYPTION_KEY] set to the hex of a 32-byte key, followed by anything,
    the key is those 32 bytes: characters past the 64th are ignored. *)
Theorem secretKey_of_the_environment (random key : list ascii) (rest : jsstring) :
  length random = 32%nat -> length key = 32%nat ->
  secretKey None random = random
  /\ secretKey (Some []) random = random
  /\ secretKey (Some (toString_hex key ++ rest)) random = key.
Proof.
  intros Hr Hk.
  assert (Hhex : forall buf tl, length buf = 32%nat ->
                               Buffer_from_hex (take 64 (toString_hex buf ++ tl)) = buf).
  { intros buf tl Hb. rewrite take_app_length' by (rewrite length_toString_hex; lia).
    apply Buffer_from_hex_toString_hex. }
  split; [|split].
  - unfold secretKey, generateDefaultKey. rewrite <- (app_nil_r (toString_hex random)).
    apply Hhex, Hr.
  - unfold secretKey, generateDefaultKey. rewrite <- (app_nil_r (toString_hex random)).
    apply Hhex, Hr.
  - unfold secretKey. destruct (toString_hex key ++ rest) as [|c k] eqn:E.
    + apply (f_equal (@length Z)) in E. rewrite length_app, length_toString_hex in E.
      cbn in E. lia.
    + rewrite <- E. apply Hhex, Hk.
Qed.

Section Vault.

Variable keystream : list ascii -> list ascii -> nat -> ascii.
Variable auth_tag : list ascii -> list ascii -> list ascii -> list ascii.

Local Abbreviation gctr := (gctr keystream).
Local Abbreviation encrypt := (encrypt keystream auth_tag).
Local Abbreviation decrypt := (decrypt keystream auth_tag).

Lemma length_gctr_from key iv i data : length (gctr_from keystream key iv i data) = length data.
Proof.
  revert i. induction data as [|b r IH]; intros i; [reflexivity|].
  cbn [gctr_from length]. rewrite IH. reflexivity.
Qed.

Lemma createCipheriv_bad_key key iv :
  length key <> 32%nat -> createCipheriv key iv = Throw (Error "Invalid key length").
Proof.
  intros Hk. unfold createCipheriv.
  destruct (Nat.eqb_spec (length key) 32); [contradiction|reflexivity].
Qed.

Lemma vault_refuses_bad_key key :
  length key <> 32%nat ->
  (forall iv text, encrypt key iv text = Throw (Error "Failed to encrypt token"))
  /\ (forall envelope, decrypt key envelope = Throw (Error "Failed to decrypt token")).
Proof.
  intros Hk. split.
  - intros iv text. unfold TokenManager.encrypt.
    rewrite createCipheriv_bad_key by exact Hk. reflexivity.
  - intros envelope. unfold TokenManager.decrypt.
    destruct (split colon envelope) as [|a [|b [|c [|d l]]]]; try reflexivity.
    rewrite createCipheriv_bad_key by exact Hk. reflexivity.
Qed.

(** X2.  An [ENCRYPTION_KEY] that is set but has fewer than 64 characters,
    or has a character that is no hex digit among its first 64, gives a key
    of fewer than 32 bytes, and with it every [encrypt] throws 'Failed to
    encrypt token' and every [decrypt] throws 'Failed to decrypt token'. *)
Theorem short_ENCRYPTION_KEY_disables_the_vault (k : jsstring) (random : list ascii) :
  k <> [] ->
  ((length k < 64)%nat
   \/ exists i c, (i < 64)%nat /\ k !! i = Some c /\ unhex c = None) ->
  (length (secretKey (Some k) random) < 32)%nat
  /\ (forall iv text,
        encrypt (secretKey (Some k) random) iv text = Throw (Error "Failed to encrypt token"))
  /\ (forall envelope,
        decrypt (secretKey (Some k) random) envelope
        = Throw (Error "Failed to decrypt token")).
Proof.
  intros Hne Hbad.
  assert (Hlen : (length (secretKey (Some k) random) < 32)%nat).
  { unfold secretKey. destruct k as [|c0 k0]; [contradiction|].
    destruct Hbad as [Hshort|(i & c & Hi & Hc & Hx)].
    - pose proof (length_Buffer_from_hex (take 64 (c0 :: k0))) as H.
      rewrite length_take in H. lia.
    - assert (Ht : take 64 (c0 :: k0) !! i = Some c)
        by (rewrite lookup_take_lt by exact Hi; exact Hc).
      pose proof (Buffer_from_hex_stops _ i c Ht Hx) as H. lia. }
  split; [exact Hlen|]. apply vault_refuses_bad_key. lia.
Qed.

(** X3.  The envelope [encrypt] writes.  Under a 32-byte key, a 16-byte IV
    and GCM's 16-byte tag, [encrypt] returns
    [hex(iv) : hex(tag) : hex(ciphertext)]: 32 hex digits, a colon, 32 hex
    digits, a colon, and two hex digits for each UTF-8 byte of the text, all
    digits in lower case; so its length gives away the byte length of the
    token.  [encrypt] throws only for a key that is not 32 bytes or an
    empty IV. *)
Theorem encrypt_envelope_format (key iv : list ascii) (text : jsstring) :
  (forall k v c, length (auth_tag k v c) = 16%nat) ->
  (length key = 32%nat -> length iv = 16%nat ->
   exists envelope ivHex tagHex ctHex,
     encrypt key iv text = Ok envelope
     /\ split colon envelope = [ivHex; tagHex; ctHex]
     /\ length ivHex = 32%nat /\ length tagHex = 32%nat
     /\ length ctHex = (2 * length (utf8_encode text))%nat
     /\ length envelope = (66 + 2 * length (utf8_encode text))%nat
     /\ Forall (fun c => c = colon \/ 48 <= c <= 57 \/ 97 <= c <= 102) envelope
     /\ Buffer_from_hex ivHex = iv)
  /\ (encrypt key iv text = Throw (Error "Failed to encrypt token")
      <-> length key <> 32%nat \/ iv = [])
  /\ (forall e, encrypt key iv text = Throw e -> e = Error "Failed to encrypt token").
Proof.
  intros Htag. split; [|split].
  - intros Hk Hiv. unfold TokenManager.encrypt. rewrite createCipheriv_ok by lia.
    cbn [bindR try_catch].
    eexists _, _, _, _. split; [reflexivity|]. split; [apply split_envelope|].
    rewrite !length_app, !length_toString_hex, Htag, Hiv.
    unfold TokenManager.gctr. rewrite length_gctr_from. cbn [length].
    repeat split; try lia.
    + repeat (apply Forall_app; split);
        try (eapply Forall_impl; [apply toString_hex_lower|intros c Hc; right; exact Hc]);
        repeat constructor.
    + apply Buffer_from_hex_toString_hex.
  - unfold TokenManager.encrypt, createCipheriv.
    destruct (Nat.eqb_spec (length key) 32) as [Hk|Hk]; cbn [negb].
    + destruct (Nat.eqb_spec (length iv) 0) as [Hiv|Hiv]; cbn [bindR try_catch].
      * split; [intros _; right; destruct iv; [reflexivity|discriminate]|reflexivity].
      * split; [discriminate|]. intros [H|H]; [contradiction|]. subst iv. contradiction.
    + cbn [bindR try_catch]. split; [auto|reflexivity].
  - intros e. unfold TokenManager.encrypt.
    destruct (createCipheriv key iv) as [[]|e0]; cbn [bindR try_catch];
      [discriminate|intros [= <-]; reflexivity].
Qed.

(** X4.  [decrypt] accepts a shortened tag.  The decipher is created with
    no [authTagLength], so [setAuthTag] takes a tag of 4, 8 or 12 to 16
    bytes and [final()] compares it with the leading bytes of the tag it
    computes: the envelope of a well-formed text still decrypts to that
    text when its tag is cut to its first [n] bytes for those [n], and
    is refused for every other [n] below 16. *)
Theorem decrypt_accepts_truncated_tag (key iv : list ascii) (s : jsstring) (n : nat) :
  (forall k v c, length (auth_tag k v c) = 16%nat) ->
  length key = 32%nat -> length iv = 16%nat -> well_formed s = true -> (n <= 16)%nat ->
  let c := gctr key iv (utf8_encode s) in
  decrypt key (toString_hex iv ++ [colon] ++ toString_hex (take n (auth_tag key iv c))
                 ++ [colon] ++ toString_hex c)
  = if valid_tag_length n then Ok s else Throw (Error "Failed to decrypt token").
Proof.
  intros Htag Hk Hiv Hwf Hn c. rewrite decrypt_envelope, createCipheriv_ok by lia.
  cbn [bindR]. unfold setAuthTag.
  rewrite length_take, Htag, Nat.min_l by exact Hn.
  destruct (valid_tag_length n); [|reflexivity].
  cbn [bindR]. unfold decipher_final, bytes_eqb.
  rewrite length_take, Htag, Nat.min_l by exact Hn.
  rewrite bool_decide_eq_true_2 by reflexivity. cbn [bindR try_catch].
  unfold c. rewrite gctr_involutive, utf8_decode_encode by exact Hwf. reflexivity.
Qed.

End Vault.

(** X1 on a key of 32 letters k: it is read back from its own hex, with
    or without more characters behind. *)
Lemma secretKey_of_the_environment_witness :
  length demo_key = 32%nat
  /\ secretKey None demo_key = demo_key
  /\ secretKey (Some (toString_hex demo_key ++ [48; 49])) demo_key = demo_key.
Proof.
  assert (Hk : length demo_key = 32%nat) by reflexivity.
  destruct (secretKey_of_the_environment demo_key demo_key [48; 49] Hk Hk) as (H1 & _ & H3).
  split; [exact Hk|]. split; [exact H1|exact H3].
Defined.

(** X2 on the key string "00ff": two bytes, and nothing can be encrypted. *)
Lemma short_ENCRYPTION_KEY_witness :
  (length [48; 48; 102; 102] < 64)%nat
  /\ secretKey (Some [48; 48; 102; 102]) demo_key = [byte_of_Z 0; byte_of_Z 255]
  /\ encrypt demo_keystream demo_auth_tag (secretKey (Some [48; 48; 102; 102]) demo_key)
       demo_iv [104; 105]
     = Throw (Error "Failed to encrypt token").
Proof.
  assert (Hs : (length [48; 48; 102; 102] < 64)%nat) by (cbn; lia).
  destruct (short_ENCRYPTION_KEY_disables_the_vault demo_keystream demo_auth_tag
              [48; 48; 102; 102] demo_key ltac:(discriminate) (or_introl Hs))
    as (_ & He & _).
  split; [exact Hs|]. split; [reflexivity|apply He].
Defined.

(** X3 on the text "hi" under the stand-in cipher. *)
Lemma encrypt_envelope_format_witness :
  length demo_key = 32%nat /\ length demo_iv = 16%nat
  /\ exists envelope,
       encrypt demo_keystream demo_auth_tag demo_key demo_iv [104; 105] = Ok envelope
       /\ length envelope = 70%nat
       /\ length (split colon envelope) = 3%nat.
Proof.
  assert (Hk : length demo_key = 32%nat) by reflexivity.
  assert (Hi : length demo_iv = 16%nat) by reflexivity.
  destruct (encrypt_envelope_format demo_keystream demo_auth_tag demo_key demo_iv [104; 105]
              (fun _ _ _ => eq_refl)) as (H & _).
  destruct (H Hk Hi) as (envelope & ivHex & tagHex & ctHex & He & Hs & _ & _ & _ & Hl & _).
  split; [exact Hk|]. split; [exact Hi|].
  exists envelope. split; [exact He|]. split; [exact Hl|]. rewrite Hs. reflexivity.
Defined.

(** X4 on the text "hi": the tag cut to four bytes is accepted, cut to
    three it is refused. *)
Lemma decrypt_accepts_truncated_tag_witness :
  well_formed [104; 105] = true
  /\ decrypt demo_keystream demo_auth_tag demo_key
       (toString_hex demo_iv ++ [colon] ++ toString_hex (repeat "t"%char 4) ++ [colon]
          ++ toString_hex (gctr demo_keystream demo_key demo_iv (utf8_encode [104; 105])))
     = Ok [104; 105]
  /\ decrypt demo_keystream demo_auth_tag demo_key
       (toString_hex demo_iv ++ [colon] ++ toString_hex (repeat "t"%char 3) ++ [colon]
          ++ toString_hex (gctr demo_keystream demo_key demo_iv (utf8_encode [104; 105])))
     = Throw (Error "Failed to decrypt token").
Proof.
  assert (Hw : well_formed [104; 105] = true) by reflexivity.
  split; [exact Hw|]. split.
  - exact (decrypt_accepts_truncated_tag demo_keystream demo_auth_tag demo_key demo_iv
             [104; 105] 4 (fun _ _ _ => eq_refl) eq_refl eq_refl Hw ltac:(lia)).
  - exact (decrypt_accepts_truncated_tag demo_keystream demo_auth_tag demo_key demo_iv
             [104; 105] 3 (fun _ _ _ => eq_refl) eq_refl eq_refl Hw ltac:(lia)).
Defined.

(** *** The webhook signature as a string *)

Lemma utf8_encode_ascii c r :
  0 <= c < 0x80 -> utf8_encode (c :: r) = byte_of_Z c :: utf8_encode r.
Proof.
  intros Hc.
  assert (Hh : is_high_surrogate c = false)
    by (unfold is_high_surrogate; destruct (Z.leb_spec 0xD800 c); [lia|reflexivity]).
  assert (Hl : is_low_surrogate c = false)
    by (unfold is_low_surrogate; destruct (Z.leb_spec 0xDC00 c); [lia|reflexivity]).
  cbn [utf8_encode]. rewrite Hh, Hl. unfold encode_code_point.
  destruct (Z.ltb_spec c 0x80); [reflexivity|lia].
Qed.

Lemma utf8_encode_high u r :
  0x80 <= u < 0x10000 ->
  exists b rest, utf8_encode (u :: r) = b :: rest /\ 0x80 <= Z_of_byte b.
Proof.
  intros Hu.
  assert (Hrep : forall tl, exists b rest,
             encode_code_point replacement ++ tl = b :: rest /\ 0x80 <= Z_of_byte b).
  { intros tl. eexists _, _. split; [reflexivity|]. vm_compute. discriminate. }
  cbn [utf8_encode]. destruct (is_high_surrogate u) eqn:Hh.
  - destruct r as [|v r']; [apply (Hrep [])|].
    destruct (is_low_surrogate v) eqn:Hl; [|apply Hrep].
    unfold is_high_surrogate, is_low_surrogate in Hh, Hl.
    unfold encode_code_point. decide_tests. cbn [app].
    eexists _, _. split; [reflexivity|]. rewrite Z_of_byte_of_Z; lia.
  - destruct (is_low_surrogate u) eqn:Hl; [apply Hrep|].
    unfold encode_code_point. decide_tests; cbn [app];
      (eexists _, _; split; [reflexivity|]; rewrite Z_of_byte_of_Z; lia).
Qed.

(** Over code units, only an ASCII string has the bytes of an ASCII string. *)
Lemma utf8_encode_ascii_inj h :
  Forall (fun c => 0 <= c < 0x80) h ->
  forall s, Forall (fun u => 0 <= u < 0x10000) s ->
            utf8_encode s = utf8_encode h -> s = h.
Proof.
  induction 1 as [|c h Hc _ IH]; intros [|u r] Hs E; try reflexivity.
  - exfalso. inversion Hs as [|? ? Hu _]; subst.
    destruct (Z.ltb_spec u 0x80).
    + rewrite utf8_encode_ascii in E by lia. discriminate.
    + destruct (utf8_encode_high u r ltac:(lia)) as (b & rest & Hb & _).
      rewrite Hb in E. discriminate.
  - rewrite utf8_encode_ascii in E by exact Hc. discriminate.
  - inversion Hs as [|? ? Hu Hr]; subst. rewrite (utf8_encode_ascii c) in E by exact Hc.
    destruct (Z.ltb_spec u 0x80).
    + rewrite utf8_encode_ascii in E by lia. injection E as Eb Er.
      apply (f_equal Z_of_byte) in Eb. rewrite !Z_of_byte_of_Z in Eb by lia.
      subst u. f_equal. apply IH; assumption.
    + destruct (utf8_encode_high u r ltac:(lia)) as (b & rest & Hb & Hhigh).
      rewrite Hb in E. injection E as Eb _. subst b.
      rewrite Z_of_byte_of_Z in Hhigh by lia. lia.
Qed.

(** X5.  [validateWebhookSignature] answers true exactly when the signature
    is, character for character, the lower-case hex digest of the payload
    under the secret: the same digest in upper case, in base64, or with a
    prefix such as [sha256=] in front is refused. *)
Theorem validateWebhookSignature_iff_hex_digest
    (hmac : HmacAlgorithm -> list ascii -> list ascii -> list ascii)
    (payload signature secret : jsstring) (algorithm : HmacAlgorithm) :
  Forall (fun u => 0 <= u < 0x10000) signature ->
  validateWebhookSignature hmac payload signature secret algorithm
  = Ok (bool_decide
          (signature
           = toString_hex (hmac algorithm (utf8_encode secret) (utf8_encode payload)))).
Proof.
  intros Hs. unfold validateWebhookSignature, timingSafeEqual, bytes_eqb.
  set (expected := toString_hex (hmac algorithm (utf8_encode secret) (utf8_encode payload))).
  assert (Hascii : Forall (fun c => 0 <= c < 0x80) expected).
  { eapply Forall_impl; [apply toString_hex_lower|]. intros c Hc. cbv beta in Hc. lia. }
  destruct (Nat.eqb_spec (length (utf8_encode signature)) (length (utf8_encode expected)))
    as [El|El]; cbn [try_catch].
  - f_equal. apply bool_decide_ext. split.
    + intros E. apply (utf8_encode_ascii_inj expected Hascii signature Hs E).
    + intros ->. reflexivity.
  - f_equal. symmetry. apply bool_decide_eq_false_2. intros ->. contradiction.
Qed.

(** X5 with a one-byte digest 0x68: "68" is accepted, "68 " is not. *)
Lemma validateWebhookSignature_iff_hex_digest_witness :
  Forall (fun u => 0 <= u < 0x10000) [54; 56]
  /\ validateWebhookSignature (fun _ _ _ => ["h"%char]) [123; 125] [54; 56] [115] sha256
     = Ok true
  /\ validateWebhookSignature (fun _ _ _ => ["h"%char]) [123; 125] [54; 56; 32] [115] sha256
     = Ok false.
Proof.
  assert (H1 : Forall (fun u => 0 <= u < 0x10000) [54; 56]) by (repeat constructor; lia).
  assert (H2 : Forall (fun u => 0 <= u < 0x10000) [54; 56; 32]) by (repeat constructor; lia).
  split; [exact H1|]. split.
  - rewrite (validateWebhookSignature_iff_hex_digest (fun _ _ _ => ["h"%char])
               [123; 125] [54; 56] [115] sha256 H1).
    reflexivity.
  - rewrite (validateWebhookSignature_iff_hex_digest (fun _ _ _ => ["h"%char])
               [123; 125] [54; 56; 32] [115] sha256 H2).
    reflexivity.
Defined.

End VaultFormatSpec.

(** ** Advisory locks in use *)
Module LockUseSpec.
Import SchedulerLock SchedulerLockSpec SchedulerTick.

Section Locks.

Variable hashtext : string -> Z.
Context {St T : Type}.

Lemma calls_cons_Query s (t : list Event) (p : Pg) (a : St) :
  calls (mkWorld p a (Query s :: t)) = calls (mkWorld p a t).
Proof. reflexivity. Qed.

(** With the lock free and the asking statement not rejected, [fn] runs. *)
Lemma lock_is_taken_when_free
    (lockKey : string) (fn : St -> Result T * St) (w : World St) :
  head (faults (pg w)) <> Some true ->
  mem (hashtext lockKey) (elsewhere (pg w)) = false ->
  let '(result, w') := withAdvisoryLock hashtext lockKey fn w in
  calls w' = S (calls w) /\ app w' = snd (fn (app w))
  /\ result = match fst (fn (app w)) with
              | Ok v => Ok (Some v)
              | Throw e => Throw e
              end.
Proof.
  intros Hf He. unfold withAdvisoryLock, tryAcquireLock, releaseLock, call, queryRawUnsafe, calls.
  destruct w as [[h e f] a t]; cbn [pg app trace held elsewhere faults] in *.
  destruct f as [|[|] f]; cbn [head] in Hf; try congruence;
    cbn [tl run_statement elsewhere held faults]; rewrite He;
    cbn [negb pg app trace held elsewhere faults tl];
    destruct (fn a) as [r a'] eqn:Hfn; cbn [pg app trace held elsewhere faults tl].
  - cbn [run_statement held]. rewrite mem_head.
    cbn [fst snd pg app trace List.filter length]. destruct r; auto.
  - destruct f as [|[|] f]; cbn [tl run_statement held elsewhere faults pg app trace];
      rewrite ?mem_head; cbn [fst snd pg app trace List.filter length];
      destruct r; auto.
Qed.

(** X6.  Mutual exclusion.  When the statement that asks for the lock is
    not rejected, [withAdvisoryLock] runs [fn] exactly when no other
    session holds the lock on [hashtext(lockKey)]: if one does, nothing is
    called or changed and the result is [undefined].  The lock is on the
    hash, so two keys with the same [hashtext] exclude each other as well. *)
Theorem lock_held_elsewhere_excludes
    (lockKey : string) (fn : St -> Result T * St) (w : World St) :
  head (faults (pg w)) <> Some true ->
  let k := hashtext lockKey in
  let '(result, w') := withAdvisoryLock hashtext lockKey fn w in
  (mem k (elsewhere (pg w)) = true ->
     result = Ok None /\ calls w' = calls w /\ app w' = app w
     /\ held (pg w') = held (pg w) /\ elsewhere (pg w') = elsewhere (pg w))
  /\ (mem k (elsewhere (pg w)) = false ->
        calls w' = S (calls w) /\ app w' = snd (fn (app w))
        /\ result = match fst (fn (app w)) with
                    | Ok v => Ok (Some v)
                    | Throw e => Throw e
                    end).
Proof.
  intros Hf k. unfold withAdvisoryLock, tryAcquireLock, releaseLock, call, queryRawUnsafe, calls.
  fold k. destruct w as [[h e f] a t]; cbn [pg app trace held elsewhere faults] in *.
  destruct f as [|[|] f]; cbn [head] in Hf; try congruence;
    cbn [tl run_statement elsewhere held faults].
  - destruct (mem k e) eqn:He; cbn [negb pg app trace held elsewhere faults tl].
    + split; [auto|discriminate].
    + destruct (fn a) as [r a'] eqn:Hfn.
      cbn [pg app trace held elsewhere faults tl run_statement fst snd].
      rewrite mem_head. cbn [fst snd pg app trace List.filter length].
      split; [discriminate|]. intros _. destruct r; auto.
  - destruct (mem k e) eqn:He; cbn [negb pg app trace held elsewhere faults tl].
    + split; [auto|discriminate].
    + destruct (fn a) as [r a'] eqn:Hfn. cbn [pg app trace held elsewhere faults tl].
      destruct f as [|[|] f]; cbn [tl run_statement held elsewhere faults pg app trace];
        rewrite ?mem_head; cbn [fst snd pg app trace List.filter length];
        (split; [discriminate|]); intros _; destruct r; auto.
Qed.

(** X7.  The lock does not leak.  With no statement rejected and the lock
    free, two calls of [withAdvisoryLock] on the same key, one after the
    other, both run their job, also when the first job threw; afterwards
    the session holds what it held before. *)
Theorem withAdvisoryLock_twice
    (lockKey : string) (f g : St -> Result T * St) (w : World St) :
  faults (pg w) = [] ->
  mem (hashtext lockKey) (elsewhere (pg w)) = false ->
  let '(r1, w1) := withAdvisoryLock hashtext lockKey f w in
  let '(r2, w2) := withAdvisoryLock hashtext lockKey g w1 in
  calls w2 = (calls w + 2)%nat
  /\ app w1 = snd (f (app w)) /\ app w2 = snd (g (app w1))
  /\ held (pg w1) = held (pg w) /\ held (pg w2) = held (pg w).
Proof.
  intros Hf He. unfold withAdvisoryLock, tryAcquireLock, releaseLock, call, queryRawUnsafe, calls.
  destruct w as [[h e fl] a t]; cbn [pg app trace held elsewhere faults] in *. subst fl.
  cbn [tl run_statement elsewhere held faults]. rewrite He.
  cbn [negb pg app trace held elsewhere faults tl].
  destruct (f a) as [r a'] eqn:Hfa.
  cbn [pg app trace held elsewhere faults tl run_statement].
  rewrite mem_head, remove_first_head.
  cbn [pg app trace held elsewhere faults tl run_statement]. rewrite He.
  cbn [negb pg app trace held elsewhere faults tl].
  destruct (g a') as [r' a''] eqn:Hga.
  cbn [pg app trace held elsewhere faults tl run_statement].
  rewrite mem_head, remove_first_head.
  cbn [fst snd pg app trace held List.filter length].
  repeat split; lia.
Qed.

(** X8.  [releaseLock] swallows a rejected unlock.  When the lock was
    taken and the unlock statement is rejected, [withAdvisoryLock] still
    resolves to what [fn] gave (or throws what [fn] threw), and the session
    goes on holding the lock. *)
Theorem failed_unlock_keeps_the_lock
    (lockKey : string) (fn : St -> Result T * St) (w : World St) (later : list bool) :
  faults (pg w) = false :: true :: later ->
  mem (hashtext lockKey) (elsewhere (pg w)) = false ->
  let '(result, w') := withAdvisoryLock hashtext lockKey fn w in
  result = match fst (fn (app w)) with
           | Ok v => Ok (Some v)
           | Throw e => Throw e
           end
  /\ held (pg w') = hashtext lockKey :: held (pg w)
  /\ calls w' = S (calls w)
  /\ trace w' = Query (pg_advisory_unlock (hashtext lockKey)) :: Called
                 :: Query (pg_try_advisory_lock (hashtext lockKey)) :: trace w.
Proof.
  intros Hf He. unfold withAdvisoryLock, tryAcquireLock, releaseLock, call, queryRawUnsafe, calls.
  destruct w as [[h e fl] a t]; cbn [pg app trace held elsewhere faults] in *. subst fl.
  cbn [tl run_statement elsewhere held faults]. rewrite He.
  cbn [negb pg app trace held elsewhere faults tl].
  destruct (fn a) as [r a'] eqn:Hfn.
  cbn [fst snd pg app trace held elsewhere faults tl List.filter length].
  destruct r; auto.
Qed.

End Locks.

Section Tick.

Variable hashtext : string -> Z.
Context {St : Type}.

(** X9.  The schedulers' jobs return no value, so what [withAdvisoryLock]
    resolves to is [undefined] whether the lock was refused or the job ran:
    a tick whose job ran to its end writes the line 'Skipping ..., another
    instance holds the lock' all the same.  Only a job that throws makes
    the tick write something else. *)
Theorem tick_of_a_void_job_reports_skipping
    (lockKey : string) (job : St -> Result unit * St) (w : World St) :
  head (faults (pg w)) <> Some true ->
  mem (hashtext lockKey) (elsewhere (pg w)) = false ->
  let '(console, w') := tick hashtext lockKey job w in
  calls w' = S (calls w)
  /\ app w' = snd (job (app w))
  /\ console = match fst (job (app w)) with
               | Ok _ => Skipping
               | Throw e => TickError e
               end.
Proof.
  intros Hf He. unfold tick.
  pose proof (lock_is_taken_when_free hashtext lockKey job w Hf He) as H. revert H.
  destruct (withAdvisoryLock hashtext lockKey job w) as [result w'].
  intros (Hc & Ha & Hr). subst result.
  destruct (fst (job (app w))) as [[]|e]; cbn [not_ran]; auto.
Qed.

End Tick.

(** X6 with the lock held by another instance. *)
Lemma lock_held_elsewhere_excludes_witness :
  head (faults (pg demo_busy)) <> Some true
  /\ fst (withAdvisoryLock demo_hashtext "connectors_scheduled_sync" demo_job demo_busy)
     = Ok None
  /\ app (snd (withAdvisoryLock demo_hashtext "connectors_scheduled_sync" demo_job demo_busy))
     = 0%nat.
Proof.
  assert (Hf : head (faults (pg demo_busy)) <> Some true) by discriminate.
  split; [exact Hf|].
  pose proof (lock_held_elsewhere_excludes demo_hashtext "connectors_scheduled_sync"
                demo_job demo_busy Hf) as H.
  cbv zeta in H. revert H.
  destruct (withAdvisoryLock demo_hashtext "connectors_scheduled_sync" demo_job demo_busy)
    as [result w'].
  intros [H _]. destruct (H eq_refl) as (Hr & _ & Ha & _). split; [exact Hr|exact Ha].
Defined.

(** X7 on the free lock: the counter is at two afterwards. *)
Lemma withAdvisoryLock_twice_witness :
  faults (pg demo_free) = []
  /\ app (snd (withAdvisoryLock demo_hashtext "weekly_report_tick" demo_job
                 (snd (withAdvisoryLock demo_hashtext "weekly_report_tick" demo_job
                         demo_free))))
     = 2%nat.
Proof.
  split; [reflexivity|].
  pose proof (withAdvisoryLock_twice demo_hashtext "weekly_report_tick" demo_job demo_job
                demo_free eq_refl eq_refl) as H.
  revert H.
  destruct (withAdvisoryLock demo_hashtext "weekly_report_tick" demo_job demo_free)
    as [r1 w1].
  cbn [snd].
  destruct (withAdvisoryLock demo_hashtext "weekly_report_tick" demo_job w1) as [r2 w2].
  intros (_ & H1 & H2 & _). cbn [snd]. rewrite H2, H1. reflexivity.
Defined.

(** X8 with the second statement rejected: the job ran, its result came
    back, and 7 is still held. *)
Lemma failed_unlock_keeps_the_lock_witness :
  faults (pg (mkWorld (mkPg [] [] [false; true]) 0%nat [])) = [false; true]
  /\ fst (withAdvisoryLock demo_hashtext "instant_insights_tick" demo_job
            (mkWorld (mkPg [] [] [false; true]) 0%nat []))
     = Ok (Some tt)
  /\ held (pg (snd (withAdvisoryLock demo_hashtext "instant_insights_tick" demo_job
                      (mkWorld (mkPg [] [] [false; true]) 0%nat []))))
     = [7].
Proof.
  split; [reflexivity|].
  pose proof (failed_unlock_keeps_the_lock demo_hashtext "instant_insights_tick" demo_job
                (mkWorld (mkPg [] [] [false; true]) 0%nat []) [] eq_refl eq_refl) as H.
  revert H.
  destruct (withAdvisoryLock demo_hashtext "instant_insights_tick" demo_job
              (mkWorld (mkPg [] [] [false; true]) 0%nat [])) as [result w'].
  intros (Hr & Hh & _). split; [exact Hr|exact Hh].
Defined.

(** X9 on the free lock: the job ran, and the tick says it was skipped. *)
Lemma tick_of_a_void_job_reports_skipping_witness :
  head (faults (pg demo_free)) <> Some true
  /\ fst (tick demo_hashtext "connectors_scheduled_sync" demo_job demo_free) = Skipping
  /\ app (snd (tick demo_hashtext "connectors_scheduled_sync" demo_job demo_free)) = 1%nat.
Proof.
  assert (Hf : head (faults (pg demo_free)) <> Some true) by discriminate.
  split; [exact Hf|].
  pose proof (tick_of_a_void_job_reports_skipping demo_hashtext "connectors_scheduled_sync"
                demo_job demo_free Hf eq_refl) as H.
  revert H.
  destruct (tick demo_hashtext "connectors_scheduled_sync" demo_job demo_free)
    as [console w'].
  intros (_ & Ha & Hc). split; [exact Hc|exact Ha].
Defined.

End LockUseSpec.

(** ** Tokens: refreshing, expiry and the 401 interceptor *)
Module TokenRefreshSpec.
Import Prisma BaseConnector AsyncFacts ConnectorSpec.

(** The world once [c] was sent, and once a refresh was counted. *)
Definition after_send (c : Request) (w : World) : World :=
  mkWorld (db w) (integration w) (graphqlClient w) (results w) (c :: sent w) (refreshes w).

Definition counted (w : World) : World :=
  mkWorld (db w) (integration w) (graphqlClient w) (results w) (sent w) (S (refreshes w)).

(** The row the connector is bound to. *)
Definition row (w : World) : option Integration.t :=
  List.find (has_id (Integration.id (integration w))) (Prisma.integration (db w)).

Section Tokens.

Variable api : nat -> Response.
Variable encrypt decrypt : string -> Result string.

Lemma handleTokenRefresh_counted refresh w :
  handleTokenRefresh encrypt refresh w
  = catch
      (let! refreshResult := refresh in
       let! self := gets integration in
       let! encryptedAccess := lift (encrypt (accessToken refreshResult)) in
       let! encryptedRefresh :=
         if truthy_opt (refreshToken refreshResult)
         then let! e := lift (encrypt (default "" (refreshToken refreshResult))) in
              ret (Some e)
         else ret None in
       let! _ := integration_update (Integration.id self)
                   (with_tokens encryptedAccess encryptedRefresh (expiresAt refreshResult)) in
       let! localAccess := lift (encrypt (accessToken refreshResult)) in
       let! localRefresh :=
         if truthy_opt (refreshToken refreshResult)
         then let! e := lift (encrypt (default "" (refreshToken refreshResult))) in
              ret (Some e)
         else ret None in
       let! _ := modify (fun w =>
                   set_self (with_local_tokens localAccess localRefresh
                               (expiresAt refreshResult) (integration w)) w) in
       ret (accessToken refreshResult))
      (fun error =>
         let! self := gets integration in
         let! _ :=
           if negb (String.eqb (Integration.id self) "temp")
           then integration_update (Integration.id self) (fun _ => with_status_only "expired")
           else ret tt in
         throw (Error ("Token refresh failed: " +:+ message error)))
      (counted w).
Proof. reflexivity. Qed.

(** A refresh that throws: the row is marked 'expired', unless the
    connector is the temporary one of the OAuth exchange. *)
Lemma handleTokenRefresh_fails refresh w e w1 :
  refresh (counted w) = Thrown e w1 ->
  (has_row w1 -> Integration.id (integration w1) <> "temp" ->
   exists w2,
     handleTokenRefresh encrypt refresh w
     = Thrown (Error ("Token refresh failed: " +:+ message e)) w2
     /\ row_status w2 = Some "expired"
     /\ sent w2 = sent w1 /\ refreshes w2 = refreshes w1
     /\ integration w2 = integration w1 /\ syncLog (db w2) = syncLog (db w1))
  /\ (Integration.id (integration w1) = "temp" ->
      handleTokenRefresh encrypt refresh w
      = Thrown (Error ("Token refresh failed: " +:+ message e)) w1).
Proof.
  intros Hr. rewrite handleTokenRefresh_counted.
  split; intros; unfold catch at 1; rewrite (bind_Thrown_l _ _ _ _ _ Hr).
  - rename H into Hrow, H0 into Htemp. unfold bind at 1. cbn [gets].
    apply String.eqb_neq in Htemp. rewrite Htemp. cbn [negb].
    unfold bind at 1, integration_update. unfold has_row in Hrow. rewrite Hrow.
    cbn [throw]. eexists. split; [reflexivity|].
    split; [|repeat split].
    unfold row_status. cbn [on_db db integration set_integration Prisma.integration].
    rewrite find_update_has_id by reflexivity.
    destruct (existsb_find_has_id _ _ Hrow) as [i ->]. reflexivity.
  - rename H into Htemp. unfold bind at 1. cbn [gets]. rewrite Htemp. reflexivity.
Qed.

(** X10.  A token that fell due and cannot be refreshed.  [getAccessToken]
    on a token whose [expiresAt] is not after now, with a
    [refreshAccessToken] that throws [e], marks the integration's row
    'expired' and throws a new error that carries no HTTP status; nothing
    else is sent.  For the temporary connector of the OAuth exchange
    (id 'temp') no row is written. *)
Theorem expired_token_with_failing_refresh
    (refresh : Async World RefreshResult) (w w1 : World) (tok : string) (t : Z)
    (e : JsError) :
  decrypt (Integration.accessToken (integration w)) = Ok tok ->
  Integration.expiresAt (integration w) = Some t ->
  t <= now (db w) ->
  refresh (counted w) = Thrown e w1 ->
  (has_row w1 -> Integration.id (integration w1) <> "temp" ->
   exists e' w2,
     getAccessToken encrypt decrypt refresh w = Thrown e' w2
     /\ response_status e' = None
     /\ row_status w2 = Some "expired"
     /\ sent w2 = sent w1 /\ syncLog (db w2) = syncLog (db w1))
  /\ (Integration.id (integration w1) = "temp" ->
      exists e', getAccessToken encrypt decrypt refresh w = Thrown e' w1
                 /\ response_status e' = None).
Proof.
  intros Hdec Hexp Hdue Hr.
  assert (Hget : getAccessToken encrypt decrypt refresh w
                 = handleTokenRefresh encrypt refresh w).
  { unfold getAccessToken, bind, gets, today. rewrite Hdec. cbn [lift ret gets].
    rewrite Hexp. destruct (Z.leb_spec t (now (db w))); [reflexivity|lia]. }
  rewrite Hget. destruct (handleTokenRefresh_fails refresh w e w1 Hr) as [Hrow Htemp]. split.
  - intros H1 H2. destruct (Hrow H1 H2) as (w2 & -> & Hs & Hsent & _ & _ & Hlog).
    eexists _, w2. split; [reflexivity|]. auto.
  - intros H. rewrite (Htemp H). eexists. split; reflexivity.
Qed.

(** X11.  A token that was refreshed is the one served.  When
    [refreshAccessToken] returns a token that the vault can encrypt and
    decrypt again, [handleTokenRefresh] returns it, the row is 'connected'
    and both the row and the connector's own copy hold an envelope of it;
    with an expiry ahead (the new one, or the old one when the provider
    gave none) [getAccessToken] then serves that token without a further
    refresh. *)
Theorem refreshed_token_is_served
    (refresh : Async World RefreshResult) (w w1 : World) (r : RefreshResult)
    (envelope : string) :
  refresh (counted w) = Returned r w1 ->
  has_row w1 ->
  encrypt (accessToken r) = Ok envelope ->
  decrypt envelope = Ok (accessToken r) ->
  (forall rt, refreshToken r = Some rt -> is_Ok (encrypt rt)) ->
  match expiresAt r, Integration.expiresAt (integration w1) with
  | Some e, _ => now (db w1) < e
  | None, Some e0 => now (db w1) < e0
  | None, None => True
  end ->
  exists w2,
    handleTokenRefresh encrypt refresh w = Returned (accessToken r) w2
    /\ (forall refresh', getAccessToken encrypt decrypt refresh' w2
                         = Returned (accessToken r) w2)
    /\ row_status w2 = Some "connected"
    /\ (exists i, row w2 = Some i
                  /\ decrypt (Integration.accessToken i) = Ok (accessToken r))
    /\ decrypt (Integration.accessToken (integration w2)) = Ok (accessToken r)
    /\ sent w2 = sent w1 /\ refreshes w2 = refreshes w1.
Proof.
  intros Hr Hrow Henc Hdec Hrt Hexp. rewrite handleTokenRefresh_counted.
  unfold catch at 1. rewrite (bind_Returned_l _ _ _ _ _ Hr).
  unfold bind at 1. cbn [gets]. rewrite Henc. unfold bind at 1. cbn [lift ret].
  assert (Hopt : exists o,
             (if truthy_opt (refreshToken r)
              then let! e := lift (encrypt (default "" (refreshToken r))) in ret (Some e)
              else ret None)
             = (ret o : Async World (option string))).
  { destruct (refreshToken r) as [rt|] eqn:E; cbn [truthy_opt]; [|exists None; reflexivity].
    destruct (truthy rt); [|exists None; reflexivity].
    destruct (Hrt rt eq_refl) as [c Hc]. exists (Some c). cbn. rewrite Hc.
    reflexivity. }
  destruct Hopt as [o Ho]. rewrite Ho.
  unfold bind at 1. cbn [ret]. unfold bind at 1, integration_update at 1.
  unfold has_row in Hrow. rewrite Hrow.
  unfold bind at 1. cbn [lift ret]. unfold bind at 1. cbn [ret].
  unfold bind at 1. cbn [modify ret].
  eexists. split; [reflexivity|].
  cbn [set_self on_db db integration sent refreshes set_integration Prisma.integration
       with_local_tokens Integration.accessToken Integration.expiresAt Integration.id].
  split; [|split; [|split; [|split; [exact Hdec|split; reflexivity]]]].
  - intros refresh'. unfold getAccessToken, bind, gets, today.
    cbn [integration db set_self on_db with_local_tokens Integration.accessToken
         Integration.expiresAt now set_integration].
    rewrite Hdec. cbn [lift ret gets]. cbn [now db set_self on_db set_integration].
    destruct (expiresAt r) as [e|];
      [|destruct (Integration.expiresAt (integration w1)) as [e0|]; [|reflexivity]].
    + destruct (Z.leb_spec e (now (db w1))); [lia|reflexivity].
    + destruct (Z.leb_spec e0 (now (db w1))); [lia|reflexivity].
  - unfold row_status. cbn [on_db db integration set_integration Prisma.integration
                             set_self with_local_tokens Integration.id].
    rewrite find_update_has_id by reflexivity.
    destruct (existsb_find_has_id _ _ Hrow) as [i ->]. reflexivity.
  - unfold row. cbn [on_db db integration set_integration Prisma.integration
                      set_self with_local_tokens Integration.id].
    rewrite find_update_has_id by reflexivity.
    destruct (existsb_find_has_id _ _ Hrow) as [i ->]. eexists. split; [reflexivity|].
    exact Hdec.
Qed.

(** X12.  The interceptor leaves every other failure alone.  A request
    that is answered with a status outside 2xx other than 401, or gets no
    answer, or is answered 401 while it carries [skipAuthRefresh] or the
    connector is the temporary one, is rejected with that error after this
    one request: no refresh, no retry, no write. *)
Theorem interceptor_passes_other_errors
    (fuel : nat)
    (refresh : (Request -> Async World Payload) -> Async World RefreshResult)
    (c : Request) (w : World) :
  match api (length (sent w)) with
  | Answer st p =>
    if (200 <=? st) && (st <? 300)
    then httpClient_request api encrypt (S fuel) refresh c w = Returned p (after_send c w)
    else
      st <> 401 \/ skipAuthRefresh c = true \/ Integration.id (integration w) = "temp" ->
      httpClient_request api encrypt (S fuel) refresh c w
      = Thrown (mkError "Request failed" (Some st)) (after_send c w)
  | NoResponse =>
    httpClient_request api encrypt (S fuel) refresh c w
    = Thrown (mkError "Network Error" None) (after_send c w)
  end.
Proof.
  destruct (api (length (sent w))) as [st p|] eqn:Ha.
  - destruct ((200 <=? st) && (st <? 300)) eqn:H2xx.
    + cbn [httpClient_request]. unfold catch, dispatch, bind, send. rewrite Ha, H2xx.
      reflexivity.
    + intros Hwhy. cbn [httpClient_request]. unfold catch at 1, dispatch at 1.
      unfold bind at 1. unfold send at 1. rewrite Ha, H2xx. cbn [throw].
      unfold bind at 1. cbn [gets integration response_status].
      assert (Hskip : bool_decide (Some st = Some 401)
                      && negb (skipAuthRefresh c
                               || (Integration.id (integration w) =? "temp")%string)
                      = false).
      { destruct Hwhy as [H|[H|H]].
        - rewrite bool_decide_eq_false_2 by congruence. reflexivity.
        - rewrite H. apply andb_false_r.
        - rewrite H, String.eqb_refl, orb_true_r. apply andb_false_r. }
      rewrite Hskip. reflexivity.
  - cbn [httpClient_request]. unfold catch at 1, dispatch at 1.
    unfold bind at 1. unfold send at 1. rewrite Ha. cbn [throw].
    unfold bind at 1. cbn [gets response_status].
    rewrite bool_decide_eq_false_2 by discriminate. reflexivity.
Qed.

(** X13.  A 401 whose refresh fails.  When a request is answered 401 and
    [refreshAccessToken] then throws, the interceptor rejects with the
    401 error of the request itself, the row is 'expired', and the request
    is not sent again. *)
Theorem interceptor_rejects_when_refresh_fails
    (fuel : nat)
    (refresh : (Request -> Async World Payload) -> Async World RefreshResult)
    (c : Request) (w w1 : World) (p : Payload) (e : JsError) :
  api (length (sent w)) = Answer 401 p ->
  skipAuthRefresh c = false ->
  Integration.id (integration w) <> "temp" ->
  refresh (httpClient_request api encrypt fuel refresh) (counted (after_send c w))
  = Thrown e w1 ->
  has_row w1 ->
  Integration.id (integration w1) = Integration.id (integration w) ->
  exists w2,
    httpClient_request api encrypt (S fuel) refresh c w
    = Thrown (mkError "Request failed" (Some 401)) w2
    /\ row_status w2 = Some "expired"
    /\ sent w2 = sent w1 /\ refreshes w2 = refreshes w1.
Proof.
  intros Ha Hskip Htemp Hr Hrow Hid.
  cbn [httpClient_request]. unfold catch at 1, dispatch at 1. unfold bind at 1.
  unfold send at 1. rewrite Ha.
  change ((200 <=? 401) && (401 <? 300)) with false. cbn [throw].
  unfold bind at 1. cbn [gets integration response_status]. rewrite Hskip.
  pose proof Htemp as Htemp'. apply String.eqb_neq in Htemp'. rewrite Htemp'.
  rewrite bool_decide_eq_true_2 by reflexivity. cbn [orb negb andb].
  fold (after_send c w).
  destruct (handleTokenRefresh_fails
              (refresh (httpClient_request api encrypt fuel refresh)) (after_send c w) e w1 Hr)
    as [Hfail _].
  destruct (Hfail Hrow ltac:(rewrite Hid; exact Htemp)) as (w2 & Hw2 & Hs & Hsent & Hcount & _).
  unfold bind at 1, attempt, catch at 1. rewrite (bind_Thrown_l _ _ _ _ _ Hw2).
  cbn [ret throw]. exists w2. auto.
Qed.

End Tokens.

Import ConnectorDemo.

(** X10 on the account whose token fell due at 500 and that has no
    refresh token: nothing is sent, and the row is 'expired'. *)
Lemma expired_token_with_failing_refresh_witness :
  demo_unseal (Integration.accessToken (integration demo_world_stale)) = Ok "old"
  /\ has_row demo_world_stale
  /\ exists e' w2,
       KlaviyoConnector.getAccessToken api_rejects demo_encrypt demo_unseal "basic" 3
         demo_world_stale = Thrown e' w2
       /\ row_status w2 = Some "expired" /\ sent w2 = [].
Proof.
  assert (Hd : demo_unseal (Integration.accessToken (integration demo_world_stale))
               = Ok "old") by reflexivity.
  assert (Hrow : has_row demo_world_stale) by reflexivity.
  split; [exact Hd|]. split; [exact Hrow|].
  destruct (expired_token_with_failing_refresh demo_encrypt demo_unseal
              (KlaviyoConnector.refreshAccessToken demo_unseal "basic"
                 (KlaviyoConnector.httpClient api_rejects demo_encrypt demo_unseal "basic" 3))
              demo_world_stale (counted demo_world_stale) "old" 500
              (Error "Missing refresh token") Hd eq_refl ltac:(cbn; lia) eq_refl)
    as [H _].
  destruct (H Hrow ltac:(discriminate)) as (e' & w2 & Hg & _ & Hs & Hsent & _).
  exists e', w2. split; [exact Hg|]. split; [exact Hs|exact Hsent].
Defined.

(** X11 on the marketing account, with a token endpoint that hands out
    "new-access": it is what [getAccessToken] serves afterwards. *)
Lemma refreshed_token_is_served_witness :
  has_row demo_world_klaviyo
  /\ exists w2,
       handleTokenRefresh demo_encrypt
         (KlaviyoConnector.refreshAccessToken demo_unseal "basic"
            (KlaviyoConnector.httpClient api_new_tokens demo_encrypt demo_unseal "basic" 3))
         demo_world_klaviyo
       = Returned "new-access" w2
       /\ KlaviyoConnector.getAccessToken api_new_tokens demo_encrypt demo_unseal "basic" 3 w2
          = Returned "new-access" w2
       /\ row_status w2 = Some "connected".
Proof.
  split; [reflexivity|].
  destruct (KlaviyoConnector.refreshAccessToken demo_unseal "basic"
              (KlaviyoConnector.httpClient api_new_tokens demo_encrypt demo_unseal "basic" 3)
              (counted demo_world_klaviyo)) as [r w1| |] eqn:E;
    [|vm_compute in E; discriminate..].
  assert (Hr : r = mkRefreshResult "new-access" (Some "new-refresh") (Some 3601000)
               /\ has_row w1 /\ now (db w1) = 1000).
  { vm_compute in E. injection E as <- <-. repeat split. }
  destruct Hr as (-> & Hrow & Hnow).
  destruct (refreshed_token_is_served demo_encrypt demo_unseal _ demo_world_klaviyo w1 _
              "enc:new-access" E Hrow eq_refl eq_refl)
    as (w2 & Hh & Hg & Hs & _).
  - intros rt _. eexists. reflexivity.
  - cbn [expiresAt]. rewrite Hnow. lia.
  - exists w2. split; [exact Hh|]. split; [apply Hg|exact Hs].
Defined.

(** X13 on the same account as X10: the campaigns request is answered
    401, there is no refresh token, the request is rejected with its 401. *)
Lemma interceptor_rejects_when_refresh_fails_witness :
  api_rejects (length (sent demo_world_stale)) = Answer 401 Nothing
  /\ exists w2,
       KlaviyoConnector.httpClient api_rejects demo_encrypt demo_unseal "basic" 3
         demo_campaigns_request demo_world_stale
       = Thrown (mkError "Request failed" (Some 401)) w2
       /\ row_status w2 = Some "expired"
       /\ sent w2 = [demo_campaigns_request].
Proof.
  split; [reflexivity|].
  destruct (interceptor_rejects_when_refresh_fails api_rejects demo_encrypt 2
              (KlaviyoConnector.refreshAccessToken demo_unseal "basic")
              demo_campaigns_request demo_world_stale
              (counted (after_send demo_campaigns_request demo_world_stale))
              Nothing (Error "Missing refresh token")
              eq_refl eq_refl ltac:(discriminate) eq_refl eq_refl eq_refl)
    as (w2 & Hh & Hs & Hsent & _).
  exists w2. split; [exact Hh|]. split; [exact Hs|exact Hsent].
Defined.

End TokenRefreshSpec.

(** ** Starting an OAuth flow and coming back from it *)
Module OAuthFlowSpec.
Import Prisma ConnectorManager ConnectorManagerOAuth AsyncFacts ConnectorManagerSpec.

(** Time passes: the clock moves on by [dt] milliseconds. *)
Definition later (dt : Z) (w : World) : World :=
  on_db (fun d => mkDb (integration d) (oAuthState d) (syncLog d) (user d) (now d + dt)
                    (minted d)) w.

Section Manager.

Variable JSON_stringify : StateData -> Z -> string.
Variable authorization_url :
  Connector -> gmap string string -> string -> option string -> string.
Variable JSON_parse : string -> Result StateData.
Variable token_endpoint :
  Connector -> gmap string string -> string -> option string -> Result TokenData.
Variable encrypt : string -> Result string.
Variable cuid : nat -> string.

Local Abbreviation initiateOAuth := (initiateOAuth JSON_stringify authorization_url).
Local Abbreviation handleOAuthCallback :=
  (handleOAuthCallback JSON_parse token_endpoint encrypt cuid).

(** What [initiateOAuth] does when it returns. *)
Lemma initiateOAuth_returned state verifier provider userId metadata w url st w1 :
  initiateOAuth state verifier provider userId metadata w = Returned (url, st) w1 ->
  exists c,
    createConnector provider = Ok c
    /\ st = state
    /\ url = authorization_url c (or_empty metadata) state
               (if pkceRequired c then Some verifier else None)
    /\ w1 = on_db (fun d =>
               set_oAuthState
                 (<[state := OAuthState.mk state
                               (JSON_stringify
                                  (mkStateData userId provider metadata
                                     (if pkceRequired c then Some verifier else None))
                                  (now (db w)))
                               (now (db w) + state_lifetime)]> (oAuthState d)) d) w.
Proof.
  unfold ConnectorManagerOAuth.initiateOAuth.
  destruct (connectorFactories provider) as [f|]; [|discriminate]. cbv zeta. intros H.
  apply bind_Returned in H as (c & w0 & Hc & H). apply lift_Returned in Hc as [Hc ->].
  apply bind_Returned in H as (sc & w2 & Hsc & H). apply lift_Returned in Hsc as [Hsc ->].
  apply bind_Returned in H as (u & w3 & Hu & H). apply lift_Returned in Hu as [Hu ->].
  unfold getAuthorizationUrl in Hu. rewrite Hsc in Hu. cbn [bindR] in Hu.
  injection Hu as <-.
  unfold storeOAuthState, bind, gets, modify, ret in H. injection H as <- <- <-.
  exists c. repeat split. exact Hc.
Qed.

(** It returns for the two providers only. *)
Lemma initiateOAuth_returned_provider state verifier provider userId metadata w r w1 :
  initiateOAuth state verifier provider userId metadata w = Returned r w1 ->
  (provider = "shopify" /\ createConnector provider = Ok ShopifyConnector)
  \/ (provider = "klaviyo" /\ createConnector provider = Ok KlaviyoConnector).
Proof.
  unfold ConnectorManagerOAuth.initiateOAuth.
  destruct (connectorFactories provider) as [f|] eqn:Hf; [|discriminate]. cbv zeta.
  intros H.
  apply bind_Returned in H as (c & w0 & Hc & H). apply lift_Returned in Hc as [Hc ->].
  apply bind_Returned in H as (sc & w2 & Hsc & H). apply lift_Returned in Hsc as [Hsc ->].
  pose proof Hc as Hc'. unfold createConnector in Hc'. rewrite Hf in Hc'.
  unfold connectorFactories in Hf.
  destruct (String.eqb_spec provider "shopify") as [->|Hs].
  { injection Hf as <-. injection Hc' as <-. left. auto. }
  destruct (String.eqb_spec provider "klaviyo") as [->|Hk].
  { injection Hf as <-. injection Hc' as <-. right. auto. }
  destruct (existsb _ _); [|discriminate]. injection Hf as <-.
  unfold call_inherited in Hc'. destruct (_ || _).
  - injection Hc' as <-. discriminate.
  - destruct (String.eqb _ _); discriminate.
Qed.

(** The lookup finds a factory under 'shopify' and 'klaviyo', an inherited
    member under the names of [Object.prototype], and nothing else. *)
Lemma connectorFactories_cases provider :
  (provider = "shopify" /\ connectorFactories provider = Some (Registered ShopifyConnector))
  \/ (provider = "klaviyo"
      /\ connectorFactories provider = Some (Registered KlaviyoConnector))
  \/ (In provider Object_prototype
      /\ connectorFactories provider = Some (Inherited provider))
  \/ (provider <> "shopify" /\ provider <> "klaviyo" /\ ~ In provider Object_prototype
      /\ connectorFactories provider = None).
Proof.
  unfold connectorFactories.
  destruct (String.eqb_spec provider "shopify") as [->|Hs]; [left; auto|].
  destruct (String.eqb_spec provider "klaviyo") as [->|Hk]; [right; left; auto|].
  destruct (existsb (String.eqb provider) Object_prototype) eqn:Hp.
  - right. right. left. split; [|reflexivity].
    apply existsb_exists in Hp as (x & Hin & Hx). apply String.eqb_eq in Hx. subst x.
    exact Hin.
  - right. right. right. repeat split; try assumption.
    intros Hin.
    assert (Ht : existsb (String.eqb provider) Object_prototype = true).
    { apply existsb_exists. exists provider. split; [exact Hin|apply String.eqb_refl]. }
    rewrite Ht in Hp. discriminate.
Qed.

Lemma createConnector_inherited provider :
  In provider Object_prototype ->
  createConnector provider = Ok NotAConnector
  \/ exists e, createConnector provider = Throw e.
Proof.
  intros Hin. destruct (connectorFactories_cases provider)
    as [[-> _]|[[-> _]|[[_ Hf]|(_ & _ & Hn & _)]]].
  - cbn in Hin. intuition discriminate.
  - cbn in Hin. intuition discriminate.
  - unfold createConnector. rewrite Hf. unfold call_inherited.
    destruct (_ || _); [left; reflexivity|]. destruct (String.eqb _ _); right; eauto.
  - contradiction.
Qed.

(** X14.  [initiateOAuth] stores a state only when it returns one.  For a
    provider that is neither 'shopify' nor 'klaviyo' nor a name the
    factory table inherits from [Object.prototype] it throws 'Provider ...
    not supported'.  Under an inherited name the table is not empty, so
    that test passes and a TypeError follows: for 'constructor' the
    integration itself comes back as the connector and
    [connector.getOAuthConfig] is not a function.  For the e-commerce
    provider without a shop domain in the metadata it throws as well.  In
    all these cases nothing is written.  It returns for the two providers
    only; the state it returns is the one it was given by
    [generateState()], and the OAuth State table gained exactly the row of
    that state, which expires ten minutes from now and carries a PKCE
    verifier for the email-marketing provider only. *)
Theorem initiateOAuth_stores_the_state
    (state verifier provider userId : string) (metadata : option (gmap string string))
    (w : World) :
  (provider <> "shopify" -> provider <> "klaviyo" -> ~ In provider Object_prototype ->
   initiateOAuth state verifier provider userId metadata w
   = Thrown (Error ("Provider " +:+ provider +:+ " not supported")) w)
  /\ (In provider Object_prototype ->
      exists e, initiateOAuth state verifier provider userId metadata w = Thrown e w)
  /\ (provider = "constructor" ->
      initiateOAuth state verifier provider userId metadata w
      = Thrown (Error "connector.getOAuthConfig is not a function") w)
  /\ (provider = "shopify" -> truthy_opt (or_empty metadata !! "shopDomain") = false ->
      initiateOAuth state verifier provider userId metadata w
      = Thrown (Error "Shop domain not found in integration metadata") w)
  /\ (forall url st w1,
        initiateOAuth state verifier provider userId metadata w = Returned (url, st) w1 ->
        st = state
        /\ (provider = "shopify" \/ provider = "klaviyo")
        /\ oAuthState (db w1) !! state
           = Some (OAuthState.mk state
                     (JSON_stringify
                        (mkStateData userId provider metadata
                           (if String.eqb provider "klaviyo" then Some verifier else None))
                        (now (db w)))
                     (now (db w) + 600000))
        /\ (forall other, other <> state ->
              oAuthState (db w1) !! other = oAuthState (db w) !! other)
        /\ integration (db w1) = integration (db w)
        /\ exchanges w1 = exchanges w).
Proof.
  split; [|split; [|split; [|split]]].
  - intros Hs Hk Hp. unfold ConnectorManagerOAuth.initiateOAuth.
    destruct (connectorFactories_cases provider)
      as [[E _]|[[E _]|[[E _]|(_ & _ & _ & ->)]]]; try contradiction. reflexivity.
  - intros Hp. unfold ConnectorManagerOAuth.initiateOAuth.
    destruct (connectorFactories_cases provider)
      as [[-> _]|[[-> _]|[[_ Hf]|(_ & _ & Hn & _)]]];
      [cbn in Hp; intuition discriminate..| |contradiction].
    rewrite Hf. cbv zeta. unfold bind at 1, lift at 1.
    destruct (createConnector_inherited provider Hp) as [->|[e ->]]; [|eauto].
    unfold bind at 1. cbn [lift getOAuthConfig_scopes]. eauto.
  - intros ->. reflexivity.
  - intros -> Hshop. unfold ConnectorManagerOAuth.initiateOAuth.
    cbn [connectorFactories createConnector String.eqb Ascii.eqb Bool.eqb].
    cbv zeta. unfold bind at 1. cbn [lift ret]. unfold bind at 1.
    cbn [getOAuthConfig_scopes]. rewrite Hshop. reflexivity.
  - intros url st w1 H.
    pose proof (initiateOAuth_returned_provider _ _ _ _ _ _ _ _ H) as Hprov.
    apply initiateOAuth_returned in H as (c & Hc & -> & _ & ->).
    split; [reflexivity|]. split; [tauto|].
    cbn [on_db db set_oAuthState oAuthState integration exchanges].
    split; [|split; [|split; reflexivity]].
    + rewrite lookup_insert_eq. unfold state_lifetime.
      destruct Hprov as [[-> Hc']|[-> Hc']]; rewrite Hc' in Hc; injection Hc as <-;
        reflexivity.
    + intros other Hne. apply lookup_insert_ne. congruence.
Qed.

(** X15.  From [initiateOAuth] to the callback.  If [JSON.parse] reads
    back what [JSON.stringify] wrote, the state [initiateOAuth] returned is
    accepted by [handleOAuthCallback] up to and including the tenth minute
    and refused from the millisecond after.  A callback that returns has
    asked the token endpoint with the PKCE verifier of the initiation and
    yields an integration of the user who initiated; the provider it is
    called with is not compared with the one the state was issued for. *)
Theorem state_is_good_for_ten_minutes
    (state verifier provider userId : string) (metadata : option (gmap string string))
    (c : Connector) (w w1 : World) (url : string) (dt : Z) :
  let sd := mkStateData userId provider metadata
              (if pkceRequired c then Some verifier else None) in
  createConnector provider = Ok c ->
  JSON_parse (JSON_stringify sd (now (db w))) = Ok sd ->
  initiateOAuth state verifier provider userId metadata w = Returned (url, state) w1 ->
  0 <= dt ->
  (dt <= 600000 ->
   validateOAuthState JSON_parse state (later dt w1) = Returned (Some sd) (later dt w1))
  /\ (600000 < dt ->
      forall provider' code md,
        handleOAuthCallback provider' code state md (later dt w1)
        = Thrown (Error "Invalid OAuth state") (later dt w1))
  /\ (forall provider' code md i w2,
        handleOAuthCallback provider' code state md (later dt w1) = Returned i w2 ->
        Integration.userId i = userId
        /\ Integration.provider i = provider'
        /\ exists c' td,
             createConnector provider' = Ok c'
             /\ token_endpoint c' (spread (or_empty metadata) md) code
                  (if pkceRequired c then Some verifier else None) = Ok td
             /\ Integration.accountId i = accountId td).
Proof.
  intros sd Hc0 Hjson H Hdt.
  apply initiateOAuth_returned in H as (c1 & Hc & _ & _ & ->).
  rewrite Hc0 in Hc. injection Hc as <-. subst sd.
  set (cv := if pkceRequired c then Some verifier else None) in *.
  assert (Hrow : oAuthState (db (later dt
                   (on_db (fun d =>
                      set_oAuthState
                        (<[state := OAuthState.mk state
                                      (JSON_stringify
                                         (mkStateData userId provider metadata cv)
                                         (now (db w)))
                                      (now (db w) + state_lifetime)]> (oAuthState d)) d) w)))
                 !! state
                 = Some (OAuthState.mk state
                           (JSON_stringify (mkStateData userId provider metadata cv)
                              (now (db w)))
                           (now (db w) + state_lifetime))).
  { cbn [later on_db db set_oAuthState oAuthState]. apply lookup_insert_eq. }
  split; [|split].
  - intros Hle. rewrite validateOAuthState_spec, Hrow.
    cbn [OAuthState.expiresAt OAuthState.data later on_db db set_oAuthState now].
    unfold state_lifetime.
    destruct (Z.ltb_spec (now (db w) + 10 * 60 * 1000) (now (db w) + dt)); [lia|].
    rewrite Hjson. reflexivity.
  - intros Hgt provider' code md. apply handleOAuthCallback_invalid_state.
    rewrite validateOAuthState_spec, Hrow.
    cbn [OAuthState.expiresAt OAuthState.data later on_db db set_oAuthState now].
    unfold state_lifetime.
    destruct (Z.ltb_spec (now (db w) + 10 * 60 * 1000) (now (db w) + dt)); [reflexivity|lia].
  - intros provider' code md i w2 Hcb.
    apply handleOAuthCallback_returned in Hcb
      as (row & sd & c' & td & ea & er & sc & Hr & _ & Hsd & Hc' & Htd & _ & _ & Hup & _).
    rewrite Hrow in Hr. injection Hr as <-.
    cbn [OAuthState.data] in Hsd. rewrite Hjson in Hsd. injection Hsd as <-.
    cbn [ConnectorManager.userId state_metadata codeVerifier] in *.
    cbv zeta in Hup.
    assert (Hi : Integration.userId i = userId /\ Integration.provider i = provider'
                 /\ Integration.accountId i = accountId td).
    { destruct (integration_findUnique _ _) as [old|] eqn:Hf.
      - destruct Hup as [-> _]. apply find_some_key in Hf.
        unfold key_of in Hf. injection Hf as Hu Hp Ha. cbn. auto.
      - destruct Hup as [-> _]. cbn. auto. }
    destruct Hi as (Hu & Hp & Ha). split; [exact Hu|]. split; [exact Hp|].
    exists c', td. auto.
Qed.

End Manager.

(** X15 on the stand-in environment: a flow started for "user-1" with the
    email-marketing provider; the callback is served at ten minutes sharp
    and refused a millisecond later. *)
Lemma state_is_good_for_ten_minutes_witness :
  createConnector "klaviyo" = Ok KlaviyoConnector
  /\ exists url w1,
       initiateOAuth demo_JSON_stringify demo_authorization_url "s9" "verifier"
         "klaviyo" "user-1" None demo_empty = Returned (url, "s9") w1
       /\ handleOAuthCallback demo_JSON_parse demo_token_endpoint demo_encrypt demo_cuid
            "klaviyo" "c1" "s9" ∅ (later 600001 w1)
          = Thrown (Error "Invalid OAuth state") (later 600001 w1)
       /\ exists i w2,
            handleOAuthCallback demo_JSON_parse demo_token_endpoint demo_encrypt demo_cuid
              "klaviyo" "c1" "s9" ∅ (later 600000 w1) = Returned i w2
            /\ Integration.userId i = "user-1".
Proof.
  split; [reflexivity|].
  destruct (initiateOAuth demo_JSON_stringify demo_authorization_url "s9" "verifier"
              "klaviyo" "user-1" None demo_empty) as [[url st] w1| |] eqn:E;
    [|vm_compute in E; discriminate..].
  assert (Hst : st = "s9") by (vm_compute in E; injection E as _ <- _; reflexivity).
  subst st. exists url, w1. split; [reflexivity|].
  pose proof (fun dt => state_is_good_for_ten_minutes demo_JSON_stringify
                          demo_authorization_url demo_JSON_parse demo_token_endpoint
                          demo_encrypt demo_cuid "s9" "verifier" "klaviyo" "user-1" None
                          KlaviyoConnector demo_empty w1 url dt eq_refl eq_refl E) as H.
  cbv zeta in H. split.
  - destruct (H 600001 ltac:(lia)) as (_ & Hlate & _). apply Hlate. lia.
  - destruct (H 600000 ltac:(lia)) as (_ & _ & Hback).
    destruct (handleOAuthCallback demo_JSON_parse demo_token_endpoint demo_encrypt demo_cuid
                "klaviyo" "c1" "s9" ∅ (later 600000 w1)) as [i w2| |] eqn:Hcb.
    + exists i, w2. split; [reflexivity|]. apply (Hback _ _ _ _ _ Hcb).
    + vm_compute in E. injection E as <- <-. vm_compute in Hcb. discriminate.
    + vm_compute in E. injection E as <- <-. vm_compute in Hcb. discriminate.
Defined.

End OAuthFlowSpec.

(** ** Syncing from the manager *)
Module ManagerSyncSpec.
Import Prisma BaseConnector AsyncFacts ConnectorSpec TokenRefreshSpec ConnectorManagerSync.

#[local] Hint Resolve same_frame_refl same_frame_trans same_frame_on_db same_frame_set_self
  : frame.
#[local] Hint Extern 1 (same_frame _ _) => solve [repeat split] : frame.
#[local] Hint Extern 1 True => exact I : frame.

Lemma find_has_id_existsb id rows r :
  List.find (has_id id) rows = Some r ->
  Integration.id r = id /\ existsb (has_id (Integration.id r)) rows = true.
Proof.
  intros H. apply find_some in H as [Hin Hid]. unfold has_id in Hid.
  apply String.eqb_eq in Hid. split; [exact Hid|].
  apply existsb_exists. exists r. split; [exact Hin|]. unfold has_id.
  apply String.eqb_refl.
Qed.

(** What a status update leaves in the row. *)
Lemma updateIntegrationStatus_row st t w :
  has_row w ->
  exists r0,
    row w = Some r0
    /\ updateIntegrationStatus st t w
       = Returned tt
           (on_db (fun d =>
              set_integration
                (update_where (has_id (Integration.id (integration w)))
                   (with_status st t d) (Prisma.integration d)) d) w)
    /\ row (on_db (fun d =>
               set_integration
                 (update_where (has_id (Integration.id (integration w)))
                    (with_status st t d) (Prisma.integration d)) d) w)
       = Some (with_status st t (db w) r0).
Proof.
  intros Hrow. unfold has_row in Hrow.
  destruct (existsb_find_has_id _ _ Hrow) as [r0 Hr0]. exists r0.
  split; [exact Hr0|]. split.
  - unfold updateIntegrationStatus, bind, gets, integration_update. rewrite Hrow. reflexivity.
  - unfold row. cbn [on_db db integration set_integration Prisma.integration].
    rewrite find_update_has_id by reflexivity. rewrite Hr0. reflexivity.
Qed.

Lemma same_rows_on_db w g :
  map Integration.id (Prisma.integration (g (db w)))
  = map Integration.id (Prisma.integration (db w)) ->
  same_rows w (on_db g w).
Proof. intros H. split; [reflexivity|exact H]. Qed.

(** The row [sync()] leaves behind: 'connected' and stamped with the time
    of the end of the run, or 'error'. *)
Definition synced (w' : World) : Prop :=
  exists r, row w' = Some r
            /\ (Integration.status r = "connected"
                /\ Integration.lastSyncAt r = Some (now (db w'))
                \/ Integration.status r = "error").

Lemma sync_with_row stages w :
  has_row w ->
  post stages (set_results [] w)
    (fun _ w1 => same_rows (set_results [] w) w1)
    (fun _ w1 => same_rows (set_results [] w) w1) ->
  post (sync_with stages) w (fun _ w' => same_rows w w' /\ synced w') (fun _ _ => False).
Proof.
  intros Hrow Hst. unfold sync_with, post in *. unfold bind at 1. cbn [modify].
  unfold bind at 1. unfold catch. unfold bind at 1.
  destruct (stages (set_results [] w)) as [[] w1|e w1|]; [| |exact I].
  - unfold bind at 1. unfold today at 1. cbn [gets].
    assert (Hrow1 : has_row w1) by (apply (same_rows_has_row _ _ Hst), Hrow).
    destruct (updateIntegrationStatus_row "connected" (Some (now (db w1))) w1 Hrow1)
      as (r0 & _ & -> & Hr). cbn [gets]. split.
    + apply (same_rows_trans _ w1); [exact Hst|].
      apply same_rows_on_db. cbn [Prisma.integration set_integration].
      apply map_id_update_where. reflexivity.
    + eexists. split; [exact Hr|]. left. split; reflexivity.
  - assert (Hrow1 : has_row w1) by (apply (same_rows_has_row _ _ Hst), Hrow).
    unfold bind at 1.
    destruct (updateIntegrationStatus_row "error" None w1 Hrow1) as (r0 & _ & -> & Hr).
    rewrite push_spec. cbn [gets]. split.
    + apply (same_rows_trans _ w1); [exact Hst|].
      apply (same_rows_trans _ (on_db (fun d =>
               set_integration
                 (update_where (has_id (Integration.id (integration w1)))
                    (with_status "error" None d) (Prisma.integration d)) d) w1)).
      * apply same_rows_on_db. cbn [Prisma.integration set_integration].
        apply map_id_update_where. reflexivity.
      * split; reflexivity.
    + eexists. split; [exact Hr|]. right. reflexivity.
Qed.

(** What the factory table hands out, by the provider's name. *)
Lemma createConnector_Ok provider c :
  ConnectorManager.createConnector provider = Ok c ->
  c <> ConnectorManager.NotAConnector
  \/ c = ConnectorManager.NotAConnector
     /\ In provider ConnectorManager.Object_prototype.
Proof.
  intros H. destruct c; [left; discriminate..|right]. split; [reflexivity|].
  destruct (OAuthFlowSpec.connectorFactories_cases provider)
    as [[_ Hf]|[[_ Hf]|[[Hin _]|(_ & _ & _ & Hf)]]];
    [unfold ConnectorManager.createConnector in H; rewrite Hf in H; discriminate..
    |exact Hin
    |unfold ConnectorManager.createConnector in H; rewrite Hf in H; discriminate].
Qed.

Lemma createConnector_Throw provider e :
  ConnectorManager.createConnector provider = Throw e ->
  e = Error ("Unsupported provider: " +:+ provider)
  \/ In provider ConnectorManager.Object_prototype.
Proof.
  intros H. destruct (OAuthFlowSpec.connectorFactories_cases provider)
    as [[_ Hf]|[[_ Hf]|[[Hin _]|(_ & _ & _ & Hf)]]];
    [unfold ConnectorManager.createConnector in H; rewrite Hf in H; discriminate..
    |right; exact Hin
    |unfold ConnectorManager.createConnector in H; rewrite Hf in H].
  injection H as <-. left. reflexivity.
Qed.

Section Manager.

Variable api : nat -> Response.
Variable encrypt decrypt : string -> Result string.
Variable basicAuth : string.

Local Abbreviation sync := (sync api encrypt decrypt basicAuth).
Local Abbreviation validateConnection :=
  (validateConnection api encrypt decrypt basicAuth).
Local Abbreviation syncIntegration :=
  (syncIntegration api encrypt decrypt basicAuth).

(** [sync()] of either connector, from a world where it has its row. *)
Lemma sync_row c fuel w :
  c <> ConnectorManager.NotAConnector ->
  has_row w ->
  post (sync c fuel) w (fun _ w' => same_rows w w' /\ synced w') (fun _ _ => False).
Proof.
  intros Hc Hrow. destruct c; cbn [ConnectorManagerSync.sync]; [| |destruct Hc; reflexivity].
  - apply sync_with_row; [exact Hrow|]. unfold post. unfold bind at 1.
    pose proof (frame_initializeGraphQLClient api encrypt decrypt fuel (set_results [] w))
      as Hf.
    destruct (ShopifyConnector.initializeGraphQLClient _ _ _ _ _) as [[] w1|e w1|];
      [|apply same_frame_rows, Hf|exact I].
    assert (Hrow1 : has_row w1) by (apply (same_frame_has_row _ _ Hf), Hrow).
    eapply post_weaken; [apply (shopify_routines_post api fuel w1 Hrow1)| |intros ? ? []].
    intros _ w2 (Hrows & _).
    apply (same_rows_trans _ w1); [apply same_frame_rows, Hf|exact Hrows].
  - apply sync_with_row; [exact Hrow|].
    eapply post_weaken;
      [apply (klaviyo_routines_post api encrypt decrypt basicAuth fuel (set_results [] w)
                Hrow)
      | |intros ? ? []].
    intros _ w2 (Hrows & _). exact Hrows.
Qed.

(** The connection check answers; it does not throw. *)
Lemma validateConnection_frame c fuel :
  respects same_frame (validateConnection c fuel).
Proof.
  destruct c; cbn [ConnectorManagerSync.validateConnection].
  - unfold ShopifyConnector.validateConnection.
    frame_rule respects_catch; [|intros e; frame_rule respects_ret].
    frame_rule respects_bind; [|intros p; frame_rule respects_ret].
    unfold ShopifyConnector.fetchShopInfo.
    frame_rule respects_bind; [frame_rule respects_shopify_getAccessToken|]. intros tok.
    frame_rule respects_bind; [frame_rule respects_gets|]. intros self.
    destruct (truthy_opt _); [|frame_rule respects_throw].
    frame_rule respects_bind; [|intros p; frame_rule respects_lift].
    unfold ShopifyConnector.httpClient. frame_rule respects_httpClient_request.
    intros http Hh. frame_rule respects_shopify_refresh.
  - unfold KlaviyoConnector.validateConnection.
    frame_rule respects_catch; [|intros e; frame_rule respects_ret].
    frame_rule respects_bind; [|intros p; frame_rule respects_ret].
    unfold KlaviyoConnector.fetchAccountInfo.
    frame_rule respects_bind; [frame_rule respects_klaviyo_getAccessToken|]. intros tok.
    frame_rule respects_bind; [frame_rule respects_klaviyo_httpClient|]. intros p.
    destruct p as [[|[a|] l] n| | | |];
      [frame_rule respects_throw|frame_rule respects_ret|frame_rule respects_throw..].
  - frame_rule respects_throw.
Qed.

Lemma validateConnection_answers c fuel w :
  c <> ConnectorManager.NotAConnector ->
  post (validateConnection c fuel) w (fun _ w' => same_frame w w') (fun _ _ => False).
Proof.
  intros Hc. pose proof (validateConnection_frame c fuel w) as Hf. unfold post. revert Hf.
  destruct c; cbn [ConnectorManagerSync.validateConnection];
    unfold ShopifyConnector.validateConnection, KlaviyoConnector.validateConnection, catch, bind.
  - destruct (ShopifyConnector.fetchShopInfo _ _ _ _ _); auto.
  - destruct (KlaviyoConnector.fetchAccountInfo _ _ _ _ _ _); auto.
  - destruct Hc. reflexivity.
Qed.

(** The connector at work on the row [r]. *)
Definition bound (r : Integration.t) (w : World) : World :=
  set_graphqlClient None (set_self r w).

(** The row after the catch clause of [syncIntegration] has written it. *)
Definition marked (id : string) (w : World) : World :=
  on_db (fun d =>
    set_integration
      (update_where (has_id id) (with_status "error" None d) (Prisma.integration d)) d) w.

Lemma syncIntegration_found fuel id w r :
  List.find (has_id id) (Prisma.integration (db w)) = Some r ->
  Integration.status r = "connected" ->
  forall c, ConnectorManager.createConnector (Integration.provider r) = Ok c ->
  syncIntegration fuel id w
  = catch
      (let! isValid := validateConnection c fuel in
       if negb isValid
       then
         let! _ := integration_update id (fun _ => with_status_only "error") in
         throw (Error "Connection validation failed")
       else
         let! results := sync c fuel in
         ret tt)
      (fun error =>
         let! _ := integration_update id (with_status "error" None) in
         throw error)
      (bound r w).
Proof.
  intros Hf Hs c Hc. unfold ConnectorManagerSync.syncIntegration.
  unfold bind at 1. cbn [gets]. rewrite Hf, Hs. cbn [String.eqb Ascii.eqb Bool.eqb negb].
  unfold createConnector. rewrite Hc. reflexivity.
Qed.

Lemma syncIntegration_not_found fuel id w :
  List.find (has_id id) (Prisma.integration (db w)) = None ->
  syncIntegration fuel id w = Thrown (Error "Integration not found") w.
Proof.
  intros Hf. unfold ConnectorManagerSync.syncIntegration. unfold bind at 1. cbn [gets].
  rewrite Hf. reflexivity.
Qed.

Lemma syncIntegration_not_connected fuel id w r :
  List.find (has_id id) (Prisma.integration (db w)) = Some r ->
  Integration.status r <> "connected" ->
  syncIntegration fuel id w = Thrown (Error "Integration is not in connected state") w.
Proof.
  intros Hf Hs. apply String.eqb_neq in Hs.
  unfold ConnectorManagerSync.syncIntegration. unfold bind at 1. cbn [gets].
  rewrite Hf, Hs. reflexivity.
Qed.

(** No connector comes out of the factory table: what [createConnector]
    threw leaves [syncIntegration] before anything is written. *)
Lemma syncIntegration_unsupported fuel id w r e :
  List.find (has_id id) (Prisma.integration (db w)) = Some r ->
  Integration.status r = "connected" ->
  ConnectorManager.createConnector (Integration.provider r) = Throw e ->
  syncIntegration fuel id w = Thrown e w.
Proof.
  intros Hf Hs He.
  unfold ConnectorManagerSync.syncIntegration. unfold bind at 1. cbn [gets].
  rewrite Hf, Hs. cbn [String.eqb Ascii.eqb Bool.eqb negb].
  unfold createConnector. unfold bind at 1. rewrite He. reflexivity.
Qed.

(** What came out of the table is no connector: the call of its
    [validateConnection] raises inside the try block, and the catch clause
    writes the row. *)
Lemma syncIntegration_not_a_connector fuel id w r :
  List.find (has_id id) (Prisma.integration (db w)) = Some r ->
  Integration.status r = "connected" ->
  ConnectorManager.createConnector (Integration.provider r)
  = Ok ConnectorManager.NotAConnector ->
  syncIntegration fuel id w
  = Thrown (Error "connector.validateConnection is not a function")
      (marked id (bound r w)).
Proof.
  intros Hf Hs Hc. rewrite (syncIntegration_found fuel id w r Hf Hs _ Hc).
  destruct (find_has_id_existsb _ _ _ Hf) as [Hid Hex]. rewrite Hid in Hex.
  unfold catch. cbn [ConnectorManagerSync.validateConnection].
  unfold bind at 1. cbn [throw]. unfold bind at 1, integration_update at 1.
  cbn [bound set_graphqlClient set_self db Prisma.integration].
  rewrite Hex. reflexivity.
Qed.

Lemma find_marked id w r :
  List.find (has_id id) (Prisma.integration (db w)) = Some r ->
  List.find (has_id id) (Prisma.integration (db (marked id w)))
  = Some (with_status "error" None (db w) r).
Proof.
  intros Hf. unfold marked. cbn [on_db db set_integration Prisma.integration].
  rewrite find_update_has_id by reflexivity. rewrite Hf. reflexivity.
Qed.

(** X16.  What [syncIntegration] can throw.  For a row whose provider is
    not the name of a member of [Object.prototype] it throws one of its
    own four errors and nothing else: no failure of a data-type routine
    and no error of the provider reaches its caller.  For an id without a
    row, a row that is not 'connected' or a provider without a connector,
    nothing was sent and nothing written.  When the connection check
    answered false the row is left in 'error', so the next
    [syncIntegration] is refused as not connected and the hourly job does
    not pick the row again.  A connected row whose provider is such a name
    passes the lookup in the factory table: either the call of what was
    found raises and nothing was written, or what comes back is no
    connector, the call of its [validateConnection] raises, and the row is
    left in 'error' as well; so it is for the provider 'constructor'. *)
Theorem syncIntegration_errors (fuel : nat) (id : string) (w : World) :
  (forall e w',
     syncIntegration fuel id w = Thrown e w' ->
     (e = Error "Integration not found" /\ w' = w)
     \/ (e = Error "Integration is not in connected state" /\ w' = w)
     \/ ((exists p, e = Error ("Unsupported provider: " +:+ p)) /\ w' = w)
     \/ (e = Error "Connection validation failed"
         /\ (exists r', List.find (has_id id) (Prisma.integration (db w')) = Some r'
                        /\ Integration.status r' = "error"
                        /\ forall t, due t r' = false)
         /\ (forall fuel',
               syncIntegration fuel' id w'
               = Thrown (Error "Integration is not in connected state") w'))
     \/ (exists r,
           List.find (has_id id) (Prisma.integration (db w)) = Some r
           /\ Integration.status r = "connected"
           /\ In (Integration.provider r) ConnectorManager.Object_prototype
           /\ (w' = w
               \/ e = Error "connector.validateConnection is not a function"
                  /\ (exists r', List.find (has_id id) (Prisma.integration (db w')) = Some r'
                                 /\ Integration.status r' = "error"
                                 /\ forall t, due t r' = false)
                  /\ (forall fuel',
                        syncIntegration fuel' id w'
                        = Thrown (Error "Integration is not in connected state") w'))))
  /\ (forall r,
        List.find (has_id id) (Prisma.integration (db w)) = Some r ->
        Integration.status r = "connected" ->
        Integration.provider r = "constructor" ->
        exists w' r',
          syncIntegration fuel id w
          = Thrown (Error "connector.validateConnection is not a function") w'
          /\ List.find (has_id id) (Prisma.integration (db w')) = Some r'
          /\ Integration.status r' = "error"
          /\ sent w' = sent w).
Proof.
  split.
  2:{ intros r Hf Hs Hp.
      assert (Hc : ConnectorManager.createConnector (Integration.provider r)
                   = Ok ConnectorManager.NotAConnector) by (rewrite Hp; reflexivity).
      eexists _, _. split; [apply (syncIntegration_not_a_connector fuel id w r Hf Hs Hc)|].
      split; [apply find_marked; exact Hf|]. split; reflexivity. }
  intros e w' H.
  destruct (List.find (has_id id) (Prisma.integration (db w))) as [r|] eqn:Hf.
  2:{ rewrite (syncIntegration_not_found fuel id w Hf) in H. injection H as <- <-.
      left. auto. }
  destruct (String.eqb_spec (Integration.status r) "connected") as [Hs|Hs].
  2:{ rewrite (syncIntegration_not_connected fuel id w r Hf Hs) in H.
      injection H as <- <-. right. left. auto. }
  destruct (ConnectorManager.createConnector (Integration.provider r)) as [c|e0] eqn:Hc.
  2:{ rewrite (syncIntegration_unsupported fuel id w r e0 Hf Hs Hc) in H.
      injection H as <- <-.
      destruct (createConnector_Throw _ _ Hc) as [->|Hin].
      - right. right. left. eauto.
      - right. right. right. right. exists r. auto. }
  destruct (createConnector_Ok _ _ Hc) as [Hn|[-> Hin]].
  2:{ rewrite (syncIntegration_not_a_connector fuel id w r Hf Hs Hc) in H.
      injection H as <- <-. right. right. right. right. exists r.
      split; [reflexivity|]. split; [exact Hs|]. split; [exact Hin|]. right.
      split; [reflexivity|].
      pose proof (find_marked id (bound r w) r Hf) as Hfind. split.
      - eexists. split; [exact Hfind|]. split; [reflexivity|]. intros t. reflexivity.
      - intros fuel'. unfold ConnectorManagerSync.syncIntegration. unfold bind at 1.
        cbn [gets]. rewrite Hfind. reflexivity. }
  right. right. right. left.
  rewrite (syncIntegration_found fuel id w r Hf Hs c Hc) in H.
  destruct (find_has_id_existsb _ _ _ Hf) as [Hid Hex].
  assert (Hrow0 : has_row (bound r w)) by exact Hex.
  unfold catch at 1 in H. unfold bind at 1 in H.
  pose proof (validateConnection_answers c fuel (bound r w) Hn) as Hv. unfold post in Hv.
  destruct (validateConnection c fuel (bound r w)) as [b w1|e1 w1|];
    [|destruct Hv|discriminate].
  assert (Hrow1 : has_row w1) by (apply (same_frame_has_row _ _ Hv), Hrow0).
  assert (Hid1 : Integration.id (integration w1) = id).
  { destruct Hv as (Hi & _). rewrite Hi. exact Hid. }
  destruct b; cbn [negb] in H.
  - (* the check passed: [sync()] does not throw *)
    unfold bind at 1 in H.
    pose proof (sync_row c fuel w1 Hn Hrow1) as Hp. unfold post in Hp.
    destruct (sync c fuel w1) as [rs w2|e2 w2|]; [discriminate|destruct Hp|discriminate].
  - (* the check failed *)
    unfold has_row in Hrow1. rewrite Hid1 in Hrow1.
    unfold bind at 1, integration_update at 1 in H. rewrite Hrow1 in H. cbn [throw] in H.
    unfold bind at 1, integration_update at 1 in H.
    cbn [on_db db set_integration Prisma.integration] in H.
    assert (Hex2 : existsb (has_id id)
                     (update_where (has_id id) (with_status_only "error")
                        (Prisma.integration (db w1))) = true).
    { apply existsb_has_id. rewrite map_id_update_where by reflexivity.
      apply existsb_has_id. exact Hrow1. }
    rewrite Hex2 in H. cbn [throw] in H. injection H as <- <-.
    split; [reflexivity|].
    destruct (existsb_find_has_id _ _ Hrow1) as [r1 Hr1].
    assert (Hfind : List.find (has_id id)
                      (Prisma.integration
                         (db (on_db (fun d =>
                                set_integration
                                  (update_where (has_id id) (with_status "error" None d)
                                     (Prisma.integration d)) d)
                                (on_db (fun d =>
                                   set_integration
                                     (update_where (has_id id) (with_status_only "error")
                                        (Prisma.integration d)) d) w1))))
                    = Some (with_status "error" None (db w1) (with_status_only "error" r1))).
    { cbn [on_db db set_integration Prisma.integration].
      rewrite !find_update_has_id by reflexivity. rewrite Hr1. reflexivity. }
    split.
    + eexists. split; [exact Hfind|]. split; [reflexivity|]. intros t. reflexivity.
    + intros fuel'. unfold ConnectorManagerSync.syncIntegration. unfold bind at 1.
      cbn [gets]. rewrite Hfind. reflexivity.
Qed.

(** X17.  After [syncIntegration] has returned, the hourly job leaves the
    integration alone for an hour.  A return does not say that the data
    was synced: the row is either 'connected' with [lastSyncAt] set to the
    time the run ended, or it was put in 'error' by [sync()] itself, which
    keeps its failure to itself.  In both cases the row does not satisfy
    the job's [where] at any time up to one hour after the end of the
    run. *)
Theorem syncIntegration_returns
    (fuel : nat) (id : string) (w w' : World) (u : unit) :
  syncIntegration fuel id w = Returned u w' ->
  exists r,
    List.find (has_id id) (Prisma.integration (db w')) = Some r
    /\ (Integration.status r = "connected"
        /\ Integration.lastSyncAt r = Some (now (db w'))
        \/ Integration.status r = "error")
    /\ (forall t, t <= now (db w') + 3600000 -> due t r = false).
Proof.
  intros H.
  destruct (List.find (has_id id) (Prisma.integration (db w))) as [r0|] eqn:Hf.
  2:{ rewrite (syncIntegration_not_found fuel id w Hf) in H. discriminate. }
  destruct (String.eqb_spec (Integration.status r0) "connected") as [Hs|Hs].
  2:{ rewrite (syncIntegration_not_connected fuel id w r0 Hf Hs) in H. discriminate. }
  destruct (ConnectorManager.createConnector (Integration.provider r0)) as [c|e0] eqn:Hc.
  2:{ rewrite (syncIntegration_unsupported fuel id w r0 e0 Hf Hs Hc) in H. discriminate. }
  destruct (createConnector_Ok _ _ Hc) as [Hn|[-> Hin]].
  2:{ rewrite (syncIntegration_not_a_connector fuel id w r0 Hf Hs Hc) in H. discriminate. }
  rewrite (syncIntegration_found fuel id w r0 Hf Hs c Hc) in H.
  destruct (find_has_id_existsb _ _ _ Hf) as [Hid Hex].
  assert (Hrow0 : has_row (bound r0 w)) by exact Hex.
  unfold catch at 1 in H. unfold bind at 1 in H.
  pose proof (validateConnection_answers c fuel (bound r0 w) Hn) as Hv. unfold post in Hv.
  destruct (validateConnection c fuel (bound r0 w)) as [b w1|e1 w1|];
    [|destruct Hv|discriminate].
  assert (Hrow1 : has_row w1) by (apply (same_frame_has_row _ _ Hv), Hrow0).
  assert (Hid1 : Integration.id (integration w1) = id).
  { destruct Hv as (Hi & _). rewrite Hi. exact Hid. }
  destruct b; cbn [negb] in H.
  - unfold bind at 1 in H.
    pose proof (sync_row c fuel w1 Hn Hrow1) as Hp. unfold post in Hp.
    destruct (sync c fuel w1) as [rs w2|e2 w2|]; [|destruct Hp|discriminate].
    cbn [ret] in H. injection H as _ <-.
    destruct Hp as ((Hi2 & _) & r & Hr & Hst). exists r.
    unfold row in Hr. rewrite Hi2, Hid1 in Hr.
    split; [exact Hr|]. split; [exact Hst|].
    intros t Ht. unfold due. destruct Hst as [[-> ->]| ->]; [|reflexivity].
    cbn [String.eqb Ascii.eqb Bool.eqb andb].
    destruct (bool_decide _); [|reflexivity]. cbn [andb].
    destruct (Z.ltb_spec (now (db w2)) (t - 60 * 60 * 1000)); [lia|reflexivity].
  - exfalso. unfold has_row in Hrow1. rewrite Hid1 in Hrow1.
    unfold bind at 1, integration_update at 1 in H. rewrite Hrow1 in H. cbn [throw] in H.
    unfold bind at 1 in H.
    match type of H with
    | context [integration_update ?a ?b ?c] => destruct (integration_update a b c)
    end; discriminate.
Qed.

End Manager.

Import ConnectorDemo.

(** X16 on a run: the provider is down, the connection check answers
    false, and the integration is out of the job's reach. *)
Lemma syncIntegration_errors_witness :
  exists e w',
    syncIntegration api_down demo_encrypt demo_decrypt "basic" 5 "int_1" demo_world
    = Thrown e w'
    /\ e = Error "Connection validation failed"
    /\ forall fuel',
        syncIntegration api_down demo_encrypt demo_decrypt "basic" fuel' "int_1" w'
        = Thrown (Error "Integration is not in connected state") w'.
Proof.
  destruct (syncIntegration api_down demo_encrypt demo_decrypt "basic" 5 "int_1" demo_world)
    as [u w'|e w'|] eqn:E;
    [vm_compute in E; discriminate| |vm_compute in E; discriminate].
  exists e, w'. split; [reflexivity|].
  assert (He : e = Error "Connection validation failed").
  { vm_compute in E. injection E as <- _. reflexivity. }
  split; [exact He|].
  destruct (proj1 (syncIntegration_errors api_down demo_encrypt demo_decrypt "basic"
                     5 "int_1" demo_world) e w' E)
    as [[H _]|[[H _]|[[[p H] _]|[(_ & _ & H)|(r & Hf & _ & Hin & _)]]]];
    [rewrite He in H; discriminate..|exact H|].
  vm_compute in Hf. injection Hf as <-. cbn in Hin.
  repeat (destruct Hin as [Hin|Hin]; [discriminate|]). destruct Hin.
Defined.

(** X17 on a run: the shop answers the connection check and serves its
    pages. *)
Lemma syncIntegration_returns_witness :
  exists u w',
    syncIntegration api_shop_then_pages demo_encrypt demo_decrypt "basic" 5 "int_1"
      demo_world = Returned u w'
    /\ exists r,
         List.find (has_id "int_1") (Prisma.integration (db w')) = Some r
         /\ forall t, t <= now (db w') + 3600000 -> due t r = false.
Proof.
  destruct (syncIntegration api_shop_then_pages demo_encrypt demo_decrypt "basic" 5 "int_1"
              demo_world) as [u w'|e w'|] eqn:E;
    [|vm_compute in E; discriminate..].
  exists u, w'. split; [reflexivity|].
  destruct (syncIntegration_returns api_shop_then_pages demo_encrypt demo_decrypt "basic"
              5 "int_1" demo_world w' u E) as (r & Hr & _ & Hd).
  exists r. split; [exact Hr|exact Hd].
Defined.

End ManagerSyncSpec.

(** ** How the watermark moves *)
Module SyncLogSpec.
Import Prisma BaseConnector AsyncFacts ConnectorSpec.

(** The watermark after a successful run that ended at [t]. *)
Definition moved (old : option Z) (t : Z) : Z :=
  match old with
  | Some t0 => Z.max t0 t
  | None => t
  end.

Lemma latest_completedAt_snoc logs l :
  latest_completedAt (logs ++ [l])
  = Some (moved (latest_completedAt logs) (SyncLog.completedAt l)).
Proof.
  induction logs as [|x r IH]; [reflexivity|].
  cbn [app latest_completedAt]. rewrite IH.
  destruct (latest_completedAt r) as [t|]; cbn [moved]; [|reflexivity].
  rewrite Z.max_assoc. reflexivity.
Qed.

Lemma watermark_logSync r dt w :
  has_row w ->
  exists w2,
    logSync r w = Returned tt w2
    /\ w2 = logged r w
    /\ syncLog (db w2)
       = syncLog (db w)
         ++ [SyncLog.mk (Integration.id (integration w)) (dataType r) (status r)
               (recordsCount r) (errorMessage r) None (now (db w)) (now (db w))]
    /\ Prisma.integration (db w2) = Prisma.integration (db w)
    /\ integration w2 = integration w
    /\ watermark dt w2
       = if String.eqb (dataType r) dt && String.eqb (status r) "success"
         then Some (moved (watermark dt w) (now (db w)))
         else watermark dt w.
Proof.
  intros Hrow. exists (logged r w). split; [apply logSync_with_row, Hrow|].
  split; [reflexivity|]. split; [reflexivity|]. split; [reflexivity|].
  split; [reflexivity|].
  unfold watermark, logged. cbn [on_db db integration set_syncLog syncLog].
  rewrite List.filter_app. cbn [List.filter]. unfold successful at 2.
  cbn [SyncLog.integrationId SyncLog.dataType SyncLog.status].
  rewrite String.eqb_refl. cbn [andb].
  destruct (String.eqb (dataType r) dt && String.eqb (status r) "success").
  - rewrite latest_completedAt_snoc. reflexivity.
  - rewrite app_nil_r. reflexivity.
Qed.

(** X18.  A data-type routine moves its own watermark, and only when it
    ran through.  When the body of the routine returns and the connector
    has its row, the routine logs a success and the watermark of its data
    type becomes the time of the log, or stays where it was if an earlier
    log is later than that; the watermarks of the other data types stay.
    When the body throws, the routine logs the error and no watermark
    moves, so the next run asks the provider from the same point again.
    In both cases the log table grows by one row and the integration table
    is left alone.  For a connector without its row the database refuses
    the log: the routine throws what the database answered, from the world
    its body left, and nothing was logged. *)
Theorem routine_moves_the_watermark (dt : string) (count : Async World Z) (w : World) :
  match count w with
  | Returned n w1 =>
    (has_row w1 ->
     exists w2 row,
       routine dt count w = Returned (success dt n) w2
       /\ syncLog (db w2) = syncLog (db w1) ++ [row]
       /\ Prisma.integration (db w2) = Prisma.integration (db w1)
       /\ watermark dt w2 = Some (moved (watermark dt w1) (now (db w1)))
       /\ forall dt', dt' <> dt -> watermark dt' w2 = watermark dt' w1)
    /\ (~ has_row w1 ->
        routine dt count w
        = Thrown (Error "Foreign key constraint failed on the field: integrationId") w1)
  | Thrown e w1 =>
    (has_row w1 ->
     exists w2 row,
       routine dt count w = Returned (failure dt e) w2
       /\ syncLog (db w2) = syncLog (db w1) ++ [row]
       /\ Prisma.integration (db w2) = Prisma.integration (db w1)
       /\ forall dt', watermark dt' w2 = watermark dt' w1)
    /\ (~ has_row w1 ->
        routine dt count w
        = Thrown (Error "Foreign key constraint failed on the field: integrationId") w1)
  | OutOfFuel => routine dt count w = OutOfFuel
  end.
Proof.
  rewrite routine_capture. destruct (count w) as [n w1|e w1|]; [| |reflexivity].
  - split; [|intros Hn; rewrite (not_has_row _ Hn); reflexivity].
    intros Hrow. pose proof Hrow as Hex. unfold has_row in Hex. rewrite Hex.
    destruct (watermark_logSync (success dt n) dt w1 Hrow)
      as (w2 & _ & -> & Hlog & Hint & Hself & Hw).
    eexists _, _. split; [reflexivity|]. split; [exact Hlog|].
    split; [exact Hint|]. split.
    + rewrite Hw. cbn [success dataType status]. rewrite String.eqb_refl. reflexivity.
    + intros dt' Hne.
      destruct (watermark_logSync (success dt n) dt' w1 Hrow)
        as (w2' & _ & -> & _ & _ & _ & Hw').
      rewrite Hw'. cbn [success dataType status].
      apply not_eq_sym in Hne. apply String.eqb_neq in Hne. rewrite Hne. reflexivity.
  - split; [|intros Hn; rewrite (not_has_row _ Hn); reflexivity].
    intros Hrow. pose proof Hrow as Hex. unfold has_row in Hex. rewrite Hex.
    destruct (watermark_logSync (failure dt e) dt w1 Hrow)
      as (w2 & _ & -> & Hlog & Hint & Hself & _).
    eexists _, _. split; [reflexivity|]. split; [exact Hlog|].
    split; [exact Hint|]. intros dt'.
    destruct (watermark_logSync (failure dt e) dt' w1 Hrow)
      as (w2' & _ & -> & _ & _ & _ & Hw').
    rewrite Hw'. cbn [failure dataType status].
    rewrite andb_false_r. reflexivity.
Qed.

End SyncLogSpec.

(** ** The routes around the manager *)
Module IntegrationRoutesSpec.
Import Prisma Routes IntegrationRoutes AsyncFacts.

Lemma find_head_filter {A} (p : A -> bool) l :
  List.find p l = head (List.filter p l).
Proof.
  induction l as [|x r IH]; [reflexivity|]. cbn [List.find List.filter].
  destruct (p x); [reflexivity|exact IH].
Qed.

Lemma update_where_absent id f rows :
  ~ In id (map Integration.id rows) -> update_where (has_id id) f rows = rows.
Proof.
  induction rows as [|x r IH]; [reflexivity|]. cbn [map In update_where]. intros H.
  fold (update_where (has_id id) f r). rewrite IH by tauto.
  unfold has_id. destruct (String.eqb_spec (Integration.id x) id) as [E|E]; [|reflexivity].
  destruct H. left. exact E.
Qed.

Lemma find_has_id_NoDup rows i :
  List.NoDup (map Integration.id rows) -> In i rows ->
  List.find (has_id (Integration.id i)) rows = Some i.
Proof.
  induction rows as [|x r IH]; [intros _ []|]. cbn [map In List.find]. intros Hnd Hin.
  apply List.NoDup_cons_iff in Hnd as [Hx Hnd]. unfold has_id at 1.
  destruct Hin as [->|Hin]; [rewrite String.eqb_refl; reflexivity|].
  destruct (String.eqb_spec (Integration.id x) (Integration.id i)) as [E|E].
  - destruct Hx. rewrite E. apply in_map, Hin.
  - apply IH; assumption.
Qed.

(** Rewriting the first row that passes [q] into one that does not pass
    takes it out of the rows that pass, and no other. *)
Lemma filter_update_first (q : Integration.t -> bool) f rows r rest :
  List.NoDup (map Integration.id rows) ->
  List.filter q rows = r :: rest ->
  q (f r) = false ->
  List.filter q (update_where (has_id (Integration.id r)) f rows) = rest.
Proof.
  intros Hnd Hq Hf. revert Hnd Hq. induction rows as [|x xs IH]; [discriminate|].
  cbn [map List.filter update_where]. fold (update_where (has_id (Integration.id r)) f xs).
  intros Hnd. apply List.NoDup_cons_iff in Hnd as [Hx Hnd].
  destruct (q x) eqn:Hqx.
  - intros E. injection E as -> E. unfold has_id at 1. rewrite String.eqb_refl.
    cbn [List.filter]. rewrite Hf. rewrite update_where_absent by exact Hx. exact E.
  - intros E.
    assert (Hin : In r xs).
    { apply (proj1 (filter_In q r xs)). rewrite E. left. reflexivity. }
    unfold has_id at 1.
    destruct (String.eqb_spec (Integration.id x) (Integration.id r)) as [Ex|Ex].
    + destruct Hx. rewrite Ex. apply in_map, Hin.
    + cbn [List.filter]. rewrite Hqx. apply IH; assumption.
Qed.

(** The row a soft delete leaves. *)
Definition disconnected (today : Z) (i : Integration.t) : Integration.t :=
  Integration.mk
    (Integration.id i) (Integration.userId i) (Integration.provider i)
    (Integration.accountId i) (Integration.accessToken i)
    (Integration.refreshToken i) (Integration.expiresAt i)
    (Integration.scopes i) (Integration.metadata i) "disconnected"
    (Integration.lastSyncAt i) (Integration.syncFrequency i)
    (Integration.webhookUrl i) (Integration.createdAt i)
    (Integration.updatedAt i) (Some today).

(** X19.  [DELETE /:provider/disconnect] takes one integration away at a
    time.  With ids that are unique, a user without an active integration
    of the provider is answered 404 and nothing is written.  Otherwise the
    first active one is soft-deleted: it is stamped 'disconnected' and
    deleted now, its encrypted tokens stay in the row, every other row is
    left as it was, and the user's active integrations of the provider are
    the former ones less that one.  When it was the only one, the status
    route answers [connected: false] from then on. *)
Theorem disconnect_route (userId provider : string) (w : ConnectorManager.World) :
  List.NoDup (map Integration.id (integration (ConnectorManager.db w))) ->
  match List.filter (is_active userId provider) (integration (ConnectorManager.db w)) with
  | [] =>
    delete_disconnect userId provider w
    = Returned (mkResponse 404 (JObject [("error", JString "Integration not found")])) w
  | r :: rest =>
    exists w',
      delete_disconnect userId provider w
      = Returned (res_json (JObject [("message", JString "Integration disconnected")])) w'
      /\ List.filter (is_active userId provider) (integration (ConnectorManager.db w')) = rest
      /\ List.find (has_id (Integration.id r)) (integration (ConnectorManager.db w'))
         = Some (disconnected (now (ConnectorManager.db w)) r)
      /\ (forall i, In i (integration (ConnectorManager.db w)) ->
                    Integration.id i <> Integration.id r ->
                    In i (integration (ConnectorManager.db w')))
      /\ (rest = [] ->
          get_status userId provider (ConnectorManager.db w')
          = res_json (JObject [("connected", JBool false); ("provider", JString provider)]))
  end.
Proof.
  intros Hnd.
  destruct (List.filter (is_active userId provider) _) as [|r rest] eqn:Hq.
  - unfold delete_disconnect, catch, bind, gets, findFirst.
    rewrite find_head_filter, Hq. reflexivity.
  - assert (Hin : In r (integration (ConnectorManager.db w))).
    { apply (proj1 (filter_In (is_active userId provider) r _)). rewrite Hq. left.
      reflexivity. }
    assert (Hex : existsb (has_id (Integration.id r)) (integration (ConnectorManager.db w))
                  = true).
    { apply existsb_exists. exists r. split; [exact Hin|]. unfold has_id.
      apply String.eqb_refl. }
    unfold delete_disconnect, catch, bind, gets, findFirst.
    rewrite find_head_filter, Hq. cbn [head].
    unfold ConnectorManager.disconnectIntegration. rewrite Hex. cbn [ret].
    eexists. split; [reflexivity|].
    cbn [ConnectorManager.on_db ConnectorManager.db set_integration integration now].
    fold (disconnected (now (ConnectorManager.db w))).
    assert (Hrest : List.filter (is_active userId provider)
                      (update_where (has_id (Integration.id r))
                         (disconnected (now (ConnectorManager.db w)))
                         (integration (ConnectorManager.db w))) = rest).
    { apply filter_update_first; [exact Hnd|exact Hq|]. unfold is_active, disconnected.
      cbn [Integration.deletedAt]. rewrite bool_decide_eq_false_2 by discriminate.
      apply andb_false_r. }
    split; [exact Hrest|]. split; [|split].
    + rewrite ConnectorSpec.find_update_has_id by reflexivity.
      rewrite (find_has_id_NoDup _ r Hnd Hin). reflexivity.
    + intros i Hi Hne. unfold update_where. apply in_map_iff. exists i.
      split; [|exact Hi]. unfold has_id.
      destruct (String.eqb_spec (Integration.id i) (Integration.id r)); [contradiction|].
      reflexivity.
    + intros ->. unfold get_status, findFirst_active.
      cbn [ConnectorManager.db set_integration integration].
      change (fun i : Integration.t =>
                String.eqb (Integration.userId i) userId
                && String.eqb (Integration.provider i) provider
                && bool_decide (Integration.deletedAt i = None))
        with (is_active userId provider).
      rewrite Hrest. reflexivity.
Qed.

(** X19 on the table of the status route: "user-1" disconnects their shop. *)
Lemma disconnect_route_witness :
  exists w',
    delete_disconnect "user-1" "shopify" (ConnectorManager.mkWorld Routes.demo_db [])
    = Returned (res_json (JObject [("message", JString "Integration disconnected")])) w'
    /\ get_status "user-1" "shopify" (ConnectorManager.db w')
       = res_json (JObject [("connected", JBool false); ("provider", JString "shopify")]).
Proof.
  assert (Hnd : List.NoDup (map Integration.id
                         (integration
                            (ConnectorManager.db
                               (ConnectorManager.mkWorld Routes.demo_db []))))).
  { cbn. repeat constructor; cbn; intuition discriminate. }
  pose proof (disconnect_route "user-1" "shopify"
                (ConnectorManager.mkWorld Routes.demo_db []) Hnd) as H.
  cbn in H. destruct H as (w' & E & _ & _ & _ & Hs). exists w'.
  split; [exact E|exact (Hs eq_refl)].
Defined.

Section Sync.

Variable api : nat -> BaseConnector.Response.
Variable encrypt decrypt : string -> Result string.
Variable basicAuth : string.

(** X20.  [POST /:provider/sync] does not look at the status.  The route
    picks the user's first integration of the provider that is not
    soft-deleted, whatever its status, and answers 'Sync initiated'.  When
    that integration is not 'connected' (a failed sync or a failed refresh
    left it in 'error' or 'expired'), the [syncIntegration] the route
    started throws at once: it sends nothing and writes nothing, and the
    route has already answered 200. *)
Theorem sync_route_does_not_look_at_the_status
    (fuel : nat) (userId provider : string) (w : BaseConnector.World)
    (i : Integration.t) :
  List.NoDup (map Integration.id (integration (BaseConnector.db w))) ->
  findFirst userId provider (BaseConnector.db w) = Some i ->
  Integration.status i <> "connected" ->
  post_sync userId provider (BaseConnector.db w)
  = (res_json (JObject [("message", JString "Sync initiated")]), Some (Integration.id i))
  /\ ConnectorManagerSync.syncIntegration api encrypt decrypt basicAuth
       fuel (Integration.id i) w
     = Thrown (Error "Integration is not in connected state") w.
Proof.
  intros Hnd Hf Hs. split.
  - unfold post_sync. rewrite Hf. reflexivity.
  - unfold findFirst in Hf. apply find_some in Hf as [Hin _].
    unfold ConnectorManagerSync.syncIntegration. unfold bind at 1. cbn [gets].
    rewrite (find_has_id_NoDup _ i Hnd Hin).
    apply String.eqb_neq in Hs. rewrite Hs. reflexivity.
Qed.

End Sync.

(** X20 on a shop whose last sync failed. *)
Lemma sync_route_witness :
  post_sync "user-9" "shopify" (BaseConnector.db demo_world_failed)
  = (res_json (JObject [("message", JString "Sync initiated")]), Some "int_9")
  /\ ConnectorManagerSync.syncIntegration ConnectorDemo.api_down ConnectorDemo.demo_encrypt
       ConnectorDemo.demo_decrypt "basic" 5 "int_9" demo_world_failed
     = Thrown (Error "Integration is not in connected state") demo_world_failed.
Proof.
  apply (sync_route_does_not_look_at_the_status ConnectorDemo.api_down
           ConnectorDemo.demo_encrypt ConnectorDemo.demo_decrypt "basic"
           5 "user-9" "shopify" demo_world_failed demo_failed).
  - cbn. repeat constructor; cbn; intuition discriminate.
  - reflexivity.
  - cbn. discriminate.
Defined.

(** [m] has an outcome from every world. *)
Definition comes_back {W A} (m : Async W A) : Prop := forall w, m w <> OutOfFuel.

Lemma comes_back_bind {W A B} (m : Async W A) (k : A -> Async W B) :
  comes_back m -> (forall a, comes_back (k a)) -> comes_back (bind m k).
Proof.
  intros Hm Hk w. unfold bind. destruct (m w) as [a w1|e w1|] eqn:E;
    [apply Hk|discriminate|destruct (Hm w E)].
Qed.

Lemma comes_back_catch {W A} (m : Async W A) (h : JsError -> Async W A) :
  comes_back m -> (forall e, comes_back (h e)) -> comes_back (catch m h).
Proof.
  intros Hm Hh w. unfold catch. destruct (m w) as [a w1|e w1|] eqn:E;
    [discriminate|apply Hh|destruct (Hm w E)].
Qed.

Lemma comes_back_lift {W A} (r : Result A) : comes_back (@lift W A r).
Proof. destruct r; intros w; discriminate. Qed.

Lemma comes_back_ret {W A} (a : A) : comes_back (@ret W A a).
Proof. intros w. discriminate. Qed.

Lemma comes_back_throw {W A} e : comes_back (@throw W A e).
Proof. intros w. discriminate. Qed.

Lemma comes_back_gets {W A} (f : W -> A) : comes_back (gets f).
Proof. intros w. discriminate. Qed.

Lemma comes_back_modify {W} (f : W -> W) : comes_back (modify f).
Proof. intros w. discriminate. Qed.

Section Callback.

Variable JSON_parse : string -> Result ConnectorManager.StateData.
Variable token_endpoint :
  ConnectorManager.Connector -> gmap string string -> string -> option string
  -> Result ConnectorManager.TokenData.
Variable encrypt : string -> Result string.
Variable cuid : nat -> string.
Variable CLIENT_URL : string.
Variable encodeURIComponent : string -> Result string.

Local Abbreviation handleOAuthCallback :=
  (ConnectorManager.handleOAuthCallback JSON_parse token_endpoint encrypt cuid).
Local Abbreviation get_callback :=
  (get_callback JSON_parse token_endpoint encrypt cuid CLIENT_URL encodeURIComponent).

(** The metadata the route takes from the query. *)
Definition callbackMetadata (provider : string) (shop : option string)
  : gmap string string :=
  if String.eqb provider "shopify" && truthy_opt shop
  then {[ "shopDomain" := default "" shop ]}
  else ∅.

Lemma handleOAuthCallback_comes_back provider code state md :
  comes_back (handleOAuthCallback provider code state md).
Proof.
  unfold ConnectorManager.handleOAuthCallback.
  apply comes_back_bind; [|intros [sd|]; [|apply comes_back_throw]].
  { intros w. rewrite ConnectorManagerSpec.validateOAuthState_spec. discriminate. }
  cbv zeta.
  apply comes_back_bind; [apply comes_back_lift|intros c].
  apply comes_back_bind; [|intros td].
  { unfold ConnectorManager.exchangeCodeForTokens.
    destruct c; [| |apply comes_back_throw];
      (apply comes_back_bind; [apply comes_back_lift|intros _];
       apply comes_back_bind; [apply comes_back_modify|intros _]; apply comes_back_lift). }
  destruct (negb _); [apply comes_back_throw|].
  apply comes_back_bind; [apply comes_back_lift|intros encrypted].
  apply comes_back_bind; [apply comes_back_lift|intros scopes].
  apply comes_back_bind; [apply comes_back_gets|intros today].
  apply comes_back_bind; [|intros i].
  { intros w. unfold ConnectorManager.integration_upsert.
    destruct (integration_findUnique _ _); discriminate. }
  apply comes_back_bind; [apply comes_back_modify|intros _].
  apply comes_back_bind; [|intros _; apply comes_back_ret].
  intros w. destruct (ConnectorManagerSpec.enqueueInstantInsights_spec
                        (Integration.userId i) w) as (wq & E & _).
  rewrite E. discriminate.
Qed.

(** X21.  [GET /:provider/callback] always answers with a redirect.  With
    an [error] parameter, or without [code] or [state], it redirects with
    an error and touches nothing: the state is not used up and no token is
    asked for.  Otherwise it redirects to the dashboard with the id of the
    integration exactly when [handleOAuthCallback] returned, and that
    integration is in the table with status 'connected'; it redirects with
    'oauth_failed' exactly when [handleOAuthCallback] threw.  The redirect
    with 'integration_creation_failed' is never taken. *)
Theorem callback_route_redirects
    (provider : string) (code state oauthError shop : option string)
    (w : ConnectorManager.World) :
  (truthy_opt oauthError = true \/ truthy_opt code = false \/ truthy_opt state = false ->
   exists reason,
     get_callback provider code state oauthError shop w
     = Returned (Redirect (CLIENT_URL +:+ "?error=" +:+ reason)) w)
  /\ (truthy_opt oauthError = false -> truthy_opt code = true -> truthy_opt state = true ->
      match handleOAuthCallback provider (default "" code) (default "" state)
              (callbackMetadata provider shop) w with
      | Returned i w' =>
        get_callback provider code state oauthError shop w
        = Returned (Redirect (CLIENT_URL +:+ "/dashboard?connected=" +:+ provider
                              +:+ "&integration=" +:+ Integration.id i)) w'
        /\ In i (integration (ConnectorManager.db w'))
        /\ Integration.status i = "connected"
      | Thrown e w' =>
        get_callback provider code state oauthError shop w
        = Returned (Redirect (CLIENT_URL +:+ "?error=oauth_failed")) w'
      | OutOfFuel => False
      end).
Proof.
  split.
  - intros H. unfold IntegrationRoutes.get_callback, catch.
    destruct (truthy_opt oauthError).
    + unfold bind, lift. destruct (encodeURIComponent _) as [e|e].
      * exists e. reflexivity.
      * exists "oauth_failed". reflexivity.
    + exists "missing_oauth_parameters".
      destruct H as [H|[-> | ->]]; [discriminate| |]; cbn [negb orb]; [reflexivity|].
      rewrite orb_true_r. reflexivity.
  - intros He Hc Hs.
    assert (Hroute :
              get_callback provider code state oauthError shop w
              = match handleOAuthCallback provider (default "" code) (default "" state)
                        (callbackMetadata provider shop) w with
                | Returned i w' =>
                  if negb (String.eqb (Integration.status i) "connected")
                  then Returned
                         (Redirect (CLIENT_URL +:+ "?error=integration_creation_failed")) w'
                  else Returned
                         (Redirect (CLIENT_URL +:+ "/dashboard?connected=" +:+ provider
                                    +:+ "&integration=" +:+ Integration.id i)) w'
                | Thrown e w' =>
                  Returned (Redirect (CLIENT_URL +:+ "?error=oauth_failed")) w'
                | OutOfFuel => OutOfFuel
                end).
    { unfold IntegrationRoutes.get_callback, catch.
      rewrite He, Hc, Hs. cbn [negb orb]. cbv zeta. fold (callbackMetadata provider shop).
      unfold bind at 1.
      destruct (handleOAuthCallback _ _ _ _ w) as [i w'|e w'|]; [|reflexivity..].
      destruct (negb _); reflexivity. }
    rewrite Hroute. clear Hroute.
    destruct (handleOAuthCallback _ _ _ _ w) as [i w'|e w'|] eqn:E.
    + pose proof E as E'.
      apply ConnectorManagerSpec.handleOAuthCallback_returned in E'
        as (row & sd & c & td & ea & er & sc & _ & _ & _ & _ & _ & _ & _ & Hup & _).
      cbv zeta in Hup.
      assert (Hi : In i (integration (ConnectorManager.db w'))
                   /\ Integration.status i = "connected").
      { destruct (integration_findUnique _ _) as [old|] eqn:Hf.
        - destruct Hup as [-> ->]. split; [|reflexivity].
          unfold integration_findUnique in Hf. apply find_some in Hf as [Hin Hk].
          unfold update_where. apply in_map_iff. exists old. rewrite Hk. auto.
        - destruct Hup as [-> ->]. split; [|reflexivity].
          apply in_or_app. right. left. reflexivity. }
      destruct Hi as [Hin Hst]. rewrite Hst. cbn [String.eqb Ascii.eqb Bool.eqb negb ret].
      auto.
    + reflexivity.
    + destruct (handleOAuthCallback_comes_back provider (default "" code)
                  (default "" state) (callbackMetadata provider shop) w E).
Qed.

End Callback.

(** X21 on the manager's stand-in environment: the callback of a first
    connection. *)
Lemma callback_route_witness :
  exists i w',
    get_callback ConnectorManager.demo_JSON_parse ConnectorManager.demo_token_endpoint
      ConnectorManager.demo_encrypt ConnectorManager.demo_cuid "https://app.example"
      demo_encodeURIComponent "klaviyo" (Some "c1") (Some "s1") None None
      ConnectorManager.demo_world
    = Returned
        (Redirect ("https://app.example/dashboard?connected=klaviyo&integration="
                   +:+ Integration.id i)) w'
    /\ In i (integration (ConnectorManager.db w'))
    /\ Integration.status i = "connected".
Proof.
  pose proof (proj2 (callback_route_redirects ConnectorManager.demo_JSON_parse
                       ConnectorManager.demo_token_endpoint ConnectorManager.demo_encrypt
                       ConnectorManager.demo_cuid "https://app.example"
                       demo_encodeURIComponent "klaviyo" (Some "c1") (Some "s1") None None
                       ConnectorManager.demo_world) eq_refl eq_refl eq_refl) as H.
  destruct (ConnectorManager.handleOAuthCallback _ _ _ _ _ _ _ _ _) as [i w'|e w'|] eqn:E;
    [|vm_compute in E; discriminate|destruct H].
  exists i, w'. exact H.
Defined.

End IntegrationRoutesSpec.

(** ** Revenue attribution *)
Module KlaviyoAttributionSpec.
Import KlaviyoAttribution.

(** The events come newest first. *)
Fixpoint newest_first (events : list Event) : bool :=
  match events with
  | [] => true
  | e :: rest => forallb (fun x => datetime x <=? datetime e) rest && newest_first rest
  end.

Lemma newest_first_filter p events :
  newest_first events = true -> newest_first (List.filter p events) = true.
Proof.
  induction events as [|e r IH]; [reflexivity|]. cbn [newest_first List.filter].
  intros H. apply andb_true_iff in H as [Ha Hr]. destruct (p e); [|apply IH, Hr].
  cbn [newest_first]. apply andb_true_iff. split; [|apply IH, Hr].
  apply forallb_forall. intros x Hx. apply filter_In in Hx as [Hx _].
  exact (proj1 (forallb_forall _ _) Ha x Hx).
Qed.



End KlaviyoAttributionSpec.

(** ** A 401 from the shop *)
Module ShopifyRetrySpec.
Import Prisma BaseConnector AsyncFacts ConnectorSpec TokenRefreshSpec.

(** The value of a header of a request. *)
Definition header (name : string) (c : Request) : option string :=
  snd <$> List.find (fun kv => String.eqb (fst kv) name) (headers c).

Lemma find_set_header_other name other value h :
  other <> name ->
  List.find (fun kv : string * string => String.eqb (fst kv) other) (set_header name value h)
  = List.find (fun kv : string * string => String.eqb (fst kv) other) h.
Proof.
  intros Hne. induction h as [|[n v] r IH]; cbn [set_header List.find fst].
  - apply not_eq_sym in Hne. apply String.eqb_neq in Hne. rewrite Hne. reflexivity.
  - destruct (String.eqb_spec n name) as [->|Hn]; cbn [List.find fst].
    + apply not_eq_sym in Hne. apply String.eqb_neq in Hne. rewrite Hne. reflexivity.
    + rewrite IH. reflexivity.
Qed.

Section Shop.

Variable api : nat -> Response.
Variable encrypt decrypt : string -> Result string.

(** The refresh of the e-commerce connector, when the vault works: the
    token it returns is the stored one. *)
Lemma shopify_refresh_returns_the_stored_token http w tok ea :
  has_row w ->
  decrypt (Integration.accessToken (integration w)) = Ok tok ->
  encrypt tok = Ok ea ->
  exists w',
    handleTokenRefresh encrypt (ShopifyConnector.refreshAccessToken decrypt http) w
    = Returned tok w'
    /\ sent w' = sent w
    /\ row_status w' = Some "connected".
Proof.
  intros Hrow Hd He. unfold handleTokenRefresh, ShopifyConnector.refreshAccessToken.
  pose proof Hrow as Hrow'. unfold has_row in Hrow'.
  unfold bind, catch, gets, modify, integration_update. cbn. rewrite Hd. cbn. rewrite He. cbn.
  rewrite Hrow'. cbn.
  eexists. split; [reflexivity|]. split; [reflexivity|].
  unfold row_status. cbn. rewrite find_update_has_id by reflexivity.
  destruct (existsb_find_has_id _ _ Hrow') as [i ->]. reflexivity.
Qed.

(** X23.  The shop's 401 is answered with the token it refused.  The
    e-commerce connector's [refreshAccessToken] returns the stored token,
    so when a request is answered 401 the interceptor sends it again with
    every header but [Authorization] as it was (the shop reads the token
    from [X-Shopify-Access-Token]) and with [Authorization] set to that
    same stored token, and the refresh writes the row 'connected': a token
    the shop has revoked does not bring the integration to 'expired'. *)
Theorem shopify_retry_presents_the_same_token
    (fuel : nat) (c : Request) (w : World) (tok ea : string) (refused payload : Payload) :
  has_row w ->
  Integration.id (integration w) <> "temp" ->
  skipAuthRefresh c = false ->
  decrypt (Integration.accessToken (integration w)) = Ok tok ->
  encrypt tok = Ok ea ->
  api (length (sent w)) = Answer 401 refused ->
  api (S (length (sent w))) = Answer 200 payload ->
  exists w',
    ShopifyConnector.httpClient api encrypt decrypt (S (S fuel)) c w = Returned payload w'
    /\ sent w' = with_header "Authorization" ("Bearer " +:+ tok) c :: c :: sent w
    /\ (forall name, name <> "Authorization" ->
          header name (with_header "Authorization" ("Bearer " +:+ tok) c) = header name c)
    /\ row_status w' = Some "connected".
Proof.
  intros Hrow Htemp Hskip Hd He Ha1 Ha2.
  unfold ShopifyConnector.httpClient.
  cbn [httpClient_request]. unfold catch at 1, dispatch at 1. unfold bind at 1.
  unfold send at 1. rewrite Ha1.
  change ((200 <=? 401) && (401 <? 300)) with false. cbn [throw].
  unfold bind at 1. cbn [gets integration response_status]. rewrite Hskip.
  pose proof Htemp as Htemp'. apply String.eqb_neq in Htemp'. rewrite Htemp'.
  rewrite bool_decide_eq_true_2 by reflexivity. cbn [orb negb andb].
  fold (after_send c w).
  destruct (shopify_refresh_returns_the_stored_token
              (httpClient_request api encrypt (S fuel)
                 (ShopifyConnector.refreshAccessToken decrypt))
              (after_send c w) tok ea Hrow Hd He) as (w2 & Hw2 & Hsent & Hs).
  unfold bind at 1, attempt, catch at 1. rewrite (bind_Returned_l _ _ _ _ _ Hw2).
  cbn [ret]. cbn [httpClient_request]. unfold catch at 1, dispatch at 1. unfold bind at 1.
  unfold send at 1. rewrite Hsent. cbn [after_send sent length]. rewrite Ha2.
  change ((200 <=? 200) && (200 <? 300)) with true. cbn [ret].
  eexists. split; [reflexivity|]. cbn [sent]. split; [reflexivity|]. split.
  - intros name Hne. unfold header, with_header. cbn [headers].
    rewrite find_set_header_other by exact Hne. reflexivity.
  - exact Hs.
Qed.

End Shop.

Import ConnectorDemo.

(** X23 on the shop of the demonstration: refused once, then answered. *)
Lemma shopify_retry_witness :
  exists w',
    ShopifyConnector.httpClient (api_rejects_first 1) demo_encrypt demo_decrypt 2
      demo_request demo_world
    = Returned (Shop "Test Store" "test-store.myshopify.com") w'
    /\ header "X-Shopify-Access-Token" <$> sent w'
       = [Some "dec:enc:shpat"; Some "dec:enc:shpat"]
    /\ row_status w' = Some "connected".
Proof.
  destruct (shopify_retry_presents_the_same_token (api_rejects_first 1) demo_encrypt
              demo_decrypt 0 demo_request demo_world "dec:enc:shpat" "enc:dec:enc:shpat"
              Nothing (Shop "Test Store" "test-store.myshopify.com")
              eq_refl ltac:(discriminate) eq_refl eq_refl eq_refl eq_refl eq_refl)
    as (w' & E & Hsent & _ & Hs).
  exists w'. split; [exact E|]. split; [|exact Hs]. rewrite Hsent. reflexivity.
Defined.

End ShopifyRetrySpec.
